(** * A K&R-style storage allocator: malloc, free, realloc (malloc.c)

    The development embeds the allocator of [malloc.c] over a byte-addressed
    memory and proves properties of its free list.

    Target: LP64, little endian.  [sizeof(Header) = 16]; the union holds a
    pointer at offset 0 (8 bytes) and an [unsigned] at offset 8 (4 bytes);
    [unsigned] is 32 bits wide, [size_t] 64 bits wide.  Unsigned arithmetic
    is written with its reduction modulo [2^32] or [2^64]. *)

From Stdlib Require Import ZArith List Lia Bool Arith Permutation.
Import ListNotations.
Local Open Scope Z_scope.

(** ** Platform constants *)

Definition UINT_MOD : Z := 2 ^ 32.
Definition SIZE_MOD : Z := 2 ^ 64.
Definition sizeof_Header : Z := 16.
Definition NALLOC : Z := 1024.
Definition NULL : Z := 0.
(** [(void * ) -1], the failure value of [sbrk] and [mmap]. *)
Definition FAILED : Z := -1.

(** ** Byte memory *)

Module Mem.

Definition mem := Z -> Z.

Definition upd (m : mem) (a v : Z) : mem :=
  fun x => if x =? a then v else m x.

(** Little-endian load and store of an [n]-byte unsigned integer. *)
Fixpoint load (n : nat) (m : mem) (a : Z) : Z :=
  match n with
  | O => 0
  | S k => m a mod 256 + 256 * load k m (a + 1)
  end.

Fixpoint store (n : nat) (m : mem) (a v : Z) : mem :=
  match n with
  | O => m
  | S k => store k (upd m a (v mod 256)) (a + 1) (v / 256)
  end.

(** [memcpy(dst, src, n)] for regions that do not overlap. *)
Definition memcpy (m : mem) (dst src n : Z) : mem :=
  fun x => if (dst <=? x) && (x <? dst + n) then m (src + (x - dst)) else m x.

End Mem.

(** ** The block header

    [union header { struct { union header *ptr; unsigned size; } s; Align x; }] *)

Definition get_ptr (m : Mem.mem) (p : Z) : Z := Mem.load 8 m p.
Definition get_size (m : Mem.mem) (p : Z) : Z := Mem.load 4 m (p + 8).
Definition set_ptr (m : Mem.mem) (p v : Z) : Mem.mem := Mem.store 8 m p v.
Definition set_size (m : Mem.mem) (p v : Z) : Mem.mem := Mem.store 4 m (p + 8) v.

(** Pointer arithmetic on [Header *]: [p + k]. *)
Definition padd (p k : Z) : Z := p + sizeof_Header * k.

(** ** Build configuration

    [STRATEGY] and [MMAP] are preprocessor symbols fixed when the file is
    compiled; [base] is the address the linker gives the static sentinel
    [base]; [pagesize] is the value of [getpagesize()]. *)

Inductive strategy := STRATEGY_FIRST | STRATEGY_BEST.

Record config := mkConfig {
  STRATEGY : strategy;
  MMAP : bool;
  pagesize : Z;
  base : Z
}.

(** ** The raw memory source

    The operating system is outside the program.  It is modelled as a program
    break [brk] under a hard [ceiling]: [sbrk] moves the break, and [mmap]
    grants the address it is given as a hint as long as the range stays under
    the ceiling.

    This is an assumption on the system, not a fact of [malloc.c]: line 110
    passes the hint without [MAP_FIXED], so a kernel may map the range at
    another address, and it may refuse one request and grant a later one.
    What is proved of the [MMAP] build is proved for a system that honours
    the hint up to the ceiling; the properties that say where a block lies
    in memory are stated for the [sbrk] build. *)

Record os := mkOs { brk : Z; ceiling : Z }.

Definition sbrk (o : os) (incr : Z) : Z * os :=
  if brk o + incr <=? ceiling o
  then (brk o, mkOs (brk o + incr) (ceiling o))
  else (FAILED, o).

Definition mmap (o : os) (addr length : Z) : Z :=
  if (0 <? length) && (addr + length <=? ceiling o) then addr else FAILED.

(** ** Allocator state: memory, [freep], [__endHeap] and the system state *)

Record state := mkState {
  heap : Mem.mem;
  freep : Z;
  endHeap : Z;
  sys : os
}.

Definition with_heap (st : state) (m : Mem.mem) : state :=
  mkState m (freep st) (endHeap st) (sys st).
Definition with_freep (st : state) (p : Z) : state :=
  mkState (heap st) p (endHeap st) (sys st).
Definition with_endHeap (st : state) (e : Z) : state :=
  mkState (heap st) (freep st) e (sys st).
Definition with_sys (st : state) (o : os) : state :=
  mkState (heap st) (freep st) (endHeap st) o.

(** ** free (malloc.c, lines 49-74)

    Loops carry fuel; [None] means the fuel ran out. *)

(** The [for] loop of lines 56-58: the block [p] it stops at. *)
Fixpoint free_scan (fuel : nat) (m : Mem.mem) (bp p : Z) : option Z :=
  match fuel with
  | O => None
  | S k =>
    if (bp >? p) && (bp <? get_ptr m p) then Some p
    else if (p >=? get_ptr m p) && ((bp >? p) || (bp <? get_ptr m p)) then Some p
    else free_scan k m bp (get_ptr m p)
  end.

(** Lines 60-65: join to the upper neighbour. *)
Definition join_upper_nbr (m : Mem.mem) (bp p : Z) : Mem.mem :=
  if padd bp (get_size m bp) =? get_ptr m p then
    let m := set_size m bp ((get_size m bp + get_size m (get_ptr m p)) mod UINT_MOD) in
    set_ptr m bp (get_ptr m (get_ptr m p))
  else set_ptr m bp (get_ptr m p).

(** Lines 67-71: join to the lower neighbour. *)
Definition join_lower_nbr (m : Mem.mem) (bp p : Z) : Mem.mem :=
  if padd p (get_size m p) =? bp then
    let m := set_size m p ((get_size m p + get_size m bp) mod UINT_MOD) in
    set_ptr m p (get_ptr m bp)
  else set_ptr m p bp.

Definition free_link (m : Mem.mem) (bp p : Z) : Mem.mem :=
  join_lower_nbr (join_upper_nbr m bp p) bp p.

Definition free (fuel : nat) (st : state) (ap : Z) : option state :=
  if ap =? NULL then Some st
  else
    let bp := padd ap (-1) in
    match free_scan fuel (heap st) bp (freep st) with
    | None => None
    | Some p => Some (with_freep (with_heap st (free_link (heap st) bp p)) p)
    end.

(** ** morecore (lines 95-126) *)

Definition morecore (cfg : config) (fuel : nat) (st : state) (nu : Z)
  : option (Z * state) :=
  let st :=
    if MMAP cfg then
      if endHeap st =? 0 then with_endHeap st (fst (sbrk (sys st) 0)) else st
    else st in
  let nu := if nu <? NALLOC then NALLOC else nu in
  let '(cp, nu, st) :=
    if MMAP cfg then
      let noPages :=
        ((((nu * sizeof_Header) mod SIZE_MOD - 1) mod SIZE_MOD) / pagesize cfg + 1)
          mod UINT_MOD in
      let len := (noPages * pagesize cfg) mod UINT_MOD in
      let cp := mmap (sys st) (endHeap st) len in
      (cp, len / sizeof_Header, with_endHeap st (endHeap st + len))
    else
      let '(cp, o) := sbrk (sys st) ((nu * sizeof_Header) mod SIZE_MOD) in
      (cp, nu, with_sys st o) in
  if cp =? FAILED then Some (NULL, st)
  else
    let up := cp in
    let st := with_heap st (set_size (heap st) up nu) in
    match free fuel st (padd up 1) with
    | None => None
    | Some st => Some (freep st, st)
    end.

(** ** malloc (lines 143-211) *)

(** Line 152. *)
Definition nunits_of (nbytes : Z) : Z :=
  (((nbytes + sizeof_Header - 1) mod SIZE_MOD) / sizeof_Header + 1) mod UINT_MOD.

(** Lines 154-157: the empty list is set up on the first call. *)
Definition malloc_init (cfg : config) (st : state) : state :=
  if freep st =? NULL then
    let st := with_freep (with_heap st (set_ptr (heap st) (base cfg) (base cfg))) (base cfg) in
    with_heap st (set_size (heap st) (base cfg) 0)
  else st.

(** Lines 165-167 and 204-206: [p->s.size -= nunits; p += p->s.size;
    p->s.size = nunits]; the memory and the new [p]. *)
Definition carve_tail (m : Mem.mem) (p nunits : Z) : Mem.mem * Z :=
  let m := set_size m p ((get_size m p - nunits) mod UINT_MOD) in
  let p := padd p (get_size m p) in
  (set_size m p nunits, p).

Fixpoint malloc_first_loop (cfg : config) (fuel : nat) (st : state)
    (nunits prevp p : Z) : option (Z * state) :=
  match fuel with
  | O => None
  | S k =>
    let m := heap st in
    if get_size m p >=? nunits then
      if get_size m p =? nunits then
        Some (padd p 1, with_freep (with_heap st (set_ptr m prevp (get_ptr m p))) prevp)
      else
        let '(m, p) := carve_tail m p nunits in
        Some (padd p 1, with_freep (with_heap st m) prevp)
    else if p =? freep st then
      match morecore cfg k st nunits with
      | None => None
      | Some (p, st) =>
        if p =? NULL then Some (NULL, st)
        else malloc_first_loop cfg k st nunits p (get_ptr (heap st) p)
      end
    else malloc_first_loop cfg k st nunits p (get_ptr m p)
  end.

Fixpoint malloc_best_loop (cfg : config) (fuel : nat) (st : state)
    (nunits prevp p p_best prevp_best : Z) : option (Z * state) :=
  match fuel with
  | O => None
  | S k =>
    let m := heap st in
    if get_size m p =? nunits then
      Some (padd p 1, with_freep (with_heap st (set_ptr m prevp (get_ptr m p))) prevp)
    else
      let '(p_best, prevp_best) :=
        if ((p_best =? NULL) || (get_size m p <? get_size m p_best))
           && (get_size m p >? nunits)
        then (p, prevp) else (p_best, prevp_best) in
      if p =? freep st then
        if negb (p_best =? NULL) then
          let '(m, q) := carve_tail m p_best nunits in
          Some (padd q 1, with_freep (with_heap st m) prevp_best)
        else
          match morecore cfg k st nunits with
          | None => None
          | Some (p, st) =>
            if p =? NULL then Some (NULL, st)
            else malloc_best_loop cfg k st nunits p (get_ptr (heap st) p)
                   p_best prevp_best
          end
      else malloc_best_loop cfg k st nunits p (get_ptr m p) p_best prevp_best
  end.

Definition malloc (cfg : config) (fuel : nat) (st : state) (nbytes : Z)
  : option (Z * state) :=
  if nbytes =? 0 then Some (NULL, st)
  else
    let nunits := nunits_of nbytes in
    let prevp := if freep st =? NULL then base cfg else freep st in
    let st := malloc_init cfg st in
    match STRATEGY cfg with
    | STRATEGY_FIRST =>
      malloc_first_loop cfg fuel st nunits prevp (get_ptr (heap st) prevp)
    | STRATEGY_BEST =>
      malloc_best_loop cfg fuel st nunits prevp (get_ptr (heap st) prevp) NULL NULL
    end.

(** ** realloc (lines 219-243) *)

Definition realloc (cfg : config) (fuel : nat) (st : state) (ptr size : Z)
  : option (Z * state) :=
  if ptr =? NULL then malloc cfg fuel st size
  else if size =? 0 then
    match free fuel st ptr with
    | None => None
    | Some st => Some (NULL, st)
    end
  else
    match malloc cfg fuel st size with
    | None => None
    | Some (new_ptr, st) =>
      if new_ptr =? NULL then Some (NULL, st)
      else
        let ptr_h := padd ptr (-1) in
        let ptr_size :=
          (sizeof_Header * ((get_size (heap st) ptr_h - 1) mod UINT_MOD)) mod SIZE_MOD in
        let min_size := if size <? ptr_size then size else ptr_size in
        let st := with_heap st (Mem.memcpy (heap st) new_ptr ptr min_size) in
        match free fuel st ptr with
        | None => None
        | Some st => Some (new_ptr, st)
        end
    end.

(** ** The free list as a list of blocks

    A block is its address and its size in units.  The ring of [malloc.c] is
    described by the address-ordered list of its blocks, the sentinel [base]
    first; allocated blocks are kept in a second list. *)

Abbreviation blk := (Z * Z)%type.

(** End of the memory a block occupies: at least its header. *)
Definition fend (b : blk) : Z :=
  Z.max (fst b + sizeof_Header) (padd (fst b) (snd b)).

(** Lowest address of a following free block: past the header and strictly
    past the end of the block, so that the two are not contiguous. *)
Definition gap_after (b : blk) : Z :=
  Z.max (fst b + sizeof_Header) (padd (fst b) (snd b) + 1).

Fixpoint blocks_in (lo hi : Z) (l : list blk) : Prop :=
  match l with
  | [] => True
  | b :: l' =>
    lo <= fst b /\ 0 <= snd b /\ fend b <= hi /\ blocks_in (gap_after b) hi l'
  end.

Definition hd_addr (l : list blk) (d : Z) : Z :=
  match l with
  | [] => d
  | b :: _ => fst b
  end.

(** The headers of [l] in memory: each block records its size and points to
    the next block of [l], the last one to [close]. *)
Fixpoint chain (m : Mem.mem) (l : list blk) (close : Z) : Prop :=
  match l with
  | [] => True
  | b :: l' =>
    get_ptr m (fst b) = hd_addr l' close /\ get_size m (fst b) = snd b
    /\ chain m l' close
  end.

Definition disjoint (x y : blk) : Prop := fend x <= fst y \/ fend y <= fst x.

Fixpoint pairwise_disjoint (l : list blk) : Prop :=
  match l with
  | [] => True
  | x :: l' => Forall (disjoint x) l' /\ pairwise_disjoint l'
  end.

(** The bytes handed to the callers, past the headers of the blocks of [A],
    are the same in [m'] as in [m]. *)
Definition payload_same (A : list blk) (m m' : Mem.mem) : Prop :=
  forall x y, In x A ->
    fst x + sizeof_Header <= y < padd (fst x) (snd x) -> m' y = m y.

(** Where the next range handed out by the system starts. *)
Definition heap_top (cfg : config) (st : state) : Z :=
  if MMAP cfg then
    if endHeap st =? 0 then brk (sys st) else endHeap st
  else brk (sys st).

Definition heap_hi (cfg : config) (st : state) : Z :=
  Z.min (heap_top cfg st) (ceiling (sys st)).

(** Assumptions on the environment: the sentinel lies below the heap, which
    spans less than [2^32] units, and a page is at most [2^30] bytes. *)
Record env_ok (cfg : config) (st : state) : Prop := mkEnvOk {
  env_base : 0 < base cfg;
  env_brk : base cfg + sizeof_Header <= brk (sys st) <= ceiling (sys st);
  env_ceiling : ceiling (sys st) < base cfg + 2 ^ 36 /\ ceiling (sys st) < 2 ^ 64;
  env_page : MMAP cfg = true -> 0 < pagesize cfg <= 2 ^ 30;
  env_endHeap : MMAP cfg = true -> endHeap st = 0 \/ brk (sys st) <= endHeap st
}.

Definition alloc_ok (cfg : config) (st : state) (x : blk) : Prop :=
  base cfg + sizeof_Header <= fst x /\ 1 <= snd x /\ fend x <= heap_hi cfg st
  /\ get_size (heap st) (fst x) = snd x.

(** The allocator invariant: [R] lists the free blocks other than the
    sentinel in address order, [A] the blocks handed out. *)
Record Inv (cfg : config) (st : state) (R A : list blk) : Prop := mkInv {
  inv_env : env_ok cfg st;
  inv_free : blocks_in (base cfg) (heap_hi cfg st) ((base cfg, 0) :: R);
  inv_chain : chain (heap st) ((base cfg, 0) :: R) (base cfg);
  inv_cursor : In (freep st) (map fst ((base cfg, 0) :: R));
  inv_alloc : Forall (alloc_ok cfg st) A;
  inv_alloc_free : Forall (fun x => Forall (disjoint x) R) A;
  inv_alloc_alloc : pairwise_disjoint A
}.

(** The state before the first call of [malloc]. *)
Definition Fresh (cfg : config) (st : state) : Prop :=
  env_ok cfg st /\ freep st = NULL.

(** Unit counts [morecore] can serve without overflow of [unsigned]. *)
Definition grow_ok (cfg : config) (nu : Z) : Prop :=
  0 <= nu < UINT_MOD
  /\ (MMAP cfg = true ->
      sizeof_Header * Z.max nu NALLOC + pagesize cfg <= 2 ^ 32).

(** Requests whose unit and page counts stay within [unsigned]. *)
Definition max_request (cfg : config) : Z :=
  if MMAP cfg then 2 ^ 31 else sizeof_Header * (UINT_MOD - 2).

Definition request_ok (cfg : config) (n : Z) : Prop := 0 < n <= max_request cfg.

(** Requests whose counts do not overflow: the unit count of line 152 fits
    [unsigned], and so does what [morecore] computes for it. *)
Definition counts_ok (cfg : config) (n : Z) : Prop :=
  0 < n <= sizeof_Header * (UINT_MOD - 2) /\ grow_ok cfg (nunits_of n).

(** *** Insertion with coalescing, on the list *)

Definition fl_join_upper (b : blk) (l : list blk) : list blk :=
  match l with
  | q :: l' =>
    if padd (fst b) (snd b) =? fst q then (fst b, snd b + snd q) :: l' else b :: l
  | [] => [b]
  end.

Definition fl_join_lower (p : blk) (l : list blk) : list blk :=
  match l with
  | b :: l' =>
    if padd (fst p) (snd p) =? fst b then (fst p, snd p + snd b) :: l' else p :: l
  | [] => [p]
  end.

(** [fl_insert b l]: [b] goes after the last block of [l] that lies below
    it.  The head of [l] is assumed to lie below [b]. *)
Fixpoint fl_insert (b : blk) (l : list blk) : list blk :=
  match l with
  | [] => [b]
  | p :: l' =>
    if hd_addr l' (fst b + 1) <? fst b then p :: fl_insert b l'
    else fl_join_lower p (fl_join_upper b l')
  end.

(** The block of [l] after which [b] goes. *)
Fixpoint fl_pred (b : blk) (l : list blk) (d : Z) : Z :=
  match l with
  | [] => d
  | p :: l' =>
    if hd_addr l' (fst b + 1) <? fst b then fl_pred b l' d else fst p
  end.

(** [walk m p n]: the [n] blocks met from [p] by following [s.ptr]. *)
Fixpoint walk (m : Mem.mem) (p : Z) (n : nat) : list Z :=
  match n with
  | O => []
  | S k => p :: walk m (get_ptr m p) k
  end.

(** The bound that the blocks after [l] must respect. *)
Definition bound_after (lo : Z) (l : list blk) : Z :=
  fold_left (fun _ b => gap_after b) l lo.

(** *** One revolution of the ring

    [revolution fuel m f p]: the blocks met from [p] up to and including the
    cursor [f]. *)
Fixpoint revolution (fuel : nat) (m : Mem.mem) (f p : Z) : option (list Z) :=
  match fuel with
  | O => None
  | S k =>
    if p =? f then Some [p]
    else option_map (cons p) (revolution k m f (get_ptr m p))
  end.

(** First fit: the first block of [W] that is big enough, with the block
    met just before it. *)
Fixpoint first_fit (m : Mem.mem) (nunits prevp : Z) (W : list Z)
  : option (Z * Z) :=
  match W with
  | [] => None
  | p :: W' =>
    if get_size m p >=? nunits then Some (prevp, p)
    else first_fit m nunits p W'
  end.

(** The first block of [W] of exactly [nunits] units. *)
Fixpoint exact_fit (m : Mem.mem) (nunits prevp : Z) (W : list Z)
  : option (Z * Z) :=
  match W with
  | [] => None
  | p :: W' =>
    if get_size m p =? nunits then Some (prevp, p)
    else exact_fit m nunits p W'
  end.

(** Best fit: the smallest block of [W] strictly bigger than [nunits], the
    first one met among equals. *)
Fixpoint best_fit (m : Mem.mem) (nunits prevp : Z) (W : list Z)
    (best : option (Z * Z)) : option (Z * Z) :=
  match W with
  | [] => best
  | p :: W' =>
    let better :=
      match best with
      | None => true
      | Some (_, b) => get_size m p <? get_size m b
      end in
    best_fit m nunits p W'
      (if better && (get_size m p >? nunits) then Some (prevp, p) else best)
  end.

(** The free list without the block at [q]. *)
Fixpoint fl_remove (q : Z) (l : list blk) : list blk :=
  match l with
  | [] => []
  | b :: l' => if fst b =? q then l' else b :: fl_remove q l'
  end.

(** The free list with the block at [q] shortened by [n] units. *)
Fixpoint fl_shrink (q n : Z) (l : list blk) : list blk :=
  match l with
  | [] => []
  | b :: l' =>
    if fst b =? q then (fst b, snd b - n) :: l' else b :: fl_shrink q n l'
  end.

(** Lines 162-171: the block [p] met after [prevp] is handed out, whole or
    by its tail end. *)
Definition take_block (st : state) (nunits prevp p : Z) : Z * state :=
  let m := heap st in
  if get_size m p =? nunits then
    (padd p 1, with_freep (with_heap st (set_ptr m prevp (get_ptr m p))) prevp)
  else
    let '(m, q) := carve_tail m p nunits in
    (padd q 1, with_freep (with_heap st m) prevp).

(** Lines 204-208: the tail end of [p_best] is handed out. *)
Definition take_tail (st : state) (nunits prevp_best p_best : Z) : Z * state :=
  let '(m, q) := carve_tail (heap st) p_best nunits in
  (padd q 1, with_freep (with_heap st m) prevp_best).

(** The block handed out by [take_block] and the free list it leaves. *)
Definition take_addr (m : Mem.mem) (nunits q : Z) : Z :=
  if get_size m q =? nunits then q else padd q (get_size m q - nunits).

Definition take_list (m : Mem.mem) (nunits q : Z) (R : list blk) : list blk :=
  if get_size m q =? nunits then fl_remove q R else fl_shrink q nunits R.

(** Two memories hold the same header at [x]. *)
Definition hdr_same (m1 m2 : Mem.mem) (x : Z) : Prop :=
  get_ptr m1 x = get_ptr m2 x /\ get_size m1 x = get_size m2 x.

(** [p_best] and [prevp_best] as the loop holds them. *)
Definition best_ptr (best : option (Z * Z)) : Z :=
  match best with
  | None => NULL
  | Some (_, b) => b
  end.

Definition best_prev (best : option (Z * Z)) : Z :=
  match best with
  | None => NULL
  | Some (pv, _) => pv
  end.

(** The best candidate so far is strictly bigger than the request. *)
Definition best_ok (m : Mem.mem) (nunits : Z) (best : option (Z * Z)) : Prop :=
  match best with
  | Some (_, b) => nunits < get_size m b
  | None => True
  end.

(** What [malloc] leaves behind, whichever strategy serves the request. *)
Definition malloc_post (cfg : config) (st : state) (R A : list blk)
    (nunits r : Z) (st' : state) : Prop :=
  (r = NULL /\ heap st' = heap st /\ freep st' = freep st /\ Inv cfg st' R A)
  \/ (r <> NULL /\ exists R',
        Inv cfg st' R' ((padd r (-1), nunits) :: A)
        /\ payload_same A (heap st) (heap st')
        /\ (length R' <= length R + 1)%nat).

(** No free block starts where the previous one ends. *)
Definition no_contiguous (l : list blk) : Prop :=
  forall l1 x y l2, l = l1 ++ x :: y :: l2 -> padd (fst x) (snd x) < fst y.

(** The cursor as C2 words it: [freep] is the block before the free block
    that holds the released block [bp], that is, the link of [freep] leads
    to the block in which [bp] now lies. *)
Definition cursor_before_region (st : state) (bp : Z) : Prop :=
  let q := get_ptr (heap st) (freep st) in
  q <= bp < padd q (get_size (heap st) q).

(** ** Clients

    A client holds the pointers it was given, newest first, and names the
    one to release or resize by its position in that list; a position past
    the end stands for the [NULL] pointer. *)

Inductive op :=
| OpMalloc (n : Z)
| OpFree (i : nat)
| OpRealloc (i : nat) (n : Z).

Definition remove_nth {X : Type} (i : nat) (l : list X) : list X :=
  firstn i l ++ skipn (S i) l.

Definition step (cfg : config) (fuel : nat) (o : op) (c : state * list Z)
  : option (state * list Z) :=
  let '(st, live) := c in
  match o with
  | OpMalloc n =>
    match malloc cfg fuel st n with
    | None => None
    | Some (r, st') => Some (st', if r =? NULL then live else r :: live)
    end
  | OpFree i =>
    match free fuel st (nth i live NULL) with
    | None => None
    | Some st' => Some (st', remove_nth i live)
    end
  | OpRealloc i n =>
    match realloc cfg fuel st (nth i live NULL) n with
    | None => None
    | Some (r, st') =>
      Some (st',
            if r =? NULL then (if n =? 0 then remove_nth i live else live)
            else r :: remove_nth i live)
    end
  end.

Fixpoint run (cfg : config) (fuel : nat) (ops : list op) (c : state * list Z)
  : option (state * list Z) :=
  match ops with
  | [] => Some c
  | o :: ops' =>
    match step cfg fuel o c with
    | None => None
    | Some c' => run cfg fuel ops' c'
    end
  end.

Definition op_ok (cfg : config) (o : op) : Prop :=
  match o with
  | OpMalloc n => n = 0 \/ request_ok cfg n
  | OpFree _ => True
  | OpRealloc _ n => n = 0 \/ request_ok cfg n
  end.

(** The pointers of the blocks handed out. *)
Definition pointers (A : list blk) : list Z := map (fun x => padd (fst x) 1) A.

(** What holds between the calls of a client. *)
Definition client_inv (cfg : config) (c : state * list Z) : Prop :=
  (Fresh cfg (fst c) /\ snd c = [])
  \/ (exists R A, Inv cfg (fst c) R A /\ snd c = pointers A).

(** *** The shape of the ring *)

(** Steps of a cyclic walk that do not go up, the last block being followed
    by [first]. *)
Fixpoint descents (first : Z) (w : list Z) : nat :=
  match w with
  | [] => O
  | x :: w' => Nat.add (if hd first w' <=? x then 1%nat else 0%nat) (descents first w')
  end.

Definition wraps (w : list Z) : nat := descents (hd 0 w) w.

Fixpoint increasing (lo : Z) (l : list Z) : Prop :=
  match l with
  | [] => True
  | x :: l' => lo < x /\ increasing x l'
  end.

(** One revolution from the cursor: [n] blocks, all different, the last one
    pointing back to the cursor, with one step only that does not go up. *)
Definition ring_ok (st : state) (n : nat) : Prop :=
  let w := walk (heap st) (freep st) n in
  (0 < n)%nat /\ NoDup w
  /\ get_ptr (heap st) (last w NULL) = freep st
  /\ wraps w = 1%nat.

(** ** A concrete run, used to instantiate the theorems

    First-fit build on [sbrk]; the sentinel at 4096, the break at 8192 with
    64 KiB to grow into.  [st_ex1] is the state after [malloc(10)]. *)
Definition cfg_ex : config := mkConfig STRATEGY_FIRST false 4096 4096.

Definition st_ex0 : state :=
  mkState (fun _ => 0) NULL 0 (mkOs 8192 (8192 + 65536)).

Definition st_ex1 : state :=
  match malloc cfg_ex 10 st_ex0 10 with
  | Some (_, st) => st
  | None => st_ex0
  end.


(** The best-fit build of the same program. *)
Definition cfg_ex_best : config := mkConfig STRATEGY_BEST false 4096 4096.


(** A client of the concrete run. *)
Definition ops_ex : list op :=
  [OpMalloc 10; OpMalloc 100; OpFree 1; OpRealloc 0 50; OpFree 0].

(** The first-fit build on [mmap], with two pages to grow into. *)
Definition cfg_mm : config := mkConfig STRATEGY_FIRST true 4096 4096.

Definition st_mm : state :=
  mkState (fun _ => 0) NULL 0 (mkOs 8192 (8192 + 8192)).

(** A heap of more than [2^32] units: the free block at 8192 holds
    [2^32 - 1] units and the block of 2 units right above it is handed
    out. *)
Definition st_wrap : state :=
  let bp := padd 8192 (UINT_MOD - 1) in
  let m := set_size (set_ptr (fun _ => 0) 4096 8192) 4096 0 in
  let m := set_size (set_ptr m 8192 4096) 8192 (UINT_MOD - 1) in
  let m := set_size m bp 2 in
  mkState m 4096 0 (mkOs (padd bp 2) (padd bp 2)).


(** ** Definitions for the further properties *)

(** ** endHeap (lines 83-87, [MMAP] build)

    [void * endHeap(void)]; the field [endHeap] of the state is the variable
    [__endHeap]. *)
Definition endHeap_fn (st : state) : Z * state :=
  let st :=
    if endHeap st =? 0 then
      let '(e, o) := sbrk (sys st) 0 in with_endHeap (with_sys st o) e
    else st in
  (endHeap st, st).

(** Two states that differ at most in whether [__endHeap] has been set from
    the break yet: memory, cursor and system are the same, and [endHeap()]
    answers the same in both. *)
Definition same_heap (st s : state) : Prop :=
  heap s = heap st /\ freep s = freep st /\ sys s = sys st
  /\ fst (endHeap_fn s) = fst (endHeap_fn st).

(** Two calls that return together, with the same result. *)
Definition same_result (a b : option (Z * state)) : Prop :=
  match a, b with
  | Some (r, st'), Some (r', s') => r' = r /\ same_heap st' s'
  | None, None => True
  | _, _ => False
  end.

Definition same_freed (a b : option state) : Prop :=
  match a, b with
  | Some st', Some s' => same_heap st' s'
  | None, None => True
  | _, _ => False
  end.

Definition st_ex2 : state :=
  match free 10 st_ex1 (padd 24544 1) with
  | Some st => st
  | None => st_ex1
  end.

Definition r_ex3 : Z :=
  match malloc cfg_ex 10 st_ex1 100 with
  | Some (r, _) => r
  | None => NULL
  end.

Definition st_ex3 : state :=
  match malloc cfg_ex 10 st_ex1 100 with
  | Some (_, st) => st
  | None => st_ex1
  end.

Definition r_ex4 : Z :=
  match realloc cfg_ex 10 st_ex1 (padd 24544 1) 8 with
  | Some (r, _) => r
  | None => NULL
  end.

Definition st_ex4 : state :=
  match realloc cfg_ex 10 st_ex1 (padd 24544 1) 8 with
  | Some (_, st) => st
  | None => st_ex1
  end.

(** A byte that lies in no block of the ring, the sentinel included. *)
Definition off_ring (cfg : config) (R : list blk) (y : Z) : Prop :=
  forall b, In b ((base cfg, 0) :: R) -> y < fst b \/ fend b <= y.

(** The number of bytes [morecore(nu)] asks the system for: [nu], at least
    [NALLOC], in units of [sizeof(Header)]; rounded up to whole pages in the
    [MMAP] build. *)
Definition grow_len (cfg : config) (nu : Z) : Z :=
  let nu := Z.max nu NALLOC in
  if MMAP cfg then ((nu * sizeof_Header - 1) / pagesize cfg + 1) * pagesize cfg
  else nu * sizeof_Header.

(** [malloc] serves a request of [nunits] units from the ring of [st1],
    whose free list is [R1]: some block [q] of the list is big enough and is
    handed out whole or by its tail end, the system is not called, and
    nothing is written outside the blocks of the ring. *)
Definition served (cfg : config) (st1 : state) (R1 A : list blk)
    (nunits r : Z) (st' : state) : Prop :=
  exists q,
    In q (map fst R1) /\ nunits <= get_size (heap st1) q
    /\ r = padd (take_addr (heap st1) nunits q) 1
    /\ Inv cfg st' (take_list (heap st1) nunits q R1)
         ((take_addr (heap st1) nunits q, nunits) :: A)
    /\ sys st' = sys st1 /\ endHeap st' = endHeap st1
    /\ payload_same A (heap st1) (heap st')
    /\ (forall y, off_ring cfg R1 y -> heap st' y = heap st1 y).

(** What a call [malloc(n)] that needs [nunits] units does on a ring whose
    free list is [R]: it serves the request from the ring when a block of
    [R] is big enough.  Otherwise it asks the system for [grow_len] bytes at
    the top of the heap: when they are refused it returns [NULL] and leaves
    heap and cursor as they are, when they are granted they are released
    into the ring as one block and the request is served from the ring so
    grown. *)
Definition malloc_does (cfg : config) (st : state) (R A : list blk)
    (nunits r : Z) (st' : state) : Prop :=
  let up := heap_top cfg st in
  let len := grow_len cfg nunits in
  ((exists y, In y R /\ nunits <= snd y) /\ served cfg st R A nunits r st')
  \/ ((forall y, In y R -> snd y < nunits)
      /\ ((ceiling (sys st) < up + len /\ r = NULL
           /\ heap st' = heap st /\ freep st' = freep st /\ sys st' = sys st
           /\ heap_top cfg st' = (if MMAP cfg then up + len else up)
           /\ Inv cfg st' R A)
          \/ (up + len <= ceiling (sys st)
              /\ exists st1,
                   let R1 := tl (fl_insert (up, len / sizeof_Header)
                                   ((base cfg, 0) :: R)) in
                   heap_top cfg st1 = up + len
                   /\ ceiling (sys st1) = ceiling (sys st)
                   /\ Inv cfg st1 R1 A
                   /\ payload_same A (heap st) (heap st1)
                   /\ (forall y, off_ring cfg R y ->
                         y < up \/ up + 12 <= y -> heap st1 y = heap st y)
                   /\ served cfg st1 R1 A nunits r st'))).

(** Units held by a list of blocks. *)
Fixpoint units (l : list blk) : Z :=
  match l with
  | [] => 0
  | b :: l' => snd b + units l'
  end.

(** The allocator seen from outside: the top of the heap, the free list and
    the blocks handed out. *)
Abbreviation view := (Z * list blk * list blk)%type.

Definition view_of (cfg : config) (st : state) (R A : list blk) : view :=
  (heap_top cfg st, R, A).

(** The moves the calls make on a view.  A free block of exactly [n] units
    is unlinked and handed out; the tail end of a bigger one is handed out;
    a range obtained from the system at the top of the heap is released into
    the free list; in the [MMAP] build a range that the system refuses is
    skipped all the same; a block handed out is released. *)
Inductive move (cfg : config) : view -> view -> Prop :=
| move_unlink top P q n S A :
    1 <= n ->
    move cfg (top, P ++ (q, n) :: S, A) (top, P ++ S, (q, n) :: A)
| move_carve top P q s S A n :
    1 <= n < s ->
    move cfg (top, P ++ (q, s) :: S, A)
      (top, P ++ (q, s - n) :: S, (padd q (s - n), n) :: A)
| move_grow top R A nu :
    grow_ok cfg nu -> base cfg < top ->
    move cfg (top, R, A)
      (top + grow_len cfg nu,
       tl (fl_insert (top, grow_len cfg nu / sizeof_Header) ((base cfg, 0) :: R)),
       A)
| move_refused top R A nu :
    MMAP cfg = true -> grow_ok cfg nu ->
    move cfg (top, R, A) (top + grow_len cfg nu, R, A)
| move_release top R A1 b A2 :
    base cfg < fst b -> 1 <= snd b ->
    move cfg (top, R, A1 ++ b :: A2)
      (top, tl (fl_insert b ((base cfg, 0) :: R)), A1 ++ A2).

Inductive moves (cfg : config) : view -> view -> Prop :=
| moves_refl x : moves cfg x x
| moves_step x y z : move cfg x y -> moves cfg y z -> moves cfg x z.

(** What a client has between two calls, with the view of it: nothing yet,
    or lists that satisfy the invariant. *)
Definition client_view (cfg : config) (c : state * list Z) (v : view) : Prop :=
  (Fresh cfg (fst c) /\ snd c = [] /\ v = view_of cfg (fst c) [] [])
  \/ (exists R A, Inv cfg (fst c) R A /\ snd c = pointers A
        /\ v = view_of cfg (fst c) R A).

(** A view whose blocks all lie at or above [lo], the free ones holding at
    least one unit each. *)
Definition view_above (lo : Z) (v : view) : Prop :=
  let '(top, R, A) := v in
  lo <= top /\ Forall (fun x => lo <= fst x /\ 1 <= snd x) R
  /\ Forall (fun x => lo <= fst x) A.

(** A byte outside the sentinel and outside the range from [lo] to [hi]. *)
Definition outside (cfg : config) (lo hi y : Z) : Prop :=
  (y < base cfg \/ base cfg + sizeof_Header <= y) /\ (y < lo \/ hi <= y).

(** Bytes held in blocks, free or handed out, less the top of the heap. *)
Definition balance (v : view) : Z :=
  let '(top, R, A) := v in sizeof_Header * (units R + units A) - top.

(** An address that is a whole number of units. *)
Definition aligned (p : Z) : Prop := p mod sizeof_Header = 0.

Definition view_aligned (v : view) : Prop :=
  let '(top, R, A) := v in
  aligned top /\ Forall (fun x => aligned (fst x)) R
  /\ Forall (fun x => aligned (fst x)) A.

(** The [MMAP] build with 64 KiB to grow into; [st_mm1] is the state after
    [malloc(10)]. *)
Definition st_mm0 : state :=
  mkState (fun _ => 0) NULL 0 (mkOs 8192 (8192 + 65536)).

Definition st_mm1 : state :=
  match malloc cfg_mm 10 st_mm0 10 with
  | Some (_, st) => st
  | None => st_mm0
  end.

(** A client of the concrete run that releases what it was given. *)
Definition ops_back : list op := [OpMalloc 10; OpFree 0].

(** The concrete run continued: [st_ex5] is the state after a second
    [malloc(10)], [st_ex6] the state after the first block has been
    released again. *)
Definition st_ex5 : state :=
  match malloc cfg_ex 10 st_ex1 10 with
  | Some (_, st) => st
  | None => st_ex1
  end.

Definition st_ex6 : state :=
  match free 10 st_ex5 (padd 24544 1) with
  | Some st => st
  | None => st_ex5
  end.

(** The bytes of the blocks of a list. *)
Definition covers (l : list blk) (x : Z) : Prop :=
  exists b, In b l /\ fst b <= x < padd (fst b) (snd b).

(** * Proofs *)

Module MemFacts.
Import Mem.

Lemma upd_same m a v : upd m a v a = v.
Proof. unfold upd. now rewrite Z.eqb_refl. Qed.

Lemma upd_other m a v x : x <> a -> upd m a v x = m x.
Proof. unfold upd. intros H. apply Z.eqb_neq in H. now rewrite H. Qed.

Lemma store_outside n : forall m a v x,
  x < a \/ a + Z.of_nat n <= x -> store n m a v x = m x.
Proof.
  induction n as [|n IH]; intros m a v x H; cbn [store]; [reflexivity|].
  rewrite IH by lia. apply upd_other. lia.
Qed.

Lemma load_ext n : forall m m' a,
  (forall x, a <= x < a + Z.of_nat n -> m x = m' x) ->
  load n m a = load n m' a.
Proof.
  induction n as [|n IH]; intros m m' a H; cbn [load]; [reflexivity|].
  rewrite (H a) by lia. rewrite (IH m m' (a + 1)); [reflexivity|].
  intros x Hx. apply H. lia.
Qed.

Lemma load_store_other n k m a b v :
  b + Z.of_nat k <= a \/ a + Z.of_nat n <= b ->
  load n (store k m b v) a = load n m a.
Proof.
  intros H. apply load_ext. intros x Hx. apply store_outside. lia.
Qed.

Lemma load_store_same n : forall m a v,
  load n (store n m a v) a = v mod 256 ^ Z.of_nat n.
Proof.
  induction n as [|n IH]; intros m a v.
  - simpl. now rewrite Z.mod_1_r.
  - cbn [load store]. rewrite IH.
    rewrite store_outside by lia. rewrite upd_same.
    rewrite Z.mod_mod by lia.
    replace (Z.of_nat (S n)) with (Z.of_nat n + 1) by lia.
    rewrite Z.pow_add_r by lia. rewrite Z.pow_1_r.
    rewrite (Z.mul_comm (256 ^ Z.of_nat n) 256).
    rewrite Z.rem_mul_r by lia. reflexivity.
Qed.

Lemma load_range n : forall m a, 0 <= load n m a < 256 ^ Z.of_nat n.
Proof.
  induction n as [|n IH]; intros m a.
  - simpl. lia.
  - cbn [load]. specialize (IH m (a + 1)).
    replace (Z.of_nat (S n)) with (Z.of_nat n + 1) by lia.
    rewrite Z.pow_add_r by lia. rewrite Z.pow_1_r.
    pose proof (Z.mod_pos_bound (m a) 256 ltac:(lia)). nia.
Qed.

Lemma load_memcpy_outside n m dst src len a :
  a + Z.of_nat n <= dst \/ dst + len <= a ->
  load n (memcpy m dst src len) a = load n m a.
Proof.
  intros H. apply load_ext. intros x Hx. unfold memcpy.
  destruct (dst <=? x) eqn:E1; destruct (x <? dst + len) eqn:E2; simpl; try reflexivity.
  apply Z.leb_le in E1. apply Z.ltb_lt in E2. lia.
Qed.

End MemFacts.

(** ** Header fields: reads after writes *)

Ltac unfold_consts :=
  unfold fend, gap_after, padd, sizeof_Header, NALLOC, NULL, FAILED,
    UINT_MOD, SIZE_MOD in *;
  cbn [fst snd] in *;
  change (2 ^ 32) with 4294967296 in *;
  change (2 ^ 64) with 18446744073709551616 in *;
  change (2 ^ 36) with 68719476736 in *;
  change (2 ^ 31) with 2147483648 in *;
  change (2 ^ 30) with 1073741824 in *.

Ltac zsolve := unfold_consts; lia.

Ltac splits := repeat match goal with |- _ /\ _ => split end.

Section HeaderFacts.
Import Mem MemFacts.
Variable m : mem.

Lemma get_size_range p : 0 <= get_size m p < UINT_MOD.
Proof. exact (load_range 4 m (p + 8)). Qed.

Lemma get_ptr_range p : 0 <= get_ptr m p < SIZE_MOD.
Proof. exact (load_range 8 m p). Qed.

Lemma get_ptr_set_ptr p v :
  0 <= v < SIZE_MOD -> get_ptr (set_ptr m p v) p = v.
Proof.
  intros H. unfold get_ptr, set_ptr. rewrite load_store_same.
  apply Z.mod_small. exact H.
Qed.

Lemma get_size_set_size p v :
  0 <= v < UINT_MOD -> get_size (set_size m p v) p = v.
Proof.
  intros H. unfold get_size, set_size. rewrite load_store_same.
  apply Z.mod_small. exact H.
Qed.

Lemma get_ptr_set_size p q v :
  p <= q \/ q + 12 <= p -> get_ptr (set_size m q v) p = get_ptr m p.
Proof.
  intros H. unfold get_ptr, set_size. apply load_store_other. simpl. lia.
Qed.

Lemma get_size_set_ptr p q v :
  q <= p \/ p + 12 <= q -> get_size (set_ptr m q v) p = get_size m p.
Proof.
  intros H. unfold get_size, set_ptr. apply load_store_other. simpl. lia.
Qed.

Lemma get_ptr_set_ptr_other p q v :
  q + 8 <= p \/ p + 8 <= q -> get_ptr (set_ptr m q v) p = get_ptr m p.
Proof.
  intros H. unfold get_ptr, set_ptr. apply load_store_other. simpl. lia.
Qed.

Lemma get_size_set_size_other p q v :
  q + 4 <= p \/ p + 4 <= q -> get_size (set_size m q v) p = get_size m p.
Proof.
  intros H. unfold get_size, set_size. apply load_store_other. simpl. lia.
Qed.

End HeaderFacts.

Ltac hdr :=
  repeat first
    [ rewrite get_ptr_set_ptr by zsolve
    | rewrite get_size_set_size by zsolve
    | rewrite get_ptr_set_size by zsolve
    | rewrite get_size_set_ptr by zsolve
    | rewrite get_ptr_set_ptr_other by zsolve
    | rewrite get_size_set_size_other by zsolve ].

(** ** Lists of blocks *)

Section BlockLists.

Lemma blocks_in_weaken l : forall lo lo' hi hi',
  lo' <= lo -> hi <= hi' -> blocks_in lo hi l -> blocks_in lo' hi' l.
Proof.
  induction l as [|b l IH]; intros lo lo' hi hi' Hlo Hhi H; cbn [blocks_in chain hd_addr In map app length walk fold_left bound_after] in *; [exact I|].
  destruct H as (H1 & H2 & H3 & H4). repeat split; try lia.
  apply (IH (gap_after b) _ hi); try lia. exact H4.
Qed.

Lemma blocks_in_In l : forall lo hi b,
  blocks_in lo hi l -> In b l -> lo <= fst b /\ 0 <= snd b /\ fend b <= hi.
Proof.
  induction l as [|x l IH]; intros lo hi b H Hin; cbn [blocks_in chain hd_addr In map app length walk fold_left bound_after] in *; [contradiction|].
  destruct H as (H1 & H2 & H3 & H4). destruct Hin as [->|Hin]; [repeat split; assumption|].
  destruct (IH _ _ _ H4 Hin) as (A1 & A2 & A3).
  repeat split; try assumption. zsolve.
Qed.

Lemma blocks_in_hd l lo hi d :
  blocks_in lo hi l -> l <> [] -> lo <= hd_addr l d.
Proof. destruct l; cbn [blocks_in hd_addr]; [congruence|]. intros (H & _) _. exact H. Qed.

Lemma blocks_in_app l1 : forall lo hi l2,
  blocks_in lo hi (l1 ++ l2) <->
  blocks_in lo hi l1 /\ blocks_in (bound_after lo l1) hi l2.
Proof.
  induction l1 as [|b l1 IH]; intros lo hi l2; cbn [blocks_in app].
  - tauto.
  - rewrite IH. unfold bound_after. cbn. tauto.
Qed.

Lemma bound_after_le l : forall lo hi,
  blocks_in lo hi l -> lo <= bound_after lo l.
Proof.
  induction l as [|b l IH]; intros lo hi H; cbn [blocks_in chain hd_addr In map app length walk fold_left bound_after] in *; [lia|].
  destruct H as (H1 & H2 & H3 & H4).
  specialize (IH _ _ H4). unfold bound_after in IH. unfold gap_after in *.
  unfold sizeof_Header in *. lia.
Qed.

Lemma bound_after_In l : forall lo hi b,
  blocks_in lo hi l -> In b l -> gap_after b <= bound_after lo l.
Proof.
  induction l as [|x l IH]; intros lo hi b H Hin; cbn [blocks_in chain hd_addr In map app length walk fold_left bound_after] in *; [contradiction|].
  destruct H as (H1 & H2 & H3 & H4). destruct Hin as [->|Hin].
  - apply (bound_after_le l _ hi). exact H4.
  - apply (IH _ hi); assumption.
Qed.

Lemma chain_app m l1 : forall l2 c,
  chain m (l1 ++ l2) c <-> chain m l1 (hd_addr l2 c) /\ chain m l2 c.
Proof.
  induction l1 as [|b l1 IH]; intros l2 c; cbn [chain app hd_addr].
  - tauto.
  - rewrite IH. destruct l1; cbn; tauto.
Qed.

Lemma chain_frame m m' l : forall c,
  (forall b, In b l ->
     get_ptr m' (fst b) = get_ptr m (fst b)
     /\ get_size m' (fst b) = get_size m (fst b)) ->
  chain m l c -> chain m' l c.
Proof.
  induction l as [|b l IH]; intros c Hf H; cbn [blocks_in chain hd_addr In map app length walk fold_left bound_after] in *; [exact I|].
  destruct H as (H1 & H2 & H3).
  destruct (Hf b (or_introl eq_refl)) as [E1 E2].
  rewrite E1, E2. repeat split; try assumption.
  apply IH; [|exact H3]. intros x Hx. apply Hf. now right.
Qed.

Lemma chain_In m l : forall c b,
  chain m l c -> In b l -> get_size m (fst b) = snd b.
Proof.
  induction l as [|x l IH]; intros c b H Hin; cbn [blocks_in chain hd_addr In map app length walk fold_left bound_after] in *; [contradiction|].
  destruct H as (H1 & H2 & H3). destruct Hin as [->|Hin]; [exact H2|].
  eapply IH; eassumption.
Qed.

Lemma walk_length m : forall n p, length (walk m p n) = n.
Proof. induction n; intros p; cbn [walk length]; [reflexivity|]. now rewrite IHn. Qed.

Lemma walk_chain m l : forall c,
  chain m l c -> walk m (hd_addr l c) (length l) = map fst l.
Proof.
  induction l as [|b l IH]; intros c H; cbn [blocks_in chain hd_addr In map app length walk fold_left bound_after] in *; [reflexivity|].
  destruct H as (H1 & H2 & H3). rewrite H1. f_equal. now apply IH.
Qed.

End BlockLists.

(** ** free: the search loop *)

Section FreeScan.
Variable m : Mem.mem.
Variables bp bs c : Z.

Lemma blocks_in_app_lt P : forall lo hi S x d,
  blocks_in lo hi (P ++ S) -> In x P -> S <> [] ->
  fst x + sizeof_Header <= hd_addr S d.
Proof.
  intros lo hi S x d H Hin HS.
  apply blocks_in_app in H. destruct H as [HP HSb].
  pose proof (bound_after_In _ _ _ _ HP Hin).
  pose proof (blocks_in_hd _ _ _ d HSb HS). zsolve.
Qed.

Lemma fl_pred_app P : forall lo hi S d,
  blocks_in lo hi (P ++ S) -> S <> [] -> hd_addr S 0 < bp ->
  fl_pred (bp, bs) (P ++ S) d = fl_pred (bp, bs) S d.
Proof.
  induction P as [|p P IH]; intros lo hi S d H HS Hlt; [reflexivity|].
  cbn [app fl_pred fst]. 
  assert (E : (hd_addr (P ++ S) (bp + 1) <? bp) = true).
  { apply Z.ltb_lt. destruct P as [|q P].
    - cbn [app]. destruct S; [congruence|]. exact Hlt.
    - cbn [app hd_addr].
      cbn [app blocks_in] in H. destruct H as (_ & _ & _ & H).
      pose proof (blocks_in_app_lt (q :: P) _ _ S q 0 H (or_introl eq_refl) HS).
      zsolve. }
  rewrite E. cbn [app blocks_in] in H. destruct H as (_ & _ & _ & H).
  eapply IH; eassumption.
Qed.

Lemma free_scan_fwd F : forall lo hi fuel d,
  blocks_in lo hi F -> chain m F c -> F <> [] ->
  hd_addr F 0 < bp -> (forall x, In x F -> fst x <> bp) -> c <= lo ->
  (length F <= fuel)%nat ->
  free_scan fuel m bp (hd_addr F 0) = Some (fl_pred (bp, bs) F d).
Proof.
  induction F as [|p F IH]; intros lo hi fuel d HB HC HF Hlt Hne Hc Hfuel;
    [congruence|].
  destruct fuel as [|fuel]; [cbn [length] in Hfuel; lia|].
  cbn [hd_addr] in Hlt |- *. cbn [free_scan fl_pred fst].
  cbn [chain] in HC. destruct HC as (Hp & Hs & HC). rewrite Hp.
  cbn [blocks_in] in HB. destruct HB as (B1 & B2 & B3 & B4).
  destruct F as [|q F].
  - cbn [hd_addr].
    replace (bp + 1 <? bp) with false by (symmetry; apply Z.ltb_ge; lia).
    replace (bp <? c) with false by (symmetry; apply Z.ltb_ge; lia).
    replace (bp >? fst p) with true by (symmetry; apply Z.gtb_lt; lia).
    replace (fst p >=? c) with true by (symmetry; apply Z.geb_le; lia).
    reflexivity.
  - cbn [hd_addr].
    cbn [blocks_in] in B4. destruct B4 as (Q1 & Q2 & Q3 & Q4).
    assert (fst q <> bp) by (apply Hne; right; now left).
    replace (bp >? fst p) with true by (symmetry; apply Z.gtb_lt; lia).
    destruct (fst q <? bp) eqn:E.
    + apply Z.ltb_lt in E.
      replace (bp <? fst q) with false by (symmetry; apply Z.ltb_ge; lia).
      replace (fst p >=? fst q) with false
        by (symmetry; rewrite Z.geb_leb; apply Z.leb_gt; zsolve).
      cbn [andb orb].
      apply (IH (gap_after p) hi fuel d).
      * cbn [blocks_in]. tauto.
      * exact HC.
      * congruence.
      * exact E.
      * intros x Hx. apply Hne. now right.
      * zsolve.
      * cbn [length] in Hfuel |- *. lia.
    + apply Z.ltb_ge in E.
      replace (bp <? fst q) with true by (symmetry; apply Z.ltb_lt; lia).
      reflexivity.
Qed.

Lemma free_scan_wrap S : forall lo hi fuel,
  blocks_in lo hi S -> chain m S c -> bp < lo -> c < bp ->
  free_scan (length S + fuel) m bp (hd_addr S c) = free_scan fuel m bp c.
Proof.
  induction S as [|x S IH]; intros lo hi fuel HB HC Hlo Hc; [reflexivity|].
  cbn [length hd_addr Nat.add free_scan].
  cbn [chain] in HC. destruct HC as (Hp & Hs & HC). rewrite Hp.
  cbn [blocks_in] in HB. destruct HB as (B1 & B2 & B3 & B4).
  replace (bp >? fst x) with false by (symmetry; rewrite Z.gtb_ltb; apply Z.ltb_ge; lia).
  cbn [andb orb].
  assert (E : (fst x >=? hd_addr S c) && (bp <? hd_addr S c) = false).
  { destruct S as [|y S]; cbn [hd_addr].
    - replace (bp <? c) with false by (symmetry; apply Z.ltb_ge; lia).
      apply andb_false_r.
    - cbn [blocks_in] in B4. destruct B4 as (Q1 & _).
      replace (fst x >=? fst y) with false
        by (symmetry; rewrite Z.geb_leb; apply Z.leb_gt; zsolve).
      reflexivity. }
  rewrite E. apply (IH (gap_after x) hi); try assumption. zsolve.
Qed.

Lemma free_scan_ok F : forall lo hi fuel f d,
  blocks_in lo hi F -> chain m F c -> hd_addr F 0 = c -> F <> [] ->
  c < bp -> (forall x, In x F -> fst x <> bp) -> c <= lo ->
  In f (map fst F) -> (2 * length F <= fuel)%nat ->
  free_scan fuel m bp f = Some (fl_pred (bp, bs) F d).
Proof.
  intros lo hi fuel f d HB HC Hhd HF Hc Hne Hlo Hin Hfuel.
  apply in_map_iff in Hin. destruct Hin as (fb & <- & Hin).
  apply in_split in Hin. destruct Hin as (P & S & ->).
  assert (Hf : fst fb <> bp) by (apply Hne, in_elt).
  pose proof HB as HB'. apply blocks_in_app in HB'. destruct HB' as [HBP HBS].
  pose proof HC as HC'. apply chain_app in HC'. destruct HC' as [HCP HCS].
  pose proof (bound_after_le _ _ _ HBP) as Hba.
  destruct (Z_lt_le_dec (fst fb) bp) as [Hlt|Hge].
  - rewrite (fl_pred_app P lo hi (fb :: S) d HB ltac:(congruence) Hlt).
    apply (free_scan_fwd (fb :: S) (bound_after lo P) hi fuel d); try assumption.
    + congruence.
    + intros x Hx. apply Hne. apply in_or_app. now right.
    + lia.
    + rewrite length_app in Hfuel. lia.
  - replace fuel with (length (fb :: S) + (fuel - length (fb :: S)))%nat
      by (rewrite length_app in Hfuel; lia).
    change (fst fb) with (hd_addr (fb :: S) c).
    rewrite (free_scan_wrap (fb :: S) (fst fb) hi).
    + rewrite <- Hhd.
      apply (free_scan_fwd (P ++ fb :: S) lo hi _ d); try assumption.
      * lia.
      * rewrite length_app in *. cbn [length] in *. lia.
    + cbn [blocks_in] in HBS |- *. destruct HBS as (B1 & B2 & B3 & B4).
      repeat split; try assumption. lia.
    + exact HCS.
    + lia.
    + exact Hc.
Qed.

End FreeScan.

(** ** free: linking the block in *)

Lemma chain_frame_above (m m' : Mem.mem) l lo hi x :
  blocks_in lo hi l -> 
  (forall y, lo <= y -> hdr_same m' m y) ->
  chain m l x -> chain m' l x.
Proof.
  intros HB Hf. apply chain_frame. intros b Hb.
  destruct (blocks_in_In _ _ _ _ HB Hb) as (H1 & _). apply Hf. exact H1.
Qed.

Section FreeLink.
Variable m : Mem.mem.
Variables bp bs c : Z.

Lemma join_upper_ok p F lo hi :
  blocks_in lo hi F -> chain m F c ->
  get_size m bp = bs -> 1 <= bs -> padd bp bs <= lo -> c < bp ->
  get_ptr m p = hd_addr F c -> p + sizeof_Header <= bp ->
  hi - bp < 2 ^ 36 ->
  chain (join_upper_nbr m bp p) (fl_join_upper (bp, bs) F) c
  /\ (forall x, x + sizeof_Header <= bp \/ bp + sizeof_Header <= x ->
        hdr_same (join_upper_nbr m bp p) m x).
Proof.
  intros HB HC Hbs Hpos Hlo Hc Hp Hpb Hhi.
  unfold join_upper_nbr. rewrite Hp, Hbs.
  pose proof (get_ptr_range m (hd_addr F c)) as Hr0.
  pose proof (get_ptr_range m p) as Hr1. rewrite Hp in Hr1.
  destruct F as [|q F]; cbn [hd_addr fl_join_upper fst snd] in *.
  - replace (padd bp bs =? c) with false by (symmetry; apply Z.eqb_neq; zsolve).
    split.
    + cbn [chain hd_addr fst snd]. hdr. auto.
    + intros x Hx. unfold hdr_same. hdr. auto.
  - cbn [blocks_in] in HB. destruct HB as (B1 & B2 & B3 & B4).
    cbn [chain] in HC. destruct HC as (C1 & C2 & C3).
    destruct (padd bp bs =? fst q) eqn:E.
    + apply Z.eqb_eq in E. rewrite C2.
      assert (Hsum : (bs + snd q) mod UINT_MOD = bs + snd q).
      { apply Z.mod_small. zsolve. }
      rewrite Hsum. cbv zeta. split.
      * cbn [chain fst snd].
        rewrite (get_ptr_set_size m p) by zsolve. rewrite Hp.
        rewrite (get_ptr_set_size m (fst q)) by zsolve. rewrite C1 in *.
        hdr. repeat split; try assumption; try reflexivity.
        apply (chain_frame_above m _ _ _ _ _ B4); [|exact C3].
        intros y Hy. unfold hdr_same. hdr. auto.
      * intros x Hx. unfold hdr_same.
        rewrite (get_ptr_set_size m p) by zsolve. rewrite Hp.
        rewrite (get_ptr_set_size m (fst q)) by zsolve. rewrite C1 in *.
        hdr. auto.
    + apply Z.eqb_neq in E. split.
      * cbn [chain hd_addr fst snd]. hdr.
        repeat split; try assumption; try reflexivity.
        apply (chain_frame_above m _ _ _ _ _ B4); [|exact C3].
        intros y Hy. unfold hdr_same. hdr. auto.
      * intros x Hx. unfold hdr_same. hdr. auto.
Qed.

Lemma join_lower_ok m1 s' p ps L lo hi :
  chain m1 ((bp, s') :: L) c -> get_size m1 p = ps ->
  blocks_in lo hi L -> bp + sizeof_Header <= lo ->
  p + sizeof_Header <= bp -> 0 <= ps -> 0 <= s' -> ps + s' < UINT_MOD ->
  0 <= bp < SIZE_MOD ->
  chain (join_lower_nbr m1 bp p) (fl_join_lower (p, ps) ((bp, s') :: L)) c
  /\ (forall x, x + sizeof_Header <= p \/ p + sizeof_Header <= x ->
        hdr_same (join_lower_nbr m1 bp p) m1 x).
Proof.
  intros HC Hps HB Hlo Hpb Hps0 Hs0 Hsum Hbp.
  cbn [chain fst snd] in HC. destruct HC as (C1 & C2 & C3).
  unfold join_lower_nbr, fl_join_lower. cbn [fst snd]. rewrite Hps, C2.
  pose proof (get_ptr_range m1 bp) as Hr.
  destruct (padd p ps =? bp) eqn:E.
  - rewrite (Z.mod_small (ps + s')) by lia. cbv zeta. split.
    + cbn [chain fst snd]. hdr. repeat split; try assumption; try reflexivity.
      apply (chain_frame_above m1 _ _ _ _ _ HB); [|exact C3].
      intros y Hy. unfold hdr_same. hdr. auto.
    + intros x Hx. unfold hdr_same. hdr. auto.
  - split.
    + cbn [chain hd_addr fst snd]. hdr. repeat split; try assumption; try reflexivity.
      apply (chain_frame_above m1 _ _ _ _ _ HB); [|exact C3].
      intros y Hy. unfold hdr_same. hdr. auto.
    + intros x Hx. unfold hdr_same. hdr. auto.
Qed.

End FreeLink.

(** ** Insertion with coalescing keeps the list ordered *)

Section FlInsert.
Variables bp bs : Z.
Let b : blk := (bp, bs).

Lemma hd_fl_join_lower p L d :
  hd_addr (fl_join_lower p L) d = fst p.
Proof.
  unfold fl_join_lower. destruct L as [|x L]; [reflexivity|].
  destruct (padd (fst p) (snd p) =? fst x); reflexivity.
Qed.

Lemma hd_fl_join_upper L d :
  hd_addr (fl_join_upper b L) d = bp.
Proof.
  unfold fl_join_upper. destruct L as [|x L]; [reflexivity|].
  destruct (padd (fst b) (snd b) =? fst x); reflexivity.
Qed.

Lemma hd_fl_insert F d : F <> [] -> hd_addr (fl_insert b F) d = hd_addr F d.
Proof.
  destruct F as [|p F]; [congruence|]. intros _. cbn [fl_insert hd_addr].
  destruct (hd_addr F (fst b + 1) <? fst b); [reflexivity|].
  apply hd_fl_join_lower.
Qed.

Lemma fl_pred_In F : forall d, F <> [] -> In (fl_pred b F d) (map fst F).
Proof.
  induction F as [|p F IH]; intros d HF; [congruence|].
  cbn [fl_pred map In].
  destruct (hd_addr F (fst b + 1) <? fst b) eqn:E; [|now left].
  right. apply IH. intros ->. cbn [hd_addr] in E. apply Z.ltb_lt in E. lia.
Qed.

Lemma fl_join_upper_shape F lo hi :
  blocks_in lo hi F -> 1 <= bs -> fend b <= hi -> fend b <= lo ->
  exists s' L, fl_join_upper b F = (bp, s') :: L /\ 1 <= s'
    /\ padd bp s' <= hi /\ blocks_in (bp + sizeof_Header) hi L.
Proof.
  intros HB Hbs Hhi Hlo. unfold fl_join_upper. subst b. cbn [fst snd] in *.
  destruct F as [|q F].
  - exists bs, []. repeat split; try assumption. zsolve.
  - cbn [blocks_in] in HB. destruct HB as (B1 & B2 & B3 & B4).
    destruct (padd bp bs =? fst q) eqn:E.
    + apply Z.eqb_eq in E. exists (bs + snd q), F. repeat split; try zsolve.
      apply (blocks_in_weaken _ (gap_after q) _ hi); try assumption; zsolve.
    + exists bs, (q :: F). repeat split; try assumption; try zsolve.
Qed.

Lemma blocks_in_join_upper F lo lo' hi :
  blocks_in lo hi F -> 1 <= bs -> fend b <= hi -> fend b <= lo -> lo' <= bp ->
  blocks_in lo' hi (fl_join_upper b F).
Proof.
  intros HB Hbs Hhi Hlo Hlo'. unfold fl_join_upper. subst b. cbn [fst snd] in *.
  destruct F as [|q F].
  - cbn [blocks_in fst snd]. repeat split; try assumption; zsolve.
  - cbn [blocks_in] in HB. destruct HB as (B1 & B2 & B3 & B4).
    destruct (padd bp bs =? fst q) eqn:E.
    + apply Z.eqb_eq in E. cbn [blocks_in fst snd].
      repeat split; try assumption; try zsolve.
      apply (blocks_in_weaken _ (gap_after q) _ hi); try assumption; zsolve.
    + apply Z.eqb_neq in E. cbn [blocks_in fst snd].
      repeat split; try assumption; zsolve.
Qed.

Lemma blocks_in_join_lower p s' L lo lo' hi :
  blocks_in lo' hi ((bp, s') :: L) -> lo <= fst p -> 0 <= snd p ->
  fend p <= bp ->
  blocks_in lo hi (fl_join_lower p ((bp, s') :: L)).
Proof.
  intros HB Hlo Hps Hp. unfold fl_join_lower. cbn [fst snd].
  cbn [blocks_in fst snd] in HB. destruct HB as (B1 & B2 & B3 & B4).
  destruct (padd (fst p) (snd p) =? bp) eqn:E.
  - apply Z.eqb_eq in E. cbn [blocks_in fst snd].
    repeat split; try assumption; try zsolve.
    apply (blocks_in_weaken _ (gap_after (bp, s')) _ hi); try assumption; zsolve.
  - apply Z.eqb_neq in E. cbn [blocks_in fst snd].
    repeat split; try assumption; zsolve.
Qed.

(** What the list must satisfy for [b] to be inserted: [b] lies above the
    head and overlaps no block. *)
Lemma disjoint_above (x : blk) :
  disjoint b x -> bp <= fst x -> 0 <= snd x -> fend b <= fst x.
Proof. unfold disjoint. subst b. intros [H|H] ? ?; zsolve. Qed.

Lemma disjoint_below (x : blk) :
  disjoint b x -> fst x <= bp -> 1 <= bs -> fend x <= bp.
Proof. unfold disjoint. subst b. intros [H|H] ? ?; zsolve. Qed.

Lemma blocks_in_fl_insert F : forall lo hi,
  blocks_in lo hi F -> F <> [] -> hd_addr F 0 < bp ->
  Forall (disjoint b) F -> 1 <= bs -> fend b <= hi ->
  blocks_in lo hi (fl_insert b F).
Proof.
  induction F as [|p F IH]; intros lo hi HB HF Hhd Hd Hbs Hhi; [congruence|].
  cbn [fl_insert]. cbn [hd_addr] in Hhd.
  cbn [blocks_in] in HB. destruct HB as (B1 & B2 & B3 & B4).
  inversion Hd as [|? ? Hdp HdF]; subst.
  destruct (hd_addr F (fst b + 1) <? fst b) eqn:E.
  - apply Z.ltb_lt in E. cbn [blocks_in]. repeat split; try assumption.
    apply IH; try assumption.
    + intros ->. cbn [hd_addr] in E. lia.
    + destruct F; cbn [hd_addr] in *; [lia|]. exact E.
  - apply Z.ltb_ge in E.
    assert (Hp : fend p <= bp) by (apply disjoint_below; try assumption; lia).
    assert (HF' : fend b <= Z.max (gap_after p) (hd_addr F (fend b))).
    { destruct F as [|q F]; cbn [hd_addr] in *; [lia|].
      inversion HdF as [|? ? Hq _]; subst. cbn [blocks_in] in B4.
      destruct B4 as (Q1 & Q2 & _).
      assert (fend b <= fst q) by (apply disjoint_above; assumption). lia. }
    destruct (fl_join_upper_shape F (Z.max (gap_after p) (hd_addr F (fend b))) hi)
      as (s' & L & EL & Hs' & Hend & HL); try assumption.
    { destruct F as [|q F]; [exact I|]. cbn [blocks_in hd_addr] in *.
      repeat split; try tauto. lia. }
    pose proof (blocks_in_join_upper F (Z.max (gap_after p) (hd_addr F (fend b))) bp hi) as HU.
    rewrite EL in *.
    apply (blocks_in_join_lower p s' L lo bp hi); try assumption.
    apply HU; try assumption; try lia.
    destruct F as [|q F]; [exact I|]. cbn [blocks_in hd_addr] in *.
    repeat split; try tauto. lia.
Qed.

End FlInsert.

(** ** free writes two headers only *)

Lemma free_link_frame m bp p x :
  x + sizeof_Header <= p \/ p + sizeof_Header <= x ->
  x + sizeof_Header <= bp \/ bp + sizeof_Header <= x ->
  hdr_same (free_link m bp p) m x.
Proof.
  intros Hp Hb. unfold free_link, join_lower_nbr, join_upper_nbr, hdr_same.
  repeat match goal with
         | |- context [if ?c then _ else _] => destruct c
         end; cbv zeta; hdr; auto.
Qed.

Lemma set_ptr_bytes m p v y : y < p \/ p + 8 <= y -> set_ptr m p v y = m y.
Proof. intros H. unfold set_ptr. apply MemFacts.store_outside. simpl. lia. Qed.

Lemma set_size_bytes m p v y : y < p + 8 \/ p + 12 <= y -> set_size m p v y = m y.
Proof. intros H. unfold set_size. apply MemFacts.store_outside. simpl. lia. Qed.

Lemma free_link_bytes m bp p y :
  y < p \/ p + 12 <= y -> y < bp \/ bp + 12 <= y -> free_link m bp p y = m y.
Proof.
  intros Hp Hb. unfold free_link, join_lower_nbr, join_upper_nbr.
  repeat match goal with
         | |- context [if ?c then _ else _] => destruct c
         end; cbv zeta;
  repeat first [ rewrite set_ptr_bytes by lia | rewrite set_size_bytes by lia ];
  reflexivity.
Qed.

Lemma blocks_in_raise F lo lo' hi :
  blocks_in lo hi F -> (F = [] \/ lo' <= hd_addr F 0) -> blocks_in lo' hi F.
Proof.
  destruct F as [|q F]; [intros; exact I|].
  cbn [blocks_in hd_addr]. intros (B1 & B2 & B3 & B4) [H|H]; [congruence|].
  repeat split; assumption.
Qed.

Lemma free_link_chain m bp bs c F : forall lo hi d,
  blocks_in lo hi F -> chain m F c -> F <> [] -> hd_addr F 0 < bp ->
  Forall (disjoint (bp, bs)) F -> get_size m bp = bs -> 1 <= bs ->
  fend (bp, bs) <= hi -> c <= lo -> c < bp -> 0 <= lo ->
  hi - lo < 2 ^ 36 -> hi < 2 ^ 64 ->
  chain (free_link m bp (fl_pred (bp, bs) F d)) (fl_insert (bp, bs) F) c.
Proof.
  induction F as [|p F IH];
    intros lo hi d HB HC HF Hhd Hd Hsz Hbs Hhi Hc Hcb Hlo Hspan Hmax;
    [congruence|].
  cbn [fl_insert fl_pred]. cbn [hd_addr] in Hhd.
  cbn [blocks_in] in HB. destruct HB as (B1 & B2 & B3 & B4).
  cbn [chain] in HC. destruct HC as (C1 & C2 & C3).
  inversion Hd as [|? ? Hdp HdF]; subst.
  destruct (hd_addr F (fst (bp, get_size m bp) + 1) <? fst (bp, get_size m bp)) eqn:E;
    cbn [fst] in E.
  - apply Z.ltb_lt in E.
    assert (HF' : F <> []) by (intros ->; cbn [hd_addr] in E; lia).
    assert (Hhd' : hd_addr F 0 < bp)
      by (destruct F; cbn [hd_addr] in *; [congruence|exact E]).
    pose proof (fl_pred_In bp (get_size m bp) F d HF') as Hin.
    apply in_map_iff in Hin. destruct Hin as (x & Hx & Hin).
    destruct (blocks_in_In _ _ _ _ B4 Hin) as (X1 & X2 & X3).
    pose proof (blocks_in_hd _ _ _ 0 B4 HF') as Hh.
    destruct (free_link_frame m bp (fl_pred (bp, get_size m bp) F d) (fst p))
      as [E1 E2]; [rewrite <- Hx; zsolve | zsolve |].
    cbn [chain]. rewrite E1, E2, hd_fl_insert by assumption.
    repeat split; try assumption.
    apply (IH (gap_after p) hi); try assumption; zsolve.
  - apply Z.ltb_ge in E.
    assert (Hp : fend p <= bp)
      by (apply (disjoint_below bp (get_size m bp)); try assumption; lia).
    assert (HFb : blocks_in (fend (bp, get_size m bp)) hi F).
    { apply (blocks_in_raise _ _ _ _ B4). destruct F as [|q F]; [now left|right].
      cbn [hd_addr] in *. inversion HdF as [|? ? Hq _]; subst.
      cbn [blocks_in] in B4.
      apply (disjoint_above bp (get_size m bp)); try tauto. }
    destruct (join_upper_ok m bp (get_size m bp) c (fst p) F
                (fend (bp, get_size m bp)) hi) as [HU HUf];
      try assumption; try reflexivity; try zsolve.
    destruct (fl_join_upper_shape bp (get_size m bp) F
                (fend (bp, get_size m bp)) hi)
      as (s' & L & EL & Hs' & Hend & HL); try assumption; try lia.
    rewrite EL in *.
    destruct (HUf (fst p)) as [_ Esz]; [zsolve|].
    destruct (join_lower_ok bp c (join_upper_nbr m bp (fst p)) s' (fst p) (snd p)
                L (bp + sizeof_Header) hi) as [HLw _];
      try assumption; try zsolve; try congruence.
    unfold free_link. destruct p as [pa ps]. exact HLw.
Qed.

(** ** free and the blocks handed out *)

Lemma disjoint_sym x y : disjoint x y -> disjoint y x.
Proof. unfold disjoint. tauto. Qed.

Lemma disjoint_join x (y z : blk) :
  disjoint x y -> disjoint x z -> padd (fst y) (snd y) = fst z ->
  1 <= snd x -> 0 <= snd y -> 0 <= snd z ->
  disjoint x (fst y, snd y + snd z).
Proof. unfold disjoint. intros [H1|H1] [H2|H2] E ? ? ?; zsolve. Qed.

Lemma disjoint_fl_join_upper x b F lo hi :
  blocks_in lo hi F -> disjoint x b -> Forall (disjoint x) F ->
  1 <= snd x -> 0 <= snd b ->
  Forall (disjoint x) (fl_join_upper b F).
Proof.
  intros HB Hb HF Hx Hbs. unfold fl_join_upper. destruct F as [|q F].
  - constructor; [exact Hb|constructor].
  - inversion HF as [|? ? Hq HF']; subst.
    cbn [blocks_in] in HB. destruct HB as (B1 & B2 & B3 & B4).
    destruct (padd (fst b) (snd b) =? fst q) eqn:E.
    + apply Z.eqb_eq in E. constructor; [|exact HF'].
      apply disjoint_join; assumption.
    + constructor; assumption.
Qed.

Lemma disjoint_fl_join_lower x p L :
  disjoint x p -> Forall (disjoint x) L ->
  1 <= snd x -> 0 <= snd p -> Forall (fun y => 0 <= snd y) L ->
  Forall (disjoint x) (fl_join_lower p L).
Proof.
  intros Hp HL Hx Hps Hs. unfold fl_join_lower. destruct L as [|y L].
  - constructor; [exact Hp|constructor].
  - inversion HL as [|? ? Hy HL']; subst. inversion Hs; subst.
    destruct (padd (fst p) (snd p) =? fst y) eqn:E.
    + apply Z.eqb_eq in E. constructor; [|exact HL'].
      apply disjoint_join; assumption.
    + constructor; assumption.
Qed.

Lemma blocks_in_sizes l : forall lo hi,
  blocks_in lo hi l -> Forall (fun y => 0 <= snd y) l.
Proof.
  induction l as [|b l IH]; intros lo hi H; [constructor|].
  cbn [blocks_in] in H. destruct H as (H1 & H2 & H3 & H4).
  constructor; [exact H2|]. eapply IH; eassumption.
Qed.

Lemma disjoint_fl_insert x b F : forall lo hi,
  blocks_in lo hi F -> disjoint x b -> Forall (disjoint x) F ->
  1 <= snd x -> 1 <= snd b ->
  Forall (disjoint x) (fl_insert b F).
Proof.
  induction F as [|p F IH]; intros lo hi HB Hb HF Hx Hbs.
  - constructor; [exact Hb|constructor].
  - cbn [fl_insert]. inversion HF as [|? ? Hp HF']; subst.
    cbn [blocks_in] in HB. destruct HB as (B1 & B2 & B3 & B4).
    destruct (hd_addr F (fst b + 1) <? fst b).
    + constructor; [exact Hp|]. eapply IH; eassumption.
    + assert (HU : Forall (disjoint x) (fl_join_upper b F)).
      { eapply disjoint_fl_join_upper; try eassumption. lia. }
      apply disjoint_fl_join_lower; try assumption.
      unfold fl_join_upper. pose proof (blocks_in_sizes _ _ _ B4) as Hs.
      destruct F as [|q F]; [constructor; [lia|constructor]|].
      inversion Hs; subst.
      destruct (padd (fst b) (snd b) =? fst q); constructor;
        cbn [snd]; try assumption; lia.
Qed.

Lemma fl_pred_In_insert bp bs F : forall d,
  F <> [] -> In (fl_pred (bp, bs) F d) (map fst (fl_insert (bp, bs) F)).
Proof.
  induction F as [|p F IH]; intros d HF; [congruence|].
  cbn [fl_pred fl_insert].
  destruct (hd_addr F (fst (bp, bs) + 1) <? fst (bp, bs)) eqn:E.
  - cbn [map In]. right. apply IH. intros ->. cbn [hd_addr fst] in E.
    apply Z.ltb_lt in E. lia.
  - pose proof (hd_fl_join_lower p (fl_join_upper (bp, bs) F) 0) as H.
    destruct (fl_join_lower p (fl_join_upper (bp, bs) F)) as [|y L] eqn:EL.
    + unfold fl_join_lower in EL.
      destruct (fl_join_upper (bp, bs) F) as [|z ?]; [discriminate|].
      destruct (padd (fst p) (snd p) =? fst z); discriminate.
    + cbn [hd_addr] in H. cbn [map In]. now left.
Qed.

Lemma fl_insert_head c bp bs F :
  c < bp -> fl_insert (bp, bs) ((c, 0) :: F)
            = (c, 0) :: tl (fl_insert (bp, bs) ((c, 0) :: F)).
Proof.
  intros Hc. cbn [fl_insert].
  destruct (hd_addr F (fst (bp, bs) + 1) <? fst (bp, bs)); [reflexivity|].
  unfold fl_join_lower.
  destruct (fl_join_upper (bp, bs) F) as [|z L] eqn:EL; [reflexivity|].
  pose proof (hd_fl_join_upper bp bs F 0) as H. rewrite EL in H. cbn [hd_addr] in H.
  cbn [fst snd].
  replace (padd c 0 =? fst z) with false; [reflexivity|].
  symmetry. apply Z.eqb_neq. zsolve.
Qed.

Lemma pairwise_disjoint_app A1 : forall A2,
  pairwise_disjoint (A1 ++ A2) <->
  pairwise_disjoint A1 /\ pairwise_disjoint A2
  /\ Forall (fun x => Forall (disjoint x) A2) A1.
Proof.
  induction A1 as [|a A1 IH]; intros A2; cbn [app pairwise_disjoint].
  - split; [intros H; repeat split; [exact H|constructor] | tauto].
  - rewrite IH, Forall_app. split.
    + intros ((H1 & H2) & H3 & H4 & H5). repeat split; try assumption.
      constructor; assumption.
    + intros ((H1 & H2) & H3 & H4). inversion H4; subst. tauto.
Qed.

Lemma pairwise_disjoint_remove A1 b A2 :
  pairwise_disjoint (A1 ++ b :: A2) ->
  pairwise_disjoint (A1 ++ A2) /\ Forall (disjoint b) (A1 ++ A2).
Proof.
  rewrite !pairwise_disjoint_app. cbn [pairwise_disjoint].
  intros (H1 & (H2 & H3) & H4). repeat split; try assumption.
  - eapply Forall_impl; [|exact H4]. intros x Hx. now inversion Hx.
  - apply Forall_app. split; [|exact H2].
    eapply Forall_impl; [|exact H4]. intros x Hx. inversion Hx; subst.
    now apply disjoint_sym.
Qed.

Lemma heap_hi_eq cfg st st' :
  sys st' = sys st -> endHeap st' = endHeap st ->
  heap_hi cfg st' = heap_hi cfg st.
Proof. intros H1 H2. unfold heap_hi, heap_top. now rewrite H1, H2. Qed.

Lemma env_ok_eq cfg st st' :
  sys st' = sys st -> endHeap st' = endHeap st ->
  env_ok cfg st -> env_ok cfg st'.
Proof.
  intros H1 H2 [E1 E2 E3 E4 E5]. constructor; rewrite ?H1, ?H2; assumption.
Qed.

Lemma Inv_bounds cfg st R A :
  Inv cfg st R A ->
  0 < base cfg /\ base cfg + sizeof_Header <= heap_hi cfg st
  /\ heap_hi cfg st < base cfg + 2 ^ 36 /\ heap_hi cfg st < 2 ^ 64.
Proof.
  intros [[E1 E2 E3 E4 E5] HB _ _ _ _ _].
  cbn [blocks_in fst snd] in HB. destruct HB as (_ & _ & B3 & _).
  unfold heap_hi in *. zsolve.
Qed.

Lemma Inv_alloc_disjoint cfg st R A x y :
  Inv cfg st R A -> In x A -> In y ((base cfg, 0) :: R) -> disjoint x y.
Proof.
  intros [_ _ _ _ HA HAF _] Hx [<-|Hy].
  - rewrite Forall_forall in HA. destruct (HA x Hx) as (X1 & _).
    unfold disjoint. right. zsolve.
  - rewrite Forall_forall in HAF. specialize (HAF x Hx).
    rewrite Forall_forall in HAF. now apply HAF.
Qed.

Lemma Inv_alloc_far cfg st R A x y :
  Inv cfg st R A -> In x A -> In y ((base cfg, 0) :: R) ->
  fst x + sizeof_Header <= fst y \/ fst y + sizeof_Header <= fst x.
Proof.
  intros HI Hx Hy. pose proof (Inv_alloc_disjoint _ _ _ _ _ _ HI Hx Hy) as H.
  destruct HI as [_ HB _ _ HA _ _].
  rewrite Forall_forall in HA. destruct (HA x Hx) as (X1 & X2 & _).
  destruct (blocks_in_In _ _ _ _ HB Hy) as (_ & Y2 & _).
  unfold disjoint in H. zsolve.
Qed.

Theorem free_Inv cfg st R A1 A2 bp bs fuel :
  Inv cfg st R (A1 ++ (bp, bs) :: A2) ->
  (2 * (length R + 1) <= fuel)%nat ->
  let F := (base cfg, 0) :: R in
  let p := fl_pred (bp, bs) F 0 in
  let st' := with_freep (with_heap st (free_link (heap st) bp p)) p in
  free fuel st (padd bp 1) = Some st'
  /\ Inv cfg st' (tl (fl_insert (bp, bs) F)) (A1 ++ A2).
Proof.
  intros HI Hfuel F p st'.
  pose proof (Inv_bounds _ _ _ _ HI) as (Hb0 & Hb1 & Hb2 & Hb3).
  destruct HI as [Henv HB HC Hcur HA HAF HAA].
  apply pairwise_disjoint_remove in HAA. destruct HAA as [HAA Hbd].
  pose proof HA as HA'. apply Forall_app in HA'. destruct HA' as [HA1 HA2].
  inversion HA2 as [|? ? Hbok HA2']; subst. clear HA2.
  destruct Hbok as (K1 & K2 & K3 & K4). cbn [fst snd] in K1, K2, K3, K4.
  pose proof HAF as HAF'. apply Forall_app in HAF'. destruct HAF' as [HAF1 HAF2].
  inversion HAF2 as [|? ? HbR HAF2']; subst. clear HAF2.
  assert (HbF : Forall (disjoint (bp, get_size (heap st) bp)) F).
  { constructor; [|exact HbR]. unfold disjoint. right. zsolve. }
  assert (Hne : forall x, In x F -> fst x <> bp).
  { intros x Hx. rewrite Forall_forall in HbF. specialize (HbF x Hx).
    destruct (blocks_in_In _ _ _ _ HB Hx) as (_ & X2 & _).
    unfold disjoint in HbF. zsolve. }
  assert (Hscan : free_scan fuel (heap st) bp (freep st) = Some p).
  { apply (free_scan_ok (heap st) bp (get_size (heap st) bp) (base cfg) F
             (base cfg) (heap_hi cfg st)); try assumption; try reflexivity;
      try discriminate; try zsolve.
    subst F. cbn [length]. lia. }
  split.
  - unfold free. replace (padd bp 1 =? NULL) with false
      by (symmetry; apply Z.eqb_neq; zsolve).
    replace (padd (padd bp 1) (-1)) with bp by zsolve.
    rewrite Hscan. reflexivity.
  - assert (Hins : fl_insert (bp, get_size (heap st) bp) F
                   = (base cfg, 0) :: tl (fl_insert (bp, get_size (heap st) bp) F)).
    { apply fl_insert_head. zsolve. }
    assert (HB' : blocks_in (base cfg) (heap_hi cfg st)
                    (fl_insert (bp, get_size (heap st) bp) F)).
    { apply blocks_in_fl_insert; try assumption.
      - discriminate.
      - subst F. cbn [hd_addr fst]. zsolve. }
    assert (Hfar : forall x, In x (A1 ++ A2) ->
              hdr_same (free_link (heap st) bp p) (heap st) (fst x)).
    { intros x Hx.
      assert (Hxb : disjoint (bp, get_size (heap st) bp) x)
        by (rewrite Forall_forall in Hbd; now apply Hbd).
      assert (Hxok : alloc_ok cfg st x).
      { rewrite Forall_forall in HA. apply HA. apply in_app_iff.
        apply in_app_iff in Hx. cbn [In]. tauto. }
      assert (HxR : Forall (disjoint x) R).
      { rewrite Forall_forall in HAF. apply HAF. apply in_app_iff.
        apply in_app_iff in Hx. cbn [In]. tauto. }
      destruct Hxok as (X1 & X2 & X3 & X4).
      pose proof (fl_pred_In bp (get_size (heap st) bp) F 0 ltac:(discriminate)) as Hp.
      fold p in Hp. apply in_map_iff in Hp. destruct Hp as (pb & Hpb & Hp).
      assert (Hxp : disjoint x pb).
      { destruct Hp as [<-|Hp]; [unfold disjoint; right; zsolve|].
        rewrite Forall_forall in HxR. now apply HxR. }
      destruct (blocks_in_In _ _ _ _ HB Hp) as (_ & P2 & _).
      apply free_link_frame; rewrite <- ?Hpb; unfold disjoint in *; zsolve. }
    constructor.
    + apply (env_ok_eq cfg st); [reflexivity|reflexivity|exact Henv].
    + rewrite (heap_hi_eq cfg st st') by reflexivity.
      rewrite <- Hins. exact HB'.
    + rewrite <- Hins. cbn [heap st' with_freep with_heap].
      apply (free_link_chain _ _ _ _ _ (base cfg) (heap_hi cfg st));
        try assumption; try reflexivity; try zsolve; try discriminate.
      subst F. cbn [hd_addr fst]. zsolve.
    + rewrite <- Hins. cbn [freep st' with_freep with_heap].
      apply fl_pred_In_insert. discriminate.
    + rewrite Forall_forall. intros x Hx.
      assert (Hxok : alloc_ok cfg st x).
      { rewrite Forall_forall in HA. apply HA. apply in_app_iff.
        apply in_app_iff in Hx. cbn [In]. tauto. }
      destruct Hxok as (X1 & X2 & X3 & X4).
      unfold alloc_ok. rewrite (heap_hi_eq cfg st st') by reflexivity.
      repeat split; try assumption.
      cbn [heap st' with_freep with_heap].
      destruct (Hfar x Hx) as [_ E]. rewrite E. exact X4.
    + rewrite Forall_forall. intros x Hx.
      assert (Hxb : disjoint x (bp, get_size (heap st) bp))
        by (apply disjoint_sym; rewrite Forall_forall in Hbd; now apply Hbd).
      assert (Hxok : alloc_ok cfg st x).
      { rewrite Forall_forall in HA. apply HA. apply in_app_iff.
        apply in_app_iff in Hx. cbn [In]. tauto. }
      assert (HxR : Forall (disjoint x) R).
      { rewrite Forall_forall in HAF. apply HAF. apply in_app_iff.
        apply in_app_iff in Hx. cbn [In]. tauto. }
      destruct Hxok as (X1 & X2 & X3 & X4).
      assert (HxF : Forall (disjoint x) (fl_insert (bp, get_size (heap st) bp) F)).
      { apply (disjoint_fl_insert _ _ _ (base cfg) (heap_hi cfg st));
          try assumption.
        constructor; [|exact HxR]. unfold disjoint. right. zsolve. }
      rewrite Hins in HxF. now inversion HxF.
    + exact HAA.
Qed.

(** ** The allocator leaves the callers' bytes alone *)

Lemma payload_same_refl A m : payload_same A m m.
Proof. intros x y _ _. reflexivity. Qed.

Lemma payload_same_trans A m1 m2 m3 :
  payload_same A m1 m2 -> payload_same A m2 m3 -> payload_same A m1 m3.
Proof.
  intros H1 H2 x y Hx Hy. rewrite (H2 x y Hx Hy). exact (H1 x y Hx Hy).
Qed.

Lemma payload_same_eq A m m' : m' = m -> payload_same A m m'.
Proof. intros ->. apply payload_same_refl. Qed.

(** A byte of a block handed out lies outside every header of the ring. *)
Lemma payload_off_ring cfg st R A x y b :
  Inv cfg st R A -> In x A -> In b ((base cfg, 0) :: R) ->
  fst x + sizeof_Header <= y < padd (fst x) (snd x) ->
  y < fst b \/ fst b + sizeof_Header <= y.
Proof.
  intros HI Hx Hb Hy.
  pose proof (Inv_alloc_disjoint _ _ _ _ _ _ HI Hx Hb) as Hd.
  unfold disjoint in Hd. zsolve.
Qed.

Lemma free_payload cfg st R A1 A2 bp bs p :
  Inv cfg st R (A1 ++ (bp, bs) :: A2) ->
  In p (map fst ((base cfg, 0) :: R)) ->
  payload_same (A1 ++ A2) (heap st) (free_link (heap st) bp p).
Proof.
  intros HI Hp x y Hx Hy.
  apply in_map_iff in Hp. destruct Hp as (pb & <- & Hpb).
  assert (Hx' : In x (A1 ++ (bp, bs) :: A2)).
  { apply in_app_or in Hx. apply in_or_app. cbn [In]. tauto. }
  pose proof (payload_off_ring _ _ _ _ _ _ _ HI Hx' Hpb Hy) as H1.
  pose proof (inv_alloc_alloc _ _ _ _ HI) as HAA.
  apply pairwise_disjoint_remove in HAA. destruct HAA as [_ Hbd].
  rewrite Forall_forall in Hbd. specialize (Hbd x Hx).
  apply free_link_bytes; [zsolve|]. unfold disjoint in Hbd. zsolve.
Qed.

(** ** morecore *)

Lemma mmap_len_bounds nu ps :
  NALLOC <= nu -> 0 < ps -> sizeof_Header * nu + ps <= 2 ^ 32 ->
  let noPages :=
    ((((nu * sizeof_Header) mod SIZE_MOD - 1) mod SIZE_MOD) / ps + 1) mod UINT_MOD in
  let len := (noPages * ps) mod UINT_MOD in
  nu * sizeof_Header <= len < 2 ^ 32 /\ nu <= len / sizeof_Header < UINT_MOD
  /\ sizeof_Header * (len / sizeof_Header) <= len.
Proof.
  intros Hnu Hps Hsum. unfold_consts.
  rewrite (Z.mod_small (nu * 16)) by lia.
  rewrite (Z.mod_small (nu * 16 - 1)) by lia.
  pose proof (Z.div_mod (nu * 16 - 1) ps ltac:(lia)) as Hdm.
  pose proof (Z.mod_pos_bound (nu * 16 - 1) ps Hps) as Hm.
  assert (Hq : 0 <= (nu * 16 - 1) / ps) by (apply Z.div_pos; lia).
  assert (Hqp : ps * ((nu * 16 - 1) / ps) <= nu * 16 - 1) by lia.
  assert (Hq2 : (nu * 16 - 1) / ps + 1 < 4294967296) by nia.
  rewrite (Z.mod_small ((nu * 16 - 1) / ps + 1)) by lia.
  assert (Hlen : nu * 16 <= ((nu * 16 - 1) / ps + 1) * ps < 4294967296) by nia.
  rewrite (Z.mod_small (((nu * 16 - 1) / ps + 1) * ps)) by lia.
  cbv zeta.
  set (len := ((nu * 16 - 1) / ps + 1) * ps) in *.
  pose proof (Z.div_mod len 16 ltac:(lia)).
  pose proof (Z.mod_pos_bound len 16 ltac:(lia)).
  repeat split; try lia;
    first [apply Z.div_le_lower_bound; lia | apply Z.div_lt_upper_bound; lia].
Qed.

(** A fresh range at the top of the heap, entered as a block handed out. *)
Lemma Inv_grow cfg st st1 R A up nu :
  Inv cfg st R A ->
  heap st1 = set_size (heap st) up nu -> freep st1 = freep st ->
  env_ok cfg st1 ->
  heap_hi cfg st <= up -> fend (up, nu) <= heap_hi cfg st1 ->
  1 <= nu < UINT_MOD ->
  Inv cfg st1 R ((up, nu) :: A).
Proof.
  intros HI Hheap Hfreep Henv1 Hup Hend Hnu.
  pose proof (Inv_bounds _ _ _ _ HI) as (Hb0 & Hb1 & Hb2 & Hb3).
  destruct HI as [Henv HB HC Hcur HA HAF HAA].
  assert (Hhi : heap_hi cfg st <= heap_hi cfg st1) by zsolve.
  assert (Hfr : forall x, x + sizeof_Header <= up ->
                  hdr_same (heap st1) (heap st) x).
  { intros x Hx. rewrite Hheap. unfold hdr_same. hdr. auto. }
  assert (HRd : Forall (disjoint (up, nu)) R).
  { rewrite Forall_forall. intros x Hx.
    destruct (blocks_in_In _ _ _ _ HB (or_intror Hx)) as (X1 & X2 & X3).
    unfold disjoint. right. zsolve. }
  constructor.
  - exact Henv1.
  - eapply blocks_in_weaken; [| |exact HB]; lia.
  - eapply chain_frame; [|exact HC]. intros b Hb.
    destruct (blocks_in_In _ _ _ _ HB Hb) as (X1 & X2 & X3).
    apply Hfr. zsolve.
  - rewrite Hfreep. exact Hcur.
  - constructor.
    + unfold alloc_ok. cbn [fst snd]. rewrite Hheap. hdr.
      repeat split; try zsolve.
    + eapply Forall_impl; [|exact HA]. intros x (X1 & X2 & X3 & X4).
      unfold alloc_ok. destruct (Hfr (fst x)) as [_ E]; [zsolve|].
      rewrite E. repeat split; try assumption; lia.
  - constructor; assumption.
  - cbn [pairwise_disjoint]. split; [|exact HAA].
    eapply Forall_impl; [|exact HA]. intros x (X1 & X2 & X3 & X4).
    unfold disjoint. right. zsolve.
Qed.

Lemma Inv_mono cfg st st1 R A :
  Inv cfg st R A ->
  heap st1 = heap st -> freep st1 = freep st -> env_ok cfg st1 ->
  heap_hi cfg st <= heap_hi cfg st1 ->
  Inv cfg st1 R A.
Proof.
  intros [Henv HB HC Hcur HA HAF HAA] Hheap Hfreep Henv1 Hhi.
  constructor; rewrite ?Hheap, ?Hfreep; try assumption.
  - eapply blocks_in_weaken; [| |exact HB]; lia.
  - eapply Forall_impl; [|exact HA]. intros x (X1 & X2 & X3 & X4).
    unfold alloc_ok. rewrite Hheap. repeat split; try assumption; lia.
Qed.

Lemma fl_pred_pos cfg st R A b :
  Inv cfg st R A -> fl_pred b ((base cfg, 0) :: R) 0 <> NULL.
Proof.
  intros HI. pose proof (Inv_bounds _ _ _ _ HI) as (Hb0 & _).
  destruct HI as [_ HB _ _ _ _ _].
  destruct b as [bp bs].
  pose proof (fl_pred_In bp bs ((base cfg, 0) :: R) 0 ltac:(discriminate)) as H.
  apply in_map_iff in H. destruct H as (x & Hx & Hin).
  destruct (blocks_in_In _ _ _ _ HB Hin) as (X1 & _). zsolve.
Qed.

Lemma grow_payload cfg st st1 R A up nu p :
  Inv cfg st R A -> Inv cfg st1 R ((up, nu) :: A) ->
  heap st1 = set_size (heap st) up nu -> heap_hi cfg st <= up ->
  In p (map fst ((base cfg, 0) :: R)) ->
  payload_same A (heap st) (free_link (heap st1) up p).
Proof.
  intros HI HI1 Hheap Hup Hp.
  apply (payload_same_trans A _ (heap st1)).
  - intros x y Hx Hy. rewrite Hheap.
    pose proof (inv_alloc _ _ _ _ HI) as HA. rewrite Forall_forall in HA.
    destruct (HA x Hx) as (X1 & X2 & X3 & _).
    apply set_size_bytes. zsolve.
  - exact (free_payload cfg st1 R [] A up nu p HI1 Hp).
Qed.

Theorem morecore_ok cfg st R A nu fuel :
  Inv cfg st R A -> grow_ok cfg nu -> (2 * (length R + 1) <= fuel)%nat ->
  exists r st', morecore cfg fuel st nu = Some (r, st') /\
    ((r = NULL /\ heap st' = heap st /\ freep st' = freep st
      /\ Inv cfg st' R A)
     \/ (exists up nu', r = freep st' /\ r <> NULL /\ Z.max nu NALLOC <= nu'
           /\ heap_hi cfg st <= up
           /\ Inv cfg st' (tl (fl_insert (up, nu') ((base cfg, 0) :: R))) A
           /\ payload_same A (heap st) (heap st'))).
Proof.
  intros HI [Hnu Hmm] Hfuel.
  pose proof (Inv_bounds _ _ _ _ HI) as (Hb0 & Hb1 & Hb2 & Hb3).
  pose proof (inv_env _ _ _ _ HI) as [E1 E2 E3 E4 E5].
  unfold morecore.
  set (nu1 := if nu <? NALLOC then NALLOC else nu).
  assert (Hnu1 : nu1 = Z.max nu NALLOC).
  { subst nu1. destruct (nu <? NALLOC) eqn:E;
      [apply Z.ltb_lt in E|apply Z.ltb_ge in E]; lia. }
  assert (Hnu1' : NALLOC <= nu1 < UINT_MOD) by zsolve.
  destruct (MMAP cfg) eqn:EM.
  - (* mmap *)
    specialize (Hmm eq_refl). specialize (E4 eq_refl). specialize (E5 eq_refl).
    rewrite <- Hnu1 in Hmm.
    destruct (mmap_len_bounds nu1 (pagesize cfg)) as (L1 & L2 & L3);
      try lia.
    set (len := (((((nu1 * sizeof_Header) mod SIZE_MOD - 1) mod SIZE_MOD)
                   / pagesize cfg + 1) mod UINT_MOD * pagesize cfg) mod UINT_MOD) in *.
    set (st0 := if endHeap st =? 0
                then with_endHeap st (fst (sbrk (sys st) 0)) else st).
    assert (H0 : heap st0 = heap st /\ freep st0 = freep st /\ sys st0 = sys st
                 /\ endHeap st0 = heap_top cfg st).
    { subst st0. unfold heap_top. rewrite EM.
      destruct (endHeap st =? 0) eqn:E0; [|tauto].
      cbn [heap freep sys endHeap with_endHeap]. repeat split.
      unfold sbrk. replace (brk (sys st) + 0 <=? ceiling (sys st)) with true
        by (symmetry; apply Z.leb_le; lia). reflexivity. }
    destruct H0 as (H01 & H02 & H03 & H04).
    assert (Htop : brk (sys st) <= heap_top cfg st).
    { unfold heap_top. rewrite EM. destruct (endHeap st =? 0) eqn:E0; [lia|].
      apply Z.eqb_neq in E0. lia. }
    unfold mmap. rewrite H03, H04.
    destruct ((0 <? len) && (heap_top cfg st + len <=? ceiling (sys st))) eqn:Eok.
    + apply andb_true_iff in Eok. destruct Eok as [Ek1 Ek2].
      apply Z.leb_le in Ek2.
      replace (heap_top cfg st =? FAILED) with false
        by (symmetry; apply Z.eqb_neq; zsolve).
      set (up := heap_top cfg st) in *.
      set (st1 := with_heap (with_endHeap st0 (up + len))
                    (set_size (heap (with_endHeap st0 (up + len))) up
                       (len / sizeof_Header))).
      assert (Htop1 : heap_hi cfg st1 = up + len).
      { unfold heap_hi, heap_top. rewrite EM. subst st1.
        cbn [endHeap sys with_heap with_endHeap]. rewrite H03.
        replace (up + len =? 0) with false by (symmetry; apply Z.eqb_neq; zsolve).
        lia. }
      assert (HI1 : Inv cfg st1 R ((up, len / sizeof_Header) :: A)).
      { apply (Inv_grow cfg st); try assumption.
        - subst st1. cbn [heap with_heap with_endHeap]. now rewrite H01.
        - constructor; subst st1; cbn [endHeap sys with_heap with_endHeap];
            rewrite ?H03; try assumption; intros _; [exact E4|right; zsolve].
        - unfold heap_hi. fold up. lia.
        - rewrite Htop1. zsolve.
        - zsolve. }
      destruct (free_Inv cfg st1 R [] A up (len / sizeof_Header) fuel HI1 Hfuel)
        as [Hfree HI2].
      cbv zeta in Hfree, HI2. rewrite Hfree. cbn [app] in HI2.
      eexists _, _. split; [reflexivity|]. right.
      exists up, (len / sizeof_Header). cbn [freep with_freep].
      splits; try assumption; try reflexivity.
      * apply (fl_pred_pos cfg st1 R _ _ HI1).
      * lia.
      * unfold heap_hi. fold up. lia.
      * cbn [heap with_freep with_heap].
        apply (grow_payload cfg st st1 R A up (len / sizeof_Header));
          try assumption.
        -- subst st1. cbn [heap with_heap with_endHeap]. now rewrite H01.
        -- unfold heap_hi. fold up. lia.
        -- apply fl_pred_In. discriminate.
    + replace (FAILED =? FAILED) with true by reflexivity.
      eexists _, _. split; [reflexivity|]. left.
      cbn [heap freep with_endHeap]. splits; try assumption; try reflexivity.
      apply (Inv_mono cfg st); try assumption.
      * constructor; cbn [endHeap sys with_heap with_endHeap];
          rewrite ?H03; try assumption; intros _; [exact E4|right; zsolve].
      * unfold heap_hi. set (t := heap_top cfg st) in *.
        unfold heap_top. rewrite EM.
        cbn [endHeap sys with_endHeap]. rewrite H03.
        replace (t + len =? 0) with false
          by (symmetry; apply Z.eqb_neq; zsolve).
        zsolve.
  - (* sbrk *)
    assert (Htop : heap_top cfg st = brk (sys st)) by (unfold heap_top; now rewrite EM).
    rewrite (Z.mod_small (nu1 * sizeof_Header)) by zsolve.
    unfold sbrk.
    destruct (brk (sys st) + nu1 * sizeof_Header <=? ceiling (sys st)) eqn:Eok.
    + apply Z.leb_le in Eok.
      replace (brk (sys st) =? FAILED) with false
        by (symmetry; apply Z.eqb_neq; zsolve).
      set (up := brk (sys st)) in *.
      set (o1 := mkOs (up + nu1 * sizeof_Header) (ceiling (sys st))).
      set (st1 := with_heap (with_sys st o1)
                    (set_size (heap (with_sys st o1)) up nu1)).
      assert (Htop1 : heap_hi cfg st1 = up + nu1 * sizeof_Header).
      { unfold heap_hi, heap_top. rewrite EM. subst st1 o1.
        cbn [endHeap sys with_heap with_sys brk ceiling]. lia. }
      assert (HI1 : Inv cfg st1 R ((up, nu1) :: A)).
      { apply (Inv_grow cfg st); try assumption.
        - reflexivity.
        - reflexivity.
        - constructor; subst st1 o1;
            cbn [endHeap sys with_heap with_sys brk ceiling];
            try assumption; try congruence. zsolve.
        - unfold heap_hi. rewrite Htop. fold up. lia.
        - rewrite Htop1. zsolve.
        - zsolve. }
      destruct (free_Inv cfg st1 R [] A up nu1 fuel HI1 Hfuel) as [Hfree HI2].
      cbv zeta in Hfree, HI2. rewrite Hfree. cbn [app] in HI2.
      eexists _, _. split; [reflexivity|]. right.
      exists up, nu1. cbn [freep with_freep].
      splits; try assumption; try reflexivity.
      * apply (fl_pred_pos cfg st1 R _ _ HI1).
      * lia.
      * unfold heap_hi. rewrite Htop. fold up. lia.
      * cbn [heap with_freep with_heap].
        apply (grow_payload cfg st st1 R A up nu1); try assumption.
        -- reflexivity.
        -- unfold heap_hi. rewrite Htop. fold up. lia.
        -- apply fl_pred_In. discriminate.
    + replace (FAILED =? FAILED) with true by reflexivity.
      eexists _, _. split; [reflexivity|]. left.
      cbn [heap freep with_sys]. splits; try assumption; try reflexivity.
      apply (Inv_mono cfg st); try assumption; try reflexivity.
      apply (env_ok_eq cfg st); [reflexivity|reflexivity|].
      exact (inv_env _ _ _ _ HI).
Qed.

(** ** malloc: the scan of the ring *)

Section Scan.
Variable cfg : config.
Variable st : state.
Variable nunits : Z.
Let m := heap st.
Let f := freep st.

Lemma revolution_length : forall fuel p W,
  revolution fuel m f p = Some W -> (length W <= fuel)%nat /\ W <> [].
Proof.
  induction fuel as [|k IH]; intros p W H; cbn [revolution] in H; [discriminate|].
  destruct (p =? f).
  - inversion H; subst. cbn [length]. split; [lia|discriminate].
  - destruct (revolution k m f (get_ptr m p)) as [W'|] eqn:E; [|discriminate].
    cbn [option_map] in H. inversion H; subst.
    destruct (IH _ _ E). cbn [length]. split; [lia|discriminate].
Qed.

Lemma first_fit_found : forall W fuel fuel' prevp p pv q,
  revolution fuel' m f p = Some W ->
  first_fit m nunits prevp W = Some (pv, q) ->
  (length W <= fuel)%nat ->
  malloc_first_loop cfg fuel st nunits prevp p
  = Some (take_block st nunits pv q).
Proof.
  induction W as [|x W IH]; intros fuel fuel' prevp p pv q HW Hff Hfuel;
    [discriminate|].
  destruct fuel' as [|k']; [discriminate|]. cbn [revolution] in HW.
  destruct fuel as [|k]; [cbn [length] in Hfuel; lia|].
  assert (x = p).
  { destruct (p =? f); [now inversion HW|].
    destruct (revolution k' m f (get_ptr m p)); [|discriminate].
    now inversion HW. }
  subst x. cbn [first_fit] in Hff. cbn [malloc_first_loop]. fold m.
  destruct (get_size m p >=? nunits) eqn:E.
  - inversion Hff; subst. unfold take_block. fold m.
    destruct (get_size m q =? nunits); [reflexivity|].
    destruct (carve_tail m q nunits). reflexivity.
  - destruct (p =? f) eqn:Ef.
    + inversion HW; subst. discriminate.
    + fold f. rewrite Ef.
      destruct (revolution k' m f (get_ptr m p)) as [W'|] eqn:E'; [|discriminate].
      inversion HW; subst. apply (IH k k'); try assumption.
      cbn [length] in Hfuel. lia.
Qed.

Lemma first_fit_none : forall W k fuel' prevp p,
  revolution fuel' m f p = Some W ->
  first_fit m nunits prevp W = None ->
  malloc_first_loop cfg (length W + k) st nunits prevp p
  = match morecore cfg k st nunits with
    | None => None
    | Some (r, st') =>
      if r =? NULL then Some (NULL, st')
      else malloc_first_loop cfg k st' nunits r (get_ptr (heap st') r)
    end.
Proof.
  induction W as [|x W IH]; intros k fuel' prevp p HW Hff.
  - destruct (revolution_length _ _ _ HW) as [_ H]. congruence.
  - destruct fuel' as [|k']; [discriminate|]. cbn [revolution] in HW.
    assert (x = p).
    { destruct (p =? f); [now inversion HW|].
      destruct (revolution k' m f (get_ptr m p)); [|discriminate].
      now inversion HW. }
    subst x. cbn [first_fit] in Hff. cbn [length Nat.add malloc_first_loop]. fold m.
    destruct (get_size m p >=? nunits) eqn:E; [discriminate|].
    fold f. destruct (p =? f) eqn:Ef.
    + inversion HW; subst. cbn [length Nat.add]. reflexivity.
    + destruct (revolution k' m f (get_ptr m p)) as [W'|] eqn:E'; [|discriminate].
      inversion HW; subst. apply (IH k k'); assumption.
Qed.

Lemma first_fit_link : forall W fuel' prevp pv q,
  revolution fuel' m f (get_ptr m prevp) = Some W ->
  first_fit m nunits prevp W = Some (pv, q) ->
  get_ptr m pv = q /\ (pv = prevp \/ In pv W) /\ In q W
  /\ nunits <= get_size m q.
Proof.
  induction W as [|x W IH]; intros fuel' prevp pv q HW Hff; [discriminate|].
  destruct fuel' as [|k']; [discriminate|]. cbn [revolution] in HW.
  assert (x = get_ptr m prevp).
  { destruct (get_ptr m prevp =? f); [now inversion HW|].
    destruct (revolution k' m f (get_ptr m (get_ptr m prevp))); [|discriminate].
    now inversion HW. }
  subst x. cbn [first_fit] in Hff.
  destruct (get_size m (get_ptr m prevp) >=? nunits) eqn:E.
  - inversion Hff; subst. apply Z.geb_le in E. cbn [In]. tauto.
  - destruct (get_ptr m prevp =? f); [inversion HW; subst; discriminate|].
    destruct (revolution k' m f (get_ptr m (get_ptr m prevp))) as [W'|] eqn:E';
      [|discriminate].
    inversion HW; subst.
    destruct (IH k' (get_ptr m prevp) pv q E' Hff) as (H1 & H2 & H3 & H4).
    cbn [In]. intuition auto.
Qed.

Lemma first_fit_some : forall W prevp x,
  In x W -> nunits <= get_size m x ->
  exists pv q, first_fit m nunits prevp W = Some (pv, q).
Proof.
  induction W as [|y W IH]; intros prevp x Hin Hx; [contradiction|].
  cbn [first_fit]. destruct (get_size m y >=? nunits) eqn:E; [eauto|].
  destruct Hin as [->|Hin].
  - rewrite Z.geb_leb in E. apply Z.leb_gt in E. lia.
  - eapply IH; eassumption.
Qed.

End Scan.

(** ** The ring is one cycle *)

Lemma blocks_in_split P : forall lo hi b S,
  blocks_in lo hi (P ++ b :: S) ->
  (forall x, In x P -> fst x + sizeof_Header <= fst b)
  /\ (forall x, In x S -> fst b + sizeof_Header <= fst x).
Proof.
  intros lo hi b S H. split.
  - intros x Hx.
    apply (blocks_in_app_lt P lo hi (b :: S) x 0 H Hx). discriminate.
  - intros x Hx. apply blocks_in_app in H. destruct H as [_ H].
    cbn [blocks_in] in H. destruct H as (_ & _ & _ & H).
    destruct (blocks_in_In _ _ _ _ H Hx) as (X & _). zsolve.
Qed.

Lemma revolution_chain m f L : forall x k,
  chain m L x -> (forall b, In b L -> fst b <> f) ->
  revolution (length L + k) m f (hd_addr L x)
  = option_map (app (map fst L)) (revolution k m f x).
Proof.
  induction L as [|b L IH]; intros x k HC Hne.
  - cbn [length Nat.add hd_addr map app].
    destruct (revolution k m f x); reflexivity.
  - cbn [length Nat.add hd_addr revolution].
    cbn [chain] in HC. destruct HC as (C1 & C2 & C3).
    replace (fst b =? f) with false
      by (symmetry; apply Z.eqb_neq; apply Hne; now left).
    rewrite C1, IH; [|exact C3|intros y Hy; apply Hne; now right].
    destruct (revolution k m f x); reflexivity.
Qed.

Lemma ring_revolution m F lo hi c f :
  blocks_in lo hi F -> chain m F c -> hd_addr F 0 = c ->
  In f (map fst F) ->
  exists P fs S, F = P ++ (f, fs) :: S
    /\ revolution (length F) m f (get_ptr m f)
       = Some (map fst (S ++ P ++ [(f, fs)])).
Proof.
  intros HB HC Hhd Hin.
  apply in_map_iff in Hin. destruct Hin as ([f' fs] & Hf & Hin).
  cbn [fst] in Hf. subst f'.
  apply in_split in Hin. destruct Hin as (P & S & ->).
  exists P, fs, S. split; [reflexivity|].
  destruct (blocks_in_split P lo hi (f, fs) S HB) as [HP HS]. cbn [fst] in HP, HS.
  apply chain_app in HC. destruct HC as [HCP HCf].
  cbn [chain hd_addr fst snd] in HCf, HCP. destruct HCf as (C1 & C2 & C3).
  rewrite C1.
  replace (length (P ++ (f, fs) :: S)) with (length S + (length P + 1))%nat
    by (rewrite length_app; cbn [length]; lia).
  rewrite revolution_chain;
    [|exact C3|intros b Hb; specialize (HS b Hb); zsolve].
  assert (Hc : c = hd_addr P f).
  { rewrite <- Hhd. destruct P; reflexivity. }
  rewrite Hc, revolution_chain;
    [|exact HCP|intros b Hb; specialize (HP b Hb); zsolve].
  cbn [revolution]. rewrite Z.eqb_refl. cbn [option_map].
  rewrite !map_app. reflexivity.
Qed.

(** From a link [pv -> q] of the ring with [q] not the head, the list splits
    at the two blocks. *)
Lemma ring_link m F lo hi c pv q :
  blocks_in lo hi F -> chain m F c -> In pv (map fst F) ->
  get_ptr m pv = q -> q <> c ->
  exists F1 pvs qs F2, F = F1 ++ (pv, pvs) :: (q, qs) :: F2.
Proof.
  intros HB HC Hin Hq Hne.
  apply in_map_iff in Hin. destruct Hin as ([pv' pvs] & Hf & Hin).
  cbn [fst] in Hf. subst pv'.
  apply in_split in Hin. destruct Hin as (F1 & S & ->).
  apply chain_app in HC. destruct HC as [_ HC].
  cbn [chain fst snd] in HC. destruct HC as (C1 & _).
  destruct S as [|[q' qs] S]; cbn [hd_addr fst] in C1; [congruence|].
  exists F1, pvs, qs, S. congruence.
Qed.

(** ** malloc: taking a block off the ring *)

Lemma blocks_in_gaps P : forall lo hi b S,
  blocks_in lo hi (P ++ b :: S) ->
  (forall x, In x P -> gap_after x <= fst b)
  /\ (forall x, In x S -> gap_after b <= fst x /\ 0 <= snd x).
Proof.
  intros lo hi b S H. apply blocks_in_app in H. destruct H as [HP HS]. split.
  - intros x Hx. pose proof (bound_after_In _ _ _ _ HP Hx).
    cbn [blocks_in] in HS. lia.
  - intros x Hx. cbn [blocks_in] in HS. destruct HS as (_ & _ & _ & HS).
    destruct (blocks_in_In _ _ _ _ HS Hx) as (X1 & X2 & _). lia.
Qed.

Lemma fl_remove_split q qs P : forall S,
  (forall x, In x P -> fst x <> q) ->
  fl_remove q (P ++ (q, qs) :: S) = P ++ S.
Proof.
  induction P as [|b P IH]; intros S Hne; cbn [app fl_remove fst].
  - now rewrite Z.eqb_refl.
  - replace (fst b =? q) with false
      by (symmetry; apply Z.eqb_neq; apply Hne; now left).
    f_equal. apply IH. intros x Hx. apply Hne. now right.
Qed.

Lemma fl_shrink_split q qs n P : forall S,
  (forall x, In x P -> fst x <> q) ->
  fl_shrink q n (P ++ (q, qs) :: S) = P ++ (q, qs - n) :: S.
Proof.
  induction P as [|b P IH]; intros S Hne; cbn [app fl_shrink fst snd].
  - now rewrite Z.eqb_refl.
  - replace (fst b =? q) with false
      by (symmetry; apply Z.eqb_neq; apply Hne; now left).
    f_equal. apply IH. intros x Hx. apply Hne. now right.
Qed.

Lemma fl_remove_In q l : forall x, In x (fl_remove q l) -> In x l.
Proof.
  induction l as [|b l IH]; intros x Hx; cbn [fl_remove] in Hx; [exact Hx|].
  destruct (fst b =? q); [now right|].
  destruct Hx as [<-|Hx]; [now left|right; now apply IH].
Qed.

Theorem unlink_Inv cfg st R A pv q :
  Inv cfg st R A ->
  In pv (map fst ((base cfg, 0) :: R)) ->
  get_ptr (heap st) pv = q -> q <> base cfg -> 1 <= get_size (heap st) q ->
  Inv cfg
    (with_freep (with_heap st (set_ptr (heap st) pv (get_ptr (heap st) q))) pv)
    (fl_remove q R) ((q, get_size (heap st) q) :: A).
Proof.
  intros HI Hpv Hq Hne Hsz.
  pose proof (Inv_bounds _ _ _ _ HI) as (Hb0 & Hb1 & Hb2 & Hb3).
  pose proof HI as [Henv HB HC Hcur HA HAF HAA].
  destruct (ring_link _ _ _ _ _ _ _ HB HC Hpv Hq Hne) as (F1 & pvs & qs & F2 & EF).
  set (m := heap st) in *.
  set (m' := set_ptr m pv (get_ptr m q)).
  set (st' := with_freep (with_heap st m') pv).
  assert (Hqs : get_size m q = qs).
  { apply (chain_In m _ (base cfg) (q, qs) HC). rewrite EF.
    apply in_or_app. right. right. now left. }
  rewrite Hqs in *.
  (* the blocks of the list around the link *)
  pose proof HB as HB0. rewrite EF in HB0.
  destruct (blocks_in_gaps F1 _ _ _ _ HB0) as [G1 G2]. cbn [fst] in G1, G2.
  assert (Gq : gap_after (pv, pvs) <= q /\ 0 <= qs)
    by (apply (G2 (q, qs)); now left).
  assert (HB1 : blocks_in (base cfg) (heap_hi cfg st) (F1 ++ (pv, pvs) :: F2)).
  { apply blocks_in_app in HB0. destruct HB0 as [HBa HBb].
    apply blocks_in_app. split; [exact HBa|].
    cbn [blocks_in] in HBb |- *. destruct HBb as (B1 & B2 & B3 & _ & _ & _ & B7).
    splits; try assumption.
    eapply blocks_in_weaken; [| |exact B7]; zsolve. }
  assert (EF' : (base cfg, 0) :: fl_remove q R = F1 ++ (pv, pvs) :: F2).
  { replace ((base cfg, 0) :: fl_remove q R)
      with (fl_remove q ((base cfg, 0) :: R)).
    - rewrite EF.
      replace (F1 ++ (pv, pvs) :: (q, qs) :: F2)
        with ((F1 ++ [(pv, pvs)]) ++ (q, qs) :: F2)
        by (rewrite <- app_assoc; reflexivity).
      rewrite fl_remove_split, <- app_assoc; [reflexivity|].
      intros x Hx. apply in_app_or in Hx. destruct Hx as [Hx|[<-|[]]].
      + specialize (G1 x Hx). zsolve.
      + zsolve.
    - cbn [fl_remove fst].
      replace (base cfg =? q) with false
        by (symmetry; apply Z.eqb_neq; congruence). reflexivity. }
  assert (Hfr : forall x, x + sizeof_Header <= pv \/ pv + sizeof_Header <= x ->
                  hdr_same m' m x).
  { intros x Hx. subst m'. unfold hdr_same. hdr. auto. }
  assert (HqR : In (q, qs) R).
  { assert (H : In (q, qs) ((base cfg, 0) :: R)).
    { rewrite EF. apply in_or_app. right. right. now left. }
    destruct H as [H|H]; [congruence|exact H]. }
  pose proof (fl_remove_In q R) as Hsub.
  constructor.
  - apply (env_ok_eq cfg st); [reflexivity|reflexivity|exact Henv].
  - rewrite (heap_hi_eq cfg st st') by reflexivity. rewrite EF'. exact HB1.
  - rewrite EF'. cbn [heap st' with_freep with_heap].
    rewrite EF in HC. apply chain_app in HC. destruct HC as [HC1 HC2].
    cbn [chain hd_addr fst snd] in HC1, HC2.
    destruct HC2 as (C1 & C2 & C3 & C4 & C5).
    apply chain_app. split.
    + cbn [hd_addr fst]. eapply chain_frame; [|exact HC1].
      intros b Hb. apply Hfr. specialize (G1 b Hb). zsolve.
    + cbn [chain fst snd]. pose proof (get_ptr_range m q).
      subst m'. hdr. splits; try assumption.
      eapply chain_frame; [|exact C5]. intros b Hb.
      unfold hdr_same in Hfr. fold m. apply (Hfr (fst b)).
      assert (Hb' : In b ((q, qs) :: F2)) by now right.
      destruct (G2 b Hb'). zsolve.
  - cbn [freep st' with_freep]. rewrite EF'. rewrite map_app.
    apply in_or_app. right. now left.
  - constructor.
    + unfold alloc_ok. cbn [fst snd heap st' with_freep with_heap].
      rewrite (heap_hi_eq cfg st st') by reflexivity.
      destruct (blocks_in_In _ _ _ _ HB (or_intror HqR)) as (X1 & X2 & X3).
      destruct (Hfr q) as [_ E]; [zsolve|]. rewrite E.
      splits; try assumption; try zsolve.
      cbn [blocks_in fst snd] in HB. destruct HB as (_ & _ & _ & HB).
      destruct (blocks_in_In _ _ _ _ HB HqR) as (Y1 & _). zsolve.
    + rewrite Forall_forall. intros x Hx.
      rewrite Forall_forall in HA. destruct (HA x Hx) as (X1 & X2 & X3 & X4).
      unfold alloc_ok. rewrite (heap_hi_eq cfg st st') by reflexivity.
      cbn [heap st' with_freep with_heap].
      destruct (Hfr (fst x)) as [_ E].
      { apply in_map_iff in Hpv. destruct Hpv as (pb & <- & Hpb).
        apply (Inv_alloc_far _ _ _ _ _ _ HI Hx Hpb). }
      rewrite E. splits; assumption.
  - constructor.
    + rewrite Forall_forall. intros y Hy.
      assert (Hy' : In y (F1 ++ (pv, pvs) :: F2))
        by (rewrite <- EF'; now right).
      unfold disjoint. cbn [fst]. apply in_app_or in Hy'.
      destruct (blocks_in_In _ _ _ _ HB (or_intror (Hsub y Hy))) as (_ & Y2 & _).
      destruct Hy' as [Hy'|[<-|Hy']].
      * specialize (G1 y Hy'). right. zsolve.
      * right. zsolve.
      * assert (Hy2 : In y ((q, qs) :: F2)) by now right.
        rewrite EF in HB. apply blocks_in_app in HB. destruct HB as [_ HB].
        cbn [blocks_in] in HB. destruct HB as (_ & _ & _ & _ & _ & _ & HB).
        destruct (blocks_in_In _ _ _ _ HB Hy') as (Y1 & _). left. zsolve.
    + rewrite Forall_forall. intros x Hx.
      rewrite Forall_forall in HAF. specialize (HAF x Hx).
      rewrite Forall_forall in HAF |- *. intros y Hy. apply HAF, Hsub, Hy.
  - cbn [pairwise_disjoint]. split; [|exact HAA].
    rewrite Forall_forall. intros x Hx. apply disjoint_sym.
    apply (Inv_alloc_disjoint _ _ _ _ _ _ HI Hx). now right.
Qed.

Lemma fl_shrink_addrs q n l : map fst (fl_shrink q n l) = map fst l.
Proof.
  induction l as [|b l IH]; [reflexivity|]. cbn [fl_shrink].
  destruct (fst b =? q); cbn [map fst]; [reflexivity|]. now rewrite IH.
Qed.

Lemma fl_shrink_length q n l : length (fl_shrink q n l) = length l.
Proof.
  induction l as [|b l IH]; [reflexivity|]. cbn [fl_shrink].
  destruct (fst b =? q); cbn [length]; [reflexivity|]. now rewrite IH.
Qed.

Lemma fl_remove_length q l : (length (fl_remove q l) <= length l)%nat.
Proof.
  induction l as [|b l IH]; [cbn; lia|]. cbn [fl_remove].
  destruct (fst b =? q); cbn [length]; lia.
Qed.

Theorem carve_Inv cfg st R A pv q n :
  Inv cfg st R A ->
  In pv (map fst ((base cfg, 0) :: R)) -> In q (map fst R) ->
  1 <= n -> n < get_size (heap st) q ->
  snd (carve_tail (heap st) q n) = padd q (get_size (heap st) q - n)
  /\ Inv cfg
       (with_freep (with_heap st (fst (carve_tail (heap st) q n))) pv)
       (fl_shrink q n R)
       ((padd q (get_size (heap st) q - n), n) :: A).
Proof.
  intros HI Hpv Hq Hn Hlt.
  pose proof (Inv_bounds _ _ _ _ HI) as (Hb0 & Hb1 & Hb2 & Hb3).
  pose proof HI as [Henv HB HC Hcur HA HAF HAA].
  apply in_map_iff in Hq. destruct Hq as ([q0 qs] & Hq0 & HqR).
  cbn [fst] in Hq0. subst q0.
  pose proof HqR as Hsp. apply in_split in Hsp. destruct Hsp as (R1 & R2 & ER).
  set (m := heap st) in *.
  assert (Hqs : get_size m q = qs).
  { apply (chain_In m _ (base cfg) (q, qs) HC). now right. }
  rewrite Hqs in *.
  pose proof (get_size_range m q) as Hr. rewrite Hqs in Hr.
  pose proof HB as HB0. rewrite ER in HB0.
  change ((base cfg, 0) :: R1 ++ (q, qs) :: R2)
    with (((base cfg, 0) :: R1) ++ (q, qs) :: R2) in HB0.
  destruct (blocks_in_gaps _ _ _ _ _ HB0) as [G1 G2]. cbn [fst] in G1, G2.
  destruct (blocks_in_In _ _ _ _ HB (or_intror HqR)) as (X1 & X2 & X3).
  assert (Hqb : base cfg + sizeof_Header <= q).
  { specialize (G1 (base cfg, 0) (or_introl eq_refl)). zsolve. }
  unfold carve_tail. fold m. rewrite ?Hqs.
  rewrite (Z.mod_small (qs - n)) by zsolve.
  rewrite (get_size_set_size m q (qs - n)) by zsolve.
  cbn [fst snd]. split; [reflexivity|].
  set (q' := padd q (qs - n)).
  set (m' := set_size (set_size m q (qs - n)) q' n).
  set (st' := with_freep (with_heap st m') pv).
  assert (Hq' : q' = q + 16 * (qs - n)) by (subst q'; zsolve).
  assert (Hfr : forall x, x + sizeof_Header <= q \/ padd q qs <= x ->
                  hdr_same m' m x).
  { intros x Hx. subst m'. unfold hdr_same. hdr. auto. }
  assert (ER' : fl_shrink q n R = R1 ++ (q, qs - n) :: R2).
  { rewrite ER. apply fl_shrink_split. intros x Hx.
    specialize (G1 x (or_intror Hx)). zsolve. }
  assert (HB1 : blocks_in (base cfg) (heap_hi cfg st)
                  (((base cfg, 0) :: R1) ++ (q, qs - n) :: R2)).
  { apply blocks_in_app in HB0. destruct HB0 as [HBa HBb].
    apply blocks_in_app. split; [exact HBa|].
    cbn [blocks_in fst snd] in HBb |- *. destruct HBb as (B1 & B2 & B3 & B4).
    splits; try assumption; try zsolve.
    eapply blocks_in_weaken; [| |exact B4]; zsolve. }
  assert (Hfar : forall x, In x A ->
            fst x + sizeof_Header <= q \/ padd q qs <= fst x).
  { intros x Hx.
    pose proof (Inv_alloc_disjoint _ _ _ _ _ _ HI Hx (or_intror HqR)) as Hd.
    rewrite Forall_forall in HA. destruct (HA x Hx) as (A1 & A2 & _).
    unfold disjoint in Hd. zsolve. }
  constructor.
  - apply (env_ok_eq cfg st); [reflexivity|reflexivity|exact Henv].
  - rewrite (heap_hi_eq cfg st st') by reflexivity. rewrite ER'. exact HB1.
  - rewrite ER'. cbn [heap st' with_freep with_heap].
    rewrite ER in HC.
    change ((base cfg, 0) :: R1 ++ (q, qs) :: R2)
      with (((base cfg, 0) :: R1) ++ (q, qs) :: R2) in HC.
    apply chain_app in HC. destruct HC as [HC1 HC2].
    cbn [chain hd_addr fst snd] in HC1, HC2. destruct HC2 as (C1 & C2 & C3).
    change ((base cfg, 0) :: R1 ++ (q, qs - n) :: R2)
      with (((base cfg, 0) :: R1) ++ (q, qs - n) :: R2).
    apply chain_app. split.
    + cbn [hd_addr fst]. eapply chain_frame; [|exact HC1].
      intros b Hb. apply Hfr. specialize (G1 b Hb). zsolve.
    + cbn [chain fst snd]. subst m'. hdr. splits; try assumption; try reflexivity.
      eapply chain_frame; [|exact C3]. intros b Hb.
      unfold hdr_same in Hfr. fold m. apply (Hfr (fst b)).
      destruct (G2 b Hb). zsolve.
  - cbn [freep st' with_freep]. cbn [map] in Hpv |- *.
    rewrite fl_shrink_addrs. exact Hpv.
  - constructor.
    + unfold alloc_ok. cbn [fst snd heap st' with_freep with_heap].
      rewrite (heap_hi_eq cfg st st') by reflexivity.
      subst m'. hdr. splits; try zsolve.
    + rewrite Forall_forall. intros x Hx.
      rewrite Forall_forall in HA. destruct (HA x Hx) as (A1 & A2 & A3 & A4).
      unfold alloc_ok. rewrite (heap_hi_eq cfg st st') by reflexivity.
      cbn [heap st' with_freep with_heap].
      destruct (Hfr (fst x) (Hfar x Hx)) as [_ E].
      rewrite E. splits; assumption.
  - constructor.
    + rewrite ER'. rewrite Forall_forall. intros y Hy.
      unfold disjoint. cbn [fst]. apply in_app_or in Hy.
      destruct Hy as [Hy|[<-|Hy]].
      * specialize (G1 y (or_intror Hy)). right. zsolve.
      * right. zsolve.
      * destruct (G2 y Hy). left. zsolve.
    + rewrite Forall_forall. intros x Hx.
      pose proof (Inv_alloc_disjoint _ _ _ _ _ _ HI Hx (or_intror HqR)) as Hxf.
      unfold disjoint in Hxf.
      rewrite Forall_forall in HA. destruct (HA x Hx) as (A1 & A2 & _).
      rewrite Forall_forall in HAF. specialize (HAF x Hx).
      rewrite Forall_forall in HAF. rewrite ER'.
      rewrite Forall_forall. intros y Hy. apply in_app_or in Hy.
      destruct Hy as [Hy|[<-|Hy]].
      * apply HAF. rewrite ER. apply in_or_app. now left.
      * unfold disjoint. zsolve.
      * apply HAF. rewrite ER. apply in_or_app. right. now right.
  - cbn [pairwise_disjoint]. split; [|exact HAA].
    rewrite Forall_forall. intros x Hx.
    pose proof (Inv_alloc_disjoint _ _ _ _ _ _ HI Hx (or_intror HqR)) as Hxf.
    rewrite Forall_forall in HA. destruct (HA x Hx) as (A1 & A2 & _).
    unfold disjoint in *. zsolve.
Qed.

(** ** malloc: requests and the first call *)

Lemma nunits_of_ok cfg n :
  (MMAP cfg = true -> 0 < pagesize cfg <= 2 ^ 30) ->
  request_ok cfg n ->
  nunits_of n = (n + 15) / 16 + 1
  /\ 2 <= nunits_of n < UINT_MOD
  /\ n <= sizeof_Header * (nunits_of n - 1)
  /\ grow_ok cfg (nunits_of n).
Proof.
  intros Hps [Hn0 Hn]. unfold nunits_of, grow_ok, max_request in *.
  assert (Hmax : n <= 16 * (4294967296 - 2)).
  { destruct (MMAP cfg); zsolve. }
  unfold_consts.
  replace (n + 16 - 1) with (n + 15) by lia.
  rewrite (Z.mod_small (n + 15)) by lia.
  pose proof (Z.div_mod (n + 15) 16 ltac:(lia)) as Hdm.
  pose proof (Z.mod_pos_bound (n + 15) 16 ltac:(lia)) as Hm.
  assert (Hq : 1 <= (n + 15) / 16 <= 4294967294) by lia.
  rewrite (Z.mod_small ((n + 15) / 16 + 1)) by lia.
  splits; try lia.
  intros EM. rewrite EM in Hn. specialize (Hps EM). lia.
Qed.

Lemma nunits_of_counts cfg n :
  counts_ok cfg n ->
  nunits_of n = (n + 15) / 16 + 1
  /\ 2 <= nunits_of n < UINT_MOD
  /\ n <= sizeof_Header * (nunits_of n - 1)
  /\ grow_ok cfg (nunits_of n).
Proof.
  intros [[Hn0 Hn] Hg]. split; [|split; [|split]]; [| | |exact Hg];
    clear Hg; unfold nunits_of in *; unfold_consts;
    replace (n + 16 - 1) with (n + 15) by lia;
    rewrite (Z.mod_small (n + 15)) by lia;
    pose proof (Z.div_mod (n + 15) 16 ltac:(lia)) as Hdm;
    pose proof (Z.mod_pos_bound (n + 15) 16 ltac:(lia)) as Hm;
    assert (Hq : 1 <= (n + 15) / 16 <= 4294967294) by lia;
    rewrite (Z.mod_small ((n + 15) / 16 + 1)) by lia; lia.
Qed.

Lemma request_counts_ok cfg n :
  (MMAP cfg = true -> 0 < pagesize cfg <= 2 ^ 30) ->
  request_ok cfg n -> counts_ok cfg n.
Proof.
  intros Hps Hreq.
  destruct (nunits_of_ok cfg n Hps Hreq) as (_ & _ & _ & Hg).
  split; [|exact Hg]. destruct Hreq as [Hn0 Hn]. unfold max_request in Hn.
  destruct (MMAP cfg); unfold_consts; zsolve.
Qed.

Lemma malloc_init_Inv cfg st R A :
  Inv cfg st R A -> malloc_init cfg st = st /\ freep st <> NULL.
Proof.
  intros HI. pose proof (Inv_bounds _ _ _ _ HI) as (Hb0 & _).
  destruct HI as [_ HB _ Hcur _ _ _].
  assert (H : freep st <> NULL).
  { apply in_map_iff in Hcur. destruct Hcur as (x & Hx & Hin).
    destruct (blocks_in_In _ _ _ _ HB Hin) as (X1 & _). zsolve. }
  split; [|exact H]. unfold malloc_init.
  apply Z.eqb_neq in H. now rewrite H.
Qed.

Lemma malloc_init_Fresh cfg st :
  Fresh cfg st ->
  Inv cfg (malloc_init cfg st) [] [] /\ freep (malloc_init cfg st) = base cfg.
Proof.
  intros [Henv Hf]. unfold malloc_init. rewrite Hf. cbn [Z.eqb NULL].
  change (0 =? 0) with true. cbv iota.
  pose proof Henv as [E1 E2 E3 E4 E5].
  split; [|reflexivity].
  set (st' := with_heap _ _).
  assert (Hhi : base cfg + sizeof_Header <= heap_hi cfg st').
  { rewrite (heap_hi_eq cfg st st') by reflexivity.
    unfold heap_hi, heap_top. destruct (MMAP cfg) eqn:EM; [|lia].
    destruct (endHeap st =? 0) eqn:E0; [lia|].
    apply Z.eqb_neq in E0. specialize (E5 eq_refl). lia. }
  constructor.
  - apply (env_ok_eq cfg st); [reflexivity|reflexivity|exact Henv].
  - cbn [blocks_in fst snd]. splits; try exact I; zsolve.
  - subst st'. cbn [chain hd_addr fst snd heap with_heap with_freep].
    hdr. tauto.
  - cbn [map In fst]. now left.
  - constructor.
  - constructor.
  - exact I.
Qed.

Lemma fl_insert_length b F : (length (fl_insert b F) <= S (length F))%nat.
Proof.
  induction F as [|p F IH]; [cbn; lia|]. cbn [fl_insert].
  destruct (hd_addr F (fst b + 1) <? fst b); cbn [length]; [lia|].
  unfold fl_join_lower, fl_join_upper.
  destruct F as [|q F].
  - destruct (padd (fst p) (snd p) =? fst b); cbn [length]; lia.
  - destruct (padd (fst b) (snd b) =? fst q);
      [destruct (padd (fst p) (snd p) =? fst (fst b, snd b + snd q))
      |destruct (padd (fst p) (snd p) =? fst b)]; cbn [length]; lia.
Qed.

(** After the insertion some block of the list holds at least the units of
    the inserted one. *)
Lemma fl_insert_has b F : forall lo hi,
  blocks_in lo hi F ->
  exists y, In y (fl_insert b F) /\ snd b <= snd y.
Proof.
  induction F as [|p F IH]; intros lo hi HB.
  - exists b. split; [now left|lia].
  - cbn [blocks_in] in HB. destruct HB as (B1 & B2 & B3 & B4).
    cbn [fl_insert]. destruct (hd_addr F (fst b + 1) <? fst b).
    + destruct (IH _ _ B4) as (y & Hy & Hs). exists y. split; [now right|exact Hs].
    + unfold fl_join_lower, fl_join_upper.
      destruct F as [|q F].
      * destruct (padd (fst p) (snd p) =? fst b); cbn [fst snd].
        -- exists (fst p, snd p + snd b). split; [now left|cbn [snd]; lia].
        -- exists b. split; [right; now left|lia].
      * cbn [blocks_in] in B4. destruct B4 as (Q1 & Q2 & _).
        destruct (padd (fst b) (snd b) =? fst q).
        -- destruct (padd (fst p) (snd p) =? fst (fst b, snd b + snd q));
             cbn [fst snd].
           ++ exists (fst p, snd p + (snd b + snd q)).
              split; [now left|cbn [snd]; lia].
           ++ exists (fst b, snd b + snd q).
              split; [right; now left|cbn [snd]; lia].
        -- destruct (padd (fst p) (snd p) =? fst b); cbn [fst snd].
           ++ exists (fst p, snd p + snd b). split; [now left|cbn [snd]; lia].
           ++ exists b. split; [right; now left|lia].
Qed.

(** Under the invariant one revolution visits the whole ring. *)
Lemma Inv_revolution cfg st R A :
  Inv cfg st R A ->
  exists W, revolution (length R + 1) (heap st) (freep st)
              (get_ptr (heap st) (freep st)) = Some W
    /\ length W = (length R + 1)%nat
    /\ (forall x, In x W <-> In x (map fst ((base cfg, 0) :: R))).
Proof.
  intros [_ HB HC Hcur _ _ _].
  destruct (ring_revolution _ _ _ _ _ _ HB HC eq_refl Hcur)
    as (P & fs & S & EF & Hrev).
  exists (map fst (S ++ P ++ [(freep st, fs)])).
  replace (length R + 1)%nat with (length ((base cfg, 0) :: R))
    by (cbn [length]; lia).
  split; [exact Hrev|]. split.
  - rewrite length_map, EF, !length_app. cbn [length]. lia.
  - intros x. rewrite EF, !map_app, !in_app_iff. cbn [map In]. tauto.
Qed.

Lemma Inv_not_base cfg st R A q :
  Inv cfg st R A -> In q (map fst ((base cfg, 0) :: R)) ->
  1 <= get_size (heap st) q -> q <> base cfg /\ In q (map fst R).
Proof.
  intros [_ _ HC _ _ _ _] Hq Hs.
  cbn [chain fst snd] in HC. destruct HC as (_ & C2 & _).
  assert (q <> base cfg) by (intros ->; lia).
  split; [assumption|]. cbn [map In fst] in Hq. destruct Hq; [congruence|assumption].
Qed.

Theorem take_block_Inv cfg st R A nunits pv q :
  Inv cfg st R A ->
  In pv (map fst ((base cfg, 0) :: R)) -> get_ptr (heap st) pv = q ->
  In q (map fst ((base cfg, 0) :: R)) ->
  1 <= nunits -> nunits <= get_size (heap st) q ->
  fst (take_block st nunits pv q) = padd (take_addr (heap st) nunits q) 1
  /\ freep (snd (take_block st nunits pv q)) = pv
  /\ Inv cfg (snd (take_block st nunits pv q))
       (take_list (heap st) nunits q R)
       ((take_addr (heap st) nunits q, nunits) :: A).
Proof.
  intros HI Hpv Hlink Hq Hn Hsz.
  destruct (Inv_not_base _ _ _ _ _ HI Hq ltac:(lia)) as [Hne HqR].
  unfold take_block, take_addr, take_list.
  destruct (get_size (heap st) q =? nunits) eqn:E.
  - apply Z.eqb_eq in E. cbn [fst snd freep with_freep].
    splits; try reflexivity.
    rewrite <- E. apply unlink_Inv; try assumption. lia.
  - apply Z.eqb_neq in E.
    destruct (carve_Inv cfg st R A pv q nunits HI Hpv HqR Hn ltac:(lia))
      as [Hq' HI'].
    destruct (carve_tail (heap st) q nunits) as [m' q'] eqn:Ec.
    cbn [fst snd] in *. subst q'. splits; try reflexivity. exact HI'.
Qed.

Theorem take_tail_Inv cfg st R A nunits pv q :
  Inv cfg st R A ->
  In pv (map fst ((base cfg, 0) :: R)) ->
  In q (map fst ((base cfg, 0) :: R)) ->
  1 <= nunits -> nunits < get_size (heap st) q ->
  fst (take_tail st nunits pv q)
  = padd (padd q (get_size (heap st) q - nunits)) 1
  /\ freep (snd (take_tail st nunits pv q)) = pv
  /\ Inv cfg (snd (take_tail st nunits pv q))
       (fl_shrink q nunits R)
       ((padd q (get_size (heap st) q - nunits), nunits) :: A).
Proof.
  intros HI Hpv Hq Hn Hsz.
  destruct (Inv_not_base _ _ _ _ _ HI Hq ltac:(lia)) as [Hne HqR].
  unfold take_tail.
  destruct (carve_Inv cfg st R A pv q nunits HI Hpv HqR Hn Hsz) as [Hq' HI'].
  destruct (carve_tail (heap st) q nunits) as [m' q'] eqn:Ec.
  cbn [fst snd] in *. subst q'. splits; try reflexivity. exact HI'.
Qed.

Lemma take_block_payload cfg st R A nunits pv q :
  Inv cfg st R A ->
  In pv (map fst ((base cfg, 0) :: R)) ->
  In q (map fst ((base cfg, 0) :: R)) ->
  1 <= nunits -> nunits <= get_size (heap st) q ->
  payload_same A (heap st) (heap (snd (take_block st nunits pv q)))
  /\ payload_same A (heap st) (heap (snd (take_tail st nunits pv q))).
Proof.
  intros HI Hpv Hq Hn Hsz.
  apply in_map_iff in Hpv. destruct Hpv as (pb & <- & Hpb).
  apply in_map_iff in Hq. destruct Hq as (qb & <- & Hqb).
  assert (Hqs : get_size (heap st) (fst qb) = snd qb).
  { apply (chain_In _ _ (base cfg) qb (inv_chain _ _ _ _ HI) Hqb). }
  pose proof (get_size_range (heap st) (fst qb)) as Hr.
  assert (Hcarve : payload_same A (heap st)
                     (fst (carve_tail (heap st) (fst qb) nunits))).
  { intros x y Hx Hy.
    pose proof (Inv_alloc_disjoint _ _ _ _ _ _ HI Hx Hqb) as Hd.
    destruct (blocks_in_In _ _ _ _ (inv_free _ _ _ _ HI) Hqb) as (_ & Q2 & _).
    unfold carve_tail. cbn [fst].
    rewrite (Z.mod_small (get_size (heap st) (fst qb) - nunits)) by zsolve.
    rewrite (get_size_set_size (heap st)) by zsolve.
    rewrite !set_size_bytes; [reflexivity| |]; unfold disjoint in Hd; zsolve. }
  split.
  - unfold take_block. destruct (get_size (heap st) (fst qb) =? nunits).
    + cbn [snd heap with_freep with_heap]. intros x y Hx Hy.
      pose proof (payload_off_ring _ _ _ _ _ _ _ HI Hx Hpb Hy).
      apply set_ptr_bytes. zsolve.
    + destruct (carve_tail (heap st) (fst qb) nunits) as [m' q'].
      cbn [fst snd heap with_freep with_heap] in *. exact Hcarve.
  - unfold take_tail.
    destruct (carve_tail (heap st) (fst qb) nunits) as [m' q'].
    cbn [fst snd heap with_freep with_heap] in *. exact Hcarve.
Qed.

(** ** malloc, first fit *)

Lemma first_fit_pick cfg st R A nunits W pv q :
  Inv cfg st R A ->
  revolution (length R + 1) (heap st) (freep st)
    (get_ptr (heap st) (freep st)) = Some W ->
  first_fit (heap st) nunits (freep st) W = Some (pv, q) ->
  In pv (map fst ((base cfg, 0) :: R)) /\ get_ptr (heap st) pv = q
  /\ In q (map fst ((base cfg, 0) :: R)) /\ nunits <= get_size (heap st) q.
Proof.
  intros HI HW Hff.
  destruct (Inv_revolution _ _ _ _ HI) as (W' & HW' & _ & Hin).
  rewrite HW in HW'. inversion HW'; subst W'.
  destruct (first_fit_link st nunits W _ _ _ _ HW Hff) as (H1 & H2 & H3 & H4).
  splits; try assumption.
  - destruct H2 as [->|H2]; [exact (inv_cursor _ _ _ _ HI)|now apply Hin].
  - now apply Hin.
Qed.

Lemma first_fit_grow cfg st R A nunits W fuel :
  Inv cfg st R A -> 1 <= nunits -> grow_ok cfg nunits ->
  revolution (length R + 1) (heap st) (freep st)
    (get_ptr (heap st) (freep st)) = Some W ->
  first_fit (heap st) nunits (freep st) W = None ->
  (3 * length R + 5 <= fuel)%nat ->
  exists r1 st1, morecore cfg (fuel - length W) st nunits = Some (r1, st1) /\
    ((r1 = NULL
      /\ malloc_first_loop cfg fuel st nunits (freep st)
           (get_ptr (heap st) (freep st)) = Some (NULL, st1)
      /\ heap st1 = heap st /\ freep st1 = freep st /\ Inv cfg st1 R A)
     \/ (r1 <> NULL /\ exists R1 W1 pv q,
           Inv cfg st1 R1 A /\ payload_same A (heap st) (heap st1)
           /\ (length R1 <= length R + 1)%nat
           /\ revolution (length R1 + 1) (heap st1) (freep st1)
                (get_ptr (heap st1) (freep st1)) = Some W1
           /\ first_fit (heap st1) nunits (freep st1) W1 = Some (pv, q)
           /\ malloc_first_loop cfg fuel st nunits (freep st)
                (get_ptr (heap st) (freep st))
              = Some (take_block st1 nunits pv q)
           /\ forall fuel', (length R1 + 1 <= fuel')%nat ->
                malloc_first_loop cfg fuel' st1 nunits (freep st1)
                  (get_ptr (heap st1) (freep st1))
                = Some (take_block st1 nunits pv q))).
Proof.
  intros HI Hn Hg HW Hff Hfuel.
  destruct (Inv_revolution _ _ _ _ HI) as (W' & HW' & HlenW & _).
  rewrite HW in HW'. inversion HW'; subst W'.
  pose proof (first_fit_none cfg st nunits W (fuel - length W) _ _ _ HW Hff) as Hloop.
  replace (length W + (fuel - length W))%nat with fuel in Hloop by lia.
  destruct (morecore_ok cfg st R A nunits (fuel - length W) HI Hg ltac:(lia))
    as (r1 & st1 & Hmc & Hcase).
  exists r1, st1. split; [exact Hmc|]. rewrite Hmc in Hloop.
  destruct Hcase as [(Hr & Hh & Hf & HI1)|(up & nu' & Hr & Hnz & Hnu & Hup & HI1 & Hpay)].
  - left. subst r1. cbn [Z.eqb NULL] in Hloop. change (0 =? 0) with true in Hloop.
    now splits.
  - right. split; [exact Hnz|].
    set (R1 := tl (fl_insert (up, nu') ((base cfg, 0) :: R))) in *.
    destruct (Inv_revolution _ _ _ _ HI1) as (W1 & HW1 & HlenW1 & Hin1).
    assert (HlenR1 : (length R1 <= length R + 1)%nat).
    { pose proof (fl_insert_length (up, nu') ((base cfg, 0) :: R)) as HL.
      subst R1. destruct (fl_insert (up, nu') ((base cfg, 0) :: R));
        cbn [length tl] in *; lia. }
    (* the grown ring holds a block that is big enough *)
    pose proof (inv_free _ _ _ _ HI) as HB.
    destruct (fl_insert_has (up, nu') _ _ _ HB) as (y & Hy & Hys).
    cbn [snd] in Hys.
    pose proof (Inv_bounds _ _ _ _ HI) as (Hb0 & Hb1 & _).
    rewrite fl_insert_head in Hy by zsolve. fold R1 in Hy.
    assert (Hyc : get_size (heap st1) (fst y) = snd y).
    { apply (chain_In _ _ (base cfg) y (inv_chain _ _ _ _ HI1)). exact Hy. }
    assert (HyW : In (fst y) W1).
    { apply Hin1. apply in_map. exact Hy. }
    destruct (first_fit_some st1 nunits W1 (freep st1) (fst y) HyW
                ltac:(lia)) as (pv & q & Hff1).
    assert (Hrun : forall fuel', (length R1 + 1 <= fuel')%nat ->
              malloc_first_loop cfg fuel' st1 nunits (freep st1)
                (get_ptr (heap st1) (freep st1))
              = Some (take_block st1 nunits pv q)).
    { intros fuel' Hf'. apply (first_fit_found cfg st1 nunits W1 fuel' _ _ _ _ _ HW1 Hff1).
      lia. }
    exists R1, W1, pv, q. splits; try assumption.
    rewrite Hloop. apply Z.eqb_neq in Hnz. rewrite Hnz. rewrite Hr.
    apply Hrun. lia.
Qed.

Lemma malloc_unfold cfg st R A n fuel :
  Inv cfg st R A -> n <> 0 ->
  malloc cfg fuel st n
  = match STRATEGY cfg with
    | STRATEGY_FIRST =>
      malloc_first_loop cfg fuel st (nunits_of n) (freep st)
        (get_ptr (heap st) (freep st))
    | STRATEGY_BEST =>
      malloc_best_loop cfg fuel st (nunits_of n) (freep st)
        (get_ptr (heap st) (freep st)) NULL NULL
    end.
Proof.
  intros HI Hn. unfold malloc.
  destruct (malloc_init_Inv _ _ _ _ HI) as [Hinit Hf].
  apply Z.eqb_neq in Hn, Hf. rewrite Hn, Hinit, Hf. reflexivity.
Qed.

Lemma take_block_nonnull cfg st' R' A a s r :
  Inv cfg st' R' ((a, s) :: A) -> r = padd a 1 -> r <> NULL /\ padd r (-1) = a.
Proof.
  intros HI ->. pose proof (Inv_bounds _ _ _ _ HI) as (Hb0 & _).
  pose proof (inv_alloc _ _ _ _ HI) as HA. inversion HA as [|? ? Hok _]; subst.
  destruct Hok as (X1 & _). zsolve.
Qed.

Theorem malloc_first_Inv cfg st R A n fuel :
  STRATEGY cfg = STRATEGY_FIRST ->
  Inv cfg st R A -> counts_ok cfg n -> (3 * length R + 5 <= fuel)%nat ->
  exists r st', malloc cfg fuel st n = Some (r, st')
    /\ malloc_post cfg st R A (nunits_of n) r st'.
Proof.
  intros HS HI Hreq Hfuel.
  destruct (nunits_of_counts cfg n Hreq)
    as (_ & Hnu & _ & Hg).
  rewrite (malloc_unfold cfg st R A) by (try assumption; destruct Hreq; lia).
  rewrite HS. set (nunits := nunits_of n) in *.
  destruct (Inv_revolution _ _ _ _ HI) as (W & HW & HlenW & HinW).
  destruct (first_fit (heap st) nunits (freep st) W) as [[pv q]|] eqn:Hff.
  - destruct (first_fit_pick _ _ _ _ _ _ _ _ HI HW Hff) as (P1 & P2 & P3 & P4).
    destruct (take_block_Inv cfg st R A nunits pv q HI P1 P2 P3 ltac:(lia) P4)
      as (T1 & T2 & T3).
    rewrite (first_fit_found cfg st nunits W fuel _ _ _ _ _ HW Hff) by lia.
    destruct (take_block_payload cfg st R A nunits pv q HI P1 P3 ltac:(lia) P4)
      as [Hpay _].
    destruct (take_block st nunits pv q) as [r st'] eqn:Et. cbn [fst snd] in *.
    exists r, st'. split; [reflexivity|]. right.
    destruct (take_block_nonnull _ _ _ _ _ _ _ T3 T1) as [N1 N2].
    split; [exact N1|]. rewrite N2. eexists. split; [exact T3|].
    split; [exact Hpay|].
    unfold take_list. destruct (get_size (heap st) q =? nunits).
    + pose proof (fl_remove_length q R). lia.
    + rewrite fl_shrink_length. lia.
  - destruct (first_fit_grow cfg st R A nunits W fuel HI ltac:(lia) Hg HW Hff Hfuel)
      as (r1 & st1 & _ & [(Hr & Hl & Hh & Hf & HI1)
                         |(Hr & R1 & W1 & pv & q & HI1 & Hpay1 & HlenR1 & HW1 & Hff1 & Hl & _)]).
    + exists NULL, st1. split; [exact Hl|]. left. now splits.
    + destruct (first_fit_pick _ _ _ _ _ _ _ _ HI1 HW1 Hff1) as (P1 & P2 & P3 & P4).
      destruct (take_block_Inv cfg st1 R1 A nunits pv q HI1 P1 P2 P3 ltac:(lia) P4)
        as (T1 & T2 & T3).
      destruct (take_block_payload cfg st1 R1 A nunits pv q HI1 P1 P3 ltac:(lia) P4)
        as [Hpay _].
      rewrite Hl.
      destruct (take_block st1 nunits pv q) as [r st'] eqn:Et. cbn [fst snd] in *.
      exists r, st'. split; [reflexivity|]. right.
      destruct (take_block_nonnull _ _ _ _ _ _ _ T3 T1) as [N1 N2].
      split; [exact N1|]. rewrite N2. eexists. split; [exact T3|].
      split; [exact (payload_same_trans _ _ _ _ Hpay1 Hpay)|].
      unfold take_list. destruct (get_size (heap st1) q =? nunits).
      * pose proof (fl_remove_length q R1). lia.
      * rewrite fl_shrink_length. lia.
Qed.

(** ** malloc, best fit *)

Section BestScan.
Variable cfg : config.
Variable st : state.
Variable nunits : Z.
Let m := heap st.
Let f := freep st.

Lemma best_loop_run : forall W fuel' k prevp p best,
  revolution fuel' m f p = Some W ->
  (forall x, In x W -> x <> NULL) ->
  (forall pv b, best = Some (pv, b) -> b <> NULL) ->
  malloc_best_loop cfg (length W + k) st nunits prevp p
    (best_ptr best) (best_prev best)
  = match exact_fit m nunits prevp W with
    | Some (pv, q) => Some (take_block st nunits pv q)
    | None =>
      match best_fit m nunits prevp W best with
      | Some (pv, b) => Some (take_tail st nunits pv b)
      | None =>
        match morecore cfg k st nunits with
        | None => None
        | Some (r, st') =>
          if r =? NULL then Some (NULL, st')
          else malloc_best_loop cfg k st' nunits r (get_ptr (heap st') r)
                 NULL NULL
        end
      end
    end.
Proof.
  induction W as [|x W IH]; intros fuel' k prevp p best HW Hnz Hbest.
  - destruct (revolution_length st _ _ _ HW) as [_ H]. congruence.
  - destruct fuel' as [|k']; [discriminate|]. cbn [revolution] in HW.
    assert (x = p).
    { destruct (p =? f); [now inversion HW|].
      destruct (revolution k' m f (get_ptr m p)); [|discriminate].
      now inversion HW. }
    subst x. cbn [exact_fit best_fit length Nat.add malloc_best_loop]. fold m f.
    destruct (get_size m p =? nunits) eqn:Ex.
    + unfold take_block. fold m. rewrite Ex. reflexivity.
    + set (better := match best with
                     | None => true
                     | Some (_, b) => get_size m p <? get_size m b
                     end).
      assert (Hb : (best_ptr best =? NULL) || (get_size m p <? get_size m (best_ptr best))
                   = better).
      { subst better. destruct best as [[pv b]|]; cbn [best_ptr].
        - specialize (Hbest pv b eq_refl). apply Z.eqb_neq in Hbest.
          now rewrite Hbest.
        - reflexivity. }
      rewrite Hb.
      set (best' := if better && (get_size m p >? nunits)
                    then Some (prevp, p) else best).
      assert (Hupd : (if better && (get_size m p >? nunits)
                      then (p, prevp) else (best_ptr best, best_prev best))
                     = (best_ptr best', best_prev best')).
      { subst best'. destruct (better && (get_size m p >? nunits)); reflexivity. }
      rewrite Hupd.
      assert (Hbest' : forall pv b, best' = Some (pv, b) -> b <> NULL).
      { subst best'. intros pv b. destruct (better && (get_size m p >? nunits)).
        - intros H. inversion H; subst. apply Hnz. now left.
        - apply Hbest. }
      destruct (p =? f) eqn:Ef.
      * inversion HW; subst W. cbn [exact_fit best_fit length Nat.add].
        destruct best' as [[pv b]|] eqn:Eb; cbn [best_ptr best_prev].
        -- specialize (Hbest' pv b eq_refl). apply Z.eqb_neq in Hbest'.
           rewrite Hbest'. cbn [negb]. unfold take_tail. fold m.
           destruct (carve_tail m b nunits). reflexivity.
        -- change (NULL =? NULL) with true. cbn [negb]. reflexivity.
      * destruct (revolution k' m f (get_ptr m p)) as [W'|] eqn:E'; [|discriminate].
        inversion HW; subst W'.
        apply (IH k' k p (get_ptr m p) best' E'); try assumption.
        intros y Hy. apply Hnz. now right.
Qed.

Lemma exact_fit_link : forall W fuel' prevp pv q,
  revolution fuel' m f (get_ptr m prevp) = Some W ->
  exact_fit m nunits prevp W = Some (pv, q) ->
  get_ptr m pv = q /\ (pv = prevp \/ In pv W) /\ In q W
  /\ get_size m q = nunits.
Proof.
  induction W as [|x W IH]; intros fuel' prevp pv q HW Hff; [discriminate|].
  destruct fuel' as [|k']; [discriminate|]. cbn [revolution] in HW.
  assert (x = get_ptr m prevp).
  { destruct (get_ptr m prevp =? f); [now inversion HW|].
    destruct (revolution k' m f (get_ptr m (get_ptr m prevp))); [|discriminate].
    now inversion HW. }
  subst x. cbn [exact_fit] in Hff.
  destruct (get_size m (get_ptr m prevp) =? nunits) eqn:E.
  - inversion Hff; subst. apply Z.eqb_eq in E. cbn [In]. tauto.
  - destruct (get_ptr m prevp =? f); [inversion HW; subst; discriminate|].
    destruct (revolution k' m f (get_ptr m (get_ptr m prevp))) as [W'|] eqn:E';
      [|discriminate].
    inversion HW; subst.
    destruct (IH k' (get_ptr m prevp) pv q E' Hff) as (H1 & H2 & H3 & H4).
    cbn [In]. intuition auto.
Qed.

Lemma exact_fit_none : forall W prevp,
  exact_fit m nunits prevp W = None ->
  forall x, In x W -> get_size m x <> nunits.
Proof.
  induction W as [|y W IH]; intros prevp H x Hx; [contradiction|].
  cbn [exact_fit] in H. destruct (get_size m y =? nunits) eqn:E; [discriminate|].
  apply Z.eqb_neq in E. destruct Hx as [<-|Hx]; [exact E|].
  eapply IH; eassumption.
Qed.

Lemma best_fit_link : forall W fuel' prevp best pv b,
  revolution fuel' m f (get_ptr m prevp) = Some W ->
  best_fit m nunits prevp W best = Some (pv, b) ->
  best = Some (pv, b)
  \/ (get_ptr m pv = b /\ (pv = prevp \/ In pv W) /\ In b W).
Proof.
  induction W as [|x W IH]; intros fuel' prevp best pv b HW Hbf.
  - cbn [best_fit] in Hbf. now left.
  - destruct fuel' as [|k']; [discriminate|]. cbn [revolution] in HW.
    assert (x = get_ptr m prevp).
    { destruct (get_ptr m prevp =? f); [now inversion HW|].
      destruct (revolution k' m f (get_ptr m (get_ptr m prevp))); [|discriminate].
      now inversion HW. }
    subst x. cbn [best_fit] in Hbf.
    match type of Hbf with
    | best_fit _ _ _ _ ?e = _ => set (best' := e) in Hbf
    end.
    assert (Hcase : best' = best \/ best' = Some (prevp, get_ptr m prevp)).
    { subst best'. destruct (_ && _); tauto. }
    destruct (get_ptr m prevp =? f) eqn:Ef.
    + inversion HW; subst W. cbn [best_fit] in Hbf.
      destruct Hcase as [Hc|Hc]; rewrite Hc in Hbf.
      * now left.
      * inversion Hbf; subst. right. cbn [In]. tauto.
    + destruct (revolution k' m f (get_ptr m (get_ptr m prevp))) as [W'|] eqn:E';
        [|discriminate].
      inversion HW; subst W'.
      destruct (IH k' (get_ptr m prevp) best' pv b E' Hbf) as [H|(H1 & H2 & H3)].
      * destruct Hcase as [Hc|Hc]; rewrite Hc in H.
        -- now left.
        -- inversion H; subst. right. cbn [In]. tauto.
      * right. cbn [In]. intuition auto.
Qed.

Lemma best_fit_min : forall W prevp best,
  best_ok m nunits best ->
  match best_fit m nunits prevp W best with
  | Some (_, b) =>
    nunits < get_size m b
    /\ (forall x, In x W -> nunits < get_size m x -> get_size m b <= get_size m x)
    /\ match best with
       | Some (_, b0) => get_size m b <= get_size m b0
       | None => True
       end
  | None => best = None /\ forall x, In x W -> get_size m x <= nunits
  end.
Proof.
  induction W as [|y W IH]; intros prevp best Hok.
  - cbn [best_fit]. destruct best as [[pv b]|]; cbn [best_ok] in Hok.
    + splits; try assumption; try lia. intros x [].
    + split; [reflexivity|]. intros x [].
  - cbn [best_fit].
    set (better := match best with
                   | None => true
                   | Some (_, b) => get_size m y <? get_size m b
                   end).
    set (best' := if better && (get_size m y >? nunits)
                  then Some (prevp, y) else best).
    assert (Hok' : best_ok m nunits best').
    { subst best'. destruct (better && (get_size m y >? nunits)) eqn:E; [|exact Hok].
      apply andb_true_iff in E. destruct E as [_ E]. cbn [best_ok].
      apply Z.gtb_lt in E. lia. }
    specialize (IH y best' Hok').
    destruct (best_fit m nunits y W best') as [[pv b]|].
    + destruct IH as (I1 & I2 & I3). split; [exact I1|].
      subst best' better.
      destruct best as [[pv0 b0]|]; cbn [best_ok] in Hok.
      * destruct ((get_size m y <? get_size m b0) && (get_size m y >? nunits)) eqn:E.
        -- apply andb_true_iff in E. destruct E as [E1 E2].
           apply Z.ltb_lt in E1. split; [|lia].
           intros x [<-|Hx] Hs; [lia|now apply I2].
        -- split; [|exact I3].
           intros x [<-|Hx] Hs; [|now apply I2].
           apply andb_false_iff in E. destruct E as [E|E].
           ++ apply Z.ltb_ge in E. lia.
           ++ rewrite Z.gtb_ltb in E. apply Z.ltb_ge in E. lia.
      * cbn [andb] in I3 |- *. split; [|exact I].
        destruct (get_size m y >? nunits) eqn:E.
        -- intros x [<-|Hx] Hs; [lia|now apply I2].
        -- rewrite Z.gtb_ltb in E. apply Z.ltb_ge in E.
           intros x [<-|Hx] Hs; [lia|now apply I2].
    + destruct IH as [I1 I2]. subst best' better.
      destruct best as [[pv0 b0]|].
      * destruct (_ && _); discriminate.
      * cbn [andb] in I1. destruct (get_size m y >? nunits) eqn:E; [discriminate|].
        rewrite Z.gtb_ltb in E. apply Z.ltb_ge in E.
        split; [reflexivity|]. intros x [<-|Hx]; [lia|now apply I2].
Qed.

End BestScan.

Lemma Inv_revolution_nonnull cfg st R A W :
  Inv cfg st R A ->
  revolution (length R + 1) (heap st) (freep st)
    (get_ptr (heap st) (freep st)) = Some W ->
  length W = (length R + 1)%nat
  /\ (forall x, In x W <-> In x (map fst ((base cfg, 0) :: R)))
  /\ (forall x, In x W -> x <> NULL).
Proof.
  intros HI HW.
  destruct (Inv_revolution _ _ _ _ HI) as (W' & HW' & Hlen & Hin).
  rewrite HW in HW'. inversion HW'; subst W'.
  splits; try assumption.
  intros x Hx. apply Hin in Hx. apply in_map_iff in Hx.
  destruct Hx as (b & <- & Hb).
  pose proof (Inv_bounds _ _ _ _ HI) as (Hb0 & _).
  destruct (blocks_in_In _ _ _ _ (inv_free _ _ _ _ HI) Hb) as (X & _). zsolve.
Qed.

(** What the best-fit scan of one revolution settles on. *)
Lemma best_scan_Inv cfg st R A nunits W :
  Inv cfg st R A -> 1 <= nunits ->
  revolution (length R + 1) (heap st) (freep st)
    (get_ptr (heap st) (freep st)) = Some W ->
  match exact_fit (heap st) nunits (freep st) W with
  | Some (pv, q) =>
    get_ptr (heap st) pv = q /\ In q W /\ get_size (heap st) q = nunits
    /\ fst (take_block st nunits pv q) = padd q 1
    /\ freep (snd (take_block st nunits pv q)) = pv
    /\ Inv cfg (snd (take_block st nunits pv q)) (fl_remove q R)
         ((q, nunits) :: A)
    /\ payload_same A (heap st) (heap (snd (take_block st nunits pv q)))
  | None =>
    match best_fit (heap st) nunits (freep st) W None with
    | Some (pv, b) =>
      get_ptr (heap st) pv = b /\ In b W /\ nunits < get_size (heap st) b
      /\ (forall x, In x W -> nunits < get_size (heap st) x ->
            get_size (heap st) b <= get_size (heap st) x)
      /\ fst (take_tail st nunits pv b)
         = padd (padd b (get_size (heap st) b - nunits)) 1
      /\ freep (snd (take_tail st nunits pv b)) = pv
      /\ Inv cfg (snd (take_tail st nunits pv b)) (fl_shrink b nunits R)
           ((padd b (get_size (heap st) b - nunits), nunits) :: A)
      /\ payload_same A (heap st) (heap (snd (take_tail st nunits pv b)))
    | None => forall x, In x W -> get_size (heap st) x < nunits
    end
  end.
Proof.
  intros HI Hn HW.
  destruct (Inv_revolution_nonnull _ _ _ _ _ HI HW) as (Hlen & Hin & Hnz).
  destruct (exact_fit (heap st) nunits (freep st) W) as [[pv q]|] eqn:Hex.
  - destruct (exact_fit_link st nunits W _ _ _ _ HW Hex) as (H1 & H2 & H3 & H4).
    assert (Hpv : In pv (map fst ((base cfg, 0) :: R))).
    { destruct H2 as [->|H2]; [exact (inv_cursor _ _ _ _ HI)|now apply Hin]. }
    destruct (take_block_Inv cfg st R A nunits pv q HI Hpv H1
                (proj1 (Hin q) H3) Hn ltac:(lia)) as (T1 & T2 & T3).
    destruct (take_block_payload cfg st R A nunits pv q HI Hpv
                (proj1 (Hin q) H3) Hn ltac:(lia)) as [Hpay _].
    unfold take_addr, take_list in T1, T3.
    apply Z.eqb_eq in H4. rewrite H4 in T1, T3. apply Z.eqb_eq in H4.
    now splits.
  - pose proof (best_fit_min st nunits W (freep st) None I) as Hmin.
    destruct (best_fit (heap st) nunits (freep st) W None) as [[pv b]|] eqn:Hbf.
    + destruct Hmin as (M1 & M2 & _).
      destruct (best_fit_link st nunits W _ _ _ _ _ HW Hbf)
        as [H|(H1 & H2 & H3)]; [discriminate|].
      assert (Hpv : In pv (map fst ((base cfg, 0) :: R))).
      { destruct H2 as [->|H2]; [exact (inv_cursor _ _ _ _ HI)|now apply Hin]. }
      destruct (take_tail_Inv cfg st R A nunits pv b HI Hpv
                  (proj1 (Hin b) H3) Hn M1) as (T1 & T2 & T3).
      destruct (take_block_payload cfg st R A nunits pv b HI Hpv
                  (proj1 (Hin b) H3) Hn ltac:(lia)) as [_ Hpay].
      now splits.
    + destruct Hmin as [_ Hmin]. intros x Hx.
      pose proof (exact_fit_none st nunits W _ Hex x Hx).
      specialize (Hmin x Hx). lia.
Qed.

Lemma best_fit_grow cfg st R A nunits W fuel :
  Inv cfg st R A -> 1 <= nunits -> grow_ok cfg nunits ->
  revolution (length R + 1) (heap st) (freep st)
    (get_ptr (heap st) (freep st)) = Some W ->
  exact_fit (heap st) nunits (freep st) W = None ->
  best_fit (heap st) nunits (freep st) W None = None ->
  (3 * length R + 5 <= fuel)%nat ->
  exists r1 st1, morecore cfg (fuel - length W) st nunits = Some (r1, st1) /\
    ((r1 = NULL
      /\ malloc_best_loop cfg fuel st nunits (freep st)
           (get_ptr (heap st) (freep st)) NULL NULL = Some (NULL, st1)
      /\ heap st1 = heap st /\ freep st1 = freep st /\ Inv cfg st1 R A)
     \/ (r1 <> NULL /\ exists R1 W1,
           Inv cfg st1 R1 A /\ payload_same A (heap st) (heap st1)
           /\ (length R1 <= length R + 1)%nat
           /\ revolution (length R1 + 1) (heap st1) (freep st1)
                (get_ptr (heap st1) (freep st1)) = Some W1
           /\ (exists y, In y W1 /\ nunits <= get_size (heap st1) y)
           /\ forall fuel', (length R1 + 1 <= fuel')%nat ->
                malloc_best_loop cfg fuel st nunits (freep st)
                  (get_ptr (heap st) (freep st)) NULL NULL
                = malloc_best_loop cfg fuel' st1 nunits (freep st1)
                    (get_ptr (heap st1) (freep st1)) NULL NULL)).
Proof.
  intros HI Hn Hg HW Hex Hbf Hfuel.
  destruct (Inv_revolution_nonnull _ _ _ _ _ HI HW) as (HlenW & _ & Hnz).
  pose proof (best_loop_run cfg st nunits W _ (fuel - length W) (freep st) _ None HW Hnz
                ltac:(discriminate)) as Hloop.
  replace (length W + (fuel - length W))%nat with fuel in Hloop by lia.
  rewrite Hex, Hbf in Hloop. cbn [best_ptr best_prev] in Hloop.
  destruct (morecore_ok cfg st R A nunits (fuel - length W) HI Hg ltac:(lia))
    as (r1 & st1 & Hmc & Hcase).
  exists r1, st1. split; [exact Hmc|]. rewrite Hmc in Hloop.
  destruct Hcase as [(Hr & Hh & Hf & HI1)|(up & nu' & Hr & Hnz1 & Hnu & Hup & HI1 & Hpay)].
  - left. subst r1. change (NULL =? NULL) with true in Hloop. now splits.
  - right. split; [exact Hnz1|].
    set (R1 := tl (fl_insert (up, nu') ((base cfg, 0) :: R))) in *.
    destruct (Inv_revolution _ _ _ _ HI1) as (W1 & HW1 & HlenW1 & Hin1).
    assert (HlenR1 : (length R1 <= length R + 1)%nat).
    { pose proof (fl_insert_length (up, nu') ((base cfg, 0) :: R)) as HL.
      subst R1. destruct (fl_insert (up, nu') ((base cfg, 0) :: R));
        cbn [length tl] in *; lia. }
    pose proof (inv_free _ _ _ _ HI) as HB.
    destruct (fl_insert_has (up, nu') _ _ _ HB) as (y & Hy & Hys).
    cbn [snd] in Hys.
    pose proof (Inv_bounds _ _ _ _ HI) as (Hb0 & Hb1 & _).
    rewrite fl_insert_head in Hy by zsolve. fold R1 in Hy.
    assert (Hyc : get_size (heap st1) (fst y) = snd y).
    { apply (chain_In _ _ (base cfg) y (inv_chain _ _ _ _ HI1)). exact Hy. }
    assert (HyW : In (fst y) W1).
    { apply Hin1. apply in_map. exact Hy. }
    exists R1, W1. splits; try assumption.
    + exists (fst y). split; [exact HyW|lia].
    + intros fuel' Hf'. rewrite Hloop. apply Z.eqb_neq in Hnz1. rewrite Hnz1, Hr.
      destruct (Inv_revolution_nonnull _ _ _ _ _ HI1 HW1) as (_ & _ & Hnz').
      pose proof (best_loop_run cfg st1 nunits W1 _ (fuel - length W - length W1) (freep st1) _
                    None HW1 Hnz' ltac:(discriminate)) as L1.
      pose proof (best_loop_run cfg st1 nunits W1 _ (fuel' - length W1) (freep st1) _
                    None HW1 Hnz' ltac:(discriminate)) as L2.
      replace (length W1 + (fuel - length W - length W1))%nat
        with (fuel - length W)%nat in L1 by lia.
      replace (length W1 + (fuel' - length W1))%nat with fuel' in L2 by lia.
      cbn [best_ptr best_prev] in L1, L2. rewrite L1, L2.
      pose proof (best_scan_Inv cfg st1 R1 A nunits W1 HI1 Hn HW1) as Hs.
      destruct (exact_fit (heap st1) nunits (freep st1) W1) as [[pv q]|];
        [reflexivity|].
      destruct (best_fit (heap st1) nunits (freep st1) W1 None) as [[pv b]|];
        [reflexivity|].
      exfalso. specialize (Hs (fst y) HyW). lia.
Qed.

Theorem malloc_best_Inv cfg st R A n fuel :
  STRATEGY cfg = STRATEGY_BEST ->
  Inv cfg st R A -> counts_ok cfg n -> (3 * length R + 5 <= fuel)%nat ->
  exists r st', malloc cfg fuel st n = Some (r, st')
    /\ malloc_post cfg st R A (nunits_of n) r st'.
Proof.
  intros HS HI Hreq Hfuel.
  destruct (nunits_of_counts cfg n Hreq)
    as (_ & Hnu & _ & Hg).
  rewrite (malloc_unfold cfg st R A) by (try assumption; destruct Hreq; lia).
  rewrite HS. set (nunits := nunits_of n) in *.
  assert (Hscan : forall st0 R0 W0 fuel0,
            Inv cfg st0 R0 A ->
            revolution (length R0 + 1) (heap st0) (freep st0)
              (get_ptr (heap st0) (freep st0)) = Some W0 ->
            (length R0 + 1 <= fuel0)%nat ->
            (exists y, In y W0 /\ nunits <= get_size (heap st0) y) ->
            exists r st', malloc_best_loop cfg fuel0 st0 nunits (freep st0)
                            (get_ptr (heap st0) (freep st0)) NULL NULL
                          = Some (r, st')
              /\ r <> NULL
              /\ exists R', Inv cfg st' R' ((padd r (-1), nunits) :: A)
                   /\ payload_same A (heap st0) (heap st')
                   /\ (length R' <= length R0)%nat).
  { intros st0 R0 W0 fuel0 HI0 HW0 Hf0 (y & Hy & Hys).
    destruct (Inv_revolution_nonnull _ _ _ _ _ HI0 HW0) as (Hlen0 & _ & Hnz0).
    pose proof (best_loop_run cfg st0 nunits W0 _ (fuel0 - length W0) (freep st0) _
                  None HW0 Hnz0 ltac:(discriminate)) as L.
    replace (length W0 + (fuel0 - length W0))%nat with fuel0 in L by lia.
    cbn [best_ptr best_prev] in L. rewrite L.
    pose proof (best_scan_Inv cfg st0 R0 A nunits W0 HI0 ltac:(lia) HW0) as Hs.
    destruct (exact_fit (heap st0) nunits (freep st0) W0) as [[pv q]|].
    - destruct Hs as (_ & _ & _ & T1 & T2 & T3 & Hpay).
      destruct (take_block st0 nunits pv q) as [r st'] eqn:Et. cbn [fst snd] in *.
      exists r, st'. split; [reflexivity|].
      destruct (take_block_nonnull _ _ _ _ _ _ _ T3 T1) as [N1 N2].
      split; [exact N1|]. rewrite N2. eexists. split; [exact T3|].
      split; [exact Hpay|].
      apply fl_remove_length.
    - destruct (best_fit (heap st0) nunits (freep st0) W0 None) as [[pv b]|].
      + destruct Hs as (_ & _ & _ & _ & T1 & T2 & T3 & Hpay).
        destruct (take_tail st0 nunits pv b) as [r st'] eqn:Et. cbn [fst snd] in *.
        exists r, st'. split; [reflexivity|].
        destruct (take_block_nonnull _ _ _ _ _ _ _ T3 T1) as [N1 N2].
        split; [exact N1|]. rewrite N2. eexists. split; [exact T3|].
        split; [exact Hpay|].
        rewrite fl_shrink_length. lia.
      + exfalso. specialize (Hs y Hy). lia. }
  destruct (Inv_revolution _ _ _ _ HI) as (W & HW & HlenW & HinW).
  destruct (exact_fit (heap st) nunits (freep st) W) as [[pv q]|] eqn:Hex.
  - destruct (exact_fit_link st nunits W _ _ _ _ HW Hex) as (_ & _ & H3 & H4).
    destruct (Hscan st R W fuel HI HW ltac:(lia))
      as (r & st' & E & N & R' & HI' & Hpay & HL).
    { exists q. split; [exact H3|lia]. }
    exists r, st'. split; [exact E|]. right. split; [exact N|].
    exists R'. split; [exact HI'|]. split; [exact Hpay|lia].
  - destruct (best_fit (heap st) nunits (freep st) W None) as [[pv b]|] eqn:Hbf.
    + pose proof (best_scan_Inv cfg st R A nunits W HI ltac:(lia) HW) as Hs.
      rewrite Hex, Hbf in Hs. destruct Hs as (_ & S2 & S3 & _).
      destruct (Hscan st R W fuel HI HW ltac:(lia))
        as (r & st' & E & N & R' & HI' & Hpay & HL).
      { exists b. split; [exact S2|lia]. }
      exists r, st'. split; [exact E|]. right. split; [exact N|].
      exists R'. split; [exact HI'|]. split; [exact Hpay|lia].
    + destruct (best_fit_grow cfg st R A nunits W fuel HI ltac:(lia) Hg HW Hex Hbf Hfuel)
        as (r1 & st1 & _ & [(Hr & Hl & Hh & Hf & HI1)
                           |(Hr & R1 & W1 & HI1 & Hpay1 & HlenR1 & HW1 & Hy & Hl)]).
      * exists NULL, st1. split; [exact Hl|]. left. now splits.
      * destruct (Hscan st1 R1 W1 (length R1 + 1)%nat HI1 HW1 ltac:(lia) Hy)
          as (r & st' & E & N & R' & HI' & Hpay & HL).
        exists r, st'. split; [rewrite (Hl _ (le_n _)); exact E|].
        right. split; [exact N|]. exists R'. split; [exact HI'|].
        split; [exact (payload_same_trans _ _ _ _ Hpay1 Hpay)|lia].
Qed.

Theorem malloc_Inv_counts cfg st R A n fuel :
  Inv cfg st R A -> counts_ok cfg n -> (3 * length R + 5 <= fuel)%nat ->
  exists r st', malloc cfg fuel st n = Some (r, st')
    /\ malloc_post cfg st R A (nunits_of n) r st'.
Proof.
  intros HI Hreq Hfuel. destruct (STRATEGY cfg) eqn:HS.
  - now apply malloc_first_Inv.
  - now apply malloc_best_Inv.
Qed.

Theorem malloc_Inv cfg st R A n fuel :
  Inv cfg st R A -> request_ok cfg n -> (3 * length R + 5 <= fuel)%nat ->
  exists r st', malloc cfg fuel st n = Some (r, st')
    /\ malloc_post cfg st R A (nunits_of n) r st'.
Proof.
  intros HI Hreq Hfuel. apply malloc_Inv_counts; try assumption.
  exact (request_counts_ok cfg n (env_page _ _ (inv_env _ _ _ _ HI)) Hreq).
Qed.

Lemma malloc_Fresh cfg st n fuel :
  Fresh cfg st -> n <> 0 ->
  malloc cfg fuel st n = malloc cfg fuel (malloc_init cfg st) n.
Proof.
  intros HF Hn. destruct (malloc_init_Fresh cfg st HF) as [HI Hfp].
  destruct HF as [Henv Hf].
  pose proof (env_base _ _ Henv) as Hb.
  unfold malloc. apply Z.eqb_neq in Hn. rewrite Hn.
  destruct (malloc_init_Inv _ _ _ _ HI) as [Hinit _]. rewrite Hinit, Hfp, Hf.
  change (NULL =? NULL) with true. cbv iota.
  replace (base cfg =? NULL) with false by (symmetry; apply Z.eqb_neq; zsolve).
  reflexivity.
Qed.

(** ** free: where the block goes *)

Lemma fl_insert_split bp bs F1 : forall lo hi p F2 d,
  blocks_in lo hi (F1 ++ p :: F2) -> fst p < bp ->
  (forall x, In x F2 -> bp < fst x) ->
  fl_insert (bp, bs) (F1 ++ p :: F2)
  = F1 ++ fl_join_lower p (fl_join_upper (bp, bs) F2)
  /\ fl_pred (bp, bs) (F1 ++ p :: F2) d = fst p.
Proof.
  induction F1 as [|a F1 IH]; intros lo hi p F2 d HB Hp HF2.
  - cbn [app fl_insert fl_pred fst].
    replace (hd_addr F2 (bp + 1) <? bp) with false; [split; reflexivity|].
    symmetry. apply Z.ltb_ge. destruct F2 as [|q F2]; cbn [hd_addr]; [lia|].
    specialize (HF2 q (or_introl eq_refl)). lia.
  - cbn [app fl_insert fl_pred fst].
    assert (E : (hd_addr (F1 ++ p :: F2) (bp + 1) <? bp) = true).
    { apply Z.ltb_lt. destruct F1 as [|a' F1]; cbn [app hd_addr]; [exact Hp|].
      cbn [app blocks_in] in HB. destruct HB as (_ & _ & _ & HB).
      pose proof (blocks_in_app_lt (a' :: F1) _ _ (p :: F2) a' 0 HB
                    (or_introl eq_refl) ltac:(discriminate)) as H.
      cbn [hd_addr] in H. zsolve. }
    rewrite E. cbn [app blocks_in] in HB. destruct HB as (_ & _ & _ & HB).
    destruct (IH _ _ p F2 d HB Hp HF2) as [I1 I2]. rewrite I1, I2. now split.
Qed.

Lemma fl_pred_split (bp : Z) F : forall lo hi,
  blocks_in lo hi F -> F <> [] -> hd_addr F 0 < bp ->
  (forall x, In x F -> fst x <> bp) ->
  exists F1 p F2, F = F1 ++ p :: F2 /\ fst p < bp
    /\ (forall x, In x F1 -> fst x < fst p)
    /\ (forall x, In x F2 -> bp < fst x).
Proof.
  induction F as [|a F IH]; intros lo hi HB HF Hhd Hne; [congruence|].
  cbn [hd_addr] in Hhd. cbn [blocks_in] in HB. destruct HB as (B1 & B2 & B3 & B4).
  destruct F as [|q F].
  - exists [], a, []. splits; try assumption; try reflexivity; intros x [].
  - destruct (Z_lt_le_dec (fst q) bp) as [Hq|Hq].
    + destruct (IH _ _ B4 ltac:(discriminate) Hq) as (F1 & p & F2 & E & Hp & H1 & H2).
      { intros x Hx. apply Hne. now right. }
      exists (a :: F1), p, F2. rewrite E. splits; try assumption; try reflexivity.
      intros x [<-|Hx]; [|now apply H1].
      assert (Hin : In p (q :: F)) by (rewrite E; apply in_elt).
      destruct (blocks_in_In _ _ _ _ B4 Hin) as (X & _). zsolve.
    + exists [], a, (q :: F). splits; try assumption; try reflexivity.
      * intros x [].
      * intros x Hx.
        assert (fst q <> bp) by (apply Hne; right; now left).
        cbn [blocks_in] in B4. destruct B4 as (Q1 & Q2 & Q3 & Q4).
        destruct Hx as [<-|Hx]; [lia|].
        destruct (blocks_in_In _ _ _ _ Q4 Hx) as (X & _). zsolve.
Qed.

Lemma blocks_in_no_contiguous l : forall lo hi,
  blocks_in lo hi l -> no_contiguous l.
Proof.
  intros lo hi HB l1 x y l2 E. rewrite E in HB.
  apply blocks_in_app in HB. destruct HB as [_ HB].
  cbn [blocks_in] in HB. destruct HB as (_ & _ & _ & Y & _). zsolve.
Qed.

(** ** The concrete run satisfies the invariant *)

Ltac by_eval := vm_compute; repeat split; try reflexivity; try easy.

Lemma env_ok_ex0 : env_ok cfg_ex st_ex0.
Proof. constructor; by_eval. Qed.

Lemma Fresh_ex0 : Fresh cfg_ex st_ex0.
Proof. split; [exact env_ok_ex0|reflexivity]. Qed.

Lemma Inv_ex1_best : Inv cfg_ex_best st_ex1 [(8192, 1022)] [(24544, 2)].
Proof.
  constructor.
  - constructor; by_eval.
  - by_eval.
  - by_eval.
  - vm_compute. now left.
  - repeat constructor; by_eval.
  - constructor; [constructor; [|constructor]|constructor].
    right. by_eval.
  - repeat constructor.
Qed.

Lemma Inv_ex1 : Inv cfg_ex st_ex1 [(8192, 1022)] [(24544, 2)].
Proof.
  constructor.
  - constructor; by_eval.
  - by_eval.
  - by_eval.
  - vm_compute. now left.
  - repeat constructor; by_eval.
  - constructor; [constructor; [|constructor]|constructor].
    right. by_eval.
  - repeat constructor.
Qed.


(** A ring holding a block that is big enough serves the request. *)
Lemma best_loop_found cfg st R A nunits W fuel :
  Inv cfg st R A -> 1 <= nunits ->
  revolution (length R + 1) (heap st) (freep st)
    (get_ptr (heap st) (freep st)) = Some W ->
  (length R + 1 <= fuel)%nat ->
  (exists y, In y W /\ nunits <= get_size (heap st) y) ->
  exists r st', malloc_best_loop cfg fuel st nunits (freep st)
                  (get_ptr (heap st) (freep st)) NULL NULL
                = Some (r, st')
    /\ r <> NULL.
Proof.
  intros HI Hn HW Hf (y & Hy & Hys).
  destruct (Inv_revolution_nonnull _ _ _ _ _ HI HW) as (Hlen & _ & Hnz).
  pose proof (best_loop_run cfg st nunits W _ (fuel - length W) (freep st) _
                None HW Hnz ltac:(discriminate)) as L.
  replace (length W + (fuel - length W))%nat with fuel in L by lia.
  cbn [best_ptr best_prev] in L. rewrite L.
  pose proof (best_scan_Inv cfg st R A nunits W HI Hn HW) as Hs.
  destruct (exact_fit (heap st) nunits (freep st) W) as [[pv q]|].
  - destruct Hs as (_ & _ & _ & T1 & T2 & T3 & _).
    destruct (take_block st nunits pv q) as [r st'] eqn:Et. cbn [fst snd] in *.
    exists r, st'. split; [reflexivity|].
    exact (proj1 (take_block_nonnull _ _ _ _ _ _ _ T3 T1)).
  - destruct (best_fit (heap st) nunits (freep st) W None) as [[pv b]|].
    + destruct Hs as (_ & _ & _ & _ & T1 & T2 & T3 & _).
      destruct (take_tail st nunits pv b) as [r st'] eqn:Et. cbn [fst snd] in *.
      exists r, st'. split; [reflexivity|].
      exact (proj1 (take_block_nonnull _ _ _ _ _ _ _ T3 T1)).
    + exfalso. specialize (Hs y Hy). lia.
Qed.

(** ** realloc *)

Lemma payload_same_incl A B m m' :
  (forall x, In x B -> In x A) -> payload_same A m m' -> payload_same B m m'.
Proof. intros Hsub H x y Hx Hy. apply (H x y (Hsub x Hx) Hy). Qed.

(** Copying into the bytes of a block handed out touches no header. *)
Lemma Inv_memcpy cfg st R A a s src len :
  Inv cfg st R A -> In (a, s) A -> 0 <= len <= sizeof_Header * (s - 1) ->
  Inv cfg (with_heap st (Mem.memcpy (heap st) (padd a 1) src len)) R A
  /\ (forall x, In x A -> x <> (a, s) ->
        forall y, fst x + sizeof_Header <= y < padd (fst x) (snd x) ->
          Mem.memcpy (heap st) (padd a 1) src len y = heap st y).
Proof.
  intros HI Has Hlen.
  pose proof HI as [Henv HB HC Hcur HA HAF HAA].
  set (m' := Mem.memcpy (heap st) (padd a 1) src len).
  assert (Hfr : forall x, x + sizeof_Header <= padd a 1 \/ padd a s <= x ->
                  hdr_same m' (heap st) x).
  { intros x Hx. subst m'. unfold hdr_same, get_ptr, get_size.
    rewrite !MemFacts.load_memcpy_outside; [tauto| |]; cbn [Z.of_nat]; zsolve. }
  assert (Hok : alloc_ok cfg st (a, s)).
  { rewrite Forall_forall in HA. now apply HA. }
  destruct Hok as (K1 & K2 & K3 & K4). cbn [fst snd] in K1, K2, K3, K4.
  split.
  - constructor.
    + apply (env_ok_eq cfg st); [reflexivity|reflexivity|exact Henv].
    + exact HB.
    + cbn [heap with_heap]. eapply chain_frame; [|exact HC]. intros b Hb.
      apply Hfr.
      pose proof (Inv_alloc_disjoint _ _ _ _ _ _ HI Has Hb) as Hd.
      destruct (blocks_in_In _ _ _ _ HB Hb) as (_ & B2 & _).
      unfold disjoint in Hd. zsolve.
    + exact Hcur.
    + rewrite Forall_forall. intros x Hx.
      rewrite Forall_forall in HA. destruct (HA x Hx) as (X1 & X2 & X3 & X4).
      unfold alloc_ok.
      rewrite (heap_hi_eq cfg st (with_heap st m')) by reflexivity.
      cbn [heap with_heap].
      destruct (Hfr (fst x)) as [_ E]; [|rewrite E; splits; assumption].
      apply in_split in Has. destruct Has as (A1 & A2 & EA).
      rewrite EA in HAA, Hx.
      destruct (pairwise_disjoint_remove _ _ _ HAA) as [_ Hd].
      rewrite Forall_forall in Hd.
      apply in_app_or in Hx. destruct Hx as [Hx|[<-|Hx]].
      * specialize (Hd x (in_or_app _ _ _ (or_introl Hx))).
        unfold disjoint in Hd. zsolve.
      * zsolve.
      * specialize (Hd x (in_or_app _ _ _ (or_intror Hx))).
        unfold disjoint in Hd. zsolve.
    + exact HAF.
    + exact HAA.
  - intros x Hx Hne y Hy. subst m'. unfold Mem.memcpy.
    destruct ((padd a 1 <=? y) && (y <? padd a 1 + len)) eqn:E; [|reflexivity].
    exfalso. apply andb_true_iff in E. destruct E as [E1 E2].
    apply Z.leb_le in E1. apply Z.ltb_lt in E2.
    rewrite Forall_forall in HA. destruct (HA x Hx) as (X1 & X2 & _).
    apply in_split in Has. destruct Has as (A1 & A2 & EA).
    rewrite EA in HAA, Hx.
    destruct (pairwise_disjoint_remove _ _ _ HAA) as [_ Hd].
    rewrite Forall_forall in Hd.
    assert (Hx' : In x (A1 ++ A2)).
    { apply in_app_or in Hx. apply in_or_app.
      destruct Hx as [Hx|[Hx|Hx]]; [now left|congruence|now right]. }
    specialize (Hd x Hx'). unfold disjoint in Hd. zsolve.
Qed.

Theorem realloc_Inv cfg st R A1 A2 a s n fuel :
  Inv cfg st R (A1 ++ (a, s) :: A2) -> request_ok cfg n ->
  (3 * length R + 5 <= fuel)%nat ->
  exists r st', realloc cfg fuel st (padd a 1) n = Some (r, st') /\
    ((r = NULL /\ heap st' = heap st /\ freep st' = freep st
      /\ Inv cfg st' R (A1 ++ (a, s) :: A2))
     \/ (r <> NULL /\ exists R',
           Inv cfg st' R' ((padd r (-1), nunits_of n) :: A1 ++ A2)
           /\ (forall i, 0 <= i < Z.min n (sizeof_Header * (s - 1)) ->
                 heap st' (r + i) = heap st (padd a 1 + i))
           /\ payload_same (A1 ++ A2) (heap st) (heap st')
           /\ (length R' <= length R + 2)%nat)).
Proof.
  intros HI Hreq Hfuel.
  pose proof (Inv_bounds _ _ _ _ HI) as (Hb0 & Hb1 & Hb2 & Hb3).
  assert (Hok : alloc_ok cfg st (a, s)).
  { pose proof (inv_alloc _ _ _ _ HI) as HA. rewrite Forall_forall in HA.
    apply HA, in_elt. }
  destruct Hok as (K1 & K2 & K3 & K4). cbn [fst snd] in K1, K2, K3, K4.
  destruct (nunits_of_ok cfg n (env_page _ _ (inv_env _ _ _ _ HI)) Hreq)
    as (_ & Hnu & Hnb & _).
  unfold realloc.
  replace (padd a 1 =? NULL) with false by (symmetry; apply Z.eqb_neq; zsolve).
  replace (n =? 0) with false
    by (symmetry; apply Z.eqb_neq; destruct Hreq; lia).
  destruct (malloc_Inv cfg st R _ n fuel HI Hreq Hfuel)
    as (r & st1 & Hm & [(Hr & Hh & Hf & HI1)|(Hr & R1 & HI1 & Hpay1 & HlenR1)]).
  - rewrite Hm. subst r. change (NULL =? NULL) with true. cbv iota.
    exists NULL, st1. split; [reflexivity|]. left. now splits.
  - rewrite Hm. apply Z.eqb_neq in Hr. rewrite Hr. apply Z.eqb_neq in Hr.
    replace (padd (padd a 1) (-1)) with a by zsolve.
    set (nu := nunits_of n) in *.
    set (b := padd r (-1)) in *.
    assert (Hr16 : r = padd b 1) by (subst b; zsolve).
    (* the old header is intact *)
    assert (Hsz : get_size (heap st1) a = s).
    { pose proof (inv_alloc _ _ _ _ HI1) as HA1. rewrite Forall_forall in HA1.
      destruct (HA1 (a, s)) as (_ & _ & _ & E); [right; apply in_elt|exact E]. }
    rewrite Hsz.
    pose proof (get_size_range (heap st1) a) as Hrs. rewrite Hsz in Hrs.
    rewrite (Z.mod_small (s - 1)) by zsolve.
    rewrite (Z.mod_small (sizeof_Header * (s - 1))) by zsolve.
    set (len := if n <? sizeof_Header * (s - 1) then n else sizeof_Header * (s - 1)).
    assert (Hlen : len = Z.min n (sizeof_Header * (s - 1))).
    { subst len. destruct (n <? sizeof_Header * (s - 1)) eqn:E;
        [apply Z.ltb_lt in E|apply Z.ltb_ge in E]; lia. }
    assert (Hlen' : 0 <= len <= sizeof_Header * (nu - 1))
      by (destruct Hreq; zsolve).
    rewrite Hr16.
    destruct (Inv_memcpy cfg st1 R1 _ b nu (padd a 1) len HI1
                (or_introl eq_refl) Hlen') as [HI2 Hcp].
    set (st2 := with_heap st1 (Mem.memcpy (heap st1) (padd b 1) (padd a 1) len)) in *.
    change ((b, nu) :: A1 ++ (a, s) :: A2)
      with (((b, nu) :: A1) ++ (a, s) :: A2) in HI2.
    destruct (free_Inv cfg st2 R1 ((b, nu) :: A1) A2 a s fuel HI2 ltac:(lia))
      as [Hfree HI3].
    cbv zeta in Hfree, HI3. rewrite Hfree.
    eexists _, _. split; [reflexivity|]. right. rewrite <- Hr16.
    split; [exact Hr|].
    eexists. splits.
    + exact HI3.
    + intros i Hi. cbn [heap with_freep with_heap].
      assert (Hp : In (fl_pred (a, s) ((base cfg, 0) :: R1) 0)
                     (map fst ((base cfg, 0) :: R1)))
        by (apply fl_pred_In; discriminate).
      rewrite (free_payload cfg st2 R1 ((b, nu) :: A1) A2 a s _ HI2 Hp
                 (b, nu) (r + i) (or_introl eq_refl)) by zsolve.
      subst st2. cbn [heap with_heap]. unfold Mem.memcpy.
      replace ((padd b 1 <=? r + i) && (r + i <? padd b 1 + len)) with true
        by (symmetry; apply andb_true_iff; split;
            [apply Z.leb_le|apply Z.ltb_lt]; zsolve).
      replace (padd a 1 + (r + i - padd b 1)) with (padd a 1 + i) by zsolve.
      apply (Hpay1 (a, s) (padd a 1 + i) (in_elt _ _ _)). zsolve.
    + cbn [heap with_freep with_heap].
      assert (Hp : In (fl_pred (a, s) ((base cfg, 0) :: R1) 0)
                     (map fst ((base cfg, 0) :: R1)))
        by (apply fl_pred_In; discriminate).
      apply (payload_same_trans _ _ (heap st1)).
      { apply (payload_same_incl (A1 ++ (a, s) :: A2)); [|exact Hpay1].
        intros x Hx. apply in_app_or in Hx. apply in_or_app. cbn [In]. tauto. }
      apply (payload_same_trans _ _ (heap st2)).
      { intros x y Hx Hy. subst st2. cbn [heap with_heap].
        apply (Hcp x); [| |exact Hy].
        - right. apply in_app_or in Hx. apply in_or_app. cbn [In]. tauto.
        - intros ->. 
          pose proof (inv_alloc_alloc _ _ _ _ HI1) as HAA.
          cbn [pairwise_disjoint] in HAA. destruct HAA as [HAA _].
          rewrite Forall_forall in HAA.
          assert (Hin : In (b, nu) (A1 ++ (a, s) :: A2)).
          { apply in_app_or in Hx. apply in_or_app. cbn [In]. tauto. }
          specialize (HAA _ Hin). unfold disjoint in HAA. zsolve. }
      apply (payload_same_incl (((b, nu) :: A1) ++ A2)).
      { intros x Hx. right. exact Hx. }
      exact (free_payload cfg st2 R1 ((b, nu) :: A1) A2 a s _ HI2 Hp).
    + pose proof (fl_insert_length (a, s) ((base cfg, 0) :: R1)) as HL.
      destruct (fl_insert (a, s) ((base cfg, 0) :: R1)); cbn [length tl] in *; lia.
Qed.

(** ** More fuel changes no result *)

Lemma free_scan_mono m bp : forall fuel fuel' p r,
  free_scan fuel m bp p = Some r -> (fuel <= fuel')%nat ->
  free_scan fuel' m bp p = Some r.
Proof.
  induction fuel as [|k IH]; intros fuel' p r H Hle; [discriminate|].
  destruct fuel' as [|k']; [lia|]. cbn [free_scan] in *.
  destruct ((bp >? p) && (bp <? get_ptr m p)); [exact H|].
  destruct ((p >=? get_ptr m p) && ((bp >? p) || (bp <? get_ptr m p)));
    [exact H|].
  apply IH; [exact H|lia].
Qed.

Lemma free_mono fuel fuel' st ap st' :
  free fuel st ap = Some st' -> (fuel <= fuel')%nat ->
  free fuel' st ap = Some st'.
Proof.
  unfold free. intros H Hle. destruct (ap =? NULL); [exact H|].
  destruct (free_scan fuel (heap st) (padd ap (-1)) (freep st)) as [p|] eqn:E;
    [|discriminate].
  now rewrite (free_scan_mono _ _ _ _ _ _ E Hle).
Qed.

Lemma morecore_mono cfg fuel fuel' st nu x :
  morecore cfg fuel st nu = Some x -> (fuel <= fuel')%nat ->
  morecore cfg fuel' st nu = Some x.
Proof.
  unfold morecore. intros H Hle. cbv zeta in *.
  destruct (MMAP cfg).
  - destruct (_ =? FAILED); [exact H|].
    match type of H with
    | match free fuel ?s ?a with _ => _ end = _ =>
      destruct (free fuel s a) as [s'|] eqn:E; [|discriminate];
      now rewrite (free_mono _ _ _ _ _ E Hle)
    end.
  - destruct (sbrk _ _) as [cp o].
    destruct (cp =? FAILED); [exact H|].
    match type of H with
    | match free fuel ?s ?a with _ => _ end = _ =>
      destruct (free fuel s a) as [s'|] eqn:E; [|discriminate];
      now rewrite (free_mono _ _ _ _ _ E Hle)
    end.
Qed.

Lemma malloc_first_loop_mono cfg nunits : forall fuel fuel' st prevp p x,
  malloc_first_loop cfg fuel st nunits prevp p = Some x -> (fuel <= fuel')%nat ->
  malloc_first_loop cfg fuel' st nunits prevp p = Some x.
Proof.
  induction fuel as [|k IH]; intros fuel' st prevp p x H Hle; [discriminate|].
  destruct fuel' as [|k']; [lia|]. cbn [malloc_first_loop] in *.
  destruct (get_size (heap st) p >=? nunits); [exact H|].
  destruct (p =? freep st).
  - destruct (morecore cfg k st nunits) as [[r st1]|] eqn:E; [|discriminate].
    rewrite (morecore_mono _ _ k' _ _ _ E) by lia.
    destruct (r =? NULL); [exact H|]. apply IH; [exact H|lia].
  - apply IH; [exact H|lia].
Qed.

Lemma malloc_best_loop_mono cfg nunits :
  forall fuel fuel' st prevp p p_best prevp_best x,
  malloc_best_loop cfg fuel st nunits prevp p p_best prevp_best = Some x ->
  (fuel <= fuel')%nat ->
  malloc_best_loop cfg fuel' st nunits prevp p p_best prevp_best = Some x.
Proof.
  induction fuel as [|k IH]; intros fuel' st prevp p pb pvb x H Hle;
    [discriminate|].
  destruct fuel' as [|k']; [lia|]. cbn [malloc_best_loop] in *.
  destruct (get_size (heap st) p =? nunits); [exact H|].
  destruct (if ((pb =? NULL) || (get_size (heap st) p <? get_size (heap st) pb))
               && (get_size (heap st) p >? nunits)
            then (p, prevp) else (pb, pvb)) as [pb' pvb'].
  destruct (p =? freep st).
  - destruct (negb (pb' =? NULL)); [exact H|].
    destruct (morecore cfg k st nunits) as [[r st1]|] eqn:E; [|discriminate].
    rewrite (morecore_mono _ _ k' _ _ _ E) by lia.
    destruct (r =? NULL); [exact H|]. apply IH; [exact H|lia].
  - apply IH; [exact H|lia].
Qed.

Lemma malloc_mono cfg fuel fuel' st n x :
  malloc cfg fuel st n = Some x -> (fuel <= fuel')%nat ->
  malloc cfg fuel' st n = Some x.
Proof.
  unfold malloc. intros H Hle. destruct (n =? 0); [exact H|].
  destruct (STRATEGY cfg).
  - eapply malloc_first_loop_mono; eassumption.
  - eapply malloc_best_loop_mono; eassumption.
Qed.

Lemma realloc_mono cfg fuel fuel' st ptr n x :
  realloc cfg fuel st ptr n = Some x -> (fuel <= fuel')%nat ->
  realloc cfg fuel' st ptr n = Some x.
Proof.
  unfold realloc. intros H Hle.
  destruct (ptr =? NULL); [eapply malloc_mono; eassumption|].
  destruct (n =? 0).
  - destruct (free fuel st ptr) as [s|] eqn:E; [|discriminate].
    now rewrite (free_mono _ _ _ _ _ E Hle).
  - destruct (malloc cfg fuel st n) as [[r st1]|] eqn:E; [|discriminate].
    rewrite (malloc_mono _ _ _ _ _ _ E Hle).
    destruct (r =? NULL); [exact H|].
    match type of H with
    | match free fuel ?s ?a with _ => _ end = _ =>
      destruct (free fuel s a) as [s'|] eqn:E'; [|discriminate];
      now rewrite (free_mono _ _ _ _ _ E' Hle)
    end.
Qed.

(** ** The ring is one ascending cycle *)

Lemma last_cons (l : list Z) : forall x d, last (x :: l) d = last l x.
Proof.
  induction l as [|y l IH]; intros x d; [reflexivity|].
  change (last (x :: y :: l) d) with (last (y :: l) d).
  now rewrite (IH y d), (IH y x).
Qed.

Lemma increasing_weaken l : forall lo lo',
  lo' <= lo -> increasing lo l -> increasing lo' l.
Proof. destruct l; cbn [increasing]; intros; [exact I|]. split; [lia|tauto]. Qed.

Lemma increasing_app l1 : forall lo l2,
  increasing lo (l1 ++ l2) <-> increasing lo l1 /\ increasing (last l1 lo) l2.
Proof.
  induction l1 as [|x l1 IH]; intros lo l2.
  - cbn [app increasing last]. tauto.
  - cbn [app increasing]. rewrite IH.
    rewrite last_cons. tauto.
Qed.

Lemma increasing_last l : forall lo, increasing lo l -> lo <= last l lo.
Proof.
  induction l as [|x l IH]; intros lo H; cbn [increasing] in H; [cbn; lia|].
  destruct H as [H1 H2]. specialize (IH x H2).
  rewrite last_cons. lia.
Qed.

Lemma increasing_In l : forall lo x, increasing lo l -> In x l -> lo < x.
Proof.
  induction l as [|y l IH]; intros lo x H Hin; [contradiction|].
  cbn [increasing] in H. destruct H as [H1 H2].
  destruct Hin as [<-|Hin]; [exact H1|]. specialize (IH y x H2 Hin). lia.
Qed.

Lemma increasing_NoDup l : forall lo, increasing lo l -> NoDup l.
Proof.
  induction l as [|x l IH]; intros lo H; [constructor|].
  cbn [increasing] in H. destruct H as [H1 H2]. constructor.
  - intros Hin. pose proof (increasing_In _ _ _ H2 Hin). lia.
  - eapply IH; eassumption.
Qed.

Lemma blocks_in_increasing l : forall lo hi,
  blocks_in lo hi l -> increasing (lo - 1) (map fst l).
Proof.
  induction l as [|b l IH]; intros lo hi H; [exact I|].
  cbn [blocks_in] in H. destruct H as (H1 & H2 & H3 & H4).
  cbn [map increasing]. split; [lia|].
  apply (increasing_weaken _ (gap_after b - 1)); [zsolve|].
  eapply IH; eassumption.
Qed.

Lemma descents_app l1 : forall c l2,
  descents c (l1 ++ l2) = (descents (hd c l2) l1 + descents c l2)%nat.
Proof.
  induction l1 as [|x l1 IH]; intros c l2; [reflexivity|].
  cbn [app descents]. rewrite IH.
  replace (hd c (l1 ++ l2)) with (hd (hd c l2) l1) by (destruct l1; reflexivity).
  lia.
Qed.

Lemma descents_increasing l : forall lo c,
  increasing lo l -> l <> [] ->
  descents c l = if c <=? last l lo then 1%nat else 0%nat.
Proof.
  induction l as [|x l IH]; intros lo c H Hne; [congruence|].
  cbn [increasing] in H. destruct H as [H1 H2]. cbn [descents].
  destruct l as [|y l].
  - cbn [hd descents last]. lia.
  - cbn [hd]. cbn [increasing] in H2.
    replace (y <=? x) with false by (symmetry; apply Z.leb_gt; lia).
    rewrite (IH x c); [|cbn [increasing]; tauto|discriminate].
    now rewrite (last_cons (y :: l) x lo).
Qed.

(** A rotation of an ascending list goes down exactly once. *)
Lemma wraps_rotation pre post lo :
  increasing lo (pre ++ post) -> post <> [] -> wraps (post ++ pre) = 1%nat.
Proof.
  intros H Hne. apply increasing_app in H. destruct H as [Hpre Hpost].
  unfold wraps. destruct post as [|h post]; [congruence|].
  cbn [app hd]. change (h :: post ++ pre) with ((h :: post) ++ pre).
  rewrite descents_app.
  pose proof (increasing_last _ _ Hpost) as Hl.
  rewrite (descents_increasing (h :: post) (last pre lo)) by (assumption || discriminate).
  pose proof (increasing_last _ _ Hpre) as Hlp.
  assert (Hh : last pre lo < h) by (cbn [increasing] in Hpost; tauto).
  destruct pre as [|a pre].
  - cbn [hd descents]. 
    assert (h <= last (h :: post) (last [] lo)).
    { cbn [increasing] in Hpost. destruct Hpost as [_ Hp].
      pose proof (increasing_last _ _ Hp).
      rewrite last_cons. lia. }
    replace (h <=? last (h :: post) (last [] lo)) with true
      by (symmetry; apply Z.leb_le; lia). reflexivity.
  - cbn [hd].
    rewrite (descents_increasing (a :: pre) lo) by (assumption || discriminate).
    cbn [increasing] in Hpre. destruct Hpre as [Ha Hpre'].
    pose proof (increasing_last _ _ Hpre') as Hla.
    assert (Ela : last (a :: pre) lo = last pre a).
    { apply last_cons. }
    rewrite Ela in *.
    replace (a <=? last (h :: post) (last pre a)) with true
      by (symmetry; apply Z.leb_le; lia).
    replace (h <=? last pre a) with false
      by (symmetry; apply Z.leb_gt; lia).
    reflexivity.
Qed.

Lemma chain_last m l : forall c d,
  chain m l c -> l <> [] -> get_ptr m (last (map fst l) d) = c.
Proof.
  induction l as [|b l IH]; intros c d H Hne; [congruence|].
  cbn [chain] in H. destruct H as (H1 & H2 & H3).
  destruct l as [|b' l]; [exact H1|].
  change (last (map fst (b :: b' :: l)) d) with (last (map fst (b' :: l)) d).
  apply IH; [exact H3|discriminate].
Qed.

Theorem Inv_ring_ok cfg st R A :
  Inv cfg st R A ->
  ring_ok st (S (length R))
  /\ (forall x, In x (walk (heap st) (freep st) (S (length R)))
                <-> In x (map fst ((base cfg, 0) :: R)))
  /\ In (freep st) (map fst ((base cfg, 0) :: R))
  /\ increasing (base cfg - 1) (map fst ((base cfg, 0) :: R)).
Proof.
  intros [_ HB HC Hcur _ _ _].
  pose proof (blocks_in_increasing _ _ _ HB) as Hinc.
  splits; try assumption.
  - pose proof Hcur as Hin.
    apply in_map_iff in Hin. destruct Hin as ([f fs] & Hf & Hin).
    cbn [fst] in Hf. subst f.
    apply in_split in Hin. destruct Hin as (P & T & EF).
    rewrite EF in HC, Hinc.
    assert (Hc : base cfg = hd_addr P (freep st)).
    { destruct P as [|p P]; inversion EF; reflexivity. }
    apply chain_app in HC. destruct HC as [HCP HCS].
    cbn [hd_addr fst] in HCP.
    assert (HCr : chain (heap st) (((freep st, fs) :: T) ++ P) (freep st)).
    { apply chain_app. split; [|exact HCP]. rewrite <- Hc. exact HCS. }
    pose proof (walk_chain _ _ _ HCr) as Hw. cbn [hd_addr app fst] in Hw.
    replace (length ((freep st, fs) :: T ++ P)) with (S (length R)) in Hw.
    2:{ assert (length ((base cfg, 0) :: R) = length (P ++ (freep st, fs) :: T))
          by now rewrite EF.
        cbn [length] in *. rewrite !length_app in *. cbn [length] in *. lia. }
    unfold ring_ok. cbv zeta. rewrite Hw.
    rewrite map_app in Hinc.
    splits.
    + lia.
    + change (map fst ((freep st, fs) :: T ++ P))
        with (map fst (((freep st, fs) :: T) ++ P)).
      rewrite map_app.
      apply (Permutation_NoDup (Permutation_app_comm _ _)).
      eapply increasing_NoDup. exact Hinc.
    + apply (chain_last _ _ _ _ HCr). discriminate.
    + change (map fst ((freep st, fs) :: T ++ P))
        with (map fst (((freep st, fs) :: T) ++ P)).
      rewrite map_app. eapply wraps_rotation; [exact Hinc|discriminate].
  - intros x.
    pose proof Hcur as Hin.
    apply in_map_iff in Hin. destruct Hin as ([f fs] & Hf & Hin).
    cbn [fst] in Hf. subst f.
    apply in_split in Hin. destruct Hin as (P & T & EF).
    rewrite EF in HC.
    assert (Hc : base cfg = hd_addr P (freep st)).
    { destruct P as [|p P]; inversion EF; reflexivity. }
    apply chain_app in HC. destruct HC as [HCP HCS].
    cbn [hd_addr fst] in HCP.
    assert (HCr : chain (heap st) (((freep st, fs) :: T) ++ P) (freep st)).
    { apply chain_app. split; [|exact HCP]. rewrite <- Hc. exact HCS. }
    pose proof (walk_chain _ _ _ HCr) as Hw. cbn [hd_addr app fst] in Hw.
    replace (length ((freep st, fs) :: T ++ P)) with (S (length R)) in Hw.
    2:{ assert (length ((base cfg, 0) :: R) = length (P ++ (freep st, fs) :: T))
          by now rewrite EF.
        cbn [length] in *. rewrite !length_app in *. cbn [length] in *. lia. }
    rewrite Hw, EF.
    change (map fst ((freep st, fs) :: T ++ P))
      with (map fst (((freep st, fs) :: T) ++ P)).
    rewrite !map_app, !in_app_iff. tauto.
Qed.

(** ** Clients keep the invariant *)

Lemma pointers_app A1 A2 : pointers (A1 ++ A2) = pointers A1 ++ pointers A2.
Proof. unfold pointers. apply map_app. Qed.

Lemma remove_nth_app {X : Type} (l1 : list X) x l2 :
  remove_nth (length l1) (l1 ++ x :: l2) = l1 ++ l2.
Proof.
  unfold remove_nth. rewrite firstn_app, Nat.sub_diag, firstn_all. cbn [firstn].
  rewrite app_nil_r.
  replace (S (length l1)) with (length (l1 ++ [x]))
    by (rewrite length_app; cbn [length]; lia).
  replace (l1 ++ x :: l2) with ((l1 ++ [x]) ++ l2)
    by (rewrite <- app_assoc; reflexivity).
  rewrite skipn_app, Nat.sub_diag, skipn_all. reflexivity.
Qed.

Lemma remove_nth_out {X : Type} (l : list X) i :
  (length l <= i)%nat -> remove_nth i l = l.
Proof.
  intros H. unfold remove_nth.
  rewrite firstn_all2 by lia. rewrite skipn_all2 by lia. apply app_nil_r.
Qed.

Lemma pointers_nth A i :
  (i < length A)%nat ->
  exists A1 a s A2, A = A1 ++ (a, s) :: A2
    /\ nth i (pointers A) NULL = padd a 1
    /\ remove_nth i (pointers A) = pointers (A1 ++ A2).
Proof.
  intros Hi.
  destruct (nth_split A (0, 0) Hi) as (A1 & A2 & EA & Hlen).
  destruct (nth i A (0, 0)) as [a s].
  exists A1, a, s, A2. split; [exact EA|]. rewrite EA.
  rewrite !pointers_app. cbn [pointers map fst]. fold (pointers A2).
  assert (Hl : length (pointers A1) = i)
    by (unfold pointers; now rewrite length_map).
  split.
  - rewrite app_nth2 by lia. rewrite Hl, Nat.sub_diag. reflexivity.
  - rewrite <- Hl. apply remove_nth_app.
Qed.

Lemma pointers_nth_out A i :
  (length A <= i)%nat ->
  nth i (pointers A) NULL = NULL /\ remove_nth i (pointers A) = pointers A.
Proof.
  intros H.
  assert (length (pointers A) <= i)%nat
    by (unfold pointers; now rewrite length_map).
  split; [now apply nth_overflow|now apply remove_nth_out].
Qed.

Lemma malloc_step cfg st live n :
  client_inv cfg (st, live) -> n = 0 \/ request_ok cfg n ->
  exists fuel0 r st',
    (forall fuel, (fuel0 <= fuel)%nat -> malloc cfg fuel st n = Some (r, st'))
    /\ client_inv cfg (st', if r =? NULL then live else r :: live).
Proof.
  intros Hc [->|Hreq].
  - exists O, NULL, st. split; [intros; reflexivity|exact Hc].
  - assert (Hn : n <> 0) by (destruct Hreq; lia).
    assert (HI : exists st0 R A,
               Inv cfg st0 R A /\ live = pointers A
               /\ forall fuel, malloc cfg fuel st n = malloc cfg fuel st0 n).
    { destruct Hc as [[HF Hl]|(R & A & HI & Hl)]; cbn [fst snd] in *.
      - exists (malloc_init cfg st), [], []. splits.
        + exact (proj1 (malloc_init_Fresh cfg st HF)).
        + exact Hl.
        + intros fuel. now apply malloc_Fresh.
      - exists st, R, A. now splits. }
    destruct HI as (st0 & R & A & HI & Hl & Hm).
    destruct (malloc_Inv cfg st0 R A n (3 * length R + 5)%nat HI Hreq (le_n _))
      as (r & st' & Hm0 & Hpost).
    exists (3 * length R + 5)%nat, r, st'. split.
    + intros fuel Hf. rewrite Hm. eapply malloc_mono; eassumption.
    + right. destruct Hpost as [(-> & _ & _ & HI')|(Hr & R' & HI' & _)].
      * change (NULL =? NULL) with true. exists R, A. now split.
      * apply Z.eqb_neq in Hr. rewrite Hr. apply Z.eqb_neq in Hr.
        exists R', ((padd r (-1), nunits_of n) :: A). split; [exact HI'|].
        cbn [fst snd pointers map]. rewrite Hl. f_equal. zsolve.
Qed.

Lemma step_ok cfg c o :
  client_inv cfg c -> op_ok cfg o ->
  exists fuel0 c',
    (forall fuel, (fuel0 <= fuel)%nat -> step cfg fuel o c = Some c')
    /\ client_inv cfg c'.
Proof.
  intros Hc Hop. destruct c as [st live]. destruct o as [n|i|i n]; cbn [op_ok] in Hop.
  - (* malloc *)
    destruct (malloc_step cfg st live n Hc Hop) as (fuel0 & r & st' & Hm & Hc').
    exists fuel0, (st', if r =? NULL then live else r :: live).
    split; [|exact Hc']. intros fuel Hf. cbn [step]. now rewrite Hm.
  - (* free *)
    destruct Hc as [[HF Hl]|(R & A & HI & Hl)]; cbn [fst snd] in *.
    + subst live. exists O, (st, []). split.
      * intros fuel _. cbn [step]. destruct i; reflexivity.
      * left. now split.
    + subst live. destruct (Nat.lt_ge_cases i (length A)) as [Hi|Hi].
      * destruct (pointers_nth A i Hi) as (A1 & a & s & A2 & EA & Hn & Hr).
        rewrite EA in HI.
        destruct (free_Inv cfg st R A1 A2 a s (2 * (length R + 1))%nat HI (le_n _))
          as [Hfree HI'].
        cbv zeta in Hfree, HI'.
        eexists (2 * (length R + 1))%nat, (_, _). split.
        -- intros fuel Hf. cbn [step]. rewrite Hn.
           rewrite (free_mono _ _ _ _ _ Hfree Hf). rewrite Hr. reflexivity.
        -- right. eexists _, _. split; [exact HI'|reflexivity].
      * destruct (pointers_nth_out A i Hi) as [Hn Hr].
        exists O, (st, pointers A). split.
        -- intros fuel _. cbn [step]. rewrite Hn, Hr. reflexivity.
        -- right. exists R, A. now split.
  - (* realloc *)
    assert (Hnull : nth i live NULL = NULL ->
              remove_nth i live = live ->
              exists fuel0 c',
                (forall fuel, (fuel0 <= fuel)%nat ->
                   step cfg fuel (OpRealloc i n) (st, live) = Some c')
                /\ client_inv cfg c').
    { intros Hn Hr.
      destruct (malloc_step cfg st live n Hc Hop) as (fuel0 & r & st' & Hm & Hc').
      exists fuel0, (st', if r =? NULL then live else r :: live).
      split; [|exact Hc']. intros fuel Hf. cbn [step]. rewrite Hn, Hr.
      change (realloc cfg fuel st NULL n) with (malloc cfg fuel st n).
      rewrite (Hm fuel Hf). destruct (r =? NULL); [|reflexivity].
      destruct (n =? 0); reflexivity. }
    destruct Hc as [[HF Hl]|(R & A & HI & Hl)]; cbn [fst snd] in *.
    + subst live. apply Hnull; [destruct i; reflexivity|].
      apply remove_nth_out. cbn [length]. lia.
    + subst live. destruct (Nat.lt_ge_cases i (length A)) as [Hi|Hi].
      2:{ destruct (pointers_nth_out A i Hi) as [Hn Hr]. now apply Hnull. }
      destruct (pointers_nth A i Hi) as (A1 & a & s & A2 & EA & Hn & Hr).
      rewrite EA in HI.
      pose proof (Inv_bounds _ _ _ _ HI) as (Hb0 & _).
      assert (Hok : alloc_ok cfg st (a, s)).
      { pose proof (inv_alloc _ _ _ _ HI) as HA. rewrite Forall_forall in HA.
        apply HA, in_elt. }
      destruct Hok as (K1 & _). cbn [fst] in K1.
      assert (Hpn : (padd a 1 =? NULL) = false) by (apply Z.eqb_neq; zsolve).
      destruct Hop as [->|Hreq].
      * (* size 0: release *)
        destruct (free_Inv cfg st R A1 A2 a s (2 * (length R + 1))%nat HI (le_n _))
          as [Hfree HI'].
        cbv zeta in Hfree, HI'.
        eexists (2 * (length R + 1))%nat, (_, _). split.
        -- intros fuel Hf. cbn [step]. rewrite Hn. unfold realloc.
           rewrite Hpn. cbn [Z.eqb].
           rewrite (free_mono _ _ _ _ _ Hfree Hf). cbn [Z.eqb NULL].
           rewrite Hr. reflexivity.
        -- right. eexists _, _. split; [exact HI'|reflexivity].
      * destruct (realloc_Inv cfg st R A1 A2 a s n (3 * length R + 5)%nat
                    HI Hreq (le_n _)) as (r & st' & Hre & Hcase).
        assert (Hn0 : (n =? 0) = false)
          by (apply Z.eqb_neq; destruct Hreq; lia).
        exists (3 * length R + 5)%nat,
          (st', if r =? NULL then pointers A else r :: pointers (A1 ++ A2)).
        split.
        -- intros fuel Hf. cbn [step]. rewrite Hn.
           rewrite (realloc_mono _ _ _ _ _ _ _ Hre Hf). rewrite Hn0, Hr.
           reflexivity.
        -- right.
           destruct Hcase as [(-> & _ & _ & HI')|(Hrn & R' & HI' & _)].
           ++ change (NULL =? NULL) with true. exists R, A.
              split; [rewrite EA; exact HI'|reflexivity].
           ++ apply Z.eqb_neq in Hrn. rewrite Hrn. apply Z.eqb_neq in Hrn.
              exists R', ((padd r (-1), nunits_of n) :: A1 ++ A2).
              split; [exact HI'|].
              cbn [fst snd pointers map]. f_equal. zsolve.
Qed.

Theorem run_ok cfg ops : forall c,
  client_inv cfg c -> Forall (op_ok cfg) ops ->
  exists fuel0 c',
    (forall fuel, (fuel0 <= fuel)%nat -> run cfg fuel ops c = Some c')
    /\ client_inv cfg c'.
Proof.
  induction ops as [|o ops IH]; intros c Hc Hops.
  - exists O, c. split; [reflexivity|exact Hc].
  - inversion Hops as [|? ? Ho Hops']; subst.
    destruct (step_ok cfg c o Hc Ho) as (f1 & c1 & Hs & Hc1).
    destruct (IH c1 Hc1 Hops') as (f2 & c2 & Hr & Hc2).
    exists (Nat.max f1 f2), c2. split; [|exact Hc2].
    intros fuel Hf. cbn [run]. rewrite Hs by lia. apply Hr. lia.
Qed.

(** ** The block handed out holds the bytes asked for *)

Theorem malloc_usable_bytes cfg st R A n fuel r st' :
  Inv cfg st R A -> request_ok cfg n -> (3 * length R + 5 <= fuel)%nat ->
  malloc cfg fuel st n = Some (r, st') -> r <> NULL ->
  nunits_of n = (n + 15) / 16 + 1
  /\ get_size (heap st') (padd r (-1)) = nunits_of n
  /\ n <= sizeof_Header * (get_size (heap st') (padd r (-1)) - 1).
Proof.
  intros HI Hreq Hfuel Hm Hr.
  destruct (nunits_of_ok cfg n (env_page _ _ (inv_env _ _ _ _ HI)) Hreq)
    as (Hnu & _ & Hnb & _).
  destruct (malloc_Inv cfg st R A n fuel HI Hreq Hfuel)
    as (r0 & st0 & Hm0 & Hpost).
  rewrite Hm in Hm0. inversion Hm0; subst r0 st0.
  destruct Hpost as [(Hr0 & _)|(_ & R' & HI' & _)]; [congruence|].
  pose proof (inv_alloc _ _ _ _ HI') as HA. inversion HA as [|? ? Hok _]; subst.
  destruct Hok as (_ & _ & _ & Hsz). cbn [fst snd] in Hsz.
  rewrite Hsz. now splits.
Qed.
(** * The properties of the specification *)

(** C2, as the code has it.  Release of a block handed out, on a heap of
    fewer than [2^32] units: the block goes after the last free block [p]
    below it, is joined to the upper neighbour when that one starts where
    the block ends and to [p] when [p] ends where the block starts (sizes
    added, links taken over, as [fl_join_upper] and [fl_join_lower] say);
    the memory then holds exactly that list and no two free blocks of it
    are contiguous.  The cursor is [p]: when the block was joined to [p],
    that is the merged block itself, in which the released block lies;
    otherwise it is the block before the released one, whose link leads to
    it. *)
Theorem free_coalesces cfg st R A1 A2 bp bs fuel :
  Inv cfg st R (A1 ++ (bp, bs) :: A2) ->
  (2 * (length R + 1) <= fuel)%nat ->
  exists st' F1 p ps F2 R',
    free fuel st (padd bp 1) = Some st'
    /\ (base cfg, 0) :: R = F1 ++ (p, ps) :: F2
    /\ p < bp
    /\ (forall x, In x F1 -> fst x < p)
    /\ (forall x, In x F2 -> bp < fst x)
    /\ (base cfg, 0) :: R'
       = F1 ++ fl_join_lower (p, ps) (fl_join_upper (bp, bs) F2)
    /\ Inv cfg st' R' (A1 ++ A2)
    /\ no_contiguous ((base cfg, 0) :: R')
    /\ freep st' = p
    /\ (padd p ps = bp ->
          p <= bp < padd p (get_size (heap st') p)
          /\ ~ cursor_before_region st' bp)
    /\ (padd p ps <> bp ->
          get_ptr (heap st') p = bp /\ cursor_before_region st' bp).
Proof.
  intros HI Hfuel.
  destruct (free_Inv cfg st R A1 A2 bp bs fuel HI Hfuel) as [Hfree HI'].
  cbv zeta in Hfree, HI'.
  pose proof (Inv_bounds _ _ _ _ HI) as (Hb0 & Hb1 & _).
  pose proof (inv_free _ _ _ _ HI) as HB.
  assert (Hbok : alloc_ok cfg st (bp, bs)).
  { pose proof (inv_alloc _ _ _ _ HI) as HA. rewrite Forall_forall in HA.
    apply HA, in_elt. }
  destruct Hbok as (K1 & K2 & K3 & K4). cbn [fst snd] in K1, K2, K3, K4.
  assert (Hne : forall x, In x ((base cfg, 0) :: R) -> fst x <> bp).
  { intros x Hx.
    pose proof (Inv_alloc_far _ _ _ _ (bp, bs) x HI (in_elt _ _ _) Hx) as H.
    cbn [fst] in H. zsolve. }
  destruct (fl_pred_split bp _ _ _ HB ltac:(discriminate)
              ltac:(cbn [hd_addr fst]; zsolve) Hne)
    as (F1 & [p ps] & F2 & EF & Hp & H1 & H2). cbn [fst] in Hp, H1.
  pose proof HB as HB0. rewrite EF in HB0.
  destruct (fl_insert_split bp bs F1 _ _ (p, ps) F2 0 HB0 Hp H2) as [Eins Epred].
  rewrite <- EF in Eins, Epred. cbn [fst] in Epred.
  rewrite fl_insert_head in Eins by zsolve.
  match type of HI' with Inv _ ?s _ _ => set (st1 := s) in * end.
  assert (Efp : freep st1 = p) by (subst st1; cbn [freep with_freep]; exact Epred).
  assert (Hcur : (padd p ps = bp ->
                    p <= bp < padd p (get_size (heap st1) p)
                    /\ ~ cursor_before_region st1 bp)
                 /\ (padd p ps <> bp ->
                       get_ptr (heap st1) p = bp
                       /\ cursor_before_region st1 bp)).
  { pose proof (inv_chain _ _ _ _ HI') as HC0.
    assert (Hsz0 : get_size (heap st1) (base cfg) = 0).
    { cbn [chain fst snd] in HC0. tauto. }
    rewrite Eins in HC0. apply chain_app in HC0. destruct HC0 as [_ HC0].
    apply blocks_in_app in HB0. destruct HB0 as [_ HB0].
    cbn [blocks_in fst snd] in HB0. destruct HB0 as (_ & Hps & _ & HB2).
    assert (Hup : exists s' L, fl_join_upper (bp, bs) F2 = (bp, s') :: L
                    /\ 1 <= s' /\ (forall x, In x L -> bp < fst x)).
    { unfold fl_join_upper. destruct F2 as [|q F2']; cbn [fst snd].
      - exists bs, []. splits; [reflexivity|lia|intros x []].
      - cbn [blocks_in] in HB2. destruct HB2 as (_ & Hq & _).
        destruct (padd bp bs =? fst q).
        + exists (bs + snd q), F2'. splits; [reflexivity|lia|].
          intros x Hx. apply H2. now right.
        + exists bs, (q :: F2'). splits; [reflexivity|lia|exact H2]. }
    destruct Hup as (s' & L & EU & Hs' & HL). rewrite EU in HC0, Eins.
    unfold fl_join_lower in HC0, Eins. cbn [fst snd] in HC0, Eins.
    unfold cursor_before_region. rewrite Efp. split; intros Hpb.
    - replace (padd p ps =? bp) with true in HC0, Eins
        by (symmetry; now apply Z.eqb_eq).
      cbn [chain fst snd] in HC0. destruct HC0 as (Eptr & Esz & _).
      rewrite Esz, Eptr. split; [zsolve|].
      destruct L as [|q L']; cbn [hd_addr].
      + rewrite Hsz0. zsolve.
      + specialize (HL q (or_introl eq_refl)). lia.
    - replace (padd p ps =? bp) with false in HC0
        by (symmetry; now apply Z.eqb_neq).
      cbn [chain fst snd hd_addr] in HC0.
      destruct HC0 as (Eptr & _ & _ & Esz & _).
      rewrite Eptr, Esz. split; [reflexivity|zsolve]. }
  exists st1, F1, p, ps, F2, (tl (fl_insert (bp, bs) ((base cfg, 0) :: R))).
  splits.
  - exact Hfree.
  - exact EF.
  - exact Hp.
  - exact H1.
  - exact H2.
  - exact Eins.
  - exact HI'.
  - eapply blocks_in_no_contiguous. exact (inv_free _ _ _ _ HI').
  - exact Efp.
  - exact (proj1 Hcur).
  - exact (proj2 Hcur).
Qed.

Lemma free_coalesces_witness :
  exists st' F1 p ps F2 R',
    free 10 st_ex1 (padd 24544 1) = Some st'
    /\ (base cfg_ex, 0) :: [(8192, 1022)] = F1 ++ (p, ps) :: F2
    /\ p < 24544
    /\ (forall x, In x F1 -> fst x < p)
    /\ (forall x, In x F2 -> 24544 < fst x)
    /\ (base cfg_ex, 0) :: R'
       = F1 ++ fl_join_lower (p, ps) (fl_join_upper (24544, 2) F2)
    /\ Inv cfg_ex st' R' ([] ++ [])
    /\ no_contiguous ((base cfg_ex, 0) :: R')
    /\ freep st' = p
    /\ (padd p ps = 24544 ->
          p <= 24544 < padd p (get_size (heap st') p)
          /\ ~ cursor_before_region st' 24544)
    /\ (padd p ps <> 24544 ->
          get_ptr (heap st') p = 24544 /\ cursor_before_region st' 24544).
Proof.
  apply (free_coalesces cfg_ex st_ex1 [(8192, 1022)] [] [] 24544 2 10).
  - exact Inv_ex1.
  - simpl. lia.
Defined.

(** C2, as stated, fails when the released block is joined to its lower
    neighbour.  The block at 24544 is released next to the free block at
    8192, which ends there: the cursor is left at 8192, the merged block in
    which the released block now lies, and its link leads on to the
    sentinel, so the cursor is not the block before the merged region. *)
Lemma free_lower_merge_cursor :
  exists st', free 10 st_ex1 (padd 24544 1) = Some st'
    /\ freep st' = 8192
    /\ get_size (heap st') 8192 = 1024
    /\ 8192 <= 24544 < padd 8192 (get_size (heap st') 8192)
    /\ get_ptr (heap st') (freep st') = base cfg_ex
    /\ ~ cursor_before_region st' 24544.
Proof.
  eexists. split; [vm_compute; reflexivity|].
  split; [reflexivity|]. split; [reflexivity|].
  split; [vm_compute; split; [discriminate|reflexivity]|].
  split; [reflexivity|].
  unfold cursor_before_region. vm_compute. intros [_ H]. discriminate.
Qed.

(** The amended C2 leaves out heaps of [2^32] units and more, where the
    sum of two sizes does not fit [unsigned]: a block of 2 units released
    right above a free block of [2^32 - 1] units is joined to it, and the
    size recorded for the merged block is 1. *)
Lemma free_size_sum_wraps :
  exists st',
    free 10 st_wrap (padd (padd 8192 (UINT_MOD - 1)) 1) = Some st'
    /\ get_size (heap st_wrap) 8192 = UINT_MOD - 1
    /\ get_size (heap st_wrap) (padd 8192 (UINT_MOD - 1)) = 2
    /\ freep st' = 8192
    /\ get_size (heap st') 8192 = 1.
Proof.
  eexists. split; [vm_compute; reflexivity|].
  split; [reflexivity|]. split; [reflexivity|]. split; reflexivity.
Qed.

(** C9. [malloc(0)] returns [NULL] at once and leaves the whole state,
    ring and cursor included, as it was. *)
Theorem malloc_zero cfg fuel st : malloc cfg fuel st 0 = Some (NULL, st).
Proof. reflexivity. Qed.

(** C10. [free(NULL)] returns at once and leaves the whole state, ring and
    cursor included, as it was. *)
Theorem free_null fuel st : free fuel st NULL = Some st.
Proof. reflexivity. Qed.

(** C8. [realloc(NULL, n)] is [malloc(n)], and [realloc(ptr, 0)] is
    [free(ptr)] followed by the result [NULL]. *)
Theorem realloc_degenerate cfg fuel st :
  (forall n, realloc cfg fuel st NULL n = malloc cfg fuel st n)
  /\ (forall ptr, realloc cfg fuel st ptr 0
                  = match free fuel st ptr with
                    | Some st' => Some (NULL, st')
                    | None => None
                    end).
Proof.
  split.
  - intros n. reflexivity.
  - intros ptr. unfold realloc. destruct (ptr =? NULL) eqn:E.
    + apply Z.eqb_eq in E. subst ptr. reflexivity.
    + reflexivity.
Qed.

(** C4. First fit.  [W] is one revolution of the ring from the block after
    the cursor.  The first block [q] of [W] with at least [nunits] units is
    chosen, [pv] being the block before it: of exactly [nunits] units it
    leaves the list ([fl_remove]), a bigger one is shortened by [nunits]
    units ([fl_shrink]) and the block handed out, of exactly [nunits]
    units, is its tail end; the cursor becomes [pv].  With no such block
    [morecore nunits] is called: when it fails [malloc] returns [NULL], and
    otherwise the scan starts again on the grown ring and returns a block. *)
Theorem malloc_first_fit cfg st R A n W fuel :
  STRATEGY cfg = STRATEGY_FIRST ->
  Inv cfg st R A -> request_ok cfg n ->
  revolution (length R + 1) (heap st) (freep st)
    (get_ptr (heap st) (freep st)) = Some W ->
  (3 * length R + 5 <= fuel)%nat ->
  let m := heap st in
  let nunits := nunits_of n in
  match first_fit m nunits (freep st) W with
  | Some (pv, q) =>
    get_ptr m pv = q /\ nunits <= get_size m q
    /\ exists st',
         malloc cfg fuel st n = Some (padd (take_addr m nunits q) 1, st')
         /\ freep st' = pv
         /\ Inv cfg st' (take_list m nunits q R)
              ((take_addr m nunits q, nunits) :: A)
  | None =>
    exists r1 st1,
      morecore cfg (fuel - length W) st nunits = Some (r1, st1)
      /\ ((r1 = NULL /\ malloc cfg fuel st n = Some (NULL, st1))
          \/ (r1 <> NULL
              /\ malloc cfg fuel st n = malloc cfg fuel st1 n
              /\ exists r st', malloc cfg fuel st n = Some (r, st')
                   /\ r <> NULL))
  end.
Proof.
  intros HS HI Hreq HW Hfuel m nunits.
  destruct (nunits_of_ok cfg n (env_page _ _ (inv_env _ _ _ _ HI)) Hreq)
    as (_ & Hnu & _ & Hg). fold nunits in Hnu, Hg.
  assert (Hn0 : n <> 0) by (destruct Hreq; lia).
  rewrite (malloc_unfold cfg st R A) by assumption.
  rewrite HS. fold nunits. subst m.
  destruct (first_fit (heap st) nunits (freep st) W) as [[pv q]|] eqn:Hff.
  - destruct (first_fit_pick _ _ _ _ _ _ _ _ HI HW Hff) as (P1 & P2 & P3 & P4).
    destruct (take_block_Inv cfg st R A nunits pv q HI P1 P2 P3 ltac:(lia) P4)
      as (T1 & T2 & T3).
    destruct (Inv_revolution_nonnull _ _ _ _ _ HI HW) as (Hlen & _).
    rewrite (first_fit_found cfg st nunits W fuel _ _ _ _ _ HW Hff) by lia.
    splits; try assumption.
    destruct (take_block st nunits pv q) as [r st'] eqn:Et. cbn [fst snd] in *.
    exists st'. subst r. now splits.
  - destruct (first_fit_grow cfg st R A nunits W fuel HI ltac:(lia) Hg HW Hff Hfuel)
      as (r1 & st1 & Hmc & [(Hr & Hl & Hh & Hf & HI1)
                           |(Hr & R1 & W1 & pv & q & HI1 & _ & HlenR1 & HW1 & Hff1 & Hl & Hrun)]).
    + exists r1, st1. split; [exact Hmc|]. left. now split.
    + exists r1, st1. split; [exact Hmc|]. right. split; [exact Hr|].
      destruct (first_fit_pick _ _ _ _ _ _ _ _ HI1 HW1 Hff1) as (P1 & P2 & P3 & P4).
      destruct (take_block_Inv cfg st1 R1 A nunits pv q HI1 P1 P2 P3 ltac:(lia) P4)
        as (T1 & T2 & T3).
      split.
      * rewrite (malloc_unfold cfg st1 R1 A) by assumption.
        rewrite HS. fold nunits. rewrite Hl, Hrun by lia. reflexivity.
      * rewrite Hl.
        destruct (take_block st1 nunits pv q) as [r st'] eqn:Et. cbn [fst snd] in *.
        exists r, st'. split; [reflexivity|].
        exact (proj1 (take_block_nonnull _ _ _ _ _ _ _ T3 T1)).
Qed.

Lemma malloc_first_fit_witness :
  let m := heap st_ex1 in
  let nunits := nunits_of 16 in
  match first_fit m nunits (freep st_ex1) [8192; 4096] with
  | Some (pv, q) =>
    get_ptr m pv = q /\ nunits <= get_size m q
    /\ exists st',
         malloc cfg_ex 10 st_ex1 16 = Some (padd (take_addr m nunits q) 1, st')
         /\ freep st' = pv
         /\ Inv cfg_ex st' (take_list m nunits q [(8192, 1022)])
              ((take_addr m nunits q, nunits) :: [(24544, 2)])
  | None =>
    exists r1 st1,
      morecore cfg_ex (10 - length [8192; 4096]) st_ex1 nunits = Some (r1, st1)
      /\ ((r1 = NULL /\ malloc cfg_ex 10 st_ex1 16 = Some (NULL, st1))
          \/ (r1 <> NULL
              /\ malloc cfg_ex 10 st_ex1 16 = malloc cfg_ex 10 st1 16
              /\ exists r st', malloc cfg_ex 10 st_ex1 16 = Some (r, st')
                   /\ r <> NULL))
  end.
Proof.
  apply (malloc_first_fit cfg_ex st_ex1 [(8192, 1022)] [(24544, 2)] 16
           [8192; 4096] 10).
  - reflexivity.
  - exact Inv_ex1.
  - vm_compute. split; [reflexivity|discriminate].
  - vm_compute. reflexivity.
  - simpl. lia.
Defined.

(** C5. Best fit.  [W] is one revolution of the ring from the block after
    the cursor.  The first block of [W] of exactly [nunits] units is
    unlinked and returned.  Without one, the block [b] chosen is strictly
    bigger than [nunits] and no block of [W] that is strictly bigger than
    [nunits] is smaller than [b]; it is shortened by [nunits] units and its
    tail end handed out.  With no candidate at all [morecore nunits] is
    called: when it fails [malloc] returns [NULL], and otherwise the scan
    starts again on the grown ring and returns a block. *)
Theorem malloc_best_fit cfg st R A n W fuel :
  STRATEGY cfg = STRATEGY_BEST ->
  Inv cfg st R A -> request_ok cfg n ->
  revolution (length R + 1) (heap st) (freep st)
    (get_ptr (heap st) (freep st)) = Some W ->
  (3 * length R + 5 <= fuel)%nat ->
  let m := heap st in
  let nunits := nunits_of n in
  match exact_fit m nunits (freep st) W with
  | Some (pv, q) =>
    get_ptr m pv = q /\ get_size m q = nunits
    /\ exists st',
         malloc cfg fuel st n = Some (padd q 1, st')
         /\ freep st' = pv
         /\ Inv cfg st' (fl_remove q R) ((q, nunits) :: A)
  | None =>
    match best_fit m nunits (freep st) W None with
    | Some (pv, b) =>
      get_ptr m pv = b /\ In b W /\ nunits < get_size m b
      /\ (forall x, In x W -> nunits < get_size m x ->
            get_size m b <= get_size m x)
      /\ exists st',
           malloc cfg fuel st n
           = Some (padd (padd b (get_size m b - nunits)) 1, st')
           /\ freep st' = pv
           /\ Inv cfg st' (fl_shrink b nunits R)
                ((padd b (get_size m b - nunits), nunits) :: A)
    | None =>
      (forall x, In x W -> get_size m x < nunits)
      /\ exists r1 st1,
           morecore cfg (fuel - length W) st nunits = Some (r1, st1)
           /\ ((r1 = NULL /\ malloc cfg fuel st n = Some (NULL, st1))
               \/ (r1 <> NULL
                   /\ malloc cfg fuel st n = malloc cfg fuel st1 n
                   /\ exists r st', malloc cfg fuel st n = Some (r, st')
                        /\ r <> NULL))
    end
  end.
Proof.
  intros HS HI Hreq HW Hfuel m nunits.
  destruct (nunits_of_ok cfg n (env_page _ _ (inv_env _ _ _ _ HI)) Hreq)
    as (_ & Hnu & _ & Hg). fold nunits in Hnu, Hg.
  assert (Hn0 : n <> 0) by (destruct Hreq; lia).
  rewrite (malloc_unfold cfg st R A) by assumption.
  rewrite HS. fold nunits. subst m.
  destruct (Inv_revolution_nonnull _ _ _ _ _ HI HW) as (Hlen & _ & Hnz).
  pose proof (best_loop_run cfg st nunits W _ (fuel - length W) (freep st) _
                None HW Hnz ltac:(discriminate)) as L.
  replace (length W + (fuel - length W))%nat with fuel in L by lia.
  cbn [best_ptr best_prev] in L.
  pose proof (best_scan_Inv cfg st R A nunits W HI ltac:(lia) HW) as Hs.
  destruct (exact_fit (heap st) nunits (freep st) W) as [[pv q]|] eqn:Hex.
  - destruct Hs as (S1 & S2 & S3 & T1 & T2 & T3 & _). rewrite L.
    splits; try assumption.
    destruct (take_block st nunits pv q) as [r st'] eqn:Et. cbn [fst snd] in *.
    exists st'. subst r. now splits.
  - destruct (best_fit (heap st) nunits (freep st) W None) as [[pv b]|] eqn:Hbf.
    + destruct Hs as (S1 & S2 & S3 & S4 & T1 & T2 & T3 & _). rewrite L.
      splits; try assumption.
      destruct (take_tail st nunits pv b) as [r st'] eqn:Et. cbn [fst snd] in *.
      exists st'. subst r. now splits.
    + split; [exact Hs|].
      destruct (best_fit_grow cfg st R A nunits W fuel HI ltac:(lia) Hg HW Hex Hbf Hfuel)
        as (r1 & st1 & Hmc & [(Hr & Hl & Hh & Hf & HI1)
                             |(Hr & R1 & W1 & HI1 & _ & HlenR1 & HW1 & Hy & Hl)]).
      * exists r1, st1. split; [exact Hmc|]. left. now split.
      * exists r1, st1. split; [exact Hmc|]. right. split; [exact Hr|].
        split.
        -- rewrite (malloc_unfold cfg st1 R1 A) by assumption.
           rewrite HS. fold nunits. apply Hl. lia.
        -- rewrite (Hl fuel) by lia.
           apply (best_loop_found cfg st1 R1 A nunits W1 fuel HI1); try assumption; lia.
Qed.

Lemma malloc_best_fit_witness :
  let m := heap st_ex1 in
  let nunits := nunits_of 16 in
  match exact_fit m nunits (freep st_ex1) [8192; 4096] with
  | Some (pv, q) =>
    get_ptr m pv = q /\ get_size m q = nunits
    /\ exists st',
         malloc cfg_ex_best 10 st_ex1 16 = Some (padd q 1, st')
         /\ freep st' = pv
         /\ Inv cfg_ex_best st' (fl_remove q [(8192, 1022)])
              ((q, nunits) :: [(24544, 2)])
  | None =>
    match best_fit m nunits (freep st_ex1) [8192; 4096] None with
    | Some (pv, b) =>
      get_ptr m pv = b /\ In b [8192; 4096] /\ nunits < get_size m b
      /\ (forall x, In x [8192; 4096] -> nunits < get_size m x ->
            get_size m b <= get_size m x)
      /\ exists st',
           malloc cfg_ex_best 10 st_ex1 16
           = Some (padd (padd b (get_size m b - nunits)) 1, st')
           /\ freep st' = pv
           /\ Inv cfg_ex_best st' (fl_shrink b nunits [(8192, 1022)])
                ((padd b (get_size m b - nunits), nunits) :: [(24544, 2)])
    | None =>
      (forall x, In x [8192; 4096] -> get_size m x < nunits)
      /\ exists r1 st1,
           morecore cfg_ex_best (10 - length [8192; 4096]) st_ex1 nunits
           = Some (r1, st1)
           /\ ((r1 = NULL /\ malloc cfg_ex_best 10 st_ex1 16 = Some (NULL, st1))
               \/ (r1 <> NULL
                   /\ malloc cfg_ex_best 10 st_ex1 16
                      = malloc cfg_ex_best 10 st1 16
                   /\ exists r st',
                        malloc cfg_ex_best 10 st_ex1 16 = Some (r, st')
                        /\ r <> NULL))
    end
  end.
Proof.
  apply (malloc_best_fit cfg_ex_best st_ex1 [(8192, 1022)] [(24544, 2)] 16
           [8192; 4096] 10).
  - reflexivity.
  - exact Inv_ex1_best.
  - vm_compute. split; [reflexivity|discriminate].
  - vm_compute. reflexivity.
  - simpl. lia.
Defined.

(** C6. [realloc] of a block handed out, to [n > 0] bytes: [malloc(n)]
    comes first.  When it returns [NULL] so does [realloc], memory and
    cursor are untouched and the old block is still handed out.  Otherwise
    [min(n, 16 * (s - 1))] bytes are copied from the old bytes to the new
    ones, [s] being the size the old header records, the old block is
    released, and the new pointer is returned: the new bytes then hold what
    the old ones held. *)
Theorem realloc_copies cfg st R A1 A2 a s n fuel :
  Inv cfg st R (A1 ++ (a, s) :: A2) -> request_ok cfg n ->
  (3 * length R + 5 <= fuel)%nat ->
  let ptr := padd a 1 in
  exists r1 st1, malloc cfg fuel st n = Some (r1, st1)
    /\ (r1 = NULL ->
          realloc cfg fuel st ptr n = Some (NULL, st1)
          /\ heap st1 = heap st /\ freep st1 = freep st
          /\ Inv cfg st1 R (A1 ++ (a, s) :: A2))
    /\ (r1 <> NULL ->
          get_size (heap st1) (padd ptr (-1)) = s
          /\ let len := Z.min n (sizeof_Header * (s - 1)) in
             let st2 := with_heap st1 (Mem.memcpy (heap st1) r1 ptr len) in
             exists st3 R',
               free fuel st2 ptr = Some st3
               /\ realloc cfg fuel st ptr n = Some (r1, st3)
               /\ (forall i, 0 <= i < len ->
                     heap st3 (r1 + i) = heap st (ptr + i))
               /\ Inv cfg st3 R' ((padd r1 (-1), nunits_of n) :: A1 ++ A2)).
Proof.
  intros HI Hreq Hfuel ptr.
  pose proof (Inv_bounds _ _ _ _ HI) as (Hb0 & Hb1 & Hb2 & Hb3).
  assert (Hok : alloc_ok cfg st (a, s)).
  { pose proof (inv_alloc _ _ _ _ HI) as HA. rewrite Forall_forall in HA.
    apply HA, in_elt. }
  destruct Hok as (K1 & K2 & K3 & K4). cbn [fst snd] in K1, K2, K3, K4.
  destruct (realloc_Inv cfg st R A1 A2 a s n fuel HI Hreq Hfuel)
    as (r & st' & Hre & Hcase).
  destruct (malloc_Inv cfg st R _ n fuel HI Hreq Hfuel)
    as (r1 & st1 & Hm & Hpost).
  exists r1, st1. split; [exact Hm|].
  fold ptr in Hre. pose proof Hre as Hre0. unfold realloc in Hre.
  replace (ptr =? NULL) with false in Hre
    by (symmetry; apply Z.eqb_neq; subst ptr; zsolve).
  replace (n =? 0) with false in Hre
    by (symmetry; apply Z.eqb_neq; destruct Hreq; lia).
  rewrite Hm in Hre. split.
  - intros ->. change (NULL =? NULL) with true in Hre. cbv iota in Hre.
    inversion Hre; subst r st'.
    split; [exact Hre0|].
    destruct Hpost as [(_ & Hh & Hf & HI1)|(Hr & _)]; [now splits|congruence].
  - intros Hr. pose proof Hr as Hrb. apply Z.eqb_neq in Hrb. rewrite Hrb in Hre.
    destruct Hpost as [(Hr0 & _)|(_ & R1 & HI1 & _)]; [congruence|].
    assert (Hsz : get_size (heap st1) (padd ptr (-1)) = s).
    { replace (padd ptr (-1)) with a by (subst ptr; zsolve).
      pose proof (inv_alloc _ _ _ _ HI1) as HA1. rewrite Forall_forall in HA1.
      destruct (HA1 (a, s)) as (_ & _ & _ & E); [right; apply in_elt|exact E]. }
    split; [exact Hsz|]. cbv zeta. rewrite Hsz in Hre.
    pose proof (get_size_range (heap st1) (padd ptr (-1))) as Hrs.
    rewrite Hsz in Hrs.
    rewrite (Z.mod_small (s - 1)) in Hre by zsolve.
    rewrite (Z.mod_small (sizeof_Header * (s - 1))) in Hre by zsolve.
    assert (Hlen : (if n <? sizeof_Header * (s - 1)
                    then n else sizeof_Header * (s - 1))
                   = Z.min n (sizeof_Header * (s - 1))).
    { destruct (n <? sizeof_Header * (s - 1)) eqn:E;
        [apply Z.ltb_lt in E|apply Z.ltb_ge in E]; lia. }
    rewrite Hlen in Hre.
    destruct (free fuel
                (with_heap st1
                   (Mem.memcpy (heap st1) r1 ptr
                      (Z.min n (sizeof_Header * (s - 1))))) ptr)
      as [st3|] eqn:Hfree; [|discriminate].
    inversion Hre; subst r st'.
    destruct Hcase as [(Hr0 & _)|(_ & R' & HI3 & Hcopy & _)]; [congruence|].
    exists st3, R'. splits; try assumption; reflexivity.
Qed.

Lemma realloc_copies_witness :
  let ptr := padd 24544 1 in
  exists r1 st1, malloc cfg_ex 10 st_ex1 32 = Some (r1, st1)
    /\ (r1 = NULL ->
          realloc cfg_ex 10 st_ex1 ptr 32 = Some (NULL, st1)
          /\ heap st1 = heap st_ex1 /\ freep st1 = freep st_ex1
          /\ Inv cfg_ex st1 [(8192, 1022)] ([] ++ (24544, 2) :: []))
    /\ (r1 <> NULL ->
          get_size (heap st1) (padd ptr (-1)) = 2
          /\ let len := Z.min 32 (sizeof_Header * (2 - 1)) in
             let st2 := with_heap st1 (Mem.memcpy (heap st1) r1 ptr len) in
             exists st3 R',
               free 10 st2 ptr = Some st3
               /\ realloc cfg_ex 10 st_ex1 ptr 32 = Some (r1, st3)
               /\ (forall i, 0 <= i < len ->
                     heap st3 (r1 + i) = heap st_ex1 (ptr + i))
               /\ Inv cfg_ex st3 R' ((padd r1 (-1), nunits_of 32) :: [] ++ [])).
Proof.
  apply (realloc_copies cfg_ex st_ex1 [(8192, 1022)] [] [] 24544 2 32 10).
  - exact Inv_ex1.
  - vm_compute. split; [reflexivity|discriminate].
  - simpl. lia.
Defined.




(** The amended C7 leaves out requests whose page count wraps: in the
    [mmap] build a request of [2^32] bytes maps one page at a time and
    returns [NULL] once the system refuses, with the pages mapped so far
    left on the ring. *)
Lemma malloc_mmap_page_count_wraps :
  exists st', malloc cfg_mm 20 st_mm (2 ^ 32) = Some (NULL, st')
    /\ freep st' = 8192 /\ get_ptr (heap st') (base cfg_mm) = 8192
    /\ get_size (heap st') 8192 = 512.
Proof.
  eexists. split; [vm_compute; reflexivity|].
  split; [reflexivity|]. split; reflexivity.
Qed.

(** C1, at a request of [2^36] bytes on the first call: the unit count
    wraps to 1, the block handed out is one unit long, header only, and the
    pointer returned is the program break: no byte of the 2^36 asked for is
    usable. *)
Theorem malloc_unit_count_wraps :
  nunits_of (2 ^ 36) = 1
  /\ (2 ^ 36 + sizeof_Header - 1) / sizeof_Header + 1 = 2 ^ 32 + 1
  /\ exists st', malloc cfg_ex 10 st_ex0 (2 ^ 36) = Some (24576, st')
       /\ get_size (heap st') (padd 24576 (-1)) = 1
       /\ sizeof_Header * (get_size (heap st') (padd 24576 (-1)) - 1) = 0
       /\ brk (sys st') = 24576.
Proof.
  split; [reflexivity|]. split; [reflexivity|].
  eexists. split; [vm_compute; reflexivity|].
  split; [reflexivity|]. split; reflexivity.
Qed.

(** C3. A client that starts on a fresh or well-formed allocator and makes
    any finite sequence of [malloc], [free] and [realloc] calls, releasing
    and resizing only pointers it holds: every call returns, and once the
    list is set up the walk of one revolution from the cursor visits the
    blocks of the free list, each once, comes back to the cursor, and goes
    up in address except at one step; the cursor is a block of the list. *)
Theorem ring_integrity cfg c ops :
  client_inv cfg c -> Forall (op_ok cfg) ops ->
  exists fuel0 st' live,
    (forall fuel, (fuel0 <= fuel)%nat ->
       run cfg fuel ops c = Some (st', live))
    /\ (freep st' <> NULL ->
        exists R A,
          Inv cfg st' R A /\ live = pointers A
          /\ ring_ok st' (S (length R))
          /\ (forall x, In x (walk (heap st') (freep st') (S (length R)))
                        <-> In x (map fst ((base cfg, 0) :: R)))
          /\ In (freep st') (map fst ((base cfg, 0) :: R))
          /\ increasing (base cfg - 1) (map fst ((base cfg, 0) :: R))).
Proof.
  intros Hc Hops.
  destruct (run_ok cfg ops c Hc Hops) as (fuel0 & [st' live] & Hrun & Hc').
  exists fuel0, st', live. split; [exact Hrun|]. intros Hf.
  destruct Hc' as [[[_ HF] _]|(R & A & HI & Hl)]; cbn [fst snd] in *;
    [congruence|].
  exists R, A. destruct (Inv_ring_ok cfg st' R A HI) as (H1 & H2 & H3 & H4).
  now splits.
Qed.

Lemma ring_integrity_witness :
  exists fuel0 st' live,
    (forall fuel, (fuel0 <= fuel)%nat ->
       run cfg_ex fuel ops_ex (st_ex0, []) = Some (st', live))
    /\ (freep st' <> NULL ->
        exists R A,
          Inv cfg_ex st' R A /\ live = pointers A
          /\ ring_ok st' (S (length R))
          /\ (forall x, In x (walk (heap st') (freep st') (S (length R)))
                        <-> In x (map fst ((base cfg_ex, 0) :: R)))
          /\ In (freep st') (map fst ((base cfg_ex, 0) :: R))
          /\ increasing (base cfg_ex - 1) (map fst ((base cfg_ex, 0) :: R))).
Proof.
  apply (ring_integrity cfg_ex (st_ex0, []) ops_ex).
  - left. split; [exact Fresh_ex0|reflexivity].
  - unfold ops_ex.
    repeat (apply Forall_cons;
            [first [exact I
                   |right; vm_compute; split; [reflexivity|discriminate]]|]).
    apply Forall_nil.
Defined.

(** * Further properties of the code *)

(** ** What [free] leaves alone *)

Lemma free_fields fuel st ap st' :
  free fuel st ap = Some st' ->
  sys st' = sys st /\ endHeap st' = endHeap st.
Proof.
  unfold free. destruct (ap =? NULL).
  - intros E. inversion E. now split.
  - destruct (free_scan fuel (heap st) (padd ap (-1)) (freep st)); [|discriminate].
    intros E. inversion E. now split.
Qed.

(** ** A block of the ring is never strictly between two neighbours *)

Lemma free_scan_on_ring m c F bp : forall fuel lo hi p,
  blocks_in lo hi F -> chain m F c -> hd_addr F 0 = c -> F <> [] ->
  In bp (map fst F) -> In p (map fst F) ->
  free_scan fuel m bp p = None.
Proof.
  induction fuel as [|k IH]; intros lo hi p HB HC Hhd Hne Hbp Hp;
    [reflexivity|].
  cbn [free_scan].
  apply in_map_iff in Hp. destruct Hp as ([p0 ps] & Ep & Hp). cbn [fst] in Ep.
  subst p0. apply in_split in Hp. destruct Hp as (P & S & EF).
  pose proof HB as HB0. rewrite EF in HB0.
  destruct (blocks_in_split _ _ _ _ _ HB0) as [HP HS]. cbn [fst] in HP, HS.
  pose proof HC as HC0. rewrite EF in HC0. apply chain_app in HC0.
  destruct HC0 as [_ HC0]. cbn [chain fst snd] in HC0.
  destruct HC0 as (Hnext & _ & _).
  assert (Hb : bp = p \/ (exists x, In x P /\ fst x = bp)
               \/ (exists x, In x S /\ fst x = bp)).
  { apply in_map_iff in Hbp. destruct Hbp as (x & Ex & Hx). rewrite EF in Hx.
    apply in_app_or in Hx. destruct Hx as [Hx|[Hx|Hx]].
    - right. left. now exists x.
    - left. subst x. now cbn [fst] in Ex.
    - right. right. now exists x. }
  assert (Hc : c <= p /\ c <= bp).
  { rewrite <- Hhd.
    assert (forall x, In x F -> hd_addr F 0 <= fst x) as Hmin.
    { intros x Hx. destruct F as [|f F']; [contradiction|]. cbn [hd_addr].
      destruct Hx as [<-|Hx]; [lia|].
      change (f :: F') with ([] ++ f :: F') in HB.
      destruct (blocks_in_split _ _ _ _ _ HB) as [_ H]. specialize (H x Hx).
      zsolve. }
    split.
    - apply (Hmin (p, ps)). rewrite EF. apply in_elt.
    - apply in_map_iff in Hbp. destruct Hbp as (x & <- & Hx). now apply Hmin. }
  assert (Hin : In (get_ptr m p) (map fst F)).
  { rewrite Hnext. destruct S as [|s S'].
    - cbn [hd_addr]. rewrite <- Hhd. destruct F; [congruence|]. now left.
    - cbn [hd_addr]. apply in_map. rewrite EF. apply in_or_app. right.
      right. now left. }
  assert (C1 : (bp >? p) && (bp <? get_ptr m p) = false).
  { apply andb_false_iff. rewrite Hnext. destruct S as [|s S'].
    - right. cbn [hd_addr]. apply Z.ltb_ge. lia.
    - cbn [hd_addr].
      destruct Hb as [->|[(x & Hx & <-)|(x & Hx & <-)]].
      + left. rewrite Z.gtb_ltb; apply Z.ltb_ge. lia.
      + left. specialize (HP x Hx). rewrite Z.gtb_ltb; apply Z.ltb_ge. zsolve.
      + right. apply Z.ltb_ge. destruct Hx as [->|Hx]; [lia|].
        change (P ++ (p, ps) :: s :: S') with (P ++ [(p, ps)] ++ s :: S') in HB0.
        rewrite app_assoc in HB0.
        destruct (blocks_in_split _ _ _ _ _ HB0) as [_ H]. specialize (H x Hx).
        zsolve. }
  assert (C2 : (p >=? get_ptr m p) && ((bp >? p) || (bp <? get_ptr m p)) = false).
  { rewrite Hnext. destruct S as [|s S'].
    - cbn [hd_addr]. apply andb_false_iff. right. apply orb_false_iff. split.
      + rewrite Z.gtb_ltb; apply Z.ltb_ge.
        destruct Hb as [->|[(x & Hx & <-)|(x & Hx & <-)]];
          [lia| |contradiction].
        specialize (HP x Hx). zsolve.
      + apply Z.ltb_ge. lia.
    - cbn [hd_addr]. apply andb_false_iff. left.
      rewrite Z.geb_leb; apply Z.leb_gt. specialize (HS s (or_introl eq_refl)). zsolve. }
  rewrite C1, C2. apply (IH lo hi); assumption.
Qed.

(** X8. Releasing a block that is on the free list (a block released twice,
    or the sentinel): the scan of lines 56-58 looks for a gap of the ring
    that holds the block, and there is none, so the loop never ends. *)
Theorem free_twice_never_returns cfg st R A b fuel :
  Inv cfg st R A -> In b (map fst ((base cfg, 0) :: R)) ->
  free fuel st (padd b 1) = None.
Proof.
  intros HI Hb.
  pose proof (Inv_bounds _ _ _ _ HI) as (Hb0 & _).
  assert (Hbpos : base cfg <= b).
  { apply in_map_iff in Hb. destruct Hb as (x & <- & Hx).
    destruct (blocks_in_In _ _ _ _ (inv_free _ _ _ _ HI) Hx) as (X & _).
    exact X. }
  unfold free.
  replace (padd b 1 =? NULL) with false by (symmetry; apply Z.eqb_neq; zsolve).
  replace (padd (padd b 1) (-1)) with b by zsolve.
  rewrite (free_scan_on_ring (heap st) (base cfg) ((base cfg, 0) :: R) b fuel
             (base cfg) (heap_hi cfg st) (freep st)); try reflexivity.
  - exact (inv_free _ _ _ _ HI).
  - exact (inv_chain _ _ _ _ HI).
  - discriminate.
  - exact Hb.
  - exact (inv_cursor _ _ _ _ HI).
Qed.

Lemma free_twice_never_returns_witness :
  free 1000 st_ex1 (padd 8192 1) = None.
Proof.
  apply (free_twice_never_returns cfg_ex st_ex1 [(8192, 1022)] [(24544, 2)]
           8192 1000).
  - exact Inv_ex1.
  - right. left. reflexivity.
Defined.

(** X7. [free] writes the two headers it links and nothing else: every byte
    outside the link and size words of the block released and of the block
    the cursor ends on is what it was, the bytes of the block released
    included, and the system is not called. *)
Theorem free_writes_two_headers fuel st ap st' :
  free fuel st ap = Some st' -> ap <> NULL ->
  sys st' = sys st /\ endHeap st' = endHeap st
  /\ forall y,
       y < freep st' \/ freep st' + 12 <= y ->
       y < padd ap (-1) \/ padd ap (-1) + 12 <= y ->
       heap st' y = heap st y.
Proof.
  intros Hf Hap. destruct (free_fields _ _ _ _ Hf) as [H1 H2].
  split; [exact H1|]. split; [exact H2|].
  unfold free in Hf. apply Z.eqb_neq in Hap. rewrite Hap in Hf.
  destruct (free_scan fuel (heap st) (padd ap (-1)) (freep st)) as [p|];
    [|discriminate].
  inversion Hf; subst st'. cbn [heap freep with_freep with_heap].
  intros y Hy1 Hy2. now apply free_link_bytes.
Qed.

Lemma free_writes_two_headers_witness :
  sys st_ex2 = sys st_ex1 /\ endHeap st_ex2 = endHeap st_ex1
  /\ forall y,
       y < freep st_ex2 \/ freep st_ex2 + 12 <= y ->
       y < padd (padd 24544 1) (-1) \/ padd (padd 24544 1) (-1) + 12 <= y ->
       heap st_ex2 y = heap st_ex1 y.
Proof.
  apply (free_writes_two_headers 10 st_ex1 (padd 24544 1) st_ex2).
  - vm_compute. reflexivity.
  - vm_compute. discriminate.
Defined.

(** ** The lists of a state are determined by the state *)

Lemma chain_unique m c : forall l1 l2 lo hi x,
  blocks_in lo hi (x :: l1) -> blocks_in lo hi (x :: l2) ->
  chain m (x :: l1) c -> chain m (x :: l2) c -> c <= fst x ->
  l1 = l2.
Proof.
  induction l1 as [|a l1 IH]; intros l2 lo hi x B1 B2 C1 C2 Hc.
  - destruct l2 as [|b l2]; [reflexivity|exfalso].
    cbn [chain hd_addr] in C1, C2. destruct C1 as (E1 & _), C2 as (E2 & _).
    cbn [blocks_in] in B2. destruct B2 as (_ & _ & _ & B2 & _). zsolve.
  - destruct l2 as [|b l2].
    + exfalso. cbn [chain hd_addr] in C1, C2.
      destruct C1 as (E1 & _), C2 as (E2 & _).
      cbn [blocks_in] in B1. destruct B1 as (_ & _ & _ & B1 & _). zsolve.
    + cbn [chain hd_addr] in C1, C2.
      destruct C1 as (E1 & _ & C1), C2 as (E2 & _ & C2).
      assert (Eab : a = b).
      { destruct a as [a1 a2], b as [b1 b2]. cbn [fst] in *.
        cbn [chain fst snd] in C1, C2.
        destruct C1 as (_ & S1 & _), C2 as (_ & S2 & _). congruence. }
      subst b. f_equal.
      cbn [blocks_in] in B1, B2.
      destruct B1 as (X1 & _ & _ & B1), B2 as (_ & _ & _ & B2).
      apply (IH l2 (gap_after x) hi a B1 B2 C1 C2).
      cbn [blocks_in] in B1. destruct B1 as (Y1 & _). zsolve.
Qed.

Lemma Inv_free_unique cfg st R R' A A' :
  Inv cfg st R A -> Inv cfg st R' A' -> R = R'.
Proof.
  intros H1 H2.
  apply (chain_unique (heap st) (base cfg) R R' (base cfg) (heap_hi cfg st)
           (base cfg, 0)).
  - exact (inv_free _ _ _ _ H1).
  - exact (inv_free _ _ _ _ H2).
  - exact (inv_chain _ _ _ _ H1).
  - exact (inv_chain _ _ _ _ H2).
  - cbn [fst]. lia.
Qed.

Lemma Inv_alloc_unique cfg st R A A' :
  Inv cfg st R A -> Inv cfg st R A' -> pointers A = pointers A' -> A = A'.
Proof.
  intros H1 H2. pose proof (inv_alloc _ _ _ _ H1) as F1.
  pose proof (inv_alloc _ _ _ _ H2) as F2. clear H1 H2.
  revert A' F2. induction A as [|x A IH]; intros [|y A'] F2 E;
    cbn [pointers map] in E; try discriminate; [reflexivity|].
  inversion E as [[E1 E2]]. inversion F1 as [|? ? Hx F1']; subst.
  inversion F2 as [|? ? Hy F2']; subst.
  f_equal; [|now apply IH].
  destruct x as [x1 x2], y as [y1 y2]. cbn [fst] in *.
  destruct Hx as (_ & _ & _ & Sx), Hy as (_ & _ & _ & Sy). cbn [fst snd] in *.
  assert (x1 = y1) by zsolve. subst y1. congruence.
Qed.

(** ** Fuel only matters until a call returns *)

Lemma step_mono cfg fuel fuel' o c c' :
  step cfg fuel o c = Some c' -> (fuel <= fuel')%nat ->
  step cfg fuel' o c = Some c'.
Proof.
  destruct c as [st live]. destruct o as [n|i|i n]; cbn [step]; intros H Hf.
  - destruct (malloc cfg fuel st n) as [[r st1]|] eqn:E; [|discriminate].
    now rewrite (malloc_mono _ _ _ _ _ _ E Hf).
  - destruct (free fuel st (nth i live NULL)) as [st1|] eqn:E; [|discriminate].
    now rewrite (free_mono _ _ _ _ _ E Hf).
  - destruct (realloc cfg fuel st (nth i live NULL) n) as [[r st1]|] eqn:E;
      [|discriminate].
    now rewrite (realloc_mono _ _ _ _ _ _ _ E Hf).
Qed.

Lemma run_mono cfg fuel fuel' ops : forall c c',
  run cfg fuel ops c = Some c' -> (fuel <= fuel')%nat ->
  run cfg fuel' ops c = Some c'.
Proof.
  induction ops as [|o ops IH]; intros c c' H Hf; cbn [run] in *; [exact H|].
  destruct (step cfg fuel o c) as [c1|] eqn:E; [|discriminate].
  rewrite (step_mono _ _ _ _ _ _ E Hf). now apply IH.
Qed.

Lemma run_client_inv cfg ops c fuel c' :
  client_inv cfg c -> Forall (op_ok cfg) ops ->
  run cfg fuel ops c = Some c' -> client_inv cfg c'.
Proof.
  intros Hc Hops Hrun.
  destruct (run_ok cfg ops c Hc Hops) as (fuel0 & c0 & Hr0 & Hc0).
  pose proof (Hr0 (Nat.max fuel fuel0) ltac:(lia)) as E1.
  rewrite (run_mono _ _ _ _ _ _ Hrun (Nat.le_max_l _ _)) in E1.
  inversion E1. subst. exact Hc0.
Qed.

(** ** The blocks handed out *)

Lemma pairwise_disjoint_NoDup A :
  pairwise_disjoint A -> NoDup (pointers A).
Proof.
  induction A as [|x A IH]; cbn [pairwise_disjoint pointers map];
    [constructor|].
  intros [Hx HA]. constructor; [|now apply IH].
  intros Hin. apply in_map_iff in Hin. destruct Hin as (y & Ey & Hy).
  rewrite Forall_forall in Hx. specialize (Hx y Hy).
  unfold disjoint in Hx. zsolve.
Qed.

Lemma Inv_live cfg st R A :
  Inv cfg st R A ->
  NoDup (pointers A) /\ ~ In NULL (pointers A)
  /\ pairwise_disjoint A
  /\ (forall x y, In x A -> In y ((base cfg, 0) :: R) -> disjoint x y)
  /\ (forall x, In x A ->
        base cfg + sizeof_Header <= fst x /\ 1 <= snd x
        /\ padd (fst x) (snd x) <= heap_hi cfg st
        /\ get_size (heap st) (fst x) = snd x).
Proof.
  intros HI. pose proof (Inv_bounds _ _ _ _ HI) as (Hb0 & _).
  pose proof (inv_alloc _ _ _ _ HI) as HA. rewrite Forall_forall in HA.
  splits.
  - apply pairwise_disjoint_NoDup. exact (inv_alloc_alloc _ _ _ _ HI).
  - intros Hin. apply in_map_iff in Hin. destruct Hin as (x & Ex & Hx).
    destruct (HA x Hx) as (X1 & _). zsolve.
  - exact (inv_alloc_alloc _ _ _ _ HI).
  - intros x y Hx Hy. exact (Inv_alloc_disjoint _ _ _ _ _ _ HI Hx Hy).
  - intros x Hx. destruct (HA x Hx) as (X1 & X2 & X3 & X4).
    splits; try assumption. zsolve.
Qed.

(** X12. Whatever a client does, the pointers it holds are all different
    and not [NULL]; the blocks behind them lie past the sentinel and, in
    the [sbrk] build, below the program break, record their size in their
    header, overlap neither each other nor a block of the free list; and no
    two blocks of the free list are contiguous. *)
Theorem client_blocks_apart cfg c ops fuel st' live :
  client_inv cfg c -> Forall (op_ok cfg) ops ->
  run cfg fuel ops c = Some (st', live) ->
  NoDup live /\ ~ In NULL live
  /\ exists R A,
       live = pointers A
       /\ pairwise_disjoint A
       /\ (forall x y, In x A -> In y ((base cfg, 0) :: R) -> disjoint x y)
       /\ (forall x, In x A ->
             base cfg + sizeof_Header <= fst x /\ 1 <= snd x
             /\ (MMAP cfg = false -> padd (fst x) (snd x) <= brk (sys st'))
             /\ get_size (heap st') (fst x) = snd x)
       /\ (freep st' <> NULL ->
             chain (heap st') ((base cfg, 0) :: R) (base cfg))
       /\ no_contiguous ((base cfg, 0) :: R).
Proof.
  intros Hc Hops Hrun.
  pose proof (run_client_inv cfg ops c fuel _ Hc Hops Hrun) as Hc'.
  destruct Hc' as [[[_ HF] Hl]|(R & A & HI & Hl)]; cbn [fst snd] in *.
  - subst live. split; [constructor|]. split; [intros []|].
    exists [], []. splits; try reflexivity; try exact I.
    + intros x y [].
    + intros x [].
    + intros H. congruence.
    + intros l1 x y l2 E. destruct l1 as [|? [|? ?]]; discriminate.
  - destruct (Inv_live _ _ _ _ HI) as (L1 & L2 & L3 & L4 & L5).
    subst live. split; [exact L1|]. split; [exact L2|].
    exists R, A. splits; try assumption; try reflexivity.
    + intros x Hx. destruct (L5 x Hx) as (Y1 & Y2 & Y3 & Y4).
      splits; try assumption. intros EM.
      unfold heap_hi, heap_top in Y3. rewrite EM in Y3. lia.
    + intros _. exact (inv_chain _ _ _ _ HI).
    + eapply blocks_in_no_contiguous. exact (inv_free _ _ _ _ HI).
Qed.

Lemma client_inv_ex0 : client_inv cfg_ex (st_ex0, []).
Proof. left. split; [exact Fresh_ex0|reflexivity]. Qed.

Lemma client_blocks_apart_witness :
  NoDup [24432; 24560] /\ ~ In NULL [24432; 24560]
  /\ exists R A,
       [24432; 24560] = pointers A
       /\ pairwise_disjoint A
       /\ (forall x y, In x A -> In y ((base cfg_ex, 0) :: R) -> disjoint x y)
       /\ (forall x, In x A ->
             base cfg_ex + sizeof_Header <= fst x /\ 1 <= snd x
             /\ (MMAP cfg_ex = false ->
                   padd (fst x) (snd x) <= brk (sys st_ex3))
             /\ get_size (heap st_ex3) (fst x) = snd x)
       /\ (freep st_ex3 <> NULL ->
             chain (heap st_ex3) ((base cfg_ex, 0) :: R) (base cfg_ex))
       /\ no_contiguous ((base cfg_ex, 0) :: R).
Proof.
  apply (client_blocks_apart cfg_ex (st_ex0, []) [OpMalloc 10; OpMalloc 100]
           10 st_ex3 [24432; 24560]).
  - exact client_inv_ex0.
  - apply Forall_cons; [|apply Forall_cons; [|apply Forall_nil]];
      right; vm_compute; (split; [reflexivity|discriminate]).
  - vm_compute. reflexivity.
Defined.

(** X6. A block that [malloc] hands out is new: its header records
    [(n + 15) / 16 + 1] units, its [n] bytes lie past the sentinel and, in
    the [sbrk] build, below the program break, the block (header included)
    overlaps no block handed out before, and neither the bytes nor the
    recorded sizes of those blocks are changed by the call. *)
Theorem malloc_block_is_new cfg st R A n fuel r st' :
  Inv cfg st R A -> request_ok cfg n -> (3 * length R + 5 <= fuel)%nat ->
  malloc cfg fuel st n = Some (r, st') -> r <> NULL ->
  get_size (heap st') (padd r (-1)) = (n + 15) / 16 + 1
  /\ base cfg + 2 * sizeof_Header <= r
  /\ (MMAP cfg = false -> r + n <= brk (sys st'))
  /\ (forall x, In x A ->
        padd (fst x) (snd x) <= padd r (-1)
        \/ padd r (nunits_of n - 1) <= fst x)
  /\ payload_same A (heap st) (heap st')
  /\ (forall x, In x A -> get_size (heap st') (fst x) = snd x).
Proof.
  intros HI Hreq Hfuel Hm Hr.
  destruct (nunits_of_ok cfg n (env_page _ _ (inv_env _ _ _ _ HI)) Hreq)
    as (Hnq & Hnu & Hnb & _).
  destruct (malloc_Inv cfg st R A n fuel HI Hreq Hfuel)
    as (r0 & st0 & Hm0 & Hpost).
  rewrite Hm in Hm0. inversion Hm0; subst r0 st0.
  destruct Hpost as [(Hr0 & _)|(_ & R' & HI' & Hpay & _)]; [congruence|].
  destruct (Inv_live _ _ _ _ HI') as (_ & _ & L3 & _ & L5).
  destruct (L5 _ (or_introl eq_refl)) as (X1 & X2 & X3 & X4).
  cbn [fst snd] in X1, X2, X3, X4.
  cbn [pairwise_disjoint] in L3. destruct L3 as [L3 _].
  rewrite Forall_forall in L3.
  splits.
  - rewrite X4. exact Hnq.
  - zsolve.
  - intros EM. unfold heap_hi, heap_top in X3. rewrite EM in X3. zsolve.
  - intros x Hx. specialize (L3 x Hx).
    destruct (L5 x (or_intror Hx)) as (Y1 & Y2 & _).
    unfold disjoint in L3. zsolve.
  - exact Hpay.
  - intros x Hx. exact (proj2 (proj2 (proj2 (L5 x (or_intror Hx))))).
Qed.

Lemma request_ok_ex n :
  (0 <? n) && (n <=? max_request cfg_ex) = true -> request_ok cfg_ex n.
Proof.
  intros H. apply andb_true_iff in H. destruct H as [H1 H2].
  apply Z.ltb_lt in H1. apply Z.leb_le in H2. now split.
Qed.

Lemma option_pair_eta {X Y : Type} (o : option (X * Y)) (dx : X) (dy : Y) :
  o <> None ->
  o = Some (match o with Some (x, _) => x | None => dx end,
            match o with Some (_, y) => y | None => dy end).
Proof. destruct o as [[x y]|]; [reflexivity|congruence]. Qed.

Lemma malloc_returns cfg st R A n fuel :
  Inv cfg st R A -> request_ok cfg n -> (3 * length R + 5 <= fuel)%nat ->
  malloc cfg fuel st n <> None.
Proof.
  intros HI Hreq Hfuel.
  destruct (malloc_Inv cfg st R A n fuel HI Hreq Hfuel) as (r & st' & E & _).
  rewrite E. discriminate.
Qed.

Lemma realloc_returns cfg st R A1 A2 a s n fuel :
  Inv cfg st R (A1 ++ (a, s) :: A2) -> request_ok cfg n ->
  (3 * length R + 5 <= fuel)%nat ->
  realloc cfg fuel st (padd a 1) n <> None.
Proof.
  intros HI Hreq Hfuel.
  destruct (realloc_Inv cfg st R A1 A2 a s n fuel HI Hreq Hfuel)
    as (r & st' & E & _).
  rewrite E. discriminate.
Qed.

Lemma malloc_block_is_new_witness :
  get_size (heap st_ex3) (padd r_ex3 (-1)) = (100 + 15) / 16 + 1
  /\ base cfg_ex + 2 * sizeof_Header <= r_ex3
  /\ (MMAP cfg_ex = false -> r_ex3 + 100 <= brk (sys st_ex3))
  /\ (forall x, In x [(24544, 2)] ->
        padd (fst x) (snd x) <= padd r_ex3 (-1)
        \/ padd r_ex3 (nunits_of 100 - 1) <= fst x)
  /\ payload_same [(24544, 2)] (heap st_ex1) (heap st_ex3)
  /\ (forall x, In x [(24544, 2)] -> get_size (heap st_ex3) (fst x) = snd x).
Proof.
  apply (malloc_block_is_new cfg_ex st_ex1 [(8192, 1022)] [(24544, 2)] 100 10
           r_ex3 st_ex3).
  - exact Inv_ex1.
  - apply request_ok_ex. reflexivity.
  - simpl. lia.
  - apply option_pair_eta.
    apply (malloc_returns cfg_ex st_ex1 [(8192, 1022)] [(24544, 2)]);
      [exact Inv_ex1|apply request_ok_ex; reflexivity|simpl; lia].
  - vm_compute. discriminate.
Defined.

(** X11. [realloc] never resizes in place.  A successful [realloc] of a block
    handed out, to [n > 0] bytes, returns a pointer different from the old
    one, the new block and the old one do not overlap, and the bytes of
    every other block handed out are what they were. *)
Theorem realloc_never_in_place cfg st R A1 A2 a s n fuel r st' :
  Inv cfg st R (A1 ++ (a, s) :: A2) -> request_ok cfg n ->
  (3 * length R + 5 <= fuel)%nat ->
  realloc cfg fuel st (padd a 1) n = Some (r, st') -> r <> NULL ->
  r <> padd a 1
  /\ (padd a s <= padd r (-1) \/ padd r (nunits_of n - 1) <= a)
  /\ payload_same (A1 ++ A2) (heap st) (heap st').
Proof.
  intros HI Hreq Hfuel Hre Hr.
  pose proof (Inv_bounds _ _ _ _ HI) as (Hb0 & _).
  destruct (Inv_live _ _ _ _ HI) as (_ & _ & _ & _ & L5).
  destruct (L5 (a, s) (in_elt _ _ _)) as (K1 & K2 & _). cbn [fst snd] in K1, K2.
  destruct (realloc_Inv cfg st R A1 A2 a s n fuel HI Hreq Hfuel)
    as (r0 & st0 & Hre0 & Hcase).
  rewrite Hre in Hre0. inversion Hre0; subst r0 st0.
  destruct Hcase as [(Hr0 & _)|(_ & R' & _ & _ & Hpay & _)]; [congruence|].
  destruct (malloc_Inv cfg st R _ n fuel HI Hreq Hfuel)
    as (r1 & st1 & Hm & Hpost).
  unfold realloc in Hre.
  replace (padd a 1 =? NULL) with false in Hre
    by (symmetry; apply Z.eqb_neq; zsolve).
  replace (n =? 0) with false in Hre
    by (symmetry; apply Z.eqb_neq; destruct Hreq; lia).
  rewrite Hm in Hre.
  destruct (r1 =? NULL) eqn:E1.
  { inversion Hre. congruence. }
  destruct (free _ _ _); [|discriminate]. inversion Hre; subst r1.
  destruct Hpost as [(Hr0 & _)|(_ & R1 & HI1 & _)]; [congruence|].
  destruct (Inv_live _ _ _ _ HI1) as (_ & _ & M3 & _ & M5).
  cbn [pairwise_disjoint] in M3. destruct M3 as [M3 _].
  rewrite Forall_forall in M3. specialize (M3 (a, s) (in_elt _ _ _)).
  destruct (M5 _ (or_introl eq_refl)) as (X1 & X2 & _). cbn [fst snd] in X1, X2.
  unfold disjoint in M3.
  splits; [zsolve|zsolve|exact Hpay].
Qed.

Lemma realloc_never_in_place_witness :
  r_ex4 <> padd 24544 1
  /\ (padd 24544 2 <= padd r_ex4 (-1) \/ padd r_ex4 (nunits_of 8 - 1) <= 24544)
  /\ payload_same ([] ++ []) (heap st_ex1) (heap st_ex4).
Proof.
  apply (realloc_never_in_place cfg_ex st_ex1 [(8192, 1022)] [] [] 24544 2 8 10
           r_ex4 st_ex4).
  - exact Inv_ex1.
  - apply request_ok_ex. reflexivity.
  - simpl. lia.
  - apply option_pair_eta.
    apply (realloc_returns cfg_ex st_ex1 [(8192, 1022)] [] [] 24544 2);
      [exact Inv_ex1|apply request_ok_ex; reflexivity|simpl; lia].
  - vm_compute. discriminate.
Defined.

(** ** morecore, in full *)

Lemma mmap_len_eq nu ps :
  NALLOC <= nu -> 0 < ps -> sizeof_Header * nu + ps <= 2 ^ 32 ->
  (((((nu * sizeof_Header) mod SIZE_MOD - 1) mod SIZE_MOD) / ps + 1) mod UINT_MOD
     * ps) mod UINT_MOD
  = ((nu * sizeof_Header - 1) / ps + 1) * ps.
Proof.
  intros Hnu Hps Hsum. unfold_consts.
  rewrite (Z.mod_small (nu * 16)) by lia.
  rewrite (Z.mod_small (nu * 16 - 1)) by lia.
  pose proof (Z.div_mod (nu * 16 - 1) ps ltac:(lia)) as Hdm.
  pose proof (Z.mod_pos_bound (nu * 16 - 1) ps Hps) as Hm.
  assert (Hq : 0 <= (nu * 16 - 1) / ps) by (apply Z.div_pos; lia).
  assert (Hqp : ps * ((nu * 16 - 1) / ps) <= nu * 16 - 1) by lia.
  assert (Hq2 : (nu * 16 - 1) / ps + 1 < 4294967296) by nia.
  rewrite (Z.mod_small ((nu * 16 - 1) / ps + 1)) by lia.
  assert (Hlen : nu * 16 <= ((nu * 16 - 1) / ps + 1) * ps < 4294967296) by nia.
  rewrite (Z.mod_small (((nu * 16 - 1) / ps + 1) * ps)) by lia.
  reflexivity.
Qed.

Lemma grow_len_bounds cfg nu :
  (MMAP cfg = true -> 0 < pagesize cfg) -> grow_ok cfg nu ->
  Z.max nu NALLOC * sizeof_Header <= grow_len cfg nu < 2 ^ 36
  /\ Z.max nu NALLOC <= grow_len cfg nu / sizeof_Header < UINT_MOD
  /\ sizeof_Header * (grow_len cfg nu / sizeof_Header) <= grow_len cfg nu.
Proof.
  intros Hps [Hnu Hmm]. unfold grow_len.
  set (k := Z.max nu NALLOC) in *.
  assert (Hk : NALLOC <= k < UINT_MOD) by zsolve.
  destruct (MMAP cfg) eqn:EM.
  - specialize (Hps eq_refl). specialize (Hmm eq_refl).
    pose proof (mmap_len_bounds k (pagesize cfg) ltac:(lia) Hps Hmm) as H.
    cbv zeta in H. rewrite (mmap_len_eq k (pagesize cfg)) in H by lia.
    destruct H as ((H1 & H2) & H3 & H4). splits; zsolve.
  - unfold_consts. rewrite Z.div_mul by lia. lia.
Qed.

Lemma heap_top_brk cfg st :
  env_ok cfg st -> brk (sys st) <= heap_top cfg st.
Proof.
  intros [E1 E2 E3 E4 E5]. unfold heap_top. destruct (MMAP cfg); [|lia].
  specialize (E5 eq_refl). destruct (endHeap st =? 0) eqn:E0; [lia|].
  apply Z.eqb_neq in E0. lia.
Qed.

Lemma morecore_shape cfg st R A nu fuel :
  Inv cfg st R A -> grow_ok cfg nu -> (2 * (length R + 1) <= fuel)%nat ->
  let up := heap_top cfg st in
  let len := grow_len cfg nu in
  exists r st', morecore cfg fuel st nu = Some (r, st')
    /\ ceiling (sys st') = ceiling (sys st)
    /\ (MMAP cfg = true -> endHeap st' = up + len /\ sys st' = sys st)
    /\ (MMAP cfg = false -> endHeap st' = endHeap st)
    /\ ((up + len <= ceiling (sys st) /\ r = freep st' /\ r <> NULL
         /\ heap_top cfg st' = up + len
         /\ (MMAP cfg = false -> brk (sys st') = up + len)
         /\ Inv cfg st'
              (tl (fl_insert (up, len / sizeof_Header) ((base cfg, 0) :: R))) A
         /\ payload_same A (heap st) (heap st')
         /\ (forall y, off_ring cfg R y -> y < up \/ up + 12 <= y ->
               heap st' y = heap st y))
        \/ (ceiling (sys st) < up + len /\ r = NULL
            /\ heap st' = heap st /\ freep st' = freep st
            /\ sys st' = sys st /\ Inv cfg st' R A)).
Proof.
  intros HI Hg Hfuel up len.
  assert (Hframe : forall m nu' y,
            off_ring cfg R y -> y < up \/ up + 12 <= y ->
            free_link (set_size m up nu') up
              (fl_pred (up, nu') ((base cfg, 0) :: R) 0) y = m y).
  { intros m nu' y Hy Hu.
    pose proof (fl_pred_In up nu' ((base cfg, 0) :: R) 0 ltac:(discriminate))
      as Hp.
    apply in_map_iff in Hp. destruct Hp as (pb & Ep & Hpb).
    specialize (Hy pb Hpb). rewrite <- Ep.
    rewrite free_link_bytes by zsolve.
    apply set_size_bytes. lia. }
  pose proof (Inv_bounds _ _ _ _ HI) as (Hb0 & Hb1 & Hb2 & Hb3).
  pose proof (inv_env _ _ _ _ HI) as Henv.
  pose proof (heap_top_brk _ _ Henv) as Htop.
  destruct (grow_len_bounds cfg nu (fun H => proj1 (env_page _ _ Henv H)) Hg)
    as ((G1 & G2) & (G3 & G4) & G5). fold len in G1, G2, G3, G4, G5.
  destruct Hg as [Hnu Hmm]. destruct Henv as [E1 E2 E3 E4 E5].
  unfold morecore.
  set (nu1 := if nu <? NALLOC then NALLOC else nu).
  assert (Hnu1 : nu1 = Z.max nu NALLOC).
  { subst nu1. destruct (nu <? NALLOC) eqn:E;
      [apply Z.ltb_lt in E|apply Z.ltb_ge in E]; lia. }
  assert (Hnu1' : NALLOC <= nu1 < UINT_MOD) by zsolve.
  destruct (MMAP cfg) eqn:EM.
  - (* mmap *)
    specialize (Hmm eq_refl). specialize (E4 eq_refl). specialize (E5 eq_refl).
    rewrite <- Hnu1 in Hmm.
    rewrite (mmap_len_eq nu1 (pagesize cfg)) by lia.
    assert (Elen : ((nu1 * sizeof_Header - 1) / pagesize cfg + 1) * pagesize cfg
                   = len).
    { subst len. unfold grow_len. rewrite EM, Hnu1. reflexivity. }
    rewrite Elen.
    set (st0 := if endHeap st =? 0
                then with_endHeap st (fst (sbrk (sys st) 0)) else st).
    assert (H0 : heap st0 = heap st /\ freep st0 = freep st /\ sys st0 = sys st
                 /\ endHeap st0 = up).
    { subst st0 up. unfold heap_top. rewrite EM.
      destruct (endHeap st =? 0) eqn:E0; [|tauto].
      cbn [heap freep sys endHeap with_endHeap]. repeat split.
      unfold sbrk. replace (brk (sys st) + 0 <=? ceiling (sys st)) with true
        by (symmetry; apply Z.leb_le; lia). reflexivity. }
    destruct H0 as (H01 & H02 & H03 & H04).
    unfold mmap. rewrite H03, H04.
    replace (0 <? len) with true by (symmetry; apply Z.ltb_lt; zsolve).
    cbn [andb].
    destruct (up + len <=? ceiling (sys st)) eqn:Eok.
    + apply Z.leb_le in Eok.
      replace (up =? FAILED) with false
        by (symmetry; apply Z.eqb_neq; zsolve).
      set (st1 := with_heap (with_endHeap st0 (up + len))
                    (set_size (heap (with_endHeap st0 (up + len))) up
                       (len / sizeof_Header))).
      assert (Htop1 : heap_hi cfg st1 = up + len).
      { unfold heap_hi, heap_top. rewrite EM. subst st1.
        cbn [endHeap sys with_heap with_endHeap]. rewrite H03.
        replace (up + len =? 0) with false by (symmetry; apply Z.eqb_neq; zsolve).
        lia. }
      assert (HI1 : Inv cfg st1 R ((up, len / sizeof_Header) :: A)).
      { apply (Inv_grow cfg st); try assumption.
        - subst st1. cbn [heap with_heap with_endHeap]. now rewrite H01.
        - constructor; subst st1; cbn [endHeap sys with_heap with_endHeap];
            rewrite ?H03; try assumption; intros _; [exact E4|right; zsolve].
        - unfold heap_hi. fold up. lia.
        - rewrite Htop1. zsolve.
        - zsolve. }
      destruct (free_Inv cfg st1 R [] A up (len / sizeof_Header) fuel HI1 Hfuel)
        as [Hfree HI2].
      cbv zeta in Hfree, HI2. rewrite Hfree. cbn [app] in HI2.
      assert (Hs1 : sys st1 = sys st) by exact H03.
      assert (He1 : endHeap st1 = up + len) by reflexivity.
      eexists _, _. split; [reflexivity|].
      cbn [sys endHeap with_freep with_heap]. rewrite Hs1, He1.
      split; [reflexivity|]. split; [intros _; now split|].
      split; [discriminate|]. left.
      cbn [freep with_freep].
      splits; try assumption; try reflexivity.
      * apply (fl_pred_pos cfg _ R _ _ HI1).
      * unfold heap_top. rewrite EM. cbn [endHeap with_freep with_heap].
        rewrite He1.
        replace (up + len =? 0) with false by (symmetry; apply Z.eqb_neq; zsolve).
        reflexivity.
      * discriminate.
      * cbn [heap with_freep with_heap].
        apply (grow_payload cfg st st1 R A up (len / sizeof_Header));
          try assumption.
        -- subst st1. cbn [heap with_heap with_endHeap]. now rewrite H01.
        -- unfold heap_hi. fold up. lia.
        -- apply fl_pred_In. discriminate.
      * intros y Hy Hu. cbn [heap with_freep with_heap].
        subst st1. cbn [heap with_heap with_endHeap]. rewrite H01.
        now apply Hframe.
    + apply Z.leb_gt in Eok.
      replace (FAILED =? FAILED) with true by reflexivity.
      eexists _, _. split; [reflexivity|].
      cbn [heap freep sys endHeap with_endHeap]. rewrite H03.
      split; [reflexivity|]. split; [intros _; now split|].
      split; [discriminate|]. right.
      splits; try assumption; try reflexivity; try lia.
      apply (Inv_mono cfg st); try assumption.
      * constructor; cbn [endHeap sys with_heap with_endHeap];
          rewrite ?H03; try assumption; intros _; [exact E4|right; zsolve].
      * unfold heap_hi. fold up.
        unfold heap_top. rewrite EM.
        cbn [endHeap sys with_endHeap]. rewrite H03.
        replace (up + len =? 0) with false
          by (symmetry; apply Z.eqb_neq; zsolve).
        zsolve.
  - (* sbrk *)
    assert (Hup : up = brk (sys st)) by (subst up; unfold heap_top; now rewrite EM).
    assert (Elen : nu1 * sizeof_Header = len).
    { subst len. unfold grow_len. rewrite EM, Hnu1. reflexivity. }
    assert (Ediv : len / sizeof_Header = nu1).
    { rewrite <- Elen. apply Z.div_mul. zsolve. }
    rewrite (Z.mod_small (nu1 * sizeof_Header)) by zsolve.
    rewrite Elen. unfold sbrk. rewrite <- Hup.
    destruct (up + len <=? ceiling (sys st)) eqn:Eok.
    + apply Z.leb_le in Eok.
      replace (up =? FAILED) with false
        by (symmetry; apply Z.eqb_neq; zsolve).
      set (o1 := mkOs (up + len) (ceiling (sys st))).
      set (st1 := with_heap (with_sys st o1)
                    (set_size (heap (with_sys st o1)) up nu1)).
      assert (Htop1 : heap_hi cfg st1 = up + len).
      { unfold heap_hi, heap_top. rewrite EM. subst st1 o1.
        cbn [endHeap sys with_heap with_sys brk ceiling]. lia. }
      assert (HI1 : Inv cfg st1 R ((up, nu1) :: A)).
      { apply (Inv_grow cfg st); try assumption.
        - reflexivity.
        - reflexivity.
        - constructor; subst st1 o1;
            cbn [endHeap sys with_heap with_sys brk ceiling];
            try assumption; try congruence. zsolve.
        - unfold heap_hi. fold up. lia.
        - rewrite Htop1. zsolve.
        - zsolve. }
      destruct (free_Inv cfg st1 R [] A up nu1 fuel HI1 Hfuel) as [Hfree HI2].
      cbv zeta in Hfree, HI2. rewrite Hfree. cbn [app] in HI2.
      assert (Hs1 : sys st1 = o1) by reflexivity.
      assert (He1 : endHeap st1 = endHeap st) by reflexivity.
      eexists _, _. split; [reflexivity|].
      cbn [sys endHeap with_freep with_heap]. rewrite Hs1, He1.
      split; [reflexivity|]. split; [discriminate|].
      split; [reflexivity|]. left. rewrite Ediv.
      cbn [freep with_freep].
      splits; try assumption; try reflexivity.
      * apply (fl_pred_pos cfg _ R _ _ HI1).
      * unfold heap_top. rewrite EM. cbn [sys with_freep with_heap].
        rewrite Hs1. reflexivity.
      * cbn [heap with_freep with_heap].
        apply (grow_payload cfg st st1 R A up nu1); try assumption.
        -- reflexivity.
        -- unfold heap_hi. fold up. lia.
        -- apply fl_pred_In. discriminate.
      * intros y Hy Hu. cbn [heap with_freep with_heap].
        subst st1. cbn [heap with_heap with_sys].
        now apply Hframe.
    + apply Z.leb_gt in Eok.
      replace (FAILED =? FAILED) with true by reflexivity.
      eexists _, _. split; [reflexivity|].
      cbn [heap freep sys endHeap with_sys].
      split; [reflexivity|]. split; [discriminate|].
      split; [reflexivity|]. right.
      splits; try assumption; try reflexivity; try lia.
      apply (Inv_mono cfg st); try assumption; try reflexivity.
      apply (env_ok_eq cfg st); [reflexivity|reflexivity|].
      exact (inv_env _ _ _ _ HI).
Qed.

(** ** malloc, in full *)

Lemma take_block_fields st nunits pv q :
  sys (snd (take_block st nunits pv q)) = sys st
  /\ endHeap (snd (take_block st nunits pv q)) = endHeap st.
Proof.
  unfold take_block, carve_tail. destruct (get_size (heap st) q =? nunits);
    cbn [snd sys endHeap with_freep with_heap]; now split.
Qed.

Lemma take_tail_fields st nunits pv q :
  sys (snd (take_tail st nunits pv q)) = sys st
  /\ endHeap (snd (take_tail st nunits pv q)) = endHeap st.
Proof.
  unfold take_tail, carve_tail.
  cbn [snd sys endHeap with_freep with_heap]. now split.
Qed.

Lemma Inv_block_size cfg st R A y :
  Inv cfg st R A -> In y ((base cfg, 0) :: R) ->
  get_size (heap st) (fst y) = snd y.
Proof.
  intros HI Hy. exact (chain_In _ _ (base cfg) y (inv_chain _ _ _ _ HI) Hy).
Qed.

Lemma Inv_has_block cfg st R A q :
  Inv cfg st R A -> In q (map fst R) ->
  In (q, get_size (heap st) q) R.
Proof.
  intros HI Hq. apply in_map_iff in Hq. destruct Hq as ([q0 s] & <- & Hq).
  pose proof (Inv_block_size _ _ _ _ _ HI (or_intror Hq)) as E.
  cbn [fst snd] in *. rewrite E. exact Hq.
Qed.

Lemma take_block_frame cfg st R A nunits pv q :
  Inv cfg st R A ->
  In pv (map fst ((base cfg, 0) :: R)) ->
  In q (map fst ((base cfg, 0) :: R)) ->
  1 <= nunits -> nunits <= get_size (heap st) q ->
  forall y, off_ring cfg R y ->
    heap (snd (take_block st nunits pv q)) y = heap st y
    /\ heap (snd (take_tail st nunits pv q)) y = heap st y.
Proof.
  intros HI Hpv Hq Hn Hsz y Hy.
  apply in_map_iff in Hpv. destruct Hpv as (pb & <- & Hpb).
  apply in_map_iff in Hq. destruct Hq as (qb & <- & Hqb).
  assert (Hqs : get_size (heap st) (fst qb) = snd qb).
  { apply (chain_In _ _ (base cfg) qb (inv_chain _ _ _ _ HI) Hqb). }
  pose proof (get_size_range (heap st) (fst qb)) as Hr.
  pose proof (Hy pb Hpb) as Yp. pose proof (Hy qb Hqb) as Yq.
  assert (Hcarve : fst (carve_tail (heap st) (fst qb) nunits) y = heap st y).
  { unfold carve_tail. cbn [fst].
    rewrite (Z.mod_small (get_size (heap st) (fst qb) - nunits)) by zsolve.
    rewrite (get_size_set_size (heap st)) by zsolve.
    rewrite !set_size_bytes; [reflexivity| |]; zsolve. }
  split.
  - unfold take_block. destruct (get_size (heap st) (fst qb) =? nunits).
    + cbn [snd heap with_freep with_heap]. apply set_ptr_bytes. zsolve.
    + destruct (carve_tail (heap st) (fst qb) nunits) as [m' q'].
      cbn [fst snd heap with_freep with_heap] in *. exact Hcarve.
  - unfold take_tail.
    destruct (carve_tail (heap st) (fst qb) nunits) as [m' q'].
    cbn [fst snd heap with_freep with_heap] in *. exact Hcarve.
Qed.

Lemma first_fit_serves cfg st R A nunits W pv q :
  Inv cfg st R A -> 1 <= nunits ->
  revolution (length R + 1) (heap st) (freep st)
    (get_ptr (heap st) (freep st)) = Some W ->
  first_fit (heap st) nunits (freep st) W = Some (pv, q) ->
  served cfg st R A nunits (fst (take_block st nunits pv q))
    (snd (take_block st nunits pv q)).
Proof.
  intros HI Hn HW Hff.
  destruct (first_fit_pick _ _ _ _ _ _ _ _ HI HW Hff) as (P1 & P2 & P3 & P4).
  destruct (take_block_Inv cfg st R A nunits pv q HI P1 P2 P3 Hn P4)
    as (T1 & T2 & T3).
  destruct (take_block_payload cfg st R A nunits pv q HI P1 P3 Hn P4)
    as [Hpay _].
  destruct (take_block_fields st nunits pv q) as [F1 F2].
  destruct (Inv_not_base _ _ _ _ _ HI P3 ltac:(lia)) as [_ Hq].
  exists q. splits; try assumption.
  intros y Hy.
  exact (proj1 (take_block_frame cfg st R A nunits pv q HI P1 P3 Hn P4 y Hy)).
Qed.

Lemma best_fit_serves cfg st R A nunits W :
  Inv cfg st R A -> 1 <= nunits ->
  revolution (length R + 1) (heap st) (freep st)
    (get_ptr (heap st) (freep st)) = Some W ->
  match exact_fit (heap st) nunits (freep st) W with
  | Some (pv, q) =>
    served cfg st R A nunits (fst (take_block st nunits pv q))
      (snd (take_block st nunits pv q))
  | None =>
    match best_fit (heap st) nunits (freep st) W None with
    | Some (pv, b) =>
      served cfg st R A nunits (fst (take_tail st nunits pv b))
        (snd (take_tail st nunits pv b))
    | None => forall x, In x W -> get_size (heap st) x < nunits
    end
  end.
Proof.
  intros HI Hn HW.
  destruct (Inv_revolution_nonnull _ _ _ _ _ HI HW) as (_ & Hin & _).
  pose proof (best_scan_Inv cfg st R A nunits W HI Hn HW) as Hs.
  destruct (exact_fit (heap st) nunits (freep st) W) as [[pv q]|].
  - destruct Hs as (S1 & S2 & S3 & T1 & T2 & T3 & Hpay).
    destruct (take_block_fields st nunits pv q) as [F1 F2].
    destruct (Inv_not_base _ _ _ _ q HI (proj1 (Hin q) S2) ltac:(lia))
      as [_ Hq].
    assert (Hpv : In pv (map fst ((base cfg, 0) :: R))).
    { pose proof (inv_cursor _ _ _ _ T3) as Hc. rewrite T2 in Hc.
      cbn [map In] in *. destruct Hc as [Hc|Hc]; [now left|right].
      apply in_map_iff in Hc. destruct Hc as (x & <- & Hx).
      apply in_map. now apply (fl_remove_In q R). }
    exists q. unfold take_addr, take_list.
    replace (get_size (heap st) q =? nunits) with true
      by (symmetry; now apply Z.eqb_eq).
    splits; try assumption; [lia|].
    intros y Hy.
    exact (proj1 (take_block_frame cfg st R A nunits pv q HI Hpv
                    (proj1 (Hin q) S2) Hn ltac:(lia) y Hy)).
  - destruct (best_fit (heap st) nunits (freep st) W None) as [[pv b]|];
      [|exact Hs].
    destruct Hs as (S1 & S2 & S3 & _ & T1 & T2 & T3 & Hpay).
    destruct (take_tail_fields st nunits pv b) as [F1 F2].
    destruct (Inv_not_base _ _ _ _ b HI (proj1 (Hin b) S2) ltac:(lia))
      as [_ Hq].
    assert (Hpv : In pv (map fst ((base cfg, 0) :: R))).
    { pose proof (inv_cursor _ _ _ _ T3) as Hc. rewrite T2 in Hc.
      cbn [map] in Hc. rewrite fl_shrink_addrs in Hc. exact Hc. }
    exists b. unfold take_addr, take_list.
    replace (get_size (heap st) b =? nunits) with false
      by (symmetry; apply Z.eqb_neq; lia).
    splits; try assumption; [lia|].
    intros y Hy.
    exact (proj2 (take_block_frame cfg st R A nunits pv b HI Hpv
                    (proj1 (Hin b) S2) Hn ltac:(lia) y Hy)).
Qed.

Lemma Inv_all_small cfg st R A nunits W :
  Inv cfg st R A ->
  revolution (length R + 1) (heap st) (freep st)
    (get_ptr (heap st) (freep st)) = Some W ->
  (forall x, In x W -> get_size (heap st) x < nunits) ->
  forall y, In y R -> snd y < nunits.
Proof.
  intros HI HW Hs y Hy.
  destruct (Inv_revolution_nonnull _ _ _ _ _ HI HW) as (_ & Hin & _).
  rewrite <- (Inv_block_size _ _ _ _ _ HI (or_intror Hy)).
  apply Hs, Hin. apply in_map. now right.
Qed.

Lemma served_has cfg st R A nunits r st' :
  Inv cfg st R A -> served cfg st R A nunits r st' ->
  exists y, In y R /\ nunits <= snd y.
Proof.
  intros HI (q & Hq & Hs & _).
  exists (q, get_size (heap st) q). split; [|exact Hs].
  now apply (Inv_has_block cfg st R A).
Qed.

Lemma grown_has cfg st R A up nu' st1 nunits :
  Inv cfg st R A ->
  Inv cfg st1 (tl (fl_insert (up, nu') ((base cfg, 0) :: R))) A ->
  1 <= nunits <= nu' -> base cfg < up ->
  forall W1,
    revolution (length (tl (fl_insert (up, nu') ((base cfg, 0) :: R))) + 1)
      (heap st1) (freep st1) (get_ptr (heap st1) (freep st1)) = Some W1 ->
    exists y, In y W1 /\ nunits <= get_size (heap st1) y.
Proof.
  intros HI HI1 Hn Hup W1 HW1.
  destruct (Inv_revolution_nonnull _ _ _ _ _ HI1 HW1) as (_ & Hin1 & _).
  destruct (fl_insert_has (up, nu') _ _ _ (inv_free _ _ _ _ HI))
    as (y & Hy & Hys). cbn [snd] in Hys.
  rewrite fl_insert_head in Hy by lia.
  exists (fst y). split.
  - apply Hin1. now apply in_map.
  - rewrite (Inv_block_size _ _ _ _ _ HI1 Hy). lia.
Qed.

Lemma malloc_shape cfg st R A n fuel :
  Inv cfg st R A -> request_ok cfg n -> (3 * length R + 5 <= fuel)%nat ->
  exists r st', malloc cfg fuel st n = Some (r, st')
    /\ malloc_does cfg st R A (nunits_of n) r st'.
Proof.
  intros HI Hreq Hfuel.
  destruct (nunits_of_ok cfg n (env_page _ _ (inv_env _ _ _ _ HI)) Hreq)
    as (_ & Hnu & _ & Hg).
  rewrite (malloc_unfold cfg st R A) by (try assumption; destruct Hreq; lia).
  set (nunits := nunits_of n) in *.
  pose proof (Inv_bounds _ _ _ _ HI) as (Hb0 & Hb1 & _).
  pose proof (heap_top_brk _ _ (inv_env _ _ _ _ HI)) as Htop.
  pose proof (env_brk _ _ (inv_env _ _ _ _ HI)) as Hbrk.
  destruct (Inv_revolution _ _ _ _ HI) as (W & HW & HlenW & HinW).
  destruct (grow_len_bounds cfg nunits
              (fun H => proj1 (env_page _ _ (inv_env _ _ _ _ HI) H)) Hg)
    as (_ & (G3 & _) & _).
  destruct (grow_len_bounds cfg nunits
              (fun H => proj1 (env_page _ _ (inv_env _ _ _ _ HI) H)) Hg)
    as ((G1 & _) & _ & _).
  destruct (morecore_shape cfg st R A nunits (fuel - length W) HI Hg ltac:(lia))
    as (r1 & st1 & Hmc & Hceil & Hmm1 & Hmm0 & Hcase).
  cbv zeta in Hcase, Hmm1.
  set (up := heap_top cfg st) in *. set (len := grow_len cfg nunits) in *.
  assert (Hfail : sys st1 = sys st ->
            heap_top cfg st1 = (if MMAP cfg then up + len else up)).
  { intros Hs. unfold heap_top. destruct (MMAP cfg) eqn:EM.
    - destruct (Hmm1 eq_refl) as [-> _].
      replace (up + len =? 0) with false
        by (symmetry; apply Z.eqb_neq; zsolve).
      reflexivity.
    - subst up. unfold heap_top. now rewrite EM, Hs. }
  set (R1 := tl (fl_insert (up, len / sizeof_Header) ((base cfg, 0) :: R))) in *.
  assert (HlenR1 : (length R1 <= length R + 1)%nat).
  { pose proof (fl_insert_length (up, len / sizeof_Header) ((base cfg, 0) :: R))
      as HL.
    subst R1. destruct (fl_insert _ ((base cfg, 0) :: R));
      cbn [length tl] in *; lia. }
  destruct (STRATEGY cfg) eqn:HS.
  - (* first fit *)
    destruct (first_fit (heap st) nunits (freep st) W) as [[pv q]|] eqn:Hff.
    + rewrite (first_fit_found cfg st nunits W fuel _ _ _ _ _ HW Hff) by lia.
      pose proof (first_fit_serves cfg st R A nunits W pv q HI ltac:(lia) HW Hff)
        as Hsv.
      destruct (take_block st nunits pv q) as [r st'].
      exists r, st'. split; [reflexivity|]. left.
      split; [exact (served_has _ _ _ _ _ _ _ HI Hsv)|exact Hsv].
    + assert (Hsmall : forall y, In y R -> snd y < nunits).
      { apply (Inv_all_small cfg st R A nunits W HI HW). intros x Hx.
        destruct (Z.lt_ge_cases (get_size (heap st) x) nunits) as [H|H];
          [exact H|exfalso].
        destruct (first_fit_some st nunits W (freep st) x Hx H)
          as (pv & q & E). congruence. }
      pose proof (first_fit_none cfg st nunits W (fuel - length W) _ _ _ HW Hff)
        as Hloop.
      replace (length W + (fuel - length W))%nat with fuel in Hloop by lia.
      rewrite Hloop, Hmc.
      destruct Hcase as [(C1 & Hr & Hnz & Htop1 & _ & HI1 & Hpay)
                        |(C1 & -> & Hh & Hf & Hs & HI1)].
      * apply Z.eqb_neq in Hnz. rewrite Hnz, Hr.
        destruct (Inv_revolution _ _ _ _ HI1) as (W1 & HW1 & HlenW1 & _).
        destruct (grown_has cfg st R A up _ st1 nunits HI HI1 ltac:(lia)
                    ltac:(zsolve) W1 HW1) as (y & Hy & Hys).
        destruct (first_fit_some st1 nunits W1 (freep st1) y Hy Hys)
          as (pv & q & Hff1).
        rewrite (first_fit_found cfg st1 nunits W1 _ _ _ _ _ _ HW1 Hff1) by lia.
        pose proof (first_fit_serves cfg st1 R1 A nunits W1 pv q HI1
                      ltac:(lia) HW1 Hff1) as Hsv.
        destruct (take_block st1 nunits pv q) as [r st'].
        exists r, st'. split; [reflexivity|]. right. split; [exact Hsmall|].
        right. split; [exact C1|]. exists st1. now splits.
      * change (NULL =? NULL) with true. cbv iota.
        exists NULL, st1. split; [reflexivity|]. right. split; [exact Hsmall|].
        left. splits; try assumption; try reflexivity. now apply Hfail.
  - (* best fit *)
    destruct (Inv_revolution_nonnull _ _ _ _ _ HI HW) as (_ & _ & Hnz0).
    pose proof (best_loop_run cfg st nunits W _ (fuel - length W) (freep st) _
                  None HW Hnz0 ltac:(discriminate)) as L.
    replace (length W + (fuel - length W))%nat with fuel in L by lia.
    cbn [best_ptr best_prev] in L. rewrite L.
    pose proof (best_fit_serves cfg st R A nunits W HI ltac:(lia) HW) as Hsv.
    destruct (exact_fit (heap st) nunits (freep st) W) as [[pv q]|].
    { destruct (take_block st nunits pv q) as [r st'].
      exists r, st'. split; [reflexivity|]. left.
      split; [exact (served_has _ _ _ _ _ _ _ HI Hsv)|exact Hsv]. }
    destruct (best_fit (heap st) nunits (freep st) W None) as [[pv b]|].
    { destruct (take_tail st nunits pv b) as [r st'].
      exists r, st'. split; [reflexivity|]. left.
      split; [exact (served_has _ _ _ _ _ _ _ HI Hsv)|exact Hsv]. }
    pose proof (Inv_all_small cfg st R A nunits W HI HW Hsv) as Hsmall.
    rewrite Hmc.
    destruct Hcase as [(C1 & Hr & Hnz & Htop1 & _ & HI1 & Hpay)
                      |(C1 & -> & Hh & Hf & Hs & HI1)].
    + apply Z.eqb_neq in Hnz. rewrite Hnz, Hr.
      destruct (Inv_revolution _ _ _ _ HI1) as (W1 & HW1 & HlenW1 & _).
      destruct (grown_has cfg st R A up _ st1 nunits HI HI1 ltac:(lia)
                  ltac:(zsolve) W1 HW1) as (y & Hy & Hys).
      destruct (Inv_revolution_nonnull _ _ _ _ _ HI1 HW1) as (_ & _ & Hnz1).
      pose proof (best_loop_run cfg st1 nunits W1 _
                    (fuel - length W - length W1) (freep st1) _
                    None HW1 Hnz1 ltac:(discriminate)) as L1.
      replace (length W1 + (fuel - length W - length W1))%nat
        with (fuel - length W)%nat in L1 by lia.
      cbn [best_ptr best_prev] in L1. rewrite L1.
      pose proof (best_fit_serves cfg st1 R1 A nunits W1 HI1 ltac:(lia) HW1)
        as Hsv1.
      destruct (exact_fit (heap st1) nunits (freep st1) W1) as [[pv q]|].
      { destruct (take_block st1 nunits pv q) as [r st'].
        exists r, st'. split; [reflexivity|]. right. split; [exact Hsmall|].
        right. split; [exact C1|]. exists st1. now splits. }
      destruct (best_fit (heap st1) nunits (freep st1) W1 None) as [[pv b]|].
      { destruct (take_tail st1 nunits pv b) as [r st'].
        exists r, st'. split; [reflexivity|]. right. split; [exact Hsmall|].
        right. split; [exact C1|]. exists st1. now splits. }
      exfalso. specialize (Hsv1 y Hy). lia.
    + change (NULL =? NULL) with true. cbv iota.
      exists NULL, st1. split; [reflexivity|]. right. split; [exact Hsmall|].
      left. splits; try assumption; try reflexivity. now apply Hfail.
Qed.

(** ** The calls, seen on the lists *)

Lemma moves_one cfg x y : move cfg x y -> moves cfg x y.
Proof. intros H. eapply moves_step; [exact H|apply moves_refl]. Qed.

Lemma moves_trans cfg x y z : moves cfg x y -> moves cfg y z -> moves cfg x z.
Proof.
  induction 1 as [|x y' y Hm _ IH]; intros H; [exact H|].
  eapply moves_step; [exact Hm|now apply IH].
Qed.

Lemma heap_top_eq cfg st st' :
  sys st' = sys st -> endHeap st' = endHeap st ->
  heap_top cfg st' = heap_top cfg st.
Proof. intros H1 H2. unfold heap_top. now rewrite H1, H2. Qed.

Lemma fl_insert_above lo b l :
  lo <= fst b /\ 1 <= snd b ->
  Forall (fun x => lo <= fst x /\ 1 <= snd x) l ->
  Forall (fun x => lo <= fst x /\ 1 <= snd x) (fl_insert b l).
Proof.
  intros Hb. induction l as [|p l IH]; intros Hl; cbn [fl_insert].
  - constructor; [exact Hb|constructor].
  - inversion Hl as [|? ? Hp Hl']; subst.
    destruct (hd_addr l (fst b + 1) <? fst b).
    + constructor; [exact Hp|now apply IH].
    + assert (Hu : Forall (fun x => lo <= fst x /\ 1 <= snd x)
                     (fl_join_upper b l)).
      { unfold fl_join_upper. destruct l as [|q l]; [now repeat constructor|].
        inversion Hl' as [|? ? Hq Hl'']; subst.
        destruct (padd (fst b) (snd b) =? fst q);
          constructor; cbn [fst snd]; try assumption; lia. }
      unfold fl_join_lower. destruct (fl_join_upper b l) as [|x u];
        [now repeat constructor|].
      inversion Hu as [|? ? Hx Hu']; subst.
      destruct (padd (fst p) (snd p) =? fst x);
        constructor; cbn [fst snd]; try assumption; try lia;
        try (now constructor).
Qed.

Lemma fl_insert_tl_above lo b c l :
  lo <= fst b /\ 1 <= snd b ->
  Forall (fun x => lo <= fst x /\ 1 <= snd x) l ->
  Forall (fun x => lo <= fst x /\ 1 <= snd x) (tl (fl_insert b (c :: l))).
Proof.
  intros Hb Hl. cbn [fl_insert].
  destruct (hd_addr l (fst b + 1) <? fst b).
  - cbn [tl]. now apply fl_insert_above.
  - assert (Hu : Forall (fun x => lo <= fst x /\ 1 <= snd x)
                   (fl_join_upper b l)).
    { unfold fl_join_upper. destruct l as [|q l]; [now repeat constructor|].
      inversion Hl as [|? ? Hq Hl']; subst.
      destruct (padd (fst b) (snd b) =? fst q);
        constructor; cbn [fst snd]; try assumption; lia. }
    unfold fl_join_lower. destruct (fl_join_upper b l) as [|x u];
      [constructor|].
    inversion Hu as [|? ? Hx Hu']; subst.
    destruct (padd (fst c) (snd c) =? fst x); cbn [tl]; assumption.
Qed.

Lemma move_above cfg lo v v' :
  (MMAP cfg = true -> 0 < pagesize cfg) ->
  move cfg v v' -> view_above lo v -> view_above lo v'.
Proof.
  intros Hps Hm. destruct Hm; unfold view_above; intros (Ht & HR & HA).
  - apply Forall_app in HR. destruct HR as [HP HS].
    inversion HS as [|? ? Hq HS']; subst. splits; [exact Ht| |].
    + apply Forall_app. now split.
    + constructor; [tauto|exact HA].
  - apply Forall_app in HR. destruct HR as [HP HS].
    inversion HS as [|? ? Hq HS']; subst. cbn [fst snd] in Hq.
    splits; [exact Ht| |].
    + apply Forall_app. split; [exact HP|].
      constructor; [cbn [fst snd]; lia|exact HS'].
    + constructor; [cbn [fst]; zsolve|exact HA].
  - destruct (grow_len_bounds cfg nu Hps) as ((G1 & _) & (G3 & _) & _);
      [assumption|].
    splits; [zsolve|apply fl_insert_tl_above|exact HA].
    + cbn [fst snd]. zsolve.
    + exact HR.
  - destruct (grow_len_bounds cfg nu Hps) as ((G1 & _) & _ & _);
      [assumption|].
    splits; [zsolve|exact HR|exact HA].
  - apply Forall_app in HA. destruct HA as [HA1 HA2].
    inversion HA2 as [|? ? Hb HA2']; subst.
    splits; [exact Ht|apply fl_insert_tl_above|].
    + split; assumption.
    + exact HR.
    + apply Forall_app. now split.
Qed.

Lemma moves_above cfg lo v v' :
  (MMAP cfg = true -> 0 < pagesize cfg) ->
  moves cfg v v' -> view_above lo v -> view_above lo v'.
Proof.
  intros Hps Hm. induction Hm as [|x y z H _ IH]; [tauto|].
  intros Hx. apply IH. now apply (move_above cfg lo x y).
Qed.

Lemma served_move cfg st R A nunits r st' :
  Inv cfg st R A -> 1 <= nunits -> served cfg st R A nunits r st' ->
  r <> NULL
  /\ exists R', Inv cfg st' R' ((padd r (-1), nunits) :: A)
       /\ move cfg (view_of cfg st R A)
            (view_of cfg st' R' ((padd r (-1), nunits) :: A)).
Proof.
  intros HI Hn (q & Hq & Hs & Hr & HI' & Hsys & Hend & _).
  destruct (take_block_nonnull _ _ _ _ _ _ _ HI' Hr) as [N1 N2].
  split; [exact N1|]. rewrite N2.
  eexists. split; [exact HI'|].
  unfold view_of. rewrite (heap_top_eq cfg st st' Hsys Hend).
  pose proof (Inv_has_block _ _ _ _ _ HI Hq) as Hin.
  apply in_split in Hin. destruct Hin as (P & S & ER).
  assert (HP : forall x, In x P -> fst x <> q).
  { intros x Hx. pose proof (inv_free _ _ _ _ HI) as HB. rewrite ER in HB.
    change ((base cfg, 0) :: P ++ (q, get_size (heap st) q) :: S)
      with (((base cfg, 0) :: P) ++ (q, get_size (heap st) q) :: S) in HB.
    destruct (blocks_in_split _ _ _ _ _ HB) as [H _].
    specialize (H x (or_intror Hx)). zsolve. }
  unfold take_addr, take_list.
  destruct (get_size (heap st) q =? nunits) eqn:E.
  - apply Z.eqb_eq in E. rewrite E in ER. rewrite ER.
    rewrite (fl_remove_split q nunits P S HP). now apply move_unlink.
  - apply Z.eqb_neq in E. rewrite ER at 2.
    rewrite (fl_shrink_split q _ nunits P S HP). rewrite ER at 1.
    apply move_carve. lia.
Qed.

Lemma malloc_view_moves cfg st R A n fuel :
  Inv cfg st R A -> request_ok cfg n -> (3 * length R + 5 <= fuel)%nat ->
  exists r st' R',
    malloc cfg fuel st n = Some (r, st')
    /\ (let A' := if r =? NULL then A else (padd r (-1), nunits_of n) :: A in
        Inv cfg st' R' A'
        /\ moves cfg (view_of cfg st R A) (view_of cfg st' R' A')).
Proof.
  intros HI Hreq Hfuel.
  destruct (nunits_of_ok cfg n (env_page _ _ (inv_env _ _ _ _ HI)) Hreq)
    as (_ & Hnu & _ & Hg).
  destruct (malloc_shape cfg st R A n fuel HI Hreq Hfuel)
    as (r & st' & Hm & Hdoes).
  exists r, st'. unfold malloc_does in Hdoes. cbv zeta in Hdoes.
  destruct Hdoes as [(_ & Hsv)|(_ & [(C1 & -> & Hh & Hf & Hs & Ht & HI')
                                    |(C1 & st1 & Ht1 & _ & HI1 & _ & Hfr1 & Hsv)])].
  - destruct (served_move cfg st R A (nunits_of n) r st' HI ltac:(lia) Hsv)
      as (Hnz & R' & HI' & Hmv).
    exists R'. split; [exact Hm|]. cbv zeta.
    apply Z.eqb_neq in Hnz. rewrite Hnz.
    split; [exact HI'|now apply moves_one].
  - exists R. split; [exact Hm|]. cbv zeta. change (NULL =? NULL) with true.
    split; [exact HI'|]. unfold view_of. rewrite Ht.
    destruct (MMAP cfg) eqn:EM; [|apply moves_refl].
    apply moves_one. now apply move_refused.
  - destruct (served_move cfg st1 _ A (nunits_of n) r st' HI1 ltac:(lia) Hsv)
      as (Hnz & R' & HI' & Hmv).
    exists R'. split; [exact Hm|]. cbv zeta.
    apply Z.eqb_neq in Hnz. rewrite Hnz.
    split; [exact HI'|].
    eapply moves_step; [|apply moves_one; exact Hmv].
    unfold view_of. rewrite Ht1. apply move_grow; [exact Hg|].
    pose proof (heap_top_brk _ _ (inv_env _ _ _ _ HI)).
    pose proof (env_brk _ _ (inv_env _ _ _ _ HI)). zsolve.
Qed.

Lemma free_view_move cfg st R A1 A2 bp bs fuel :
  Inv cfg st R (A1 ++ (bp, bs) :: A2) ->
  (2 * (length R + 1) <= fuel)%nat ->
  exists st', free fuel st (padd bp 1) = Some st'
    /\ Inv cfg st' (tl (fl_insert (bp, bs) ((base cfg, 0) :: R))) (A1 ++ A2)
    /\ move cfg (view_of cfg st R (A1 ++ (bp, bs) :: A2))
         (view_of cfg st' (tl (fl_insert (bp, bs) ((base cfg, 0) :: R)))
            (A1 ++ A2)).
Proof.
  intros HI Hfuel.
  destruct (free_Inv cfg st R A1 A2 bp bs fuel HI Hfuel) as [Hfree HI'].
  cbv zeta in Hfree, HI'. eexists. split; [exact Hfree|]. split; [exact HI'|].
  unfold view_of, heap_top. cbn [sys endHeap with_freep with_heap].
  destruct (Inv_live _ _ _ _ HI) as (_ & _ & _ & _ & L5).
  destruct (L5 (bp, bs) (in_elt _ _ _)) as (K1 & K2 & _).
  apply move_release; cbn [fst snd] in *; zsolve.
Qed.

Lemma outside_off_ring cfg st R A lo hi y :
  Inv cfg st R A -> Forall (fun x => lo <= fst x /\ 1 <= snd x) R ->
  heap_hi cfg st <= hi -> outside cfg lo hi y -> off_ring cfg R y.
Proof.
  intros HI HR Hhi [Hb Hy] b [<-|Hb'].
  - cbn [fst]. zsolve.
  - rewrite Forall_forall in HR. destruct (HR b Hb') as [Hlo _].
    destruct (blocks_in_In _ _ _ _ (inv_free _ _ _ _ HI) (or_intror Hb'))
      as (_ & _ & X). lia.
Qed.

Lemma heap_hi_top cfg st : heap_hi cfg st <= heap_top cfg st.
Proof. unfold heap_hi. lia. Qed.

Lemma malloc_frame cfg st R A n fuel r st' lo :
  Inv cfg st R A -> view_above lo (view_of cfg st R A) ->
  request_ok cfg n -> (3 * length R + 5 <= fuel)%nat ->
  malloc cfg fuel st n = Some (r, st') ->
  forall y, outside cfg lo (heap_top cfg st') y -> heap st' y = heap st y.
Proof.
  intros HI (Hlo & HR & HA) Hreq Hfuel Hm y Hy.
  destruct (nunits_of_ok cfg n (env_page _ _ (inv_env _ _ _ _ HI)) Hreq)
    as (_ & Hnu & _ & Hg).
  destruct (grow_len_bounds cfg (nunits_of n)
              (fun H => proj1 (env_page _ _ (inv_env _ _ _ _ HI) H)) Hg)
    as ((G1 & _) & (G3 & _) & _).
  destruct (malloc_shape cfg st R A n fuel HI Hreq Hfuel)
    as (r0 & st0 & Hm0 & Hdoes).
  rewrite Hm in Hm0. inversion Hm0; subst r0 st0.
  unfold malloc_does in Hdoes. cbv zeta in Hdoes.
  pose proof (heap_hi_top cfg st) as Hht.
  destruct Hdoes as [(_ & Hsv)|(_ & [(_ & _ & Hh & _)
                                    |(C1 & st1 & Ht1 & _ & HI1 & _ & Hfr1 & Hsv)])].
  - destruct Hsv as (q & _ & _ & _ & _ & Hs & He & _ & Hfr).
    apply Hfr. apply (outside_off_ring cfg st R A lo (heap_top cfg st'));
      try assumption.
    rewrite (heap_top_eq cfg st st' Hs He). exact Hht.
  - now rewrite Hh.
  - destruct Hsv as (q & _ & _ & _ & _ & Hs & He & _ & Hfr).
    rewrite (heap_top_eq cfg st1 st' Hs He), Ht1 in Hy.
    rewrite Hfr.
    + apply Hfr1.
      * apply (outside_off_ring cfg st R A lo
                 (heap_top cfg st + grow_len cfg (nunits_of n)) y HI HR);
          [zsolve|exact Hy].
      * destruct Hy as [_ Hy]. zsolve.
    + apply (outside_off_ring cfg st1 _ A lo
               (heap_top cfg st + grow_len cfg (nunits_of n)) y HI1);
        [| |exact Hy].
      * apply fl_insert_tl_above; [cbn [fst snd]; zsolve|exact HR].
      * rewrite <- Ht1. apply heap_hi_top.
Qed.

Lemma free_frame cfg st R A1 A2 bp bs fuel st' lo :
  Inv cfg st R (A1 ++ (bp, bs) :: A2) ->
  view_above lo (view_of cfg st R (A1 ++ (bp, bs) :: A2)) ->
  free fuel st (padd bp 1) = Some st' ->
  forall y, outside cfg lo (heap_top cfg st) y -> heap st' y = heap st y.
Proof.
  intros HI (Hlo & HR & HA) Hfree y Hy.
  pose proof (free_mono _ (Nat.max fuel (2 * (length R + 1))) _ _ _ Hfree
                (Nat.le_max_l _ _)) as Hf1.
  destruct (free_Inv cfg st R A1 A2 bp bs _ HI (Nat.le_max_r fuel _))
    as [Hf2 _]. cbv zeta in Hf2. rewrite Hf1 in Hf2.
  pose proof (fl_pred_In bp bs ((base cfg, 0) :: R) 0 ltac:(discriminate))
    as Hp.
  remember (fl_pred (bp, bs) ((base cfg, 0) :: R) 0) as p eqn:Ep0.
  clear Ep0 Hf1. injection Hf2 as ->. cbn [heap with_freep with_heap].
  apply in_map_iff in Hp. destruct Hp as (pb & Ep & Hpb).
  pose proof (outside_off_ring cfg st R _ lo _ y HI HR (heap_hi_top cfg st) Hy
                pb Hpb) as Yp.
  destruct (Inv_live _ _ _ _ HI) as (_ & _ & _ & _ & L5).
  destruct (L5 (bp, bs) (in_elt _ _ _)) as (K1 & K2 & K3 & _).
  cbn [fst snd] in K1, K2, K3.
  rewrite Forall_forall in HA. pose proof (HA (bp, bs) (in_elt _ _ _)) as K0.
  cbn [fst] in K0. pose proof (heap_hi_top cfg st) as Hht.
  destruct Hy as [_ Hy].
  rewrite <- Ep. apply free_link_bytes; zsolve.
Qed.

Lemma realloc_view_moves cfg st R A1 A2 a s n fuel :
  Inv cfg st R (A1 ++ (a, s) :: A2) -> request_ok cfg n ->
  (3 * length R + 5 <= fuel)%nat ->
  exists r st' R',
    realloc cfg fuel st (padd a 1) n = Some (r, st')
    /\ (let A' := if r =? NULL then A1 ++ (a, s) :: A2
                  else (padd r (-1), nunits_of n) :: A1 ++ A2 in
        Inv cfg st' R' A'
        /\ moves cfg (view_of cfg st R (A1 ++ (a, s) :: A2))
             (view_of cfg st' R' A'))
    /\ (forall lo y,
          view_above lo (view_of cfg st R (A1 ++ (a, s) :: A2)) ->
          outside cfg lo (heap_top cfg st') y -> heap st' y = heap st y).
Proof.
  intros HI Hreq Hfuel.
  pose proof (Inv_bounds _ _ _ _ HI) as (Hb0 & Hb1 & Hb2 & Hb3).
  destruct (Inv_live _ _ _ _ HI) as (_ & _ & _ & _ & L5).
  destruct (L5 (a, s) (in_elt _ _ _)) as (K1 & K2 & K3 & K4).
  cbn [fst snd] in K1, K2, K3, K4.
  destruct (nunits_of_ok cfg n (env_page _ _ (inv_env _ _ _ _ HI)) Hreq)
    as (_ & Hnu & Hnb & _).
  destruct (malloc_view_moves cfg st R _ n fuel HI Hreq Hfuel)
    as (r & st1 & R1 & Hm & HI1 & Hmv). cbv zeta in HI1, Hmv.
  assert (HlenR1 : (length R1 <= length R + 1)%nat).
  { destruct (malloc_Inv cfg st R _ n fuel HI Hreq Hfuel)
      as (r0 & st0 & Hm0 & Hpost).
    rewrite Hm in Hm0. inversion Hm0; subst r0 st0.
    destruct Hpost as [(-> & _ & _ & HI0)|(Hr & R0 & HI0 & _ & HL)].
    - change (NULL =? NULL) with true in HI1.
      rewrite (Inv_free_unique _ _ _ _ _ _ HI1 HI0). lia.
    - apply Z.eqb_neq in Hr. rewrite Hr in HI1.
      rewrite (Inv_free_unique _ _ _ _ _ _ HI1 HI0). exact HL. }
  unfold realloc.
  replace (padd a 1 =? NULL) with false by (symmetry; apply Z.eqb_neq; zsolve).
  replace (n =? 0) with false
    by (symmetry; apply Z.eqb_neq; destruct Hreq; lia).
  assert (Hps : MMAP cfg = true -> 0 < pagesize cfg).
  { intros H. exact (proj1 (env_page _ _ (inv_env _ _ _ _ HI) H)). }
  rewrite Hm. destruct (r =? NULL) eqn:Er.
  - apply Z.eqb_eq in Er. subst r. exists NULL, st1, R1.
    split; [reflexivity|]. cbv zeta. change (NULL =? NULL) with true.
    split; [now split|].
    intros lo y Hab Hy.
    exact (malloc_frame cfg st R _ n fuel NULL st1 lo HI Hab Hreq Hfuel Hm y Hy).
  - apply Z.eqb_neq in Er.
    replace (padd (padd a 1) (-1)) with a by zsolve.
    set (nu := nunits_of n) in *. set (b := padd r (-1)) in *.
    assert (Hr16 : r = padd b 1) by (subst b; zsolve).
    assert (Hsz : get_size (heap st1) a = s).
    { destruct (Inv_live _ _ _ _ HI1) as (_ & _ & _ & _ & M5).
      destruct (M5 (a, s)) as (_ & _ & _ & E); [right; apply in_elt|exact E]. }
    rewrite Hsz.
    pose proof (get_size_range (heap st1) a) as Hrs. rewrite Hsz in Hrs.
    rewrite (Z.mod_small (s - 1)) by zsolve.
    rewrite (Z.mod_small (sizeof_Header * (s - 1))) by zsolve.
    set (len := if n <? sizeof_Header * (s - 1) then n else sizeof_Header * (s - 1)).
    assert (Hlen' : 0 <= len <= sizeof_Header * (nu - 1)).
    { subst len. destruct (n <? sizeof_Header * (s - 1)) eqn:E;
        [apply Z.ltb_lt in E|apply Z.ltb_ge in E]; destruct Hreq; zsolve. }
    rewrite Hr16.
    destruct (Inv_memcpy cfg st1 R1 _ b nu (padd a 1) len HI1
                (or_introl eq_refl) Hlen') as [HI2 _].
    set (st2 := with_heap st1 (Mem.memcpy (heap st1) (padd b 1) (padd a 1) len)) in *.
    change ((b, nu) :: A1 ++ (a, s) :: A2)
      with (((b, nu) :: A1) ++ (a, s) :: A2) in HI2.
    destruct (free_view_move cfg st2 R1 ((b, nu) :: A1) A2 a s fuel HI2 ltac:(lia))
      as (st3 & Hfree & HI3 & Hmv3).
    rewrite Hfree. rewrite <- Hr16.
    exists r, st3, (tl (fl_insert (a, s) ((base cfg, 0) :: R1))).
    split; [reflexivity|]. cbv zeta.
    replace (r =? NULL) with false by (symmetry; now apply Z.eqb_neq).
    split; [split; [exact HI3|]|].
    + eapply moves_trans; [exact Hmv|]. apply moves_one.
      replace (view_of cfg st1 R1 ((b, nu) :: A1 ++ (a, s) :: A2))
        with (view_of cfg st2 R1 (((b, nu) :: A1) ++ (a, s) :: A2))
        by reflexivity.
      exact Hmv3.
    + intros lo y Hab Hy.
      destruct (free_fields _ _ _ _ Hfree) as [Fs Fe].
      assert (Et : heap_top cfg st3 = heap_top cfg st1).
      { rewrite (heap_top_eq cfg st2 st3 Fs Fe). reflexivity. }
      rewrite Et in Hy.
      pose proof (moves_above cfg lo _ _ Hps Hmv Hab) as Hab1.
      rewrite (free_frame cfg st2 R1 ((b, nu) :: A1) A2 a s fuel st3 lo HI2
                 Hab1 Hfree y Hy).
      subst st2. cbn [heap with_heap].
      rewrite <- (malloc_frame cfg st R _ n fuel r st1 lo HI Hab Hreq Hfuel
                    Hm y Hy).
      unfold Mem.memcpy.
      destruct ((padd b 1 <=? y) && (y <? padd b 1 + len)) eqn:E;
        [|reflexivity].
      exfalso. apply andb_true_iff in E. destruct E as [E1 E2].
      apply Z.leb_le in E1. apply Z.ltb_lt in E2.
      destruct Hab1 as (_ & _ & HA1).
      pose proof (Forall_inv HA1) as Hb. cbn [fst] in Hb.
      destruct (Inv_live _ _ _ _ HI1) as (_ & _ & _ & _ & M5).
      destruct (M5 _ (or_introl eq_refl)) as (_ & _ & X3 & _).
      cbn [fst snd] in X3. pose proof (heap_hi_top cfg st1).
      destruct Hy as [_ Hy]. zsolve.
Qed.

Lemma client_view_inv cfg c v : client_view cfg c v -> client_inv cfg c.
Proof.
  intros [(H1 & H2 & _)|(R & A & H1 & H2 & _)]; [left; now split|].
  right. now exists R, A.
Qed.

Lemma client_view_page cfg c v :
  client_view cfg c v -> MMAP cfg = true -> 0 < pagesize cfg.
Proof.
  intros [(HF & _)|(R & A & HI & _)] EM.
  - exact (proj1 (env_page _ _ (proj1 HF) EM)).
  - exact (proj1 (env_page _ _ (inv_env _ _ _ _ HI) EM)).
Qed.

Lemma malloc_init_top cfg st :
  heap_top cfg (malloc_init cfg st) = heap_top cfg st.
Proof.
  unfold malloc_init. destruct (freep st =? NULL); reflexivity.
Qed.

Lemma malloc_init_frame cfg st y :
  y < base cfg \/ base cfg + sizeof_Header <= y ->
  heap (malloc_init cfg st) y = heap st y.
Proof.
  intros Hy. unfold malloc_init. destruct (freep st =? NULL); [|reflexivity].
  cbn [heap with_heap with_freep].
  rewrite set_size_bytes, set_ptr_bytes by zsolve. reflexivity.
Qed.

Lemma moves_top cfg v v' :
  (MMAP cfg = true -> 0 < pagesize cfg) ->
  moves cfg v v' -> fst (fst v) <= fst (fst v').
Proof.
  intros Hps Hm. induction Hm as [|x y z H _ IH]; [lia|].
  etransitivity; [|exact IH].
  destruct H; cbn [fst]; try lia;
    destruct (grow_len_bounds cfg nu Hps) as ((G1 & _) & _ & _);
    try assumption; zsolve.
Qed.

Lemma outside_shrink cfg lo hi hi' y :
  hi <= hi' -> outside cfg lo hi' y -> outside cfg lo hi y.
Proof. unfold outside. lia. Qed.

Lemma malloc_step_view cfg st live v n :
  client_view cfg (st, live) v -> n = 0 \/ request_ok cfg n ->
  exists fuel0 r st' v',
    (forall fuel, (fuel0 <= fuel)%nat -> malloc cfg fuel st n = Some (r, st'))
    /\ client_view cfg (st', if r =? NULL then live else r :: live) v'
    /\ moves cfg v v'
    /\ (forall lo y, view_above lo v -> outside cfg lo (fst (fst v')) y ->
                     heap st' y = heap st y).
Proof.
  intros Hc [->|Hreq].
  - exists O, NULL, st, v. split; [intros; reflexivity|].
    split; [exact Hc|]. split; [apply moves_refl|reflexivity].
  - assert (Hn : n <> 0) by (destruct Hreq; lia).
    assert (HI : exists st0 R A,
               Inv cfg st0 R A /\ live = pointers A
               /\ v = view_of cfg st0 R A
               /\ (forall fuel, malloc cfg fuel st n = malloc cfg fuel st0 n)
               /\ (forall y, y < base cfg \/ base cfg + sizeof_Header <= y ->
                             heap st0 y = heap st y)).
    { destruct Hc as [(HF & Hl & Hv)|(R & A & HI & Hl & Hv)]; cbn [fst snd] in *.
      - exists (malloc_init cfg st), [], []. splits.
        + exact (proj1 (malloc_init_Fresh cfg st HF)).
        + exact Hl.
        + rewrite Hv. unfold view_of. now rewrite malloc_init_top.
        + intros fuel. now apply malloc_Fresh.
        + apply malloc_init_frame.
      - exists st, R, A. now splits. }
    destruct HI as (st0 & R & A & HI & Hl & Hv & Hm & Hfr0).
    destruct (malloc_view_moves cfg st0 R A n (3 * length R + 5)%nat HI Hreq (le_n _))
      as (r & st' & R' & Hm0 & HI' & Hmv). cbv zeta in HI', Hmv.
    exists (3 * length R + 5)%nat, r, st', (view_of cfg st' R'
       (if r =? NULL then A else (padd r (-1), nunits_of n) :: A)).
    split; [|split; [|split]].
    + intros fuel Hf. rewrite Hm. eapply malloc_mono; eassumption.
    + right. eexists _, _. split; [exact HI'|]. split; [|reflexivity].
      cbn [fst snd]. destruct (r =? NULL) eqn:Er; [exact Hl|].
      apply Z.eqb_neq in Er.
      cbn [fst snd pointers map]. rewrite Hl. f_equal. zsolve.
    + rewrite Hv. exact Hmv.
    + intros lo y Hab Hy. unfold view_of in Hy. cbn [fst] in Hy.
      rewrite Hv in Hab.
      rewrite (malloc_frame cfg st0 R A n _ r st' lo HI Hab Hreq (le_n _)
                 Hm0 y Hy).
      apply Hfr0. exact (proj1 Hy).
Qed.

Lemma step_view_ok cfg c v o :
  client_view cfg c v -> op_ok cfg o ->
  exists fuel0 c' v',
    (forall fuel, (fuel0 <= fuel)%nat -> step cfg fuel o c = Some c')
    /\ client_view cfg c' v' /\ moves cfg v v'
    /\ (forall lo y, view_above lo v -> outside cfg lo (fst (fst v')) y ->
                     heap (fst c') y = heap (fst c) y).
Proof.
  intros Hc Hop. destruct c as [st live]. destruct o as [n|i|i n]; cbn [op_ok] in Hop.
  - (* malloc *)
    destruct (malloc_step_view cfg st live v n Hc Hop)
      as (fuel0 & r & st' & v' & Hm & Hc' & Hmv & Hfr).
    exists fuel0, (st', if r =? NULL then live else r :: live), v'.
    split; [|now splits]. intros fuel Hf. cbn [step]. now rewrite Hm.
  - (* free *)
    destruct Hc as [(HF & Hl & Hv)|(R & A & HI & Hl & Hv)]; cbn [fst snd] in *.
    + subst live. exists O, (st, []), v. split; [|split; [|split]].
      * intros fuel _. cbn [step]. destruct i; reflexivity.
      * left. now splits.
      * apply moves_refl.
      * reflexivity.
    + subst live. destruct (Nat.lt_ge_cases i (length A)) as [Hi|Hi].
      * destruct (pointers_nth A i Hi) as (A1 & a & s & A2 & EA & Hn & Hr).
        rewrite EA in HI.
        destruct (free_view_move cfg st R A1 A2 a s (2 * (length R + 1))%nat HI (le_n _))
          as (st' & Hfree & HI' & Hmv).
        eexists (2 * (length R + 1))%nat, (_, _), _. split; [|split; [|split]].
        -- intros fuel Hf. cbn [step]. rewrite Hn.
           rewrite (free_mono _ _ _ _ _ Hfree Hf). rewrite Hr. reflexivity.
        -- right. eexists _, _. split; [exact HI'|].
           split; reflexivity.
        -- cbn [fst]. rewrite Hv, EA. apply moves_one. exact Hmv.
        -- intros lo y Hab Hy. unfold view_of in Hy. cbn [fst] in Hy |- *.
           rewrite Hv, EA in Hab.
           destruct (free_fields _ _ _ _ Hfree) as [Fs Fe].
           rewrite (heap_top_eq cfg st st' Fs Fe) in Hy.
           exact (free_frame cfg st R A1 A2 a s _ st' lo HI Hab Hfree y Hy).
      * destruct (pointers_nth_out A i Hi) as [Hn Hr].
        exists O, (st, pointers A), v. split; [|split; [|split]].
        -- intros fuel _. cbn [step]. rewrite Hn, Hr. reflexivity.
        -- right. exists R, A. now splits.
        -- apply moves_refl.
        -- reflexivity.
  - (* realloc *)
    assert (Hnull : nth i live NULL = NULL ->
              remove_nth i live = live ->
              exists fuel0 c' v',
                (forall fuel, (fuel0 <= fuel)%nat ->
                   step cfg fuel (OpRealloc i n) (st, live) = Some c')
                /\ client_view cfg c' v' /\ moves cfg v v'
                /\ (forall lo y, view_above lo v ->
                      outside cfg lo (fst (fst v')) y ->
                      heap (fst c') y = heap st y)).
    { intros Hn Hr.
      destruct (malloc_step_view cfg st live v n Hc Hop)
        as (fuel0 & r & st' & v' & Hm & Hc' & Hmv & Hfr).
      exists fuel0, (st', if r =? NULL then live else r :: live), v'.
      split; [|now splits]. intros fuel Hf. cbn [step]. rewrite Hn, Hr.
      change (realloc cfg fuel st NULL n) with (malloc cfg fuel st n).
      rewrite (Hm fuel Hf). destruct (r =? NULL); [|reflexivity].
      destruct (n =? 0); reflexivity. }
    destruct Hc as [(HF & Hl & Hv)|(R & A & HI & Hl & Hv)]; cbn [fst snd] in *.
    + subst live. apply Hnull; [destruct i; reflexivity|].
      apply remove_nth_out. cbn [length]. lia.
    + subst live. destruct (Nat.lt_ge_cases i (length A)) as [Hi|Hi].
      2:{ destruct (pointers_nth_out A i Hi) as [Hn Hr]. now apply Hnull. }
      destruct (pointers_nth A i Hi) as (A1 & a & s & A2 & EA & Hn & Hr).
      rewrite EA in HI.
      pose proof (Inv_bounds _ _ _ _ HI) as (Hb0 & _).
      destruct (Inv_live _ _ _ _ HI) as (_ & _ & _ & _ & L5).
      destruct (L5 (a, s) (in_elt _ _ _)) as (K1 & _). cbn [fst] in K1.
      assert (Hpn : (padd a 1 =? NULL) = false) by (apply Z.eqb_neq; zsolve).
      destruct Hop as [->|Hreq].
      * (* size 0: release *)
        destruct (free_view_move cfg st R A1 A2 a s (2 * (length R + 1))%nat HI (le_n _))
          as (st' & Hfree & HI' & Hmv).
        eexists (2 * (length R + 1))%nat, (_, _), _. split; [|split; [|split]].
        -- intros fuel Hf. cbn [step]. rewrite Hn. unfold realloc.
           rewrite Hpn. cbn [Z.eqb].
           rewrite (free_mono _ _ _ _ _ Hfree Hf). cbn [Z.eqb NULL].
           rewrite Hr. reflexivity.
        -- right. eexists _, _. split; [exact HI'|]. split; reflexivity.
        -- cbn [fst]. rewrite Hv, EA. apply moves_one. exact Hmv.
        -- intros lo y Hab Hy. unfold view_of in Hy. cbn [fst] in Hy |- *.
           rewrite Hv, EA in Hab.
           destruct (free_fields _ _ _ _ Hfree) as [Fs Fe].
           rewrite (heap_top_eq cfg st st' Fs Fe) in Hy.
           exact (free_frame cfg st R A1 A2 a s _ st' lo HI Hab Hfree y Hy).
      * destruct (realloc_view_moves cfg st R A1 A2 a s n (3 * length R + 5)%nat
                    HI Hreq (le_n _)) as (r & st' & R' & Hre & (HI' & Hmv) & Hfr).
        cbv zeta in HI', Hmv.
        assert (Hn0 : (n =? 0) = false)
          by (apply Z.eqb_neq; destruct Hreq; lia).
        exists (3 * length R + 5)%nat,
          (st', if r =? NULL then pointers A else r :: pointers (A1 ++ A2)),
          (view_of cfg st' R'
             (if r =? NULL then A1 ++ (a, s) :: A2
              else (padd r (-1), nunits_of n) :: A1 ++ A2)).
        split; [|split; [|split]].
        -- intros fuel Hf. cbn [step]. rewrite Hn.
           rewrite (realloc_mono _ _ _ _ _ _ _ Hre Hf). rewrite Hn0, Hr.
           reflexivity.
        -- right. eexists _, _. split; [exact HI'|]. split; [|reflexivity].
           cbn [fst snd]. destruct (r =? NULL) eqn:Er; [now rewrite EA|].
           apply Z.eqb_neq in Er.
           cbn [fst snd pointers map]. f_equal. zsolve.
        -- rewrite Hv, EA. exact Hmv.
        -- intros lo y Hab Hy. unfold view_of in Hy. cbn [fst] in Hy |- *.
           rewrite Hv, EA in Hab. exact (Hfr lo y Hab Hy).
Qed.

Lemma run_view_ok cfg ops : forall c v,
  client_view cfg c v -> Forall (op_ok cfg) ops ->
  exists fuel0 c' v',
    (forall fuel, (fuel0 <= fuel)%nat -> run cfg fuel ops c = Some c')
    /\ client_view cfg c' v' /\ moves cfg v v'
    /\ (forall lo y, view_above lo v -> outside cfg lo (fst (fst v')) y ->
                     heap (fst c') y = heap (fst c) y).
Proof.
  induction ops as [|o ops IH]; intros c v Hc Hops.
  - exists O, c, v. split; [reflexivity|]. split; [exact Hc|].
    split; [apply moves_refl|reflexivity].
  - inversion Hops as [|? ? Ho Hops']; subst.
    pose proof (client_view_page _ _ _ Hc) as Hps.
    destruct (step_view_ok cfg c v o Hc Ho)
      as (f1 & c1 & v1 & Hs & Hc1 & Hm1 & Hf1).
    destruct (IH c1 v1 Hc1 Hops') as (f2 & c2 & v2 & Hr & Hc2 & Hm2 & Hf2).
    exists (Nat.max f1 f2), c2, v2. split; [|split; [|split]].
    + intros fuel Hf. cbn [run]. rewrite Hs by lia. apply Hr. lia.
    + exact Hc2.
    + exact (moves_trans _ _ _ _ Hm1 Hm2).
    + intros lo y Hab Hy.
      rewrite (Hf2 lo y (moves_above cfg lo _ _ Hps Hm1 Hab) Hy).
      apply (Hf1 lo y Hab).
      exact (outside_shrink cfg lo _ _ y (moves_top cfg _ _ Hps Hm2) Hy).
Qed.

Lemma run_view cfg ops c v fuel c' :
  client_view cfg c v -> Forall (op_ok cfg) ops ->
  run cfg fuel ops c = Some c' ->
  exists v', client_view cfg c' v' /\ moves cfg v v'.
Proof.
  intros Hc Hops Hrun.
  destruct (run_view_ok cfg ops c v Hc Hops)
    as (fuel0 & c0 & v0 & Hr0 & Hc0 & Hm & _).
  pose proof (Hr0 (Nat.max fuel fuel0) ltac:(lia)) as E1.
  rewrite (run_mono _ _ _ _ _ _ Hrun (Nat.le_max_l _ _)) in E1.
  inversion E1. subst. now exists v0.
Qed.

(** ** No unit is lost *)

Lemma units_app l1 l2 : units (l1 ++ l2) = units l1 + units l2.
Proof. induction l1 as [|x l1 IH]; cbn [units app]; lia. Qed.

Lemma units_fl_join_upper b l : units (fl_join_upper b l) = snd b + units l.
Proof.
  unfold fl_join_upper. destruct l as [|q l]; [reflexivity|].
  destruct (padd (fst b) (snd b) =? fst q); cbn [units fst snd]; lia.
Qed.

Lemma units_fl_join_lower p l : units (fl_join_lower p l) = snd p + units l.
Proof.
  unfold fl_join_lower. destruct l as [|q l]; [reflexivity|].
  destruct (padd (fst p) (snd p) =? fst q); cbn [units fst snd]; lia.
Qed.

Lemma units_fl_insert b l : units (fl_insert b l) = units l + snd b.
Proof.
  induction l as [|p l IH]; cbn [fl_insert units]; [lia|].
  destruct (hd_addr l (fst b + 1) <? fst b).
  - cbn [units]. lia.
  - rewrite units_fl_join_lower, units_fl_join_upper. lia.
Qed.

Lemma units_fl_insert_tl c b l :
  c < fst b -> units (tl (fl_insert b ((c, 0) :: l))) = units l + snd b.
Proof.
  intros H. pose proof (units_fl_insert b ((c, 0) :: l)) as E.
  destruct b as [bp bs]. rewrite fl_insert_head in E by exact H.
  cbn [units fst snd] in *. lia.
Qed.

Lemma grow_len_sbrk cfg nu :
  MMAP cfg = false ->
  grow_len cfg nu = sizeof_Header * Z.max nu NALLOC
  /\ grow_len cfg nu / sizeof_Header = Z.max nu NALLOC.
Proof.
  intros EM. unfold grow_len. rewrite EM. split; [zsolve|].
  apply Z.div_mul. zsolve.
Qed.

Lemma move_balance cfg v v' :
  MMAP cfg = false -> move cfg v v' -> balance v' = balance v.
Proof.
  intros EM Hm. destruct Hm; unfold balance.
  - rewrite !units_app. cbn [units snd]. lia.
  - rewrite !units_app. cbn [units snd]. lia.
  - destruct (grow_len_sbrk cfg nu EM) as [E1 E2].
    rewrite units_fl_insert_tl by (cbn [fst]; lia). cbn [snd]. lia.
  - congruence.
  - rewrite units_fl_insert_tl by assumption.
    rewrite !units_app. cbn [units]. lia.
Qed.

Lemma moves_balance cfg v v' :
  MMAP cfg = false -> moves cfg v v' -> balance v' = balance v.
Proof.
  intros EM Hm. induction Hm as [|x y z H _ IH]; [reflexivity|].
  rewrite IH. now apply (move_balance cfg).
Qed.

Lemma client_view_lists cfg c v :
  client_view cfg c v -> exists R A, v = view_of cfg (fst c) R A.
Proof.
  intros [(_ & _ & Hv)|(R & A & _ & _ & Hv)]; eexists _, _; exact Hv.
Qed.

(** X13. In the [sbrk] build no unit is lost.  Over any run of a client, the
    bytes held in blocks, free or handed out, change by exactly as much as
    the program break moves: started on a fresh allocator, free and handed
    out blocks together are the bytes obtained from the system. *)
Theorem units_conserved cfg c R A ops fuel c' :
  MMAP cfg = false ->
  client_view cfg c (view_of cfg (fst c) R A) -> Forall (op_ok cfg) ops ->
  run cfg fuel ops c = Some c' ->
  exists R' A',
    client_view cfg c' (view_of cfg (fst c') R' A')
    /\ sizeof_Header * (units R' + units A') - brk (sys (fst c'))
       = sizeof_Header * (units R + units A) - brk (sys (fst c)).
Proof.
  intros EM Hc Hops Hrun.
  destruct (run_view cfg ops c _ fuel c' Hc Hops Hrun) as (v' & Hc' & Hmv).
  destruct (client_view_lists _ _ _ Hc') as (R' & A' & ->).
  exists R', A'. split; [exact Hc'|].
  pose proof (moves_balance cfg _ _ EM Hmv) as E.
  unfold balance, view_of, heap_top in E. rewrite EM in E. exact E.
Qed.

Lemma units_conserved_witness :
  exists R' A',
    client_view cfg_ex (st_ex1, [24560])
      (view_of cfg_ex (fst (st_ex1, [24560])) R' A')
    /\ sizeof_Header * (units R' + units A') - brk (sys (fst (st_ex1, [24560])))
       = sizeof_Header * (units [] + units [])
         - brk (sys (fst (st_ex0, @nil Z))).
Proof.
  apply (units_conserved cfg_ex (st_ex0, []) [] [] [OpMalloc 10] 10
           (st_ex1, [24560])).
  - reflexivity.
  - left. split; [exact Fresh_ex0|]. split; reflexivity.
  - apply Forall_cons; [|apply Forall_nil].
    right. vm_compute. split; [reflexivity|discriminate].
  - vm_compute. reflexivity.
Defined.

(** ** Alignment *)

Lemma aligned_padd p k : aligned p -> aligned (padd p k).
Proof.
  unfold aligned, padd, sizeof_Header. intros H.
  replace (p + 16 * k) with (p + k * 16) by lia.
  rewrite Z.mod_add by lia. exact H.
Qed.

Lemma aligned_add p q : aligned p -> aligned q -> aligned (p + q).
Proof.
  unfold aligned. intros Hp Hq.
  rewrite Z.add_mod, Hp, Hq by zsolve. reflexivity.
Qed.

Lemma fl_insert_addrs (Q : Z -> Prop) b l :
  Q (fst b) -> Forall (fun x => Q (fst x)) l ->
  Forall (fun x => Q (fst x)) (fl_insert b l).
Proof.
  intros Hb. induction l as [|p l IH]; intros Hl; cbn [fl_insert].
  - constructor; [exact Hb|constructor].
  - inversion Hl as [|? ? Hp Hl']; subst.
    destruct (hd_addr l (fst b + 1) <? fst b).
    + constructor; [exact Hp|now apply IH].
    + assert (Hu : Forall (fun x => Q (fst x)) (fl_join_upper b l)).
      { unfold fl_join_upper. destruct l as [|q l]; [now repeat constructor|].
        inversion Hl' as [|? ? Hq Hl'']; subst.
        destruct (padd (fst b) (snd b) =? fst q);
          constructor; cbn [fst]; assumption. }
      unfold fl_join_lower. destruct (fl_join_upper b l) as [|x u];
        [now repeat constructor|].
      inversion Hu as [|? ? Hx Hu']; subst.
      destruct (padd (fst p) (snd p) =? fst x);
        constructor; cbn [fst]; try assumption; try (now constructor).
Qed.

Lemma fl_insert_tl_addrs (Q : Z -> Prop) b c l :
  Q (fst b) -> Forall (fun x => Q (fst x)) l ->
  Forall (fun x => Q (fst x)) (tl (fl_insert b (c :: l))).
Proof.
  intros Hb Hl. cbn [fl_insert].
  destruct (hd_addr l (fst b + 1) <? fst b).
  - cbn [tl]. now apply fl_insert_addrs.
  - assert (Hu : Forall (fun x => Q (fst x)) (fl_join_upper b l)).
    { unfold fl_join_upper. destruct l as [|q l]; [now repeat constructor|].
      inversion Hl as [|? ? Hq Hl']; subst.
      destruct (padd (fst b) (snd b) =? fst q);
        constructor; cbn [fst]; assumption. }
    unfold fl_join_lower. destruct (fl_join_upper b l) as [|x u];
      [constructor|].
    inversion Hu as [|? ? Hx Hu']; subst.
    destruct (padd (fst c) (snd c) =? fst x); cbn [tl]; assumption.
Qed.

Lemma grow_len_aligned cfg nu :
  (MMAP cfg = true -> aligned (pagesize cfg)) -> aligned (grow_len cfg nu).
Proof.
  intros Hps. unfold grow_len, aligned in *. destruct (MMAP cfg).
  - rewrite Z.mul_mod, (Hps eq_refl), Z.mul_0_r by zsolve. reflexivity.
  - apply Z.mod_mul. zsolve.
Qed.

Lemma move_aligned cfg v v' :
  (MMAP cfg = true -> aligned (pagesize cfg)) ->
  move cfg v v' -> view_aligned v -> view_aligned v'.
Proof.
  intros Hps Hm. destruct Hm; unfold view_aligned; intros (Ht & HR & HA).
  - apply Forall_app in HR. destruct HR as [HP HS].
    inversion HS as [|? ? Hq HS']; subst. splits; [exact Ht| |].
    + apply Forall_app. now split.
    + now constructor.
  - apply Forall_app in HR. destruct HR as [HP HS].
    inversion HS as [|? ? Hq HS']; subst. cbn [fst] in Hq. splits; [exact Ht| |].
    + apply Forall_app. split; [exact HP|]. now constructor.
    + constructor; [|exact HA]. cbn [fst]. now apply aligned_padd.
  - splits; [|apply fl_insert_tl_addrs|exact HA].
    + apply aligned_add; [exact Ht|now apply grow_len_aligned].
    + exact Ht.
    + exact HR.
  - splits; [|exact HR|exact HA].
    apply aligned_add; [exact Ht|now apply grow_len_aligned].
  - apply Forall_app in HA. destruct HA as [HA1 HA2].
    inversion HA2 as [|? ? Hb HA2']; subst.
    splits; [exact Ht|apply fl_insert_tl_addrs|].
    + exact Hb.
    + exact HR.
    + apply Forall_app. now split.
Qed.

Lemma moves_aligned cfg v v' :
  (MMAP cfg = true -> aligned (pagesize cfg)) ->
  moves cfg v v' -> view_aligned v -> view_aligned v'.
Proof.
  intros Hps Hm. induction Hm as [|x y z H _ IH]; [tauto|].
  intros Hx. apply IH. now apply (move_aligned cfg x y).
Qed.

(** X16. Alignment.  When the heap starts on a unit boundary (and, in the
    [MMAP] build, a page is a whole number of units), every pointer a client
    holds, at any point of any run, is a whole number of units: the blocks
    are aligned on [sizeof(Header)]. *)
Theorem pointers_aligned cfg st0 ops fuel st' live :
  Fresh cfg st0 -> aligned (heap_top cfg st0) ->
  (MMAP cfg = true -> aligned (pagesize cfg)) ->
  Forall (op_ok cfg) ops ->
  run cfg fuel ops (st0, []) = Some (st', live) ->
  Forall aligned live.
Proof.
  intros HF Ht Hps Hops Hrun.
  assert (Hc : client_view cfg (st0, []) (view_of cfg st0 [] [])).
  { left. now splits. }
  destruct (run_view cfg ops _ _ fuel _ Hc Hops Hrun) as (v' & Hc' & Hmv).
  assert (Hal : view_aligned v').
  { apply (moves_aligned cfg _ _ Hps Hmv). unfold view_of, view_aligned.
    splits; [exact Ht|constructor|constructor]. }
  destruct Hc' as [(_ & Hl & _)|(R & A & _ & Hl & ->)]; cbn [fst snd] in *.
  - subst live. constructor.
  - subst live. unfold view_of, view_aligned in Hal.
    destruct Hal as (_ & _ & HA). unfold pointers.
    apply Forall_map. eapply Forall_impl; [|exact HA].
    intros x Hx. now apply aligned_padd.
Qed.

Lemma pointers_aligned_witness : Forall aligned [24560].
Proof.
  apply (pointers_aligned cfg_ex st_ex0 [OpMalloc 10] 10 st_ex1 [24560]).
  - exact Fresh_ex0.
  - reflexivity.
  - discriminate.
  - apply Forall_cons; [|apply Forall_nil].
    right. vm_compute. split; [reflexivity|discriminate].
  - vm_compute. reflexivity.
Defined.

(** ** morecore and the system *)

Lemma state_eq st st' :
  heap st' = heap st -> freep st' = freep st -> endHeap st' = endHeap st ->
  sys st' = sys st -> st' = st.
Proof. destruct st, st'. cbn. intros -> -> -> ->. reflexivity. Qed.

(** X2. [morecore] in the [sbrk] build asks for [nu] units, [NALLOC] at
    least.  When the break can move that far it moves by exactly that many
    bytes, the new range is released into the free list as one block that
    starts at the old break, and the cursor, not [NULL], is returned; when
    it cannot, [NULL] is returned and nothing at all has changed. *)
Theorem morecore_moves_break cfg st R A nu fuel :
  MMAP cfg = false -> Inv cfg st R A -> 0 <= nu < UINT_MOD ->
  (2 * (length R + 1) <= fuel)%nat ->
  let n := Z.max nu NALLOC in
  exists r st', morecore cfg fuel st nu = Some (r, st')
    /\ (brk (sys st) + sizeof_Header * n <= ceiling (sys st) ->
        r = freep st' /\ r <> NULL
        /\ brk (sys st') = brk (sys st) + sizeof_Header * n
        /\ Inv cfg st'
             (tl (fl_insert (brk (sys st), n) ((base cfg, 0) :: R))) A
        /\ payload_same A (heap st) (heap st'))
    /\ (ceiling (sys st) < brk (sys st) + sizeof_Header * n ->
        r = NULL /\ st' = st).
Proof.
  intros EM HI Hnu Hfuel n.
  assert (Hg : grow_ok cfg nu) by (split; [exact Hnu|congruence]).
  destruct (morecore_shape cfg st R A nu fuel HI Hg Hfuel)
    as (r & st' & Hmc & Hceil & _ & Hend & Hcase).
  cbv zeta in Hcase. destruct (grow_len_sbrk cfg nu EM) as [E1 E2].
  rewrite E2, E1 in Hcase. fold n in Hcase.
  assert (Ht : heap_top cfg st = brk (sys st))
    by (unfold heap_top; now rewrite EM).
  rewrite Ht in Hcase.
  exists r, st'. split; [exact Hmc|].
  destruct Hcase as [(C1 & Hr & Hnz & _ & Hb & HI' & Hpay & _)
                    |(C1 & Hr & Hh & Hf & Hs & _)].
  - split; [|lia]. intros _. splits; try assumption. now apply Hb.
  - split; [lia|]. intros _. split; [exact Hr|].
    apply state_eq; try assumption. now apply Hend.
Qed.

Lemma morecore_moves_break_witness :
  let n := Z.max 3 NALLOC in
  exists r st', morecore cfg_ex 10 st_ex1 3 = Some (r, st')
    /\ (brk (sys st_ex1) + sizeof_Header * n <= ceiling (sys st_ex1) ->
        r = freep st' /\ r <> NULL
        /\ brk (sys st') = brk (sys st_ex1) + sizeof_Header * n
        /\ Inv cfg_ex st'
             (tl (fl_insert (brk (sys st_ex1), n)
                    ((base cfg_ex, 0) :: [(8192, 1022)]))) [(24544, 2)]
        /\ payload_same [(24544, 2)] (heap st_ex1) (heap st'))
    /\ (ceiling (sys st_ex1) < brk (sys st_ex1) + sizeof_Header * n ->
        r = NULL /\ st' = st_ex1).
Proof.
  apply (morecore_moves_break cfg_ex st_ex1 [(8192, 1022)] [(24544, 2)] 3 10).
  - reflexivity.
  - exact Inv_ex1.
  - vm_compute. split; [discriminate|reflexivity].
  - simpl. lia.
Defined.

Lemma endHeap_fn_fst st :
  fst (endHeap_fn st)
  = if endHeap st =? 0 then fst (sbrk (sys st) 0) else endHeap st.
Proof.
  unfold endHeap_fn. destruct (endHeap st =? 0); [|reflexivity].
  destruct (sbrk (sys st) 0) as [e o]. reflexivity.
Qed.

(** X3. [morecore] in the [MMAP] build asks [mmap] for whole pages, the
    fewest that hold [nu] units ([NALLOC] at least), and passes the address
    that [endHeap()] answers as the hint.  [__endHeap] is moved past the
    pages before the result of [mmap] is looked at: it has advanced also
    when the pages are refused.  [NULL] is returned exactly when [mmap]
    fails, and memory and cursor are then as before; the program break is
    never moved, and the bytes of the blocks handed out are never
    touched. *)
Theorem morecore_maps_pages cfg st R A nu fuel :
  MMAP cfg = true -> Inv cfg st R A -> grow_ok cfg nu ->
  (2 * (length R + 1) <= fuel)%nat ->
  let n := Z.max nu NALLOC in
  let pages := (n * sizeof_Header - 1) / pagesize cfg + 1 in
  let len := pages * pagesize cfg in
  let hint := fst (endHeap_fn st) in
  exists r st', morecore cfg fuel st nu = Some (r, st')
    /\ n * sizeof_Header <= len < n * sizeof_Header + pagesize cfg
    /\ endHeap st' = hint + len /\ brk (sys st') = brk (sys st)
    /\ (r = NULL <-> mmap (sys st) hint len = FAILED)
    /\ (r = NULL ->
        heap st' = heap st /\ freep st' = freep st /\ Inv cfg st' R A)
    /\ (r <> NULL -> r = freep st' /\ payload_same A (heap st) (heap st')).
Proof.
  intros EM HI Hg Hfuel n pages len hint.
  destruct (morecore_shape cfg st R A nu fuel HI Hg Hfuel)
    as (r & st' & Hmc & Hceil & Hend & _ & Hcase).
  cbv zeta in Hcase, Hend.
  assert (El : grow_len cfg nu = len).
  { unfold grow_len. rewrite EM. reflexivity. }
  pose proof (inv_env _ _ _ _ HI) as Henv.
  pose proof (env_brk _ _ Henv) as Hbrk.
  pose proof (env_ceiling _ _ Henv) as Hcl.
  pose proof (env_base _ _ Henv) as Hbase.
  pose proof (heap_top_brk _ _ Henv) as Htop.
  assert (Eh : heap_top cfg st = hint).
  { subst hint. rewrite endHeap_fn_fst. unfold heap_top. rewrite EM.
    destruct (endHeap st =? 0); [|reflexivity].
    unfold sbrk. replace (brk (sys st) + 0 <=? ceiling (sys st)) with true
      by (symmetry; apply Z.leb_le; lia). reflexivity. }
  rewrite El, Eh in Hcase, Hend. rewrite Eh in Htop.
  destruct (Hend EM) as [He Hs].
  exists r, st'. split; [exact Hmc|].
  pose proof (env_page _ _ Henv EM) as Hps.
  assert (Hn : NALLOC <= n) by (subst n; lia).
  assert (Hlen : n * sizeof_Header <= len < n * sizeof_Header + pagesize cfg).
  { subst len pages.
    pose proof (Z.div_mod (n * sizeof_Header - 1) (pagesize cfg) ltac:(lia)) as Hdm.
    pose proof (Z.mod_pos_bound (n * sizeof_Header - 1) (pagesize cfg)
                  ltac:(lia)) as Hm.
    nia. }
  split; [exact Hlen|]. split; [exact He|].
  split; [now rewrite Hs|].
  unfold mmap.
  destruct Hcase as [(C1 & Hr & Hnz & _ & _ & HI' & Hpay & _)
                    |(C1 & Hr & Hh & Hf & _ & HI')].
  - replace ((0 <? len) && (hint + len <=? ceiling (sys st))) with true.
    2:{ symmetry. apply andb_true_iff. split;
          [apply Z.ltb_lt; unfold_consts; lia|now apply Z.leb_le]. }
    splits; try (intros; congruence); try (intros; tauto).
    split; [congruence|]. intros E. exfalso. revert E. zsolve.
  - replace ((0 <? len) && (hint + len <=? ceiling (sys st))) with false.
    2:{ symmetry. apply andb_false_iff. right. apply Z.leb_gt. lia. }
    splits; try (intros; congruence); try (intros; tauto).
Qed.

Lemma Inv_mm1 : Inv cfg_mm st_mm1 [(8192, 1022)] [(24544, 2)].
Proof.
  constructor.
  - constructor; try (intros _); try (right; by_eval); by_eval.
  - by_eval.
  - by_eval.
  - vm_compute. now left.
  - repeat constructor; by_eval.
  - constructor; [constructor; [|constructor]|constructor].
    right. by_eval.
  - repeat constructor.
Qed.

Lemma morecore_maps_pages_witness :
  let n := Z.max 2 NALLOC in
  let pages := (n * sizeof_Header - 1) / pagesize cfg_mm + 1 in
  let len := pages * pagesize cfg_mm in
  let hint := fst (endHeap_fn st_mm1) in
  exists r st', morecore cfg_mm 10 st_mm1 2 = Some (r, st')
    /\ n * sizeof_Header <= len < n * sizeof_Header + pagesize cfg_mm
    /\ endHeap st' = hint + len /\ brk (sys st') = brk (sys st_mm1)
    /\ (r = NULL <-> mmap (sys st_mm1) hint len = FAILED)
    /\ (r = NULL ->
        heap st' = heap st_mm1 /\ freep st' = freep st_mm1
        /\ Inv cfg_mm st' [(8192, 1022)] [(24544, 2)])
    /\ (r <> NULL ->
        r = freep st'
        /\ payload_same [(24544, 2)] (heap st_mm1) (heap st')).
Proof.
  apply (morecore_maps_pages cfg_mm st_mm1 [(8192, 1022)] [(24544, 2)] 2 10).
  - reflexivity.
  - exact Inv_mm1.
  - split; [vm_compute; split; [discriminate|reflexivity]|].
    intros _. vm_compute. discriminate.
  - simpl. lia.
Defined.

(** ** [endHeap()] and the allocator *)

Lemma sbrk_zero_sys o : snd (sbrk o 0) = o.
Proof.
  unfold sbrk. destruct (brk o + 0 <=? ceiling o); [|reflexivity].
  cbn [snd]. rewrite Z.add_0_r. destruct o; reflexivity.
Qed.

Lemma same_heap_refl st : same_heap st st.
Proof. unfold same_heap. tauto. Qed.

Lemma same_heap_heap st s m :
  same_heap st s -> same_heap (with_heap st m) (with_heap s m).
Proof.
  intros (Hh & Hf & Hs & He). unfold same_heap.
  rewrite !endHeap_fn_fst in *.
  cbn [heap freep sys endHeap with_heap]. rewrite Hs in *. tauto.
Qed.

Lemma same_heap_freep st s p :
  same_heap st s -> same_heap (with_freep st p) (with_freep s p).
Proof.
  intros (Hh & Hf & Hs & He). unfold same_heap.
  rewrite !endHeap_fn_fst in *.
  cbn [heap freep sys endHeap with_freep]. rewrite Hs in *. tauto.
Qed.

Lemma endHeap_fn_same st : same_heap st (snd (endHeap_fn st)).
Proof.
  unfold same_heap. rewrite !endHeap_fn_fst. unfold endHeap_fn.
  destruct (endHeap st =? 0) eqn:E0.
  - pose proof (sbrk_zero_sys (sys st)) as Ho.
    destruct (sbrk (sys st) 0) as [e o] eqn:Es. cbn [snd] in Ho. subst o.
    cbn [fst snd heap freep sys endHeap with_endHeap with_sys].
    rewrite Es. cbn [fst]. splits; try reflexivity.
    destruct (e =? 0); reflexivity.
  - cbn [snd]. rewrite E0. splits; reflexivity.
Qed.

Lemma morecore_same cfg fuel st s nu :
  MMAP cfg = true -> same_heap st s ->
  morecore cfg fuel s nu = morecore cfg fuel st nu.
Proof.
  intros EM (Hh & Hf & Hs & He). rewrite !endHeap_fn_fst in He.
  unfold morecore. rewrite EM.
  assert (E : (if endHeap s =? 0
               then with_endHeap s (fst (sbrk (sys s) 0)) else s)
              = (if endHeap st =? 0
                 then with_endHeap st (fst (sbrk (sys st) 0)) else st)).
  { apply state_eq;
      destruct (endHeap s =? 0), (endHeap st =? 0);
      cbn [heap freep sys endHeap with_endHeap]; assumption. }
  rewrite E. reflexivity.
Qed.

Lemma free_same fuel st s ap :
  same_heap st s -> same_freed (free fuel st ap) (free fuel s ap).
Proof.
  intros HS. pose proof HS as (Hh & Hf & _). unfold free.
  destruct (ap =? NULL); [exact HS|]. rewrite Hh, Hf.
  destruct (free_scan fuel (heap st) (padd ap (-1)) (freep st)); [|exact I].
  cbn [same_freed]. now apply same_heap_freep, same_heap_heap.
Qed.

Lemma malloc_first_loop_same cfg :
  MMAP cfg = true ->
  forall fuel st s nunits prevp p, same_heap st s ->
    same_result (malloc_first_loop cfg fuel st nunits prevp p)
                (malloc_first_loop cfg fuel s nunits prevp p).
Proof.
  intros EM. induction fuel as [|k IH]; intros st s nunits prevp p HS;
    [exact I|].
  pose proof HS as (Hh & Hf & _).
  cbn [malloc_first_loop]. cbv zeta. rewrite Hh, Hf.
  destruct (get_size (heap st) p >=? nunits).
  - destruct (get_size (heap st) p =? nunits).
    + split; [reflexivity|]. now apply same_heap_freep, same_heap_heap.
    + destruct (carve_tail (heap st) p nunits) as [m q].
      split; [reflexivity|]. now apply same_heap_freep, same_heap_heap.
  - destruct (p =? freep st).
    + rewrite (morecore_same cfg k st s nunits EM HS).
      destruct (morecore cfg k st nunits) as [[q st1]|]; [|exact I].
      destruct (q =? NULL).
      * split; [reflexivity|apply same_heap_refl].
      * apply IH, same_heap_refl.
    + now apply IH.
Qed.

Lemma malloc_best_loop_same cfg :
  MMAP cfg = true ->
  forall fuel st s nunits prevp p p_best prevp_best, same_heap st s ->
    same_result
      (malloc_best_loop cfg fuel st nunits prevp p p_best prevp_best)
      (malloc_best_loop cfg fuel s nunits prevp p p_best prevp_best).
Proof.
  intros EM. induction fuel as [|k IH];
    intros st s nunits prevp p p_best prevp_best HS; [exact I|].
  pose proof HS as (Hh & Hf & _).
  cbn [malloc_best_loop]. cbv zeta. rewrite Hh, Hf.
  destruct (get_size (heap st) p =? nunits).
  - split; [reflexivity|]. now apply same_heap_freep, same_heap_heap.
  - destruct (if ((p_best =? NULL)
                  || (get_size (heap st) p <? get_size (heap st) p_best))
                 && (get_size (heap st) p >? nunits)
              then (p, prevp) else (p_best, prevp_best)) as [pb ppb].
    destruct (p =? freep st).
    + destruct (negb (pb =? NULL)).
      * destruct (carve_tail (heap st) pb nunits) as [m q].
        split; [reflexivity|]. now apply same_heap_freep, same_heap_heap.
      * rewrite (morecore_same cfg k st s nunits EM HS).
        destruct (morecore cfg k st nunits) as [[q st1]|]; [|exact I].
        destruct (q =? NULL).
        -- split; [reflexivity|apply same_heap_refl].
        -- apply IH, same_heap_refl.
    + now apply IH.
Qed.

Lemma malloc_init_same cfg st s :
  same_heap st s -> same_heap (malloc_init cfg st) (malloc_init cfg s).
Proof.
  intros HS. pose proof HS as (Hh & Hf & _). unfold malloc_init.
  rewrite Hf. destruct (freep st =? NULL); [|exact HS].
  cbv zeta. cbn [heap with_heap with_freep]. rewrite Hh.
  now apply same_heap_heap, same_heap_freep, same_heap_heap.
Qed.

Lemma malloc_same cfg fuel st s n :
  MMAP cfg = true -> same_heap st s ->
  same_result (malloc cfg fuel st n) (malloc cfg fuel s n).
Proof.
  intros EM HS. pose proof HS as (Hh & Hf & _).
  pose proof (malloc_init_same cfg st s HS) as HS0.
  pose proof HS0 as (Hh0 & _).
  unfold malloc. destruct (n =? 0); [split; [reflexivity|exact HS]|].
  cbv zeta. rewrite Hf, Hh0. destruct (STRATEGY cfg).
  - now apply malloc_first_loop_same.
  - now apply malloc_best_loop_same.
Qed.

Lemma realloc_same cfg fuel st s ptr n :
  MMAP cfg = true -> same_heap st s ->
  same_result (realloc cfg fuel st ptr n) (realloc cfg fuel s ptr n).
Proof.
  intros EM HS. unfold realloc.
  destruct (ptr =? NULL); [now apply malloc_same|].
  destruct (n =? 0).
  - pose proof (free_same fuel st s ptr HS) as Hf.
    destruct (free fuel st ptr), (free fuel s ptr); cbn in Hf |- *;
      try contradiction; try exact I. now split.
  - pose proof (malloc_same cfg fuel st s n EM HS) as Hm.
    destruct (malloc cfg fuel st n) as [[r st1]|],
             (malloc cfg fuel s n) as [[r' s1]|];
      cbn [same_result] in Hm; try contradiction; [|exact I].
    destruct Hm as [-> HS1]. pose proof HS1 as (Hh1 & _).
    destruct (r =? NULL); [now split|]. cbv zeta. rewrite Hh1.
    match goal with
    | |- same_result (match free _ (with_heap _ ?m) _ with _ => _ end) _ =>
      pose proof (free_same fuel (with_heap st1 m) (with_heap s1 m) ptr
                    (same_heap_heap st1 s1 m HS1)) as Hf
    end.
    destruct (free fuel (with_heap st1 _) ptr),
             (free fuel (with_heap s1 _) ptr); cbn in Hf |- *;
      try contradiction; try exact I. now split.
Qed.

(** X1. A call of [endHeap()] in the [MMAP] build is invisible to the
    allocator.  [endHeap()] and [morecore] set [__endHeap] from the break
    in the same way when it is still 0, so after [endHeap()] each of
    [malloc], [realloc] and [free] returns exactly when it would have
    returned without it, with the same pointer, the same memory, cursor and
    system state, and the same answer of a later [endHeap()]. *)
Theorem endHeap_transparent cfg fuel st :
  MMAP cfg = true ->
  let s := snd (endHeap_fn st) in
  (forall n, same_result (malloc cfg fuel st n) (malloc cfg fuel s n))
  /\ (forall ptr n,
        same_result (realloc cfg fuel st ptr n) (realloc cfg fuel s ptr n))
  /\ (forall ap, same_freed (free fuel st ap) (free fuel s ap)).
Proof.
  intros EM s. pose proof (endHeap_fn_same st) as HS. fold s in HS.
  split; [|split].
  - intros n. now apply malloc_same.
  - intros ptr n. now apply realloc_same.
  - intros ap. now apply free_same.
Qed.

Lemma endHeap_transparent_witness :
  let s := snd (endHeap_fn st_mm0) in
  (forall n, same_result (malloc cfg_mm 10 st_mm0 n) (malloc cfg_mm 10 s n))
  /\ (forall ptr n,
        same_result (realloc cfg_mm 10 st_mm0 ptr n)
                    (realloc cfg_mm 10 s ptr n))
  /\ (forall ap, same_freed (free 10 st_mm0 ap) (free 10 s ap)).
Proof.
  apply (endHeap_transparent cfg_mm 10 st_mm0). reflexivity.
Defined.

(** ** Handing out and taking back *)

Lemma blocks_in_drop P : forall lo hi b S,
  blocks_in lo hi (P ++ b :: S) -> blocks_in lo hi (P ++ S).
Proof.
  intros lo hi b S H. apply blocks_in_app in H. destruct H as [HP HS].
  apply blocks_in_app. split; [exact HP|].
  cbn [blocks_in] in HS. destruct HS as (B1 & B2 & B3 & B4).
  eapply blocks_in_weaken; [| |exact B4]; zsolve.
Qed.

Lemma blocks_in_shorten P : forall lo hi q s n S,
  blocks_in lo hi (P ++ (q, s) :: S) -> 0 <= n <= s ->
  blocks_in lo hi (P ++ (q, s - n) :: S).
Proof.
  intros lo hi q s n S H Hn. apply blocks_in_app in H. destruct H as [HP HS].
  apply blocks_in_app. split; [exact HP|].
  cbn [blocks_in] in *. destruct HS as (B1 & B2 & B3 & B4).
  splits; try zsolve.
  eapply blocks_in_weaken; [| |exact B4]; zsolve.
Qed.

Lemma fl_insert_unlinked F p q n S lo hi :
  blocks_in lo hi ((F ++ [p]) ++ (q, n) :: S) -> 1 <= n ->
  fl_insert (q, n) ((F ++ [p]) ++ S) = (F ++ [p]) ++ (q, n) :: S.
Proof.
  intros HB Hn.
  destruct (blocks_in_gaps _ _ _ _ _ HB) as [HP HS].
  assert (Hp : gap_after p <= q).
  { apply (HP p). apply in_or_app. right. now left. }
  pose proof (blocks_in_drop _ _ _ _ _ HB) as HB'.
  rewrite <- !app_assoc in *. cbn [app] in *.
  destruct (fl_insert_split q n F lo hi p S 0 HB') as [E _].
  - zsolve.
  - intros x Hx. destruct (HS x Hx) as [G _]. zsolve.
  - rewrite E. f_equal.
    assert (Eu : fl_join_upper (q, n) S = (q, n) :: S).
    { unfold fl_join_upper. destruct S as [|x S']; [reflexivity|].
      destruct (HS x (or_introl eq_refl)) as [G _]. cbn [fst snd].
      replace (padd q n =? fst x) with false
        by (symmetry; apply Z.eqb_neq; zsolve).
      reflexivity. }
    rewrite Eu. unfold fl_join_lower. cbn [fst].
    replace (padd (fst p) (snd p) =? q) with false
      by (symmetry; apply Z.eqb_neq; zsolve).
    reflexivity.
Qed.

Lemma fl_insert_carved F q s n S lo hi :
  blocks_in lo hi (F ++ (q, s) :: S) -> 1 <= n < s ->
  fl_insert (padd q (s - n), n) (F ++ (q, s - n) :: S) = F ++ (q, s) :: S.
Proof.
  intros HB Hn.
  destruct (blocks_in_gaps _ _ _ _ _ HB) as [HP HS].
  pose proof (blocks_in_shorten _ _ _ _ _ n _ HB ltac:(lia)) as HB'.
  destruct (fl_insert_split (padd q (s - n)) n F lo hi (q, s - n) S 0 HB') as [E _].
  - zsolve.
  - intros x Hx. destruct (HS x Hx) as [G _]. zsolve.
  - rewrite E. f_equal.
    assert (Eu : fl_join_upper (padd q (s - n), n) S = (padd q (s - n), n) :: S).
    { unfold fl_join_upper. destruct S as [|x S']; [reflexivity|].
      destruct (HS x (or_introl eq_refl)) as [G _]. cbn [fst snd].
      replace (padd (padd q (s - n)) n =? fst x) with false
        by (symmetry; apply Z.eqb_neq; zsolve).
      reflexivity. }
    rewrite Eu. unfold fl_join_lower. cbn [fst snd].
    rewrite Z.eqb_refl. f_equal. f_equal. lia.
Qed.

Lemma served_free cfg st1 R1 A nunits r st' fuel :
  Inv cfg st1 R1 A -> served cfg st1 R1 A nunits r st' -> 1 <= nunits ->
  (2 * (length R1 + 1) <= fuel)%nat ->
  exists st2, free fuel st' r = Some st2
    /\ Inv cfg st2 R1 A
    /\ sys st2 = sys st1 /\ endHeap st2 = endHeap st1
    /\ payload_same A (heap st1) (heap st2).
Proof.
  intros HI (q & Hq & Hs & Hr & HI' & Hsys & Hend & Hpay & _) Hn Hfuel.
  pose proof (Inv_has_block _ _ _ _ _ HI Hq) as Hin.
  apply in_split in Hin. destruct Hin as (P & S & ER).
  pose proof (inv_free _ _ _ _ HI) as HB. rewrite ER in HB.
  change ((base cfg, 0) :: P ++ (q, get_size (heap st1) q) :: S)
    with (((base cfg, 0) :: P) ++ (q, get_size (heap st1) q) :: S) in HB.
  assert (HP : forall x, In x P -> fst x <> q).
  { intros x Hx. destruct (blocks_in_split _ _ _ _ _ HB) as [H _].
    specialize (H x (or_intror Hx)). zsolve. }
  set (a := take_addr (heap st1) nunits q) in *.
  set (L := take_list (heap st1) nunits q R1) in *.
  assert (Hback : fl_insert (a, nunits) ((base cfg, 0) :: L)
                  = (base cfg, 0) :: R1).
  { subst a L. unfold take_addr, take_list.
    destruct (get_size (heap st1) q =? nunits) eqn:E.
    - apply Z.eqb_eq in E. rewrite E in *. rewrite ER.
      rewrite (fl_remove_split q nunits P S HP).
      destruct (exists_last (l := (base cfg, 0) :: P) ltac:(discriminate))
        as (F & p & EF).
      change ((base cfg, 0) :: P ++ S) with (((base cfg, 0) :: P) ++ S).
      change ((base cfg, 0) :: P ++ (q, nunits) :: S)
        with (((base cfg, 0) :: P) ++ (q, nunits) :: S).
      rewrite EF in *.
      now apply (fl_insert_unlinked F p q nunits S (base cfg) (heap_hi cfg st1)).
    - apply Z.eqb_neq in E. rewrite ER.
      rewrite (fl_shrink_split q _ nunits P S HP).
      change ((base cfg, 0) :: P ++ (q, get_size (heap st1) q - nunits) :: S)
        with (((base cfg, 0) :: P) ++ (q, get_size (heap st1) q - nunits) :: S).
      rewrite (fl_insert_carved _ q _ nunits S (base cfg) (heap_hi cfg st1) HB)
        by lia.
      reflexivity. }
  assert (HlenL : (length L <= length R1)%nat).
  { subst L. unfold take_list. destruct (get_size (heap st1) q =? nunits).
    - apply fl_remove_length.
    - rewrite fl_shrink_length. lia. }
  destruct (free_Inv cfg st' L [] A a nunits fuel HI' ltac:(lia))
    as [Hfree HI2].
  cbv zeta in Hfree, HI2. rewrite Hback in HI2. cbn [tl app] in HI2.
  rewrite Hr. eexists. split; [exact Hfree|].
  split; [exact HI2|].
  cbn [sys endHeap heap with_freep with_heap].
  split; [exact Hsys|]. split; [exact Hend|].
  apply (payload_same_trans _ _ _ _ Hpay).
  apply (free_payload cfg st' L [] A a nunits _ HI').
  apply fl_pred_In. discriminate.
Qed.

(** X9. Handing out and taking back.  When [malloc(n)] returns a block and
    that block is released at once, the free list is again the one the
    request was served from: the list before the call when a block of it was
    big enough, and otherwise that list with the range obtained from the
    system released into it.  The blocks handed out and their bytes are
    those before the call. *)
Theorem malloc_free_round_trip cfg st R A n fuel r st1 :
  Inv cfg st R A -> request_ok cfg n -> (3 * length R + 5 <= fuel)%nat ->
  malloc cfg fuel st n = Some (r, st1) -> r <> NULL ->
  exists st2, free fuel st1 r = Some st2
    /\ payload_same A (heap st) (heap st2)
    /\ ((exists y, In y R /\ nunits_of n <= snd y) ->
        Inv cfg st2 R A /\ sys st2 = sys st /\ endHeap st2 = endHeap st)
    /\ ((forall y, In y R -> snd y < nunits_of n) ->
        Inv cfg st2
          (tl (fl_insert (heap_top cfg st,
                          grow_len cfg (nunits_of n) / sizeof_Header)
                 ((base cfg, 0) :: R))) A).
Proof.
  intros HI Hreq Hfuel Hm Hr.
  destruct (nunits_of_ok cfg n (env_page _ _ (inv_env _ _ _ _ HI)) Hreq)
    as (_ & Hnu & _ & Hg).
  destruct (malloc_shape cfg st R A n fuel HI Hreq Hfuel)
    as (r0 & st0 & Hm0 & Hdoes).
  rewrite Hm in Hm0. inversion Hm0; subst r0 st0.
  unfold malloc_does in Hdoes. cbv zeta in Hdoes.
  destruct Hdoes as [(Hex & Hsv)|(Hsmall & [(_ & Hr0 & _)
                                            |(C1 & st' & Ht1 & _ & HI1 & Hpay1 & Hfr1 & Hsv)])].
  - destruct (served_free cfg st R A (nunits_of n) r st1 fuel HI Hsv
                ltac:(lia) ltac:(lia)) as (st2 & Hf & HI2 & Hs2 & He2 & Hp2).
    exists st2. split; [exact Hf|]. split; [exact Hp2|]. split.
    + intros _. now splits.
    + intros Hsm. destruct Hex as (y & Hy & Hys). specialize (Hsm y Hy). lia.
  - congruence.
  - set (R1 := tl (fl_insert
                (heap_top cfg st, grow_len cfg (nunits_of n) / sizeof_Header)
                ((base cfg, 0) :: R))) in *.
    assert (HlenR1 : (length R1 <= length R + 1)%nat).
    { pose proof (fl_insert_length
                    (heap_top cfg st, grow_len cfg (nunits_of n) / sizeof_Header)
                    ((base cfg, 0) :: R)) as HL.
      subst R1.
      destruct (fl_insert _ ((base cfg, 0) :: R)); cbn [length tl] in *; lia. }
    destruct (served_free cfg st' R1 A (nunits_of n) r st1 fuel HI1 Hsv
                ltac:(lia) ltac:(lia)) as (st2 & Hf & HI2 & Hs2 & He2 & Hp2).
    exists st2. split; [exact Hf|].
    split; [exact (payload_same_trans _ _ _ _ Hpay1 Hp2)|]. split.
    + intros (y & Hy & Hys). specialize (Hsmall y Hy). lia.
    + intros _. exact HI2.
Qed.

Lemma malloc_free_round_trip_witness :
  exists st2, free 10 st_ex3 r_ex3 = Some st2
    /\ payload_same [(24544, 2)] (heap st_ex1) (heap st2)
    /\ ((exists y, In y [(8192, 1022)] /\ nunits_of 100 <= snd y) ->
        Inv cfg_ex st2 [(8192, 1022)] [(24544, 2)]
        /\ sys st2 = sys st_ex1 /\ endHeap st2 = endHeap st_ex1)
    /\ ((forall y, In y [(8192, 1022)] -> snd y < nunits_of 100) ->
        Inv cfg_ex st2
          (tl (fl_insert (heap_top cfg_ex st_ex1,
                          grow_len cfg_ex (nunits_of 100) / sizeof_Header)
                 ((base cfg_ex, 0) :: [(8192, 1022)]))) [(24544, 2)]).
Proof.
  apply (malloc_free_round_trip cfg_ex st_ex1 [(8192, 1022)] [(24544, 2)] 100
           10 r_ex3 st_ex3).
  - exact Inv_ex1.
  - apply request_ok_ex. reflexivity.
  - simpl. lia.
  - apply option_pair_eta.
    apply (malloc_returns cfg_ex st_ex1 [(8192, 1022)] [(24544, 2)]);
      [exact Inv_ex1|apply request_ok_ex; reflexivity|simpl; lia].
  - vm_compute. discriminate.
Defined.

(** X4. [malloc] and the system.  A request that some free block can hold
    is served without a call to the system: break and [__endHeap] stay.
    Otherwise the system is asked once, for [grow_len] bytes at the top of
    the heap; the call returns a block exactly when those bytes fit under
    the limit of the system, and the top of the heap has then moved by that
    many bytes. *)
Theorem malloc_asks_system_once cfg st R A n fuel r st' :
  Inv cfg st R A -> request_ok cfg n -> (3 * length R + 5 <= fuel)%nat ->
  malloc cfg fuel st n = Some (r, st') ->
  let nunits := nunits_of n in
  ((exists y, In y R /\ nunits <= snd y) ->
     r <> NULL /\ sys st' = sys st /\ endHeap st' = endHeap st)
  /\ ((forall y, In y R -> snd y < nunits) ->
      (r <> NULL <->
         heap_top cfg st + grow_len cfg nunits <= ceiling (sys st))
      /\ (r <> NULL ->
            heap_top cfg st' = heap_top cfg st + grow_len cfg nunits)
      /\ (r = NULL -> sys st' = sys st)).
Proof.
  intros HI Hreq Hfuel Hm nunits.
  destruct (nunits_of_ok cfg n (env_page _ _ (inv_env _ _ _ _ HI)) Hreq)
    as (_ & Hnu & _ & Hg).
  destruct (malloc_shape cfg st R A n fuel HI Hreq Hfuel)
    as (r0 & st0 & Hm0 & Hdoes).
  rewrite Hm in Hm0. inversion Hm0; subst r0 st0.
  unfold malloc_does in Hdoes. cbv zeta in Hdoes. fold nunits in Hdoes.
  destruct Hdoes as [(Hex & Hsv)|(Hsmall & Hcase)].
  - split.
    + intros _.
      destruct (served_move cfg st R A nunits r st' HI ltac:(lia) Hsv)
        as (Hnz & _).
      destruct Hsv as (q & _ & _ & _ & _ & Hs & He & _). now splits.
    + intros Hsm. destruct Hex as (y & Hy & Hys). specialize (Hsm y Hy). lia.
  - split.
    { intros (y & Hy & Hys). specialize (Hsmall y Hy). lia. }
    intros _.
    destruct Hcase as [(C1 & -> & _ & _ & Hs & _)
                      |(C1 & st1 & Ht1 & _ & HI1 & _ & Hfr1 & Hsv)].
    + splits; [split; [congruence|lia]|congruence|intros _; exact Hs].
    + destruct (served_move cfg st1 _ A nunits r st' HI1 ltac:(lia) Hsv)
        as (Hnz & _).
      destruct Hsv as (q & _ & _ & _ & _ & Hs & He & _).
      splits; [tauto| |congruence].
      intros _. rewrite (heap_top_eq cfg st1 st' Hs He). exact Ht1.
Qed.

Lemma malloc_asks_system_once_witness :
  let nunits := nunits_of 100 in
  ((exists y, In y [(8192, 1022)] /\ nunits <= snd y) ->
     r_ex3 <> NULL /\ sys st_ex3 = sys st_ex1
     /\ endHeap st_ex3 = endHeap st_ex1)
  /\ ((forall y, In y [(8192, 1022)] -> snd y < nunits) ->
      (r_ex3 <> NULL <->
         heap_top cfg_ex st_ex1 + grow_len cfg_ex nunits
         <= ceiling (sys st_ex1))
      /\ (r_ex3 <> NULL ->
            heap_top cfg_ex st_ex3
            = heap_top cfg_ex st_ex1 + grow_len cfg_ex nunits)
      /\ (r_ex3 = NULL -> sys st_ex3 = sys st_ex1)).
Proof.
  apply (malloc_asks_system_once cfg_ex st_ex1 [(8192, 1022)] [(24544, 2)]
           100 10 r_ex3 st_ex3).
  - exact Inv_ex1.
  - apply request_ok_ex. reflexivity.
  - simpl. lia.
  - apply option_pair_eta.
    apply (malloc_returns cfg_ex st_ex1 [(8192, 1022)] [(24544, 2)]);
      [exact Inv_ex1|apply request_ok_ex; reflexivity|simpl; lia].
Defined.

(** X10. Reuse.  After a block of [bs] units is released, a request that
    needs no more than [bs] units is served from the free list: [malloc]
    returns a block and the system is not called. *)
Theorem free_then_malloc_reuses cfg st R A1 A2 bp bs n fuel st1 :
  Inv cfg st R (A1 ++ (bp, bs) :: A2) -> request_ok cfg n ->
  nunits_of n <= bs -> (3 * length R + 8 <= fuel)%nat ->
  free fuel st (padd bp 1) = Some st1 ->
  exists r st2, malloc cfg fuel st1 n = Some (r, st2)
    /\ r <> NULL /\ sys st2 = sys st /\ endHeap st2 = endHeap st.
Proof.
  intros HI Hreq Hfit Hfuel Hfree.
  destruct (free_Inv cfg st R A1 A2 bp bs fuel HI ltac:(lia)) as [Hf0 HI1].
  cbv zeta in Hf0, HI1.
  assert (HI1' : Inv cfg st1 (tl (fl_insert (bp, bs) ((base cfg, 0) :: R)))
                   (A1 ++ A2)).
  { rewrite Hfree in Hf0. injection Hf0 as ->. exact HI1. }
  clear HI1 Hf0. rename HI1' into HI1.
  set (R1 := tl (fl_insert (bp, bs) ((base cfg, 0) :: R))) in *.
  assert (HlenR1 : (length R1 <= length R + 1)%nat).
  { pose proof (fl_insert_length (bp, bs) ((base cfg, 0) :: R)) as HL.
    subst R1.
    destruct (fl_insert _ ((base cfg, 0) :: R)); cbn [length tl] in *; lia. }
  destruct (Inv_live _ _ _ _ HI) as (_ & _ & _ & _ & L5).
  destruct (L5 (bp, bs) (in_elt _ _ _)) as (K1 & K2 & _). cbn [fst snd] in K1, K2.
  destruct (nunits_of_ok cfg n (env_page _ _ (inv_env _ _ _ _ HI)) Hreq)
    as (_ & Hnu & _ & _).
  assert (Hbig : exists y, In y R1 /\ nunits_of n <= snd y).
  { destruct (fl_insert_has (bp, bs) _ _ _ (inv_free _ _ _ _ HI))
      as (y & Hy & Hys). cbn [snd] in Hys.
    rewrite fl_insert_head in Hy by zsolve. fold R1 in Hy.
    destruct Hy as [<-|Hy]; [cbn [snd] in Hys; lia|].
    exists y. split; [exact Hy|lia]. }
  destruct (malloc_shape cfg st1 R1 (A1 ++ A2) n fuel HI1 Hreq ltac:(lia))
    as (r & st2 & Hm & Hdoes).
  exists r, st2. split; [exact Hm|].
  unfold malloc_does in Hdoes. cbv zeta in Hdoes.
  destruct Hdoes as [(_ & Hsv)|(Hsmall & _)].
  - destruct (served_move cfg st1 R1 _ (nunits_of n) r st2 HI1 ltac:(lia) Hsv)
      as (Hnz & _).
    destruct Hsv as (q & _ & _ & _ & _ & Hs & He & _).
    destruct (free_fields _ _ _ _ Hfree) as [Fs Fe].
    splits; [exact Hnz|congruence|congruence].
  - destruct Hbig as (y & Hy & Hys). specialize (Hsmall y Hy). lia.
Qed.

Lemma free_then_malloc_reuses_witness :
  exists r st2, malloc cfg_ex 20 st_ex2 10 = Some (r, st2)
    /\ r <> NULL /\ sys st2 = sys st_ex1 /\ endHeap st2 = endHeap st_ex1.
Proof.
  apply (free_then_malloc_reuses cfg_ex st_ex1 [(8192, 1022)] [] [] 24544 2
           10 20 st_ex2).
  - exact Inv_ex1.
  - apply request_ok_ex. reflexivity.
  - vm_compute. discriminate.
  - simpl. lia.
  - vm_compute. reflexivity.
Defined.

Lemma first_call_shape cfg st n fuel :
  Fresh cfg st -> request_ok cfg n -> (5 <= fuel)%nat ->
  let nunits := nunits_of n in
  let up := heap_top cfg st in
  let len := grow_len cfg nunits in
  let k := len / sizeof_Header in
  up + len <= ceiling (sys st) ->
  exists st',
    malloc cfg fuel st n = Some (padd up (k - nunits + 1), st')
    /\ nunits <= k
    /\ heap_top cfg st' = up + len
    /\ Inv cfg st' (if k =? nunits then [] else [(up, k - nunits)])
         [(padd up (k - nunits), nunits)].
Proof.
  intros HF Hreq Hfuel nunits up len k Hroom.
  destruct (malloc_init_Fresh cfg st HF) as [HI0 Hf0].
  assert (Hn0 : n <> 0) by (destruct Hreq; lia).
  rewrite (malloc_Fresh cfg st n fuel HF Hn0).
  destruct (nunits_of_ok cfg n (env_page _ _ (inv_env _ _ _ _ HI0)) Hreq)
    as (_ & Hnu & _ & Hg). fold nunits in Hnu, Hg.
  destruct (grow_len_bounds cfg nunits
              (fun H => proj1 (env_page _ _ (inv_env _ _ _ _ HI0) H)) Hg)
    as (_ & (G3 & G4) & _). fold len in G3, G4. fold k in G3, G4.
  destruct (malloc_shape cfg (malloc_init cfg st) [] [] n fuel HI0 Hreq
              ltac:(cbn [length]; lia)) as (r & st' & Hm & Hdoes).
  unfold malloc_does in Hdoes. cbv zeta in Hdoes.
  rewrite malloc_init_top in Hdoes. fold nunits up len k in Hdoes.
  assert (Hsys0 : sys (malloc_init cfg st) = sys st).
  { unfold malloc_init. destruct (freep st =? NULL); reflexivity. }
  rewrite Hsys0 in Hdoes.
  destruct Hdoes as [((y & [] & _) & _)
                    |(_ & [(C1 & _)|(_ & st1 & Ht1 & _ & HI1 & _ & Hfr1 & Hsv)])];
    [lia|].
  pose proof (Inv_bounds _ _ _ _ HI0) as (Hb0 & Hb1 & _).
  pose proof (heap_top_brk _ _ (proj1 HF)) as Htop.
  pose proof (env_brk _ _ (proj1 HF)) as Hbrk. fold up in Htop.
  assert (ER1 : tl (fl_insert (up, k) [(base cfg, 0)]) = [(up, k)]).
  { cbn [fl_insert hd_addr fst].
    replace (up + 1 <? up) with false by (symmetry; apply Z.ltb_ge; lia).
    unfold fl_join_upper, fl_join_lower. cbn [fst snd].
    replace (padd (base cfg) 0 =? up) with false
      by (symmetry; apply Z.eqb_neq; zsolve).
    reflexivity. }
  rewrite ER1 in HI1, Hsv.
  destruct Hsv as (q & Hq & Hs & Hr & HI' & Hsys & Hend & _).
  cbn [map fst In] in Hq. destruct Hq as [<-|[]].
  pose proof (Inv_block_size _ _ _ _ (up, k) HI1 (or_intror (or_introl eq_refl)))
    as Hk. cbn [fst snd] in Hk.
  unfold take_addr, take_list in Hr, HI'. rewrite Hk in Hr, HI'.
  exists st'. splits.
  - rewrite Hm, Hr. f_equal. f_equal.
    destruct (k =? nunits) eqn:E; [apply Z.eqb_eq in E|]; zsolve.
  - lia.
  - rewrite (heap_top_eq cfg st1 st' Hsys Hend). exact Ht1.
  - destruct (k =? nunits) eqn:E.
    + apply Z.eqb_eq in E. cbn [fl_remove fst] in HI'.
      rewrite Z.eqb_refl in HI'.
      replace (padd up (k - nunits)) with up by zsolve. exact HI'.
    + cbn [fl_shrink fst snd] in HI'. rewrite Z.eqb_refl in HI'. exact HI'.
Qed.

(** X5. The first call, in the [sbrk] build.  On an allocator not yet set
    up, with room under the limit of the system, [malloc(n)] sets up the
    empty list, moves the break by [k = max(nunits, NALLOC)] units and hands
    out the top end of that range: the block returned ends at the new
    break, and what is left below it from the old break on, if anything, is
    the one free block. *)
Theorem malloc_first_call cfg st n fuel :
  MMAP cfg = false ->
  Fresh cfg st -> request_ok cfg n -> (5 <= fuel)%nat ->
  let nunits := nunits_of n in
  let up := brk (sys st) in
  let k := Z.max nunits NALLOC in
  up + sizeof_Header * k <= ceiling (sys st) ->
  exists st',
    malloc cfg fuel st n = Some (padd up (k - nunits + 1), st')
    /\ brk (sys st') = padd up k
    /\ padd (padd up (k - nunits)) nunits = brk (sys st')
    /\ Inv cfg st' (if k =? nunits then [] else [(up, k - nunits)])
         [(padd up (k - nunits), nunits)].
Proof.
  intros EM HF Hreq Hfuel nunits up k Hroom.
  destruct (grow_len_sbrk cfg nunits EM) as [E1 E2]. fold k in E1, E2.
  assert (Ht : forall s, heap_top cfg s = brk (sys s)).
  { intros s. unfold heap_top. now rewrite EM. }
  pose proof (first_call_shape cfg st n fuel HF Hreq Hfuel) as H.
  cbv zeta in H. fold nunits in H. rewrite E2, E1, !Ht in H. fold up in H.
  destruct (H Hroom) as (st' & Hm & Hk & Hb & HI).
  rewrite Ht in Hb.
  exists st'. splits; try assumption; rewrite Hb; zsolve.
Qed.

Lemma malloc_first_call_witness :
  let nunits := nunits_of 10 in
  let up := brk (sys st_ex0) in
  let k := Z.max nunits NALLOC in
  exists st',
    malloc cfg_ex 10 st_ex0 10 = Some (padd up (k - nunits + 1), st')
    /\ brk (sys st') = padd up k
    /\ padd (padd up (k - nunits)) nunits = brk (sys st')
    /\ Inv cfg_ex st' (if k =? nunits then [] else [(up, k - nunits)])
         [(padd up (k - nunits), nunits)].
Proof.
  apply (malloc_first_call cfg_ex st_ex0 10 10).
  - reflexivity.
  - exact Fresh_ex0.
  - apply request_ok_ex. reflexivity.
  - lia.
  - vm_compute. discriminate.
Defined.

(** ** Everything released *)

(** Blocks in address order, none contiguous to the next, leave a byte
    unused between any two of them. *)
Lemma blocks_in_tile l : forall lo hi,
  blocks_in lo hi l -> l <> [] ->
  sizeof_Header * units l + Z.of_nat (length l) - 1 <= hi - lo.
Proof.
  induction l as [|b l IH]; intros lo hi HB Hne; [congruence|].
  cbn [blocks_in] in HB. destruct HB as (B1 & B2 & B3 & B4).
  cbn [units length]. destruct l as [|b' l'].
  - cbn [units length]. zsolve.
  - specialize (IH _ _ B4 ltac:(discriminate)).
    cbn [units length] in *. zsolve.
Qed.

(** X14. When a client of the [sbrk] build has released every block it was
    given, the free list is one block that spans all the memory obtained
    from the system (and is empty when none was obtained): releasing
    coalesces completely. *)
Theorem all_released_one_block cfg st0 ops fuel st' :
  MMAP cfg = false -> Fresh cfg st0 -> Forall (op_ok cfg) ops ->
  run cfg fuel ops (st0, []) = Some (st', []) ->
  let lo := brk (sys st0) in
  let hi := brk (sys st') in
  exists R,
    client_view cfg (st', []) (view_of cfg st' R [])
    /\ ((hi = lo /\ R = [])
        \/ (lo < hi /\ R = [(lo, (hi - lo) / sizeof_Header)])).
Proof.
  intros EM HF Hops Hrun lo hi.
  assert (Hc : client_view cfg (st0, []) (view_of cfg st0 [] [])).
  { left. now splits. }
  destruct (run_view cfg ops _ _ fuel _ Hc Hops Hrun) as (v' & Hc' & Hmv).
  pose proof (moves_balance cfg _ _ EM Hmv) as Hbal.
  assert (Hab : view_above lo v').
  { apply (moves_above cfg lo _ _ (client_view_page _ _ _ Hc) Hmv).
    unfold view_of, view_above, heap_top. rewrite EM.
    splits; [subst lo; lia|constructor|constructor]. }
  assert (Ht0 : heap_top cfg st0 = lo) by (unfold heap_top; now rewrite EM).
  assert (Ht1 : heap_top cfg st' = hi) by (unfold heap_top; now rewrite EM).
  pose proof Hc' as Hc''.
  destruct Hc' as [(_ & _ & ->)|(R & A & HI & Hl & ->)]; cbn [fst snd] in *.
  - exists []. split; [exact Hc''|]. left. split; [|reflexivity].
    unfold balance, view_of in Hbal. cbn [units] in Hbal. lia.
  - assert (A = []) by (destruct A; [reflexivity|discriminate]). subst A.
    exists R. split; [exact Hc''|].
    unfold balance, view_of in Hbal. rewrite Ht0, Ht1 in Hbal.
    cbn [units] in Hbal.
    unfold view_of, view_above in Hab. destruct Hab as (_ & HR & _).
    pose proof (inv_free _ _ _ _ HI) as HB. cbn [blocks_in] in HB.
    destruct HB as (_ & _ & _ & HB).
    assert (Hhi : heap_hi cfg st' <= hi).
    { unfold heap_hi. rewrite Ht1. lia. }
    destruct R as [|b l].
    + left. cbn [units] in Hbal. split; [lia|reflexivity].
    + right. inversion HR as [|? ? (Hb1 & Hb2) _]; subst.
      assert (HB' : blocks_in lo (heap_hi cfg st') (b :: l)).
      { apply (blocks_in_raise _ _ _ _ HB). right. exact Hb1. }
      pose proof (blocks_in_tile _ _ _ HB' ltac:(discriminate)) as Ht.
      cbn [length units] in Ht, Hbal.
      assert (l = []) by (destruct l; [reflexivity|cbn [length] in Ht; zsolve]).
      subst l. cbn [units] in *. cbn [blocks_in] in HB'.
      destruct HB' as (X1 & X2 & X3 & _).
      assert (Efst : fst b = lo) by zsolve.
      assert (Esnd : snd b = (hi - lo) / sizeof_Header).
      { replace (hi - lo) with (snd b * sizeof_Header) by zsolve.
        symmetry. apply Z.div_mul. zsolve. }
      split; [zsolve|]. destruct b as [b1 b2]. cbn [fst snd] in *.
      now subst.
Qed.

Lemma all_released_one_block_witness :
  let lo := brk (sys st_ex0) in
  let hi := brk (sys st_ex2) in
  exists R,
    client_view cfg_ex (st_ex2, []) (view_of cfg_ex st_ex2 R [])
    /\ ((hi = lo /\ R = [])
        \/ (lo < hi /\ R = [(lo, (hi - lo) / sizeof_Header)])).
Proof.
  apply (all_released_one_block cfg_ex st_ex0 ops_back 10 st_ex2).
  - reflexivity.
  - exact Fresh_ex0.
  - unfold ops_back.
    apply Forall_cons;
      [right; vm_compute; split; [reflexivity|discriminate]|].
    apply Forall_cons; [exact I|apply Forall_nil].
  - vm_compute. reflexivity.
Defined.

(** X15. The allocator never gives memory back.  Over any run of a client
    the top of the heap (the break in the [sbrk] build, [__endHeap] in the
    [MMAP] build) does not move down. *)
Theorem heap_never_shrinks cfg c R A ops fuel c' :
  client_view cfg c (view_of cfg (fst c) R A) -> Forall (op_ok cfg) ops ->
  run cfg fuel ops c = Some c' ->
  heap_top cfg (fst c) <= heap_top cfg (fst c').
Proof.
  intros Hc Hops Hrun.
  destruct (run_view cfg ops c _ fuel c' Hc Hops Hrun) as (v' & Hc' & Hmv).
  assert (Hmono : forall v1 v2, moves cfg v1 v2 ->
            fst (fst v1) <= fst (fst v2)).
  { intros v1 v2 Hm. induction Hm as [|x y z H _ IH]; [lia|].
    etransitivity; [|exact IH].
    destruct H; cbn [fst]; try lia;
      destruct (grow_len_bounds cfg nu (client_view_page _ _ _ Hc))
        as ((G1 & _) & _ & _); try assumption; zsolve. }
  specialize (Hmono _ _ Hmv).
  destruct (client_view_lists _ _ _ Hc') as (R' & A' & ->).
  exact Hmono.
Qed.

Lemma heap_never_shrinks_witness :
  heap_top cfg_ex (fst (st_ex0, @nil Z)) <= heap_top cfg_ex (fst (st_ex1, [24560])).
Proof.
  apply (heap_never_shrinks cfg_ex (st_ex0, []) [] [] [OpMalloc 10] 10
           (st_ex1, [24560])).
  - left. split; [exact Fresh_ex0|]. split; reflexivity.
  - apply Forall_cons; [|apply Forall_nil].
    right. vm_compute. split; [reflexivity|discriminate].
  - vm_compute. reflexivity.
Defined.

(** ** Releasing and asking again *)

Lemma free_isolated cfg st R A1 A2 bp bs :
  Inv cfg st R (A1 ++ (bp, bs) :: A2) ->
  (forall y, In y ((base cfg, 0) :: R) ->
     padd (fst y) (snd y) <> bp /\ padd bp bs <> fst y) ->
  exists F1 p ps F2,
    (base cfg, 0) :: R = F1 ++ (p, ps) :: F2
    /\ fl_pred (bp, bs) ((base cfg, 0) :: R) 0 = p
    /\ fl_insert (bp, bs) ((base cfg, 0) :: R)
       = F1 ++ (p, ps) :: (bp, bs) :: F2
    /\ (forall x, In x (F1 ++ [(p, ps)]) -> fst x <> bp).
Proof.
  intros HI Hiso.
  pose proof (Inv_bounds _ _ _ _ HI) as (Hb0 & _).
  pose proof (inv_free _ _ _ _ HI) as HB.
  destruct (Inv_live _ _ _ _ HI) as (_ & _ & _ & _ & L5).
  destruct (L5 (bp, bs) (in_elt _ _ _)) as (K1 & K2 & _). cbn [fst snd] in K1, K2.
  assert (Hne : forall x, In x ((base cfg, 0) :: R) -> fst x <> bp).
  { intros x Hx.
    pose proof (Inv_alloc_far _ _ _ _ (bp, bs) x HI (in_elt _ _ _) Hx) as H.
    cbn [fst] in H. zsolve. }
  destruct (fl_pred_split bp _ _ _ HB ltac:(discriminate)
              ltac:(cbn [hd_addr fst]; zsolve) Hne)
    as (F1 & [p ps] & F2 & EF & Hp & H1 & H2). cbn [fst] in Hp, H1.
  pose proof HB as HB0. rewrite EF in HB0.
  destruct (fl_insert_split bp bs F1 _ _ (p, ps) F2 0 HB0 Hp H2) as [Eins Epred].
  rewrite <- EF in Eins, Epred. cbn [fst] in Epred.
  exists F1, p, ps, F2. split; [exact EF|]. split; [exact Epred|]. split.
  - rewrite Eins. f_equal.
    assert (Eu : fl_join_upper (bp, bs) F2 = (bp, bs) :: F2).
    { unfold fl_join_upper. destruct F2 as [|x F2']; [reflexivity|].
      cbn [fst snd].
      destruct (Hiso x) as [_ Hx].
      { rewrite EF. apply in_or_app. right. right. now left. }
      apply Z.eqb_neq in Hx. now rewrite Hx. }
    rewrite Eu. unfold fl_join_lower. cbn [fst snd].
    destruct (Hiso (p, ps)) as [Hx _].
    { rewrite EF. apply in_elt. }
    cbn [fst snd] in Hx. apply Z.eqb_neq in Hx. now rewrite Hx.
  - intros x Hx. apply in_app_or in Hx. destruct Hx as [Hx|[<-|[]]].
    + specialize (H1 x Hx). lia.
    + cbn [fst]. lia.
Qed.

(** X17. Releasing and asking again.  When a block of [bs] units that is
    contiguous to no free block is released and a request for [bs] units
    follows, [malloc] returns the very same block, without calling the
    system, and the free list is the one before the release. *)
Theorem free_then_malloc_same_block cfg st R A1 A2 bp bs n fuel st1 :
  Inv cfg st R (A1 ++ (bp, bs) :: A2) -> request_ok cfg n ->
  nunits_of n = bs ->
  (forall y, In y ((base cfg, 0) :: R) ->
     padd (fst y) (snd y) <> bp /\ padd bp bs <> fst y) ->
  (2 * (length R + 1) <= fuel)%nat ->
  free fuel st (padd bp 1) = Some st1 ->
  exists st2,
    malloc cfg fuel st1 n = Some (padd bp 1, st2)
    /\ Inv cfg st2 R ((bp, bs) :: A1 ++ A2)
    /\ sys st2 = sys st /\ endHeap st2 = endHeap st.
Proof.
  intros HI Hreq Hn Hiso Hfuel Hfree.
  destruct (free_Inv cfg st R A1 A2 bp bs fuel HI Hfuel) as [Hf0 HI1].
  cbv zeta in Hf0, HI1.
  set (p := fl_pred (bp, bs) ((base cfg, 0) :: R) 0) in *.
  set (R1 := tl (fl_insert (bp, bs) ((base cfg, 0) :: R))) in *.
  assert (Hst1 : Inv cfg st1 R1 (A1 ++ A2) /\ freep st1 = p).
  { rewrite Hfree in Hf0. injection Hf0 as ->. split; [exact HI1|reflexivity]. }
  clear HI1 Hf0. destruct Hst1 as [HI1 Hcur].
  destruct (free_fields _ _ _ _ Hfree) as [Fs Fe].
  pose proof (Inv_bounds _ _ _ _ HI) as (Hb0 & _).
  destruct (Inv_live _ _ _ _ HI) as (_ & _ & _ & _ & L5).
  destruct (L5 (bp, bs) (in_elt _ _ _)) as (K1 & K2 & _). cbn [fst snd] in K1, K2.
  destruct (free_isolated cfg st R A1 A2 bp bs HI Hiso)
    as (F1 & p0 & ps & F2 & EF & Ep & Eins & HF1).
  fold p in Ep. subst p0.
  assert (EF1 : (base cfg, 0) :: R1 = F1 ++ (p, ps) :: (bp, bs) :: F2).
  { rewrite <- Eins. subst R1. symmetry. apply fl_insert_head. zsolve. }
  (* the cursor points to the block released *)
  pose proof (inv_chain _ _ _ _ HI1) as HC. rewrite EF1 in HC.
  apply chain_app in HC. destruct HC as [_ HC].
  cbn [chain hd_addr fst snd] in HC. destruct HC as (Hnext & _ & _ & Hsz & _).
  assert (Hp1 : In p (map fst ((base cfg, 0) :: R1))).
  { rewrite EF1. apply in_map_iff. exists (p, ps). split; [reflexivity|].
    apply in_elt. }
  assert (Hb1 : In bp (map fst ((base cfg, 0) :: R1))).
  { rewrite EF1. apply in_map_iff. exists (bp, bs). split; [reflexivity|].
    apply in_or_app. right. right. now left. }
  destruct (nunits_of_ok cfg n (env_page _ _ (inv_env _ _ _ _ HI)) Hreq)
    as (_ & Hnu & _ & _).
  destruct (take_block_Inv cfg st1 R1 (A1 ++ A2) bs p bp HI1 Hp1 Hnext Hb1
              ltac:(lia) ltac:(lia)) as (T1 & T2 & T3).
  destruct (take_block_fields st1 bs p bp) as [G1 G2].
  unfold take_addr, take_list in T1, T3. rewrite Hsz, Z.eqb_refl in T1, T3.
  assert (Erem : fl_remove bp R1 = R).
  { pose proof (f_equal (@tl blk) EF) as ER.
    pose proof (f_equal (@tl blk) EF1) as ER1. cbn [tl] in ER, ER1.
    rewrite ER, ER1. destruct F1 as [|f F1']; cbn [app tl].
    - cbn [fl_remove fst]. now rewrite Z.eqb_refl.
    - change (F1' ++ (p, ps) :: (bp, bs) :: F2)
        with (F1' ++ [(p, ps)] ++ (bp, bs) :: F2).
      rewrite app_assoc. rewrite fl_remove_split.
      + rewrite <- app_assoc. reflexivity.
      + intros x Hx. apply HF1. cbn [app]. right.
        exact Hx. }
  rewrite Erem in T3.
  exists (snd (take_block st1 bs p bp)).
  split; [|split; [exact T3|split; congruence]].
  rewrite (malloc_unfold cfg st1 R1 (A1 ++ A2)) by (try assumption; destruct Hreq; lia).
  rewrite Hn, Hcur, Hnext.
  assert (Etb : take_block st1 bs p bp
                = (padd bp 1, snd (take_block st1 bs p bp))).
  { rewrite <- T1. now destruct (take_block st1 bs p bp). }
  rewrite Etb at 1. clear Etb.
  destruct fuel as [|k]; [cbn [length] in Hfuel; lia|].
  unfold take_block. rewrite Hsz, Z.eqb_refl. cbn [snd].
  destruct (STRATEGY cfg).
  - cbn [malloc_first_loop]. rewrite Hsz, Z.eqb_refl.
    replace (bs >=? bs) with true by (symmetry; rewrite Z.geb_leb; apply Z.leb_le; lia).
    reflexivity.
  - cbn [malloc_best_loop]. rewrite Hsz, Z.eqb_refl. reflexivity.
Qed.

Lemma Inv_ex5 : Inv cfg_ex st_ex5 [(8192, 1020)] [(24512, 2); (24544, 2)].
Proof.
  constructor.
  - constructor; by_eval.
  - by_eval.
  - by_eval.
  - vm_compute. now left.
  - repeat constructor; by_eval.
  - constructor; [constructor; [right; by_eval|constructor]|].
    constructor; [constructor; [right; by_eval|constructor]|constructor].
  - cbn [pairwise_disjoint].
    split; [constructor; [left; by_eval|constructor]|].
    split; [constructor|exact I].
Qed.

Lemma free_then_malloc_same_block_witness :
  exists st2,
    malloc cfg_ex 10 st_ex6 10 = Some (padd 24544 1, st2)
    /\ Inv cfg_ex st2 [(8192, 1020)] ((24544, 2) :: [(24512, 2)] ++ [])
    /\ sys st2 = sys st_ex5 /\ endHeap st2 = endHeap st_ex5.
Proof.
  apply (free_then_malloc_same_block cfg_ex st_ex5 [(8192, 1020)]
           [(24512, 2)] [] 24544 2 10 10 st_ex6).
  - exact Inv_ex5.
  - apply request_ok_ex. reflexivity.
  - reflexivity.
  - intros y [<-|[<-|[]]]; vm_compute; split; discriminate.
  - simpl. lia.
  - vm_compute. reflexivity.
Defined.

(** ** The order of release *)

Lemma covers_cons b l x :
  covers (b :: l) x <-> (fst b <= x < padd (fst b) (snd b)) \/ covers l x.
Proof.
  unfold covers. split.
  - intros (c & [<-|Hc] & Hx); [now left|right; now exists c].
  - intros [Hx|(c & Hc & Hx)]; [exists b; split; [now left|exact Hx]|].
    exists c. split; [now right|exact Hx].
Qed.

Lemma covers_fl_join_upper b l x :
  0 <= snd b -> Forall (fun y => 0 <= snd y) l ->
  covers (fl_join_upper b l) x <-> covers (b :: l) x.
Proof.
  intros Hb Hl. unfold fl_join_upper. destruct l as [|q l]; [tauto|].
  inversion Hl as [|? ? Hq _]; subst.
  destruct (padd (fst b) (snd b) =? fst q) eqn:E; [|tauto].
  apply Z.eqb_eq in E. rewrite !covers_cons. cbn [fst snd]. split.
  - intros [H|H]; [|tauto].
    destruct (Z.lt_ge_cases x (fst q)); [left|right; left]; zsolve.
  - intros [H|[H|H]]; [left|left|tauto]; zsolve.
Qed.

Lemma covers_fl_join_lower p l x :
  0 <= snd p -> Forall (fun y => 0 <= snd y) l ->
  covers (fl_join_lower p l) x <-> covers (p :: l) x.
Proof.
  intros Hb Hl. unfold fl_join_lower. destruct l as [|q l]; [tauto|].
  inversion Hl as [|? ? Hq _]; subst.
  destruct (padd (fst p) (snd p) =? fst q) eqn:E; [|tauto].
  apply Z.eqb_eq in E. rewrite !covers_cons. cbn [fst snd]. split.
  - intros [H|H]; [|tauto].
    destruct (Z.lt_ge_cases x (fst q)); [left|right; left]; zsolve.
  - intros [H|[H|H]]; [left|left|tauto]; zsolve.
Qed.

Lemma fl_join_upper_sizes b l :
  0 <= snd b -> Forall (fun y => 0 <= snd y) l ->
  Forall (fun y => 0 <= snd y) (fl_join_upper b l).
Proof.
  intros Hb Hl. unfold fl_join_upper. destruct l as [|q l];
    [now repeat constructor|].
  inversion Hl as [|? ? Hq Hl']; subst.
  destruct (padd (fst b) (snd b) =? fst q); constructor; cbn [snd];
    try assumption; lia.
Qed.

Lemma covers_fl_insert b x : forall l,
  0 <= snd b -> Forall (fun y => 0 <= snd y) l ->
  covers (fl_insert b l) x <-> covers (b :: l) x.
Proof.
  induction l as [|p l IH]; intros Hb Hl; cbn [fl_insert]; [tauto|].
  inversion Hl as [|? ? Hp Hl']; subst.
  destruct (hd_addr l (fst b + 1) <? fst b).
  - rewrite !covers_cons. rewrite (IH Hb Hl'). rewrite covers_cons. tauto.
  - rewrite covers_fl_join_lower;
      [|exact Hp|now apply fl_join_upper_sizes].
    rewrite covers_cons, covers_fl_join_upper by assumption.
    rewrite !covers_cons. tauto.
Qed.

Lemma covers_fl_insert_tl c b l x :
  c < fst b -> 0 <= snd b -> Forall (fun y => 0 <= snd y) l ->
  covers (tl (fl_insert b ((c, 0) :: l))) x
  <-> (fst b <= x < padd (fst b) (snd b)) \/ covers l x.
Proof.
  intros Hc Hb Hl.
  pose proof (covers_fl_insert b x ((c, 0) :: l) Hb) as H.
  destruct b as [bp bs]. rewrite fl_insert_head in H by exact Hc.
  rewrite !covers_cons in H. cbn [fst snd] in *.
  specialize (H ltac:(constructor; [cbn [snd]; lia|exact Hl])).
  split.
  - intros Hx. destruct (proj1 H (or_intror Hx)) as [K|[K|K]];
      [now left|zsolve|now right].
  - intros [Hx|Hx].
    + destruct (proj2 H (or_introl Hx)) as [K|K]; [zsolve|exact K].
    + destruct (proj2 H (or_intror (or_intror Hx))) as [K|K]; [zsolve|exact K].
Qed.

Lemma covers_above l : forall lo hi x,
  blocks_in lo hi l -> covers l x -> lo <= x.
Proof.
  intros lo hi x HB (b & Hb & Hx).
  destruct (blocks_in_In _ _ _ _ HB Hb) as (H & _). lia.
Qed.

(** Lists of blocks in address order, none empty and none contiguous to the
    next, are equal when they hold the same bytes. *)
Lemma covers_unique : forall l1 l2 lo hi lo' hi',
  blocks_in lo hi l1 -> blocks_in lo' hi' l2 ->
  Forall (fun y => 1 <= snd y) l1 -> Forall (fun y => 1 <= snd y) l2 ->
  (forall x, covers l1 x <-> covers l2 x) -> l1 = l2.
Proof.
  induction l1 as [|a l1 IH]; intros l2 lo hi lo' hi' B1 B2 P1 P2 Hc.
  - destruct l2 as [|b l2]; [reflexivity|exfalso].
    inversion P2 as [|? ? Hb _]; subst.
    destruct (proj2 (Hc (fst b))) as (c & [] & _).
    apply covers_cons. left. zsolve.
  - destruct l2 as [|b l2].
    { exfalso. inversion P1 as [|? ? Ha _]; subst.
      destruct (proj1 (Hc (fst a))) as (c & [] & _).
      apply covers_cons. left. zsolve. }
    inversion P1 as [|? ? Ha P1']; subst.
    inversion P2 as [|? ? Hb P2']; subst.
    cbn [blocks_in] in B1, B2.
    destruct B1 as (A1 & A2 & A3 & A4), B2 as (B1 & B2 & B3 & B4).
    assert (Hlow : forall (c : blk) l lo0 hi0 x,
              blocks_in lo0 hi0 (c :: l) -> covers (c :: l) x -> fst c <= x).
    { intros c l lo0 hi0 x HB Hx. apply covers_cons in Hx.
      destruct Hx as [Hx|Hx]; [lia|].
      cbn [blocks_in] in HB. destruct HB as (_ & _ & _ & HB).
      pose proof (covers_above _ _ _ _ HB Hx). zsolve. }
    assert (Hina : covers (a :: l1) (fst a))
      by (apply covers_cons; left; zsolve).
    assert (Hinb : covers (b :: l2) (fst b))
      by (apply covers_cons; left; zsolve).
    assert (Efst : fst a = fst b).
    { pose proof (Hlow b l2 lo' hi' (fst a)
                    ltac:(cbn [blocks_in]; tauto) (proj1 (Hc _) Hina)) as K1.
      pose proof (Hlow a l1 lo hi (fst b)
                    ltac:(cbn [blocks_in]; tauto) (proj2 (Hc _) Hinb)) as K2.
      lia. }
    assert (Hend : forall (c d : blk) l l' hi0 hi1,
              fst c = fst d -> 1 <= snd c -> 1 <= snd d ->
              blocks_in (gap_after c) hi0 l ->
              blocks_in (gap_after d) hi1 l' ->
              (forall x, covers (c :: l) x -> covers (d :: l') x) ->
              snd c <= snd d).
    { intros c d l l' hi0 hi1 E Hc1 Hd1 HBc HBd Hsub.
      destruct (Z.le_gt_cases (snd c) (snd d)) as [H|H]; [exact H|exfalso].
      assert (Hx : covers (c :: l) (padd (fst d) (snd d))).
      { apply covers_cons. left. zsolve. }
      apply Hsub in Hx. apply covers_cons in Hx. destruct Hx as [Hx|Hx].
      - zsolve.
      - pose proof (covers_above _ _ _ _ HBd Hx). zsolve. }
    assert (Esnd : snd a = snd b).
    { pose proof (Hend a b l1 l2 hi hi' Efst Ha Hb A4 B4
                    (fun x => proj1 (Hc x))) as K1.
      pose proof (Hend b a l2 l1 hi' hi (eq_sym Efst) Hb Ha B4 A4
                    (fun x => proj2 (Hc x))) as K2.
      lia. }
    assert (Eab : a = b).
    { destruct a, b. cbn [fst snd] in *. congruence. }
    subst b. f_equal.
    apply (IH l2 _ _ _ _ A4 B4 P1' P2').
    intros x. split; intros Hx.
    + pose proof (covers_above _ _ _ _ A4 Hx) as Hge.
      assert (K : covers (a :: l2) x)
        by (apply Hc, covers_cons; now right).
      apply covers_cons in K. destruct K as [K|K]; [zsolve|exact K].
    + pose proof (covers_above _ _ _ _ B4 Hx) as Hge.
      assert (K : covers (a :: l1) x)
        by (apply Hc, covers_cons; now right).
      apply covers_cons in K. destruct K as [K|K]; [zsolve|exact K].
Qed.

Lemma Inv_free_above cfg st R A :
  Inv cfg st R A -> Forall (fun x => 1 <= snd x) R ->
  Forall (fun x => base cfg <= fst x /\ 1 <= snd x) R.
Proof.
  intros HI HP. rewrite Forall_forall in *. intros x Hx.
  destruct (blocks_in_In _ _ _ _ (inv_free _ _ _ _ HI) (or_intror Hx))
    as (X & _).
  split; [exact X|now apply HP].
Qed.

(** X18. The order of release does not matter.  Two blocks handed out can
    be released in either order: both orders return, and leave the same free
    list (cursor and dead bytes apart). *)
Theorem free_order_irrelevant cfg st R A1 a sa A2 b sb A3 fuel :
  Inv cfg st R (A1 ++ (a, sa) :: A2 ++ (b, sb) :: A3) ->
  Forall (fun x => 1 <= snd x) R ->
  (2 * (length R + 2) <= fuel)%nat ->
  exists st_a st_ab st_b st_ba R',
    free fuel st (padd a 1) = Some st_a
    /\ free fuel st_a (padd b 1) = Some st_ab
    /\ free fuel st (padd b 1) = Some st_b
    /\ free fuel st_b (padd a 1) = Some st_ba
    /\ Inv cfg st_ab R' (A1 ++ A2 ++ A3)
    /\ Inv cfg st_ba R' (A1 ++ A2 ++ A3).
Proof.
  intros HI HP Hfuel.
  pose proof (Inv_bounds _ _ _ _ HI) as (Hb0 & _).
  destruct (Inv_live _ _ _ _ HI) as (_ & _ & _ & _ & L5).
  destruct (L5 (a, sa) (in_elt _ _ _)) as (Ka1 & Ka2 & _).
  destruct (L5 (b, sb)) as (Kb1 & Kb2 & _).
  { apply in_or_app. right. right. apply in_elt. }
  cbn [fst snd] in Ka1, Ka2, Kb1, Kb2.
  pose proof (Inv_free_above _ _ _ _ HI HP) as HP0.
  assert (Hlen : forall x,
            (length (tl (fl_insert x ((base cfg, 0%Z) :: R)))
             <= length R + 1)%nat).
  { intros x. pose proof (fl_insert_length x ((base cfg, 0) :: R)) as HL.
    destruct (fl_insert x ((base cfg, 0) :: R)); cbn [length tl] in *; lia. }
  (* a, then b *)
  destruct (free_view_move cfg st R A1 (A2 ++ (b, sb) :: A3) a sa fuel HI
              ltac:(lia)) as (st_a & Fa & HIa & _).
  set (Ra := tl (fl_insert (a, sa) ((base cfg, 0) :: R))) in *.
  rewrite app_assoc in HIa.
  destruct (free_view_move cfg st_a Ra (A1 ++ A2) A3 b sb fuel HIa)
    as (st_ab & Fab & HIab & _).
  { specialize (Hlen (a, sa)). fold Ra in Hlen. lia. }
  set (Rab := tl (fl_insert (b, sb) ((base cfg, 0) :: Ra))) in *.
  (* b, then a *)
  pose proof HI as HI'. rewrite app_comm_cons, app_assoc in HI'.
  destruct (free_view_move cfg st R (A1 ++ (a, sa) :: A2) A3 b sb fuel HI'
              ltac:(lia)) as (st_b & Fb & HIb & _).
  set (Rb := tl (fl_insert (b, sb) ((base cfg, 0) :: R))) in *.
  rewrite <- app_assoc, <- app_comm_cons in HIb.
  destruct (free_view_move cfg st_b Rb A1 (A2 ++ A3) a sa fuel HIb)
    as (st_ba & Fba & HIba & _).
  { specialize (Hlen (b, sb)). fold Rb in Hlen. lia. }
  set (Rba := tl (fl_insert (a, sa) ((base cfg, 0) :: Rb))) in *.
  rewrite <- app_assoc in HIab.
  assert (HPa : Forall (fun x => base cfg <= fst x /\ 1 <= snd x) Ra).
  { apply fl_insert_tl_above; [cbn [fst snd]; zsolve|exact HP0]. }
  assert (HPb : Forall (fun x => base cfg <= fst x /\ 1 <= snd x) Rb).
  { apply fl_insert_tl_above; [cbn [fst snd]; zsolve|exact HP0]. }
  assert (HPab : Forall (fun x => base cfg <= fst x /\ 1 <= snd x) Rab).
  { apply fl_insert_tl_above; [cbn [fst snd]; zsolve|exact HPa]. }
  assert (HPba : Forall (fun x => base cfg <= fst x /\ 1 <= snd x) Rba).
  { apply fl_insert_tl_above; [cbn [fst snd]; zsolve|exact HPb]. }
  assert (Hnn : forall l, Forall (fun x : blk => base cfg <= fst x /\ 1 <= snd x) l ->
                  Forall (fun y : blk => 0 <= snd y) l).
  { intros l H. eapply Forall_impl; [|exact H]. cbn. intros; lia. }
  assert (Hpos : forall l, Forall (fun x : blk => base cfg <= fst x /\ 1 <= snd x) l ->
                   Forall (fun y : blk => 1 <= snd y) l).
  { intros l H. eapply Forall_impl; [|exact H]. cbn. intros; lia. }
  assert (E : Rab = Rba).
  { pose proof (inv_free _ _ _ _ HIab) as B1.
    pose proof (inv_free _ _ _ _ HIba) as B2.
    cbn [blocks_in] in B1, B2.
    destruct B1 as (_ & _ & _ & B1), B2 as (_ & _ & _ & B2).
    apply (covers_unique _ _ _ _ _ _ B1 B2 (Hpos _ HPab) (Hpos _ HPba)).
    intros x. subst Rab Rba.
    rewrite !covers_fl_insert_tl by (cbn [fst snd]; try apply Hnn; try assumption; zsolve).
    subst Ra Rb.
    rewrite !covers_fl_insert_tl by (cbn [fst snd]; try apply Hnn; try assumption; zsolve).
    tauto. }
  exists st_a, st_ab, st_b, st_ba, Rab.
  splits; try assumption. rewrite E. exact HIba.
Qed.

Lemma free_order_irrelevant_witness :
  exists st_a st_ab st_b st_ba R',
    free 10 st_ex5 (padd 24512 1) = Some st_a
    /\ free 10 st_a (padd 24544 1) = Some st_ab
    /\ free 10 st_ex5 (padd 24544 1) = Some st_b
    /\ free 10 st_b (padd 24512 1) = Some st_ba
    /\ Inv cfg_ex st_ab R' ([] ++ [] ++ [])
    /\ Inv cfg_ex st_ba R' ([] ++ [] ++ []).
Proof.
  apply (free_order_irrelevant cfg_ex st_ex5 [(8192, 1020)] [] 24512 2 []
           24544 2 [] 10).
  - exact Inv_ex5.
  - repeat constructor. vm_compute. discriminate.
  - simpl. lia.
Defined.

(** ** Writes stay inside the arena *)

(** X19. In the [sbrk] build the allocator writes only to memory of its
    own.  Over any run of a client started on a fresh allocator, a byte
    that lies outside the list head [base] and outside the memory obtained
    from the system during the run, which reaches from the program break at
    the start to the program break at the end, holds at the end what it
    held at the start. *)
Theorem writes_stay_in_arena cfg st0 ops fuel c' y :
  MMAP cfg = false ->
  Fresh cfg st0 -> Forall (op_ok cfg) ops ->
  run cfg fuel ops (st0, []) = Some c' ->
  y < base cfg \/ base cfg + sizeof_Header <= y ->
  y < brk (sys st0) \/ brk (sys (fst c')) <= y ->
  heap (fst c') y = heap st0 y.
Proof.
  intros EM HF Hops Hrun Hb Hy.
  assert (Ht : forall s, heap_top cfg s = brk (sys s)).
  { intros s. unfold heap_top. now rewrite EM. }
  assert (Hc : client_view cfg (st0, []) (view_of cfg st0 [] [])).
  { left. now splits. }
  destruct (run_view_ok cfg ops _ _ Hc Hops)
    as (fuel0 & c0 & v0 & Hr0 & Hc0 & Hm & Hfr).
  pose proof (Hr0 (Nat.max fuel fuel0) ltac:(lia)) as E1.
  rewrite (run_mono _ _ _ _ _ _ Hrun (Nat.le_max_l _ _)) in E1.
  injection E1 as <-.
  destruct (client_view_lists _ _ _ Hc0) as (R' & A' & ->).
  apply (Hfr (heap_top cfg st0) y).
  - unfold view_above, view_of. splits; [lia|constructor|constructor].
  - unfold view_of. cbn [fst]. rewrite !Ht. split; assumption.
Qed.

Lemma writes_stay_in_arena_witness :
  heap (fst (st_ex2, @nil Z)) 30000 = heap st_ex0 30000.
Proof.
  apply (writes_stay_in_arena cfg_ex st_ex0 ops_back 10 (st_ex2, []) 30000).
  - reflexivity.
  - exact Fresh_ex0.
  - unfold ops_back.
    apply Forall_cons;
      [right; vm_compute; split; [reflexivity|discriminate]|].
    apply Forall_cons; [exact I|apply Forall_nil].
  - vm_compute. reflexivity.
  - right. vm_compute. discriminate.
  - right. vm_compute. discriminate.
Defined.
